(** * FinanceManager: the monthly budget tracker of [src/FinanceManager.jsx]

  A shallow embedding of the component's storage helpers, derived values
  and store actions, and the properties of them that the specification
  states.

  - JavaScript numbers are IEEE 754 binary64 values: [spec_float] of the
    standard library at precision 53 and maximal exponent 1024.
  - JavaScript strings are sequences of UTF-16 code units.
  - Values read from storage or from an imported file are arbitrary JSON
    trees, so the embedding does not assume the shapes that the JSDoc
    typedefs promise. *)

From Stdlib Require Import ZArith NArith List Bool Lia String Ascii.
From Stdlib Require Import Floats.SpecFloat.
From stdpp Require Import base decidable option numbers list.

Import ListNotations.
Local Open Scope Z_scope.

(* ===================================================================== *)
(** ** JavaScript numbers *)
(* ===================================================================== *)

Module JSNum.

Definition prec : Z := 53.
Definition emax : Z := 1024.

(** A JavaScript Number. *)
Definition number : Type := spec_float.

Definition NaN : number := S754_nan.
Definition zero : number := S754_zero false.
Definition neg_zero : number := S754_zero true.

(** The Number whose value is the integer [z], rounded to nearest. *)
Definition of_Z (z : Z) : number := binary_normalize prec emax z 0 false.

(** [x + y] *)
Definition add (x y : number) : number := SFadd prec emax x y.
(** [x - y] *)
Definition sub (x y : number) : number := SFsub prec emax x y.

(** The relational operators; each is false when an operand is NaN. *)
Definition lt (x y : number) : bool := SFltb x y.
Definition gt (x y : number) : bool := SFltb y x.
Definition le (x y : number) : bool := SFleb x y.
Definition ge (x y : number) : bool := SFleb y x.
(** [x === y] on Numbers. *)
Definition strict_eq (x y : number) : bool := SFeqb x y.

(** The global [isNaN] on a Number. *)
Definition isNaN (x : number) : bool :=
  match x with S754_nan => true | _ => false end.

Definition is_finite (x : number) : bool :=
  match x with S754_zero _ | S754_finite _ _ _ => true | _ => false end.

(** ToBoolean on a Number: [+0], [-0] and [NaN] are falsy. *)
Definition truthy (x : number) : bool :=
  match x with S754_zero _ | S754_nan => false | _ => true end.

(** [x || 0] on a Number. *)
Definition or_zero (x : number) : number := if truthy x then x else zero.

(** The Number nearest to [(-1)^neg * m * 10^e10] (ties to even): how a
    decimal literal is converted. *)
Definition of_decimal (neg : bool) (m : N) (e10 : Z) : number :=
  match m with
  | N0 => S754_zero neg
  | Npos p =>
      if 0 <=? e10
      then binary_round prec emax neg (p * Z.to_pos (10 ^ e10)) 0
      else
        let '(q, e', l) :=
          SFdiv_core_binary prec emax (Zpos p) 0 (10 ^ (- e10)) 0 in
        binary_round_aux prec emax neg q e' l
  end.

End JSNum.

Abbreviation number := JSNum.number.

(* ===================================================================== *)
(** ** JavaScript strings *)
(* ===================================================================== *)

Module JSStr.

(** A string is its sequence of UTF-16 code units. *)
Definition jsstring : Type := list N.

(** The string of an ASCII literal. *)
Definition lit (s : string) : jsstring :=
  map N_of_ascii (list_ascii_of_string s).

(** WhiteSpace and LineTerminator code units, as [String.prototype.trim]
    and the numeric-string grammar use them. *)
Definition is_white (c : N) : bool :=
  ((9 <=? c) && (c <=? 13))%N
  || (c =? 32)%N || (c =? 160)%N || (c =? 5760)%N
  || ((8192 <=? c) && (c <=? 8202))%N
  || (c =? 8232)%N || (c =? 8233)%N || (c =? 8239)%N
  || (c =? 8287)%N || (c =? 12288)%N || (c =? 65279)%N.

Fixpoint trim_start (s : jsstring) : jsstring :=
  match s with
  | c :: s' => if is_white c then trim_start s' else s
  | [] => []
  end.

Definition trim_end (s : jsstring) : jsstring :=
  rev (trim_start (rev s)).

(** [s.trim()] *)
Definition trim (s : jsstring) : jsstring := trim_end (trim_start s).

(** ToBoolean on a string: only the empty string is falsy. *)
Definition truthy (s : jsstring) : bool :=
  match s with [] => false | _ => true end.

Definition eqb (s t : jsstring) : bool := bool_decide (s = t).

End JSStr.

Abbreviation jsstring := JSStr.jsstring.
Abbreviation lit := JSStr.lit.

(* ===================================================================== *)
(** ** [Number(s)] on a string: the StringToNumber conversion *)
(* ===================================================================== *)

Module StringToNumber.
Import JSStr.

(** The value of the code unit [c] as a digit in base [base], if it is
    one ([0-9], and [a-f], [A-F] for base 16). *)
Definition digit_of (base c : N) : option N :=
  let d :=
    if ((48 <=? c) && (c <=? 57))%N then Some (c - 48)%N
    else if ((97 <=? c) && (c <=? 102))%N then Some (c - 87)%N
    else if ((65 <=? c) && (c <=? 70))%N then Some (c - 55)%N
    else None in
  match d with
  | Some v => if (v <? base)%N then Some v else None
  | None => None
  end.

(** Reads the longest prefix of digits: the value accumulated onto
    [acc], the number of digits read added to [cnt], and the rest. *)
Fixpoint read_digits (base acc : N) (cnt : Z) (s : jsstring)
  : N * Z * jsstring :=
  match s with
  | c :: s' =>
      match digit_of base c with
      | Some d => read_digits base (acc * base + d)%N (cnt + 1) s'
      | None => (acc, cnt, s)
      end
  | [] => (acc, cnt, [])
  end.

(** ExponentPart_opt followed by the end of the string: the exponent. *)
Definition read_exponent (s : jsstring) : option Z :=
  match s with
  | [] => Some 0
  | c :: s1 =>
      if ((c =? 101) || (c =? 69))%N then
        let '(neg, s2) :=
          match s1 with
          | 43%N :: s2 => (false, s2)
          | 45%N :: s2 => (true, s2)
          | _ => (false, s1)
          end in
        match read_digits 10 0 0 s2 with
        | (v, cnt, []) =>
            if 0 <? cnt
            then Some (if neg then - Z.of_N v else Z.of_N v) else None
        | _ => None
        end
      else None
  end.

(** StrUnsignedDecimalLiteral with the sign [neg] already read. *)
Definition unsigned_decimal (neg : bool) (s : jsstring) : number :=
  if eqb s (lit "Infinity") then S754_infinity neg
  else
    let '(ip, ni, s1) := read_digits 10 0 0 s in
    let '(m, nf, dot, s2) :=
      match s1 with
      | 46%N :: s1' =>
          let '(m, nf, s2) := read_digits 10 ip 0 s1' in (m, nf, true, s2)
      | _ => (ip, 0, false, s1)
      end in
    if (0 <? ni + nf) then
      match read_exponent s2 with
      | Some e => JSNum.of_decimal neg m (e - nf)
      | None => JSNum.NaN
      end
    else JSNum.NaN.

(** NonDecimalIntegerLiteral: [0x], [0o] or [0b] and digits. *)
Definition non_decimal (s : jsstring) : option number :=
  match s with
  | 48%N :: p :: s' =>
      let base : option N :=
        if ((p =? 120) || (p =? 88))%N then Some 16%N
        else if ((p =? 111) || (p =? 79))%N then Some 8%N
        else if ((p =? 98) || (p =? 66))%N then Some 2%N
        else None in
      match base with
      | Some b =>
          Some match read_digits b 0 0 s' with
               | (v, cnt, []) =>
                   if 0 <? cnt then JSNum.of_Z (Z.of_N v) else JSNum.NaN
               | _ => JSNum.NaN
               end
      | None => None
      end
  | _ => None
  end.

(** [Number(s)] for a string [s]. *)
Definition Number (s : jsstring) : number :=
  match trim s with
  | [] => JSNum.zero
  | t =>
      match non_decimal t with
      | Some x => x
      | None =>
          match t with
          | 43%N :: t' => unsigned_decimal false t'
          | 45%N :: t' => unsigned_decimal true t'
          | _ => unsigned_decimal false t
          end
      end
  end.

End StringToNumber.

(* ===================================================================== *)
(** ** [String(x)] on a Number: Number::toString in radix 10 *)
(* ===================================================================== *)

Module NumberToString.
Import JSStr.

Fixpoint uint_units (u : Decimal.uint) : jsstring :=
  match u with
  | Decimal.Nil => []
  | Decimal.D0 u => 48%N :: uint_units u
  | Decimal.D1 u => 49%N :: uint_units u
  | Decimal.D2 u => 50%N :: uint_units u
  | Decimal.D3 u => 51%N :: uint_units u
  | Decimal.D4 u => 52%N :: uint_units u
  | Decimal.D5 u => 53%N :: uint_units u
  | Decimal.D6 u => 54%N :: uint_units u
  | Decimal.D7 u => 55%N :: uint_units u
  | Decimal.D8 u => 56%N :: uint_units u
  | Decimal.D9 u => 57%N :: uint_units u
  end.

(** The decimal digits of [n], most significant first, no leading zero. *)
Definition digits (n : N) : jsstring := uint_units (N.to_uint n).

Definition zeros (n : Z) : jsstring := repeat 48%N (Z.to_nat n).

(** [floor (m * 2^e / 10^t)] *)
Definition scale_floor (m : positive) (e t : Z) : Z :=
  (Zpos m * 2 ^ Z.max e 0 * 10 ^ Z.max (- t) 0)
  / (2 ^ Z.max (- e) 0 * 10 ^ Z.max t 0).

(** The [n] with [10^(n-1) <= m * 2^e < 10^n]. *)
Definition decimal_magnitude (m : positive) (e : Z) : Z :=
  let n0 := (Zpos (digits2_pos m) + e) * 1233 / 4096 - 1 in
  if scale_floor m e n0 =? 0 then n0
  else if scale_floor m e (n0 + 1) =? 0 then n0 + 1
  else if scale_floor m e (n0 + 2) =? 0 then n0 + 2
  else n0 + 3.

(** Whether the decimal [s * 10^t] converts to the Number [m * 2^e]. *)
Definition converts_to (m : positive) (e s t : Z) : bool :=
  match JSNum.of_decimal false (Z.to_N s) t with
  | S754_finite false m' e' => (Pos.eqb m m' && (e =? e'))%bool
  | _ => false
  end.

(** Of the decimals [lo * 10^t] and [(lo+1) * 10^t], whether the lower
    one is to be preferred for [m * 2^e]: it is nearer, or as near and
    even. *)
Definition prefer_low (m : positive) (e lo t : Z) : bool :=
  let num := 2 * (Zpos m * 2 ^ Z.max e 0 * 10 ^ Z.max (- t) 0) in
  let den := 2 ^ Z.max (- e) 0 * 10 ^ Z.max t 0 in
  match num ?= (2 * lo + 1) * den with
  | Lt => true
  | Gt => false
  | Eq => Z.even lo
  end.

(** The shortest digit string [s] of [k] digits, searched from [k]
    upwards, with [s * 10^(n-k)] converting to [m * 2^e]. *)
Fixpoint shortest (fuel : nat) (m : positive) (e n k : Z) : Z * Z :=
  let lo := scale_floor m e (n - k) in
  match fuel with
  | O => (lo, k)
  | S fuel' =>
      match converts_to m e lo (n - k), converts_to m e (lo + 1) (n - k) with
      | true, false => (lo, k)
      | false, true => (lo + 1, k)
      | true, true => (if prefer_low m e lo (n - k) then lo else lo + 1, k)
      | false, false => shortest fuel' m e n (k + 1)
      end
  end.

(** The text for the digits [s] ([k] of them) and the magnitude [n]. *)
Definition format (s k n : Z) : jsstring :=
  let ds := digits (Z.to_N s) in
  if (k <=? n) && (n <=? 21) then ds ++ zeros (n - k)
  else if (0 <? n) && (n <=? 21)
  then take (Z.to_nat n) ds ++ 46%N :: drop (Z.to_nat n) ds
  else if (-6 <? n) && (n <=? 0)
  then 48%N :: 46%N :: zeros (- n) ++ ds
  else
    let e := n - 1 in
    let mant :=
      match ds with
      | d :: (_ :: _) as rest => d :: 46%N :: rest
      | _ => ds
      end in
    mant ++ 101%N :: (if 0 <=? e then 43%N else 45%N)
         :: digits (Z.to_N (Z.abs e)).

Definition positive_finite (m : positive) (e : Z) : jsstring :=
  let n := decimal_magnitude m e in
  let '(s, k) := shortest 17 m e n 1 in
  if s =? 10 ^ k then format (10 ^ (k - 1)) k (n + 1) else format s k n.

(** [String(x)] for a Number [x]. *)
Definition Number_toString (x : number) : jsstring :=
  match x with
  | S754_nan => lit "NaN"
  | S754_zero _ => lit "0"
  | S754_infinity false => lit "Infinity"
  | S754_infinity true => lit "-Infinity"
  | S754_finite false m e => positive_finite m e
  | S754_finite true m e => 45%N :: positive_finite m e
  end.

End NumberToString.

(* ===================================================================== *)
(** ** Values, completions and coercions *)
(* ===================================================================== *)

(** What a [throw] carries. *)
Inductive error : Type :=
| TypeError
| SyntaxError
| Error (message : jsstring).

(** The completion of an evaluation: a value, or an exception on its way
  to the nearest [catch]. *)
Inductive outcome (A : Type) : Type :=
| Ok (a : A)
| Throw (e : error).
Arguments Ok {A} a.
Arguments Throw {A} e.

Definition obind {A B} (c : outcome A) (f : A -> outcome B) : outcome B :=
match c with
| Ok a => f a
| Throw e => Throw e
end.

Declare Scope outcome_scope.
Delimit Scope outcome_scope with outcome.
Notation "x <- c ;; k" := (obind c (fun x => k))
(at level 100, c at next level, right associativity) : outcome_scope.

(** The primitive values. *)
Inductive prim : Type :=
| PUndefined
| PNull
| PBool (b : bool)
| PNum (x : number)
| PStr (s : jsstring).

(** A value as a tree: what [JSON.parse] builds and what a store looks
  like when it is read through. An object is its own properties in
  property order. *)
Inductive value : Type :=
| Prim (p : prim)
| Arr (elems : list value)
| Obj (props : list (jsstring * value)).

Coercion Prim : prim >-> value.

Abbreviation Undefined := (Prim PUndefined).
Abbreviation Null := (Prim PNull).
Abbreviation Bool b := (Prim (PBool b)).
Abbreviation Num x := (Prim (PNum x)).
Abbreviation Str s := (Prim (PStr s)).

Module Props.

(** The array index that the property key [k] denotes, if any: the
    canonical decimal string of an integer below [2^32 - 1]. *)
Definition array_index (k : jsstring) : option N :=
  match StringToNumber.read_digits 10 0 0 k with
  | (n, _, []) =>
      if (bool_decide (NumberToString.digits n = k)
          && (n <? 4294967295)%N)%bool
      then Some n else None
  | _ => None
  end.

Section Assoc.
Context {V : Type}.

(** The own property [k]. *)
Fixpoint lookup (k : jsstring) (props : list (jsstring * V)) : option V :=
  match props with
  | [] => None
  | (k', v) :: props' =>
      if bool_decide (k' = k) then Some v else lookup k props'
  end.

Fixpoint replace (k : jsstring) (v : V) (props : list (jsstring * V))
  : list (jsstring * V) :=
  match props with
  | [] => []
  | (k', v') :: props' =>
      if bool_decide (k' = k) then (k, v) :: props'
      else (k', v') :: replace k v props'
  end.

(** Where the new index key [i] goes: before the first key that is
    not an index or is a larger one. *)
Fixpoint insert_index (i : N) (k : jsstring) (v : V)
    (props : list (jsstring * V)) : list (jsstring * V) :=
  match props with
  | [] => [(k, v)]
  | (k', v') :: props' =>
      match array_index k' with
      | Some j =>
          if (j <? i)%N then (k', v') :: insert_index i k v props'
          else (k, v) :: props
      | None => (k, v) :: props
      end
  end.

(** CreateDataProperty on an ordinary object: an existing key keeps
    its place, a new index key goes among the index keys in ascending
    order, any other new key goes last. *)
Definition set (k : jsstring) (v : V) (props : list (jsstring * V))
  : list (jsstring * V) :=
  match lookup k props with
  | Some _ => replace k v props
  | None =>
      match array_index k with
      | Some i => insert_index i k v props
      | None => props ++ [(k, v)]
      end
  end.

(** The properties of [{ ...a, ...b }] when [a] and [b] have the
    properties [base] and [more]. *)
Definition assign (base more : list (jsstring * V))
  : list (jsstring * V) :=
  fold_left (fun acc kv => set (fst kv) (snd kv) acc) more base.

(** The own enumerable properties of an array with the elements [l]. *)
Definition indexed (l : list V) : list (jsstring * V) :=
  imap (fun i v => (NumberToString.digits (N.of_nat i), v)) l.

End Assoc.

End Props.

Module Coerce.

Definition prim_truthy (p : prim) : bool :=
  match p with
  | PUndefined | PNull => false
  | PBool b => b
  | PNum x => JSNum.truthy x
  | PStr s => JSStr.truthy s
  end.

(** ToBoolean: what [!v], [v || w] and [if (v)] test. *)
Definition truthy (v : value) : bool :=
  match v with
  | Prim p => prim_truthy p
  | Arr _ | Obj _ => true
  end.

(** The result of [typeof] (no value here is a function, a symbol or a
    bigint). *)
Inductive type_tag : Type :=
| TUndefined | TObject | TBoolean | TNumber | TString.

Definition prim_typeof (p : prim) : type_tag :=
  match p with
  | PUndefined => TUndefined
  | PNull => TObject
  | PBool _ => TBoolean
  | PNum _ => TNumber
  | PStr _ => TString
  end.

Definition typeof (v : value) : type_tag :=
  match v with
  | Prim p => prim_typeof p
  | Arr _ | Obj _ => TObject
  end.

(** An object or an array: what is left of the values whose [typeof] is
    ["object"] once [null] is set aside. *)
Definition is_object (v : value) : bool :=
  match v with
  | Arr _ | Obj _ => true
  | Prim _ => false
  end.

Definition type_tag_eqb (a b : type_tag) : bool :=
  match a, b with
  | TUndefined, TUndefined | TObject, TObject | TBoolean, TBoolean
  | TNumber, TNumber | TString, TString => true
  | _, _ => false
  end.

Definition prim_ToString (p : prim) : jsstring :=
  match p with
  | PUndefined => lit "undefined"
  | PNull => lit "null"
  | PBool true => lit "true"
  | PBool false => lit "false"
  | PNum x => NumberToString.Number_toString x
  | PStr s => s
  end.

(** ToString. An array is joined with commas, [undefined] and [null]
    elements giving the empty string. A plain object has the inherited
    [toString], unless an own property [toString] shadows it: that one
    is data, not a method, and the conversion throws. *)
Fixpoint ToString (v : value) : outcome jsstring :=
  match v with
  | Prim p => Ok (prim_ToString p)
  | Arr l =>
      (fix join (l : list value) : outcome jsstring :=
         match l with
         | [] => Ok []
         | x :: l' =>
             (s <- match x with
                   | Prim PUndefined | Prim PNull => Ok []
                   | _ => ToString x
                   end;;
              match l' with
              | [] => Ok s
              | _ => r <- join l';; Ok (s ++ 44%N :: r)
              end)%outcome
         end) l
  | Obj props =>
      match Props.lookup (lit "toString") props with
      | Some _ => Throw TypeError
      | None => Ok (lit "[object Object]")
      end
  end.

Definition prim_ToNumber (p : prim) : number :=
  match p with
  | PUndefined => JSNum.NaN
  | PNull => JSNum.zero
  | PBool true => JSNum.of_Z 1
  | PBool false => JSNum.zero
  | PNum x => x
  | PStr s => StringToNumber.Number s
  end.

(** [Number(v)]: ToNumber. An array or object goes through its string. *)
Definition ToNumber (v : value) : outcome number :=
  match v with
  | Prim p => Ok (prim_ToNumber p)
  | _ => (s <- ToString v;; Ok (StringToNumber.Number s))%outcome
  end.

(** [v[k]] for a key [k] that names no inherited member: the own
    property, [undefined] when there is none. Reading a property of
    [undefined] or [null] throws. *)
Definition get (v : value) (k : jsstring) : outcome value :=
  match v with
  | Prim PUndefined | Prim PNull => Throw TypeError
  | Prim (PStr s) =>
      if bool_decide (k = lit "length")
      then Ok (Num (JSNum.of_Z (Z.of_nat (length s))))
      else match Props.array_index k with
           | Some i => Ok (match s !! N.to_nat i with
                           | Some c => Str [c]
                           | None => Undefined
                           end)
           | None => Ok Undefined
           end
  | Prim _ => Ok Undefined
  | Arr l =>
      if bool_decide (k = lit "length")
      then Ok (Num (JSNum.of_Z (Z.of_nat (length l))))
      else match Props.array_index k with
           | Some i => Ok (default Undefined (l !! N.to_nat i))
           | None => Ok Undefined
           end
  | Obj props => Ok (default Undefined (Props.lookup k props))
  end.

End Coerce.

(* ===================================================================== *)
(** ** [JSON.stringify] and [JSON.parse] *)
(* ===================================================================== *)

Module JSON.
Import JSStr.

(** *** Serialization *)

Definition hex_digit (d : N) : N := if (d <? 10)%N then (48 + d)%N else (87 + d)%N.

(** The four lowercase hexadecimal digits of a code unit. *)
Definition hex4 (c : N) : jsstring :=
  [hex_digit (c / 4096 mod 16); hex_digit (c / 256 mod 16);
   hex_digit (c / 16 mod 16); hex_digit (c mod 16)]%N.

Definition is_high_surrogate (c : N) : bool := ((55296 <=? c) && (c <=? 56319))%N.
Definition is_low_surrogate (c : N) : bool := ((56320 <=? c) && (c <=? 57343))%N.

(** [\uXXXX] *)
Definition unicode_escape (c : N) : jsstring := 92%N :: 117%N :: hex4 c.

(** The text of one code unit that is not half of a surrogate pair. *)
Definition quote_unit (c : N) : jsstring :=
  if (c =? 8)%N then [92; 98]%N
  else if (c =? 9)%N then [92; 116]%N
  else if (c =? 10)%N then [92; 110]%N
  else if (c =? 12)%N then [92; 102]%N
  else if (c =? 13)%N then [92; 114]%N
  else if (c =? 34)%N then [92; 34]%N
  else if (c =? 92)%N then [92; 92]%N
  else if ((c <? 32) || is_high_surrogate c || is_low_surrogate c)%N
  then unicode_escape c
  else [c].

(** The body of QuoteJSONString: a surrogate pair is kept, a lone
    surrogate is escaped. *)
Fixpoint quote_units (s : jsstring) : jsstring :=
  match s with
  | [] => []
  | c :: s' =>
      match s' with
      | d :: s'' =>
          if (is_high_surrogate c && is_low_surrogate d)%bool
          then c :: d :: quote_units s''
          else quote_unit c ++ quote_units s'
      | [] => quote_unit c
      end
  end.

Definition quote (s : jsstring) : jsstring := 34%N :: quote_units s ++ [34%N].

Fixpoint join (sep : jsstring) (parts : list jsstring) : jsstring :=
  match parts with
  | [] => []
  | [p] => p
  | p :: parts' => p ++ sep ++ join sep parts'
  end.

(** A line feed and the indentation, when there is a gap. *)
Definition newline (gap indent : jsstring) : jsstring :=
  match gap with [] => [] | _ => 10%N :: indent end.

(** An object or array around its serialized members. *)
Definition wrap (opening closing : N) (gap stepback : jsstring)
    (partial : list jsstring) : jsstring :=
  match partial with
  | [] => [opening; closing]
  | _ =>
      let indent := stepback ++ gap in
      opening :: newline gap indent
        ++ join (44%N :: newline gap indent) partial
        ++ newline gap stepback ++ [closing]
  end.

Definition colon (gap : jsstring) : jsstring :=
  match gap with [] => [58%N] | _ => [58%N; 32%N] end.

(** SerializeJSONProperty: [None] is the result [undefined]. *)
Fixpoint serialize (gap indent : jsstring) (v : value) : option jsstring :=
  match v with
  | Prim PUndefined => None
  | Prim PNull => Some (lit "null")
  | Prim (PBool true) => Some (lit "true")
  | Prim (PBool false) => Some (lit "false")
  | Prim (PNum x) =>
      Some (if JSNum.is_finite x then NumberToString.Number_toString x
            else lit "null")
  | Prim (PStr s) => Some (quote s)
  | Arr l =>
      Some (wrap 91 93 gap indent
              ((fix elements (l : list value) : list jsstring :=
                  match l with
                  | [] => []
                  | x :: l' =>
                      default (lit "null") (serialize gap (indent ++ gap) x)
                        :: elements l'
                  end) l))
  | Obj props =>
      Some (wrap 123 125 gap indent
              ((fix members (ps : list (jsstring * value)) : list jsstring :=
                  match ps with
                  | [] => []
                  | (k, x) :: ps' =>
                      match serialize gap (indent ++ gap) x with
                      | Some t => (quote k ++ colon gap ++ t) :: members ps'
                      | None => members ps'
                      end
                  end) props))
  end.

(** [JSON.stringify(v)] *)
Definition stringify (v : value) : option jsstring := serialize [] [] v.

(** [JSON.stringify(v, null, 2)] *)
Definition stringify_pretty (v : value) : option jsstring :=
  serialize [32; 32]%N [] v.

(** The texts of the elements of an array, and of the members of an
    object, as [serialize] makes them. *)
Definition elements_text (gap indent : jsstring) (l : list value)
  : list jsstring :=
  map (fun x => default (lit "null") (serialize gap indent x)) l.

Fixpoint members_text (gap indent : jsstring) (ps : list (jsstring * value))
  : list jsstring :=
  match ps with
  | [] => []
  | (k, x) :: ps' =>
      match serialize gap indent x with
      | Some t => (quote k ++ colon gap ++ t) :: members_text gap indent ps'
      | None => members_text gap indent ps'
      end
  end.

(** *** Parsing *)

Definition is_ws (c : N) : bool :=
  ((c =? 9) || (c =? 10) || (c =? 13) || (c =? 32))%N.

Fixpoint skip_ws (s : jsstring) : jsstring :=
  match s with
  | c :: s' => if is_ws c then skip_ws s' else s
  | [] => []
  end.

(** Four hexadecimal digits. *)
Definition parse_hex4 (s : jsstring) : option (N * jsstring) :=
  match s with
  | a :: b :: c :: d :: s' =>
      match StringToNumber.digit_of 16 a, StringToNumber.digit_of 16 b,
            StringToNumber.digit_of 16 c, StringToNumber.digit_of 16 d with
      | Some a, Some b, Some c, Some d =>
          Some (a * 4096 + b * 256 + c * 16 + d, s')%N
      | _, _, _, _ => None
      end
  | _ => None
  end.

(** The code unit that the escape [\e] stands for, [u] apart. *)
Definition simple_escape (e : N) : option N :=
  if (e =? 34)%N then Some 34%N
  else if (e =? 92)%N then Some 92%N
  else if (e =? 47)%N then Some 47%N
  else if (e =? 98)%N then Some 8%N
  else if (e =? 102)%N then Some 12%N
  else if (e =? 110)%N then Some 10%N
  else if (e =? 114)%N then Some 13%N
  else if (e =? 116)%N then Some 9%N
  else None.

(** The characters of a string after its opening quote, up to and
    including the closing one. *)
Fixpoint parse_string_body (fuel : nat) (s : jsstring)
  : option (jsstring * jsstring) :=
  match fuel with
  | O => None
  | S fuel' =>
      match s with
      | [] => None
      | c :: s' =>
          if (c =? 34)%N then Some ([], s')
          else if (c =? 92)%N then
            match s' with
            | [] => None
            | e :: s'' =>
                if (e =? 117)%N then
                  match parse_hex4 s'' with
                  | Some (u, s3) =>
                      match parse_string_body fuel' s3 with
                      | Some (t, r) => Some (u :: t, r)
                      | None => None
                      end
                  | None => None
                  end
                else
                  match simple_escape e with
                  | Some u =>
                      match parse_string_body fuel' s'' with
                      | Some (t, r) => Some (u :: t, r)
                      | None => None
                      end
                  | None => None
                  end
            end
          else if (c <? 32)%N then None
          else
            match parse_string_body fuel' s' with
            | Some (t, r) => Some (c :: t, r)
            | None => None
            end
      end
  end.

Definition is_digit (c : N) : bool := ((48 <=? c) && (c <=? 57))%N.

(** An optional minus sign. *)
Definition parse_sign (s : jsstring) : bool * jsstring :=
  match s with
  | c :: s' => if (c =? 45)%N then (true, s') else (false, s)
  | [] => (false, s)
  end.

(** The integer part: [0], or digits that do not start with [0]. *)
Definition parse_int (s : jsstring) : option (N * jsstring) :=
  match s with
  | c :: s1 =>
      if (c =? 48)%N then Some (0%N, s1)
      else if is_digit c then
        let '(ip, _, s1) := StringToNumber.read_digits 10 0 0 s in
        Some (ip, s1)
      else None
  | [] => None
  end.

(** The fraction, if any: the digits are accumulated onto [ip], and
    counted. *)
Definition parse_frac (ip : N) (s : jsstring) : option (N * Z * jsstring) :=
  match s with
  | c :: s1 =>
      if (c =? 46)%N then
        let '(m, nf, s2) := StringToNumber.read_digits 10 ip 0 s1 in
        if 0 <? nf then Some (m, nf, s2) else None
      else Some (ip, 0, s)
  | [] => Some (ip, 0, s)
  end.

(** The exponent, if any. *)
Definition parse_exp (s : jsstring) : option (Z * jsstring) :=
  match s with
  | c :: s1 =>
      if ((c =? 101) || (c =? 69))%N then
        let '(eneg, s2) :=
          match s1 with
          | d :: s2 =>
              if (d =? 43)%N then (false, s2)
              else if (d =? 45)%N then (true, s2)
              else (false, s1)
          | [] => (false, s1)
          end in
        let '(ev, ne, s3) := StringToNumber.read_digits 10 0 0 s2 in
        if 0 <? ne
        then Some (if eneg then - Z.of_N ev else Z.of_N ev, s3)
        else None
      else Some (0, s)
  | [] => Some (0, s)
  end.

(** A number token, read from its first character. *)
Definition parse_number (s : jsstring) : option (number * jsstring) :=
  let '(neg, s0) := parse_sign s in
  match parse_int s0 with
  | None => None
  | Some (ip, s1) =>
      match parse_frac ip s1 with
      | None => None
      | Some (m, nf, s2) =>
          match parse_exp s2 with
          | None => None
          | Some (e, s3) => Some (JSNum.of_decimal neg m (e - nf), s3)
          end
      end
  end.

(** Whether [rest] can follow a number token: it does not go on with a
    digit, a point or an exponent. *)
Definition ends_token (rest : jsstring) : bool :=
  match rest with
  | [] => true
  | c :: _ =>
      negb (is_digit c) && negb (c =? 46)%N
      && negb (c =? 101)%N && negb (c =? 69)%N
  end.

(** The literal [word] at the head of [s]. *)
Definition parse_literal (word : jsstring) (v : value) (s : jsstring)
  : option (value * jsstring) :=
  if bool_decide (take (length word) s = word)
  then Some (v, drop (length word) s) else None.

(** The elements of an array, up to the closing bracket. *)
Fixpoint parse_elements (n : nat)
    (parse_value : jsstring -> option (value * jsstring)) (s : jsstring)
  : option (list value * jsstring) :=
  match n with
  | O => None
  | S n' =>
      match parse_value s with
      | Some (v, s1) =>
          match skip_ws s1 with
          | c :: s2 =>
              if (c =? 44)%N then
                match parse_elements n' parse_value s2 with
                | Some (l, s3) => Some (v :: l, s3)
                | None => None
                end
              else if (c =? 93)%N then Some ([v], s2)
              else None
          | [] => None
          end
      | None => None
      end
  end.

(** One member of an object: the key, the colon and the value. *)
Definition parse_member
    (parse_value : jsstring -> option (value * jsstring)) (s : jsstring)
  : option (jsstring * value * jsstring) :=
  match skip_ws s with
  | c :: s1 =>
      if (c =? 34)%N then
        match parse_string_body (length s1) s1 with
        | Some (k, s2) =>
            match skip_ws s2 with
            | c2 :: s3 =>
                if (c2 =? 58)%N then
                  match parse_value s3 with
                  | Some (v, s4) => Some (k, v, s4)
                  | None => None
                  end
                else None
            | [] => None
            end
        | None => None
        end
      else None
  | [] => None
  end.

(** The members of an object, in the order of the text, up to the
    closing brace. *)
Fixpoint parse_members (n : nat)
    (parse_value : jsstring -> option (value * jsstring)) (s : jsstring)
  : option (list (jsstring * value) * jsstring) :=
  match n with
  | O => None
  | S n' =>
      match parse_member parse_value s with
      | Some (k, v, s1) =>
          match skip_ws s1 with
          | c :: s2 =>
              if (c =? 44)%N then
                match parse_members n' parse_value s2 with
                | Some (l, s3) => Some ((k, v) :: l, s3)
                | None => None
                end
              else if (c =? 125)%N then Some ([(k, v)], s2)
              else None
          | [] => None
          end
      | None => None
      end
  end.

(** Whether the first character that is not white space is [c]. *)
Definition next_is (c : N) (s : jsstring) : option jsstring :=
  match skip_ws s with
  | c' :: s' => if (c' =? c)%N then Some s' else None
  | [] => None
  end.

(** A JSON value with the white space before it. The fuel bounds the
    characters still to read. *)
Fixpoint parse_value (fuel : nat) (s : jsstring) : option (value * jsstring) :=
  match fuel with
  | O => None
  | S fuel' =>
      match skip_ws s with
      | [] => None
      | c :: s1 =>
          if (c =? 123)%N then
            match next_is 125 s1 with
            | Some s2 => Some (Obj [], s2)
            | None =>
                match parse_members fuel' (parse_value fuel') s1 with
                | Some (members, s2) => Some (Obj (Props.assign [] members), s2)
                | None => None
                end
            end
          else if (c =? 91)%N then
            match next_is 93 s1 with
            | Some s2 => Some (Arr [], s2)
            | None =>
                match parse_elements fuel' (parse_value fuel') s1 with
                | Some (l, s2) => Some (Arr l, s2)
                | None => None
                end
            end
          else if (c =? 34)%N then
            match parse_string_body (length s1) s1 with
            | Some (t, s2) => Some (Str t, s2)
            | None => None
            end
          else if (c =? 116)%N then parse_literal (lit "true") (Bool true) (c :: s1)
          else if (c =? 102)%N then parse_literal (lit "false") (Bool false) (c :: s1)
          else if (c =? 110)%N then parse_literal (lit "null") Null (c :: s1)
          else
            match parse_number (c :: s1) with
            | Some (x, s2) => Some (Num x, s2)
            | None => None
            end
      end
  end.

(** [JSON.parse(text)]: the value, or a SyntaxError. *)
Definition parse (text : jsstring) : outcome value :=
  match parse_value (S (length text)) text with
  | Some (v, rest) =>
      match skip_ws rest with
      | [] => Ok v
      | _ => Throw SyntaxError
      end
  | None => Throw SyntaxError
  end.

End JSON.

(* ===================================================================== *)
(** ** Derived values of a render: total, exceeding, overBudgetMap *)
(* ===================================================================== *)

Module Derived.
Import Coerce.
Local Open Scope outcome_scope.

(** [{ maxBudget: 0, items: [] }] *)
Definition empty_month : value :=
  Obj [(lit "maxBudget", Num JSNum.zero); (lit "items", Arr [])].

(** [const data = store.months[activeMonth] || { maxBudget: 0, items: [] }] *)
Definition data (store : value) (activeMonth : jsstring) : outcome value :=
  months <- get store (lit "months");;
  d <- get months activeMonth;;
  Ok (if truthy d then d else empty_month).

(** [const items = data.items] *)
Definition items (data : value) : outcome value := get data (lit "items").

(** [const maxBudget = Number(data.maxBudget) || 0] *)
Definition maxBudget (data : value) : outcome number :=
  m <- get data (lit "maxBudget");;
  n <- ToNumber m;;
  Ok (JSNum.or_zero n).

(** [Number(it.price) || 0] *)
Definition price (it : value) : outcome number :=
  p <- get it (lit "price");;
  n <- ToNumber p;;
  Ok (JSNum.or_zero n).

(** The reduction [(s, it) => s + (Number(it.price) || 0)] from [s]. *)
Fixpoint total_from (s : number) (l : list value) : outcome number :=
  match l with
  | [] => Ok s
  | it :: l' => p <- price it;; total_from (JSNum.add s p) l'
  end.

(** [items.reduce((s, it) => s + (Number(it.price) || 0), 0)]; a value
    that is not an array has no [reduce] to call. *)
Definition total (items : value) : outcome number :=
  match items with
  | Arr l => total_from JSNum.zero l
  | _ => Throw TypeError
  end.

(** [const exceeded = Math.max(total - maxBudget, 0)] *)
Definition exceeded (total maxBudget : number) : number :=
  let d := JSNum.sub total maxBudget in
  match d with
  | S754_nan => JSNum.NaN
  | _ => if JSNum.gt d JSNum.zero then d else JSNum.zero
  end.

(** [const exceeding = total > maxBudget && maxBudget > 0] *)
Definition exceeding (total maxBudget : number) : bool :=
  JSNum.gt total maxBudget && JSNum.gt maxBudget JSNum.zero.

(** The flag that the callback of [overBudgetMap] returns:
    [maxBudget > 0 && start < maxBudget && running > maxBudget
     || start >= maxBudget] *)
Definition over_flag (maxBudget start running : number) : bool :=
  (JSNum.gt maxBudget JSNum.zero && JSNum.lt start maxBudget
     && JSNum.gt running maxBudget)
  || JSNum.ge start maxBudget.

(** The [items.map] of [overBudgetMap], with [running] as it stands
    when the callback reaches the first item of [l]. *)
Fixpoint over_from (maxBudget running : number) (l : list value)
  : outcome (list bool) :=
  match l with
  | [] => Ok []
  | it :: l' =>
      price <- price it;;
      let start := running in
      let running := JSNum.add running price in
      let flag := over_flag maxBudget start running in
      flags <- over_from maxBudget running l';;
      Ok (flag :: flags)
  end.

(** [overBudgetMap]: one flag per item, from [let running = 0]. *)
Definition overBudgetMap (items : value) (maxBudget : number)
  : outcome (list bool) :=
  match items with
  | Arr l => over_from maxBudget JSNum.zero l
  | _ => Throw TypeError
  end.

(** [over_from] with the running sum made explicit. *)
Definition flags_from (maxBudget r : number) (ps : list number) : list bool :=
  imap (fun i p =>
          let start := fold_left JSNum.add (take i ps) r in
          over_flag maxBudget start (JSNum.add start p)) ps.

(** An item as [addItem] builds it. *)
Definition item (id name : jsstring) (price : number) (createdAt : jsstring)
  : value :=
  Obj [(lit "id", Str id); (lit "name", Str name);
       (lit "price", Num price); (lit "createdAt", Str createdAt)].

End Derived.

(* ===================================================================== *)
(** ** The attribution rule in the specification's words *)
(* ===================================================================== *)

Module AttributionSpec.

(** The cumulative sum of the prices before position [i]. *)
Definition start_at (prices : list number) (i : nat) : number :=
  fold_left JSNum.add (take i prices) JSNum.zero.

(** The item at [i] is over when [maxBudget > 0] and [start < maxBudget]
    and [running > maxBudget], or when [start >= maxBudget]. *)
Definition over_at (maxBudget : number) (prices : list number)
    (i : nat) (price : number) : bool :=
  let start := start_at prices i in
  let running := JSNum.add start price in
  (JSNum.gt maxBudget JSNum.zero && JSNum.lt start maxBudget
     && JSNum.gt running maxBudget)
  || JSNum.ge start maxBudget.

(** One flag per price, in input order. *)
Definition flags (prices : list number) (maxBudget : number) : list bool :=
  imap (over_at maxBudget prices) prices.

(** The prices the items contribute, [Number(it.price) || 0] each. *)
Fixpoint prices (items : list value) : outcome (list number) :=
  match items with
  | [] => Ok []
  | it :: l =>
      (p <- Derived.price it;; ps <- prices l;; Ok (p :: ps))%outcome
  end.

End AttributionSpec.

(* ===================================================================== *)
(** ** Storage helpers, export and import *)
(* ===================================================================== *)

Module Storage.
Import Coerce.
Local Open Scope outcome_scope.

(** [{ months: {} }] *)
Definition empty_store : value := Obj [(lit "months", Obj [])].

(** The test that lets [loadData] return what it parsed: neither
    [!parsed || typeof parsed !== "object"] nor
    [!parsed.months || typeof parsed.months !== "object"]. *)
Definition load_check (parsed : value) : outcome bool :=
  if negb (truthy parsed) || negb (type_tag_eqb (typeof parsed) TObject)
  then Ok false
  else
    months <- get parsed (lit "months");;
    if negb (truthy months) || negb (type_tag_eqb (typeof months) TObject)
    then Ok false
    else Ok true.

(** The [try] block of [loadData]; [raw] is how
    [localStorage.getItem(STORAGE_KEY)] completes, [None] being [null]. *)
Definition loadData_try (raw : outcome (option jsstring)) : outcome value :=
  r <- raw;;
  match r with
  | None => Ok empty_store
  | Some text =>
      if negb (JSStr.truthy text) then Ok empty_store
      else
        parsed <- JSON.parse text;;
        ok <- load_check parsed;;
        if ok then Ok parsed else Ok empty_store
  end.

(** [loadData()]: the [catch] warns and returns the empty store. *)
Definition loadData (raw : outcome (option jsstring)) : outcome value :=
  match loadData_try raw with
  | Ok store => Ok store
  | Throw _ => Ok empty_store
  end.

(** [String(x)] of what [JSON.stringify] returned. *)
Definition text_of (t : option jsstring) : jsstring :=
  default (lit "undefined") t.

(** [saveData(store)]: the text that [localStorage.setItem] is given. *)
Definition saveData (store : value) : jsstring :=
  text_of (JSON.stringify store).

(** [exportAll()]: the name and the text of the downloaded file. The
    text goes into a [Blob], which encodes it as UTF-8, and
    [FileReader.readAsText] decodes it on the way back: a text with no
    lone surrogate, and [JSON.stringify] writes none, is kept as it is. *)
Definition exportAll (store : value) (activeMonth : jsstring)
  : jsstring * jsstring :=
  (lit "finance-" ++ activeMonth ++ lit ".json",
   text_of (JSON.stringify_pretty store)).

(** The message of [new Error("Formato inválido")]. *)
Definition invalid_format : jsstring :=
  lit "Formato inv" ++ [225%N] ++ lit "lido".

(** The test of [importAll] that throws:
    [!parsed || typeof parsed !== "object" || !parsed.months]. *)
Definition import_check (parsed : value) : outcome bool :=
  if negb (truthy parsed) || negb (type_tag_eqb (typeof parsed) TObject)
  then Ok false
  else
    months <- get parsed (lit "months");;
    Ok (truthy months).

(** What the [onload] handler of [importAll] does with the file's text,
    [String(reader.result)]. *)
Inductive import_result : Type :=
| SetStore (parsed : value)      (* [setStore(parsed)], then the success alert *)
| Alert (e : error).             (* the failure alert of the [catch] *)

(** The [try] block of the handler. *)
Definition importAll_try (text : jsstring) : outcome value :=
  parsed <- JSON.parse text;;
  ok <- import_check parsed;;
  if ok then Ok parsed else Throw (Error invalid_format).

Definition importAll (text : jsstring) : import_result :=
  match importAll_try text with
  | Ok parsed => SetStore parsed
  | Throw e => Alert e
  end.

End Storage.

(* ===================================================================== *)
(** ** Deep equality and well-formed stores *)
(* ===================================================================== *)

Module Shape.

Definition is_Some_b {A} (o : option A) : bool :=
  match o with Some _ => true | None => false end.

Definition prim_equal (p q : prim) : bool :=
  match p, q with
  | PUndefined, PUndefined | PNull, PNull => true
  | PBool a, PBool b => Bool.eqb a b
  | PNum x, PNum y => JSNum.strict_eq x y
  | PStr s, PStr t => JSStr.eqb s t
  | _, _ => false
  end.

(** Deep equality: the same structure, the same keys in the same order,
    and primitives that are [===]. *)
Fixpoint deep_equal (v w : value) : bool :=
  match v, w with
  | Prim p, Prim q => prim_equal p q
  | Arr l, Arr m =>
      (fix all (l m : list value) : bool :=
         match l, m with
         | [], [] => true
         | x :: l', y :: m' => deep_equal x y && all l' m'
         | _, _ => false
         end) l m
  | Obj ps, Obj qs =>
      (fix all (ps qs : list (jsstring * value)) : bool :=
         match ps, qs with
         | [], [] => true
         | (k, x) :: ps', (k', y) :: qs' =>
             JSStr.eqb k k' && deep_equal x y && all ps' qs'
         | _, _ => false
         end) ps qs
  | _, _ => false
  end.

Abbreviation is_digit := JSON.is_digit.

(** [/^\d{4}-\d{2}$/], the test of [applyMonthChange]. *)
Definition is_month_key (k : jsstring) : bool :=
  match k with
  | [y1; y2; y3; y4; h; m1; m2] =>
      is_digit y1 && is_digit y2 && is_digit y3 && is_digit y4
      && (h =? 45)%N && is_digit m1 && is_digit m2
  | _ => false
  end.

Definition item_keys : list jsstring :=
  [lit "id"; lit "name"; lit "price"; lit "createdAt"].

Definition month_keys : list jsstring := [lit "maxBudget"; lit "items"].

Definition has_keys (allowed : list jsstring) (props : list (jsstring * value))
  : bool :=
  forallb (fun kv => bool_decide (fst kv ∈ allowed)) props
  && bool_decide (NoDup (map fst props)).

(** Item: exactly an id, a name that is not empty once trimmed, a
    positive finite price and a creation time, in any order. *)
Definition well_formed_item (it : value) : bool :=
  match it with
  | Obj props =>
      has_keys item_keys props
      && match Props.lookup (lit "id") props,
               Props.lookup (lit "name") props,
               Props.lookup (lit "price") props,
               Props.lookup (lit "createdAt") props with
         | Some (Str _), Some (Str name), Some (Num price), Some (Str _) =>
             JSStr.truthy (JSStr.trim name)
             && JSNum.is_finite price && JSNum.gt price JSNum.zero
         | _, _, _, _ => false
         end
  | _ => false
  end.

Definition item_id (it : value) : option jsstring :=
  match it with
  | Obj props =>
      match Props.lookup (lit "id") props with
      | Some (Str id) => Some id
      | _ => None
      end
  | _ => None
  end.

(** MonthData: a finite ceiling that is not negative, and items with no
    id twice. *)
Definition well_formed_month (m : value) : bool :=
  match m with
  | Obj props =>
      has_keys month_keys props
      && match Props.lookup (lit "maxBudget") props,
               Props.lookup (lit "items") props with
         | Some (Num maxBudget), Some (Arr items) =>
             JSNum.is_finite maxBudget && JSNum.ge maxBudget JSNum.zero
             && forallb well_formed_item items
             && bool_decide (NoDup (map item_id items))
         | _, _ => false
         end
  | _ => false
  end.

(** Store: month keys of the form YYYY-MM, each once, each with a
    well-formed MonthData. *)
Definition well_formed_store (store : value) : bool :=
  match store with
  | Obj [(k, Obj months)] =>
      JSStr.eqb k (lit "months")
      && forallb (fun km => is_month_key (fst km) && well_formed_month (snd km))
                 months
      && bool_decide (NoDup (map fst months))
  | _ => false
  end.

Fixpoint forallb2 {A B} (f : A -> B -> bool) (l : list A) (m : list B) : bool :=
  match l, m with
  | [], [] => true
  | x :: l', y :: m' => f x y && forallb2 f l' m'
  | _, _ => false
  end.

Fixpoint props_equal (f : value -> value -> bool)
    (ps qs : list (jsstring * value)) : bool :=
  match ps, qs with
  | [], [] => true
  | (k, x) :: ps', (k', y) :: qs' =>
      JSStr.eqb k k' && f x y && props_equal f ps' qs'
  | _, _ => false
  end.

(** A value that is made of what JSON has: no [undefined], no Number
    that is not finite, and in objects no key twice and no key that is
    an array index (such keys are kept in numeric order, not in the order
    of the text). *)
Fixpoint plain (v : value) : bool :=
  match v with
  | Prim PUndefined => false
  | Prim (PNum x) => JSNum.is_finite x
  | Prim _ => true
  | Arr l => forallb plain l
  | Obj ps =>
      forallb (fun kv => plain (snd kv)) ps
      && forallb (fun kv => negb (is_Some_b (Props.array_index (fst kv)))) ps
      && bool_decide (NoDup (map fst ps))
  end.

(** The Numbers in a value. *)
Fixpoint numbers (v : value) : list number :=
  match v with
  | Prim (PNum x) => [x]
  | Prim _ => []
  | Arr l => flat_map numbers l
  | Obj ps => flat_map (fun kv => numbers (snd kv)) ps
  end.

(** [v] with [+0] for every [-0]: [JSON.stringify] writes [0] for both
    zeros. *)
Fixpoint unsigned_zeros (v : value) : value :=
  match v with
  | Prim (PNum (S754_zero _)) => Num JSNum.zero
  | Prim p => Prim p
  | Arr l => Arr (map unsigned_zeros l)
  | Obj ps => Obj (map (fun kv => (fst kv, unsigned_zeros (snd kv))) ps)
  end.

Definition is_negative_zero (x : number) : bool :=
  match x with S754_zero true => true | _ => false end.

(** No Number in [v] is [-0]. *)
Definition no_negative_zero (v : value) : bool :=
  forallb (fun x => negb (is_negative_zero x)) (numbers v).

(** Whether the text that [String(x)] gives for [x], read as a number
    token, converts back to [x]. ECMA-262 defines Number::toString by
    this property for every finite [x]. *)
Definition reads_back (x : number) : bool :=
  match JSON.parse_number (NumberToString.Number_toString x) with
  | Some (y, []) => JSNum.strict_eq y x
  | _ => false
  end.

End Shape.

(* ===================================================================== *)
(** ** The heap: objects with identity *)
(* ===================================================================== *)

Module Heap.
Import Coerce.

Abbreviation loc := nat.

(** A value as the program holds it: a primitive, or a reference to an
    object or array. *)
Inductive hval : Type :=
| HPrim (p : prim)
| HRef (l : loc).

(** An ordinary object with its own properties, or an array with its
    elements and whatever named properties it was given. *)
Inductive cell : Type :=
| CObj (props : list (jsstring * hval))
| CArr (elems : list hval) (named : list (jsstring * hval)).

Abbreviation heap := (list cell).

(** A computation on the heap that may throw. *)
Definition M (A : Type) : Type := heap -> outcome A * heap.

Definition ret {A} (a : A) : M A := fun h => (Ok a, h).
Definition throw {A} (e : error) : M A := fun h => (Throw e, h).
Definition bind {A B} (c : M A) (f : A -> M B) : M B :=
  fun h =>
    match c h with
    | (Ok a, h') => f a h'
    | (Throw e, h') => (Throw e, h')
    end.

Declare Scope heap_scope.
Delimit Scope heap_scope with heap.
Notation "x <- c ;; k" := (bind c (fun x => k))
  (at level 100, c at next level, right associativity) : heap_scope.
Notation "c ;;; k" := (bind c (fun _ => k))
  (at level 100, right associativity) : heap_scope.
Local Open Scope heap_scope.

(** A new object or array. *)
Definition alloc (c : cell) : M hval :=
  fun h => (Ok (HRef (length h)), h ++ [c]).

(** The object behind a reference. *)
Definition read (l : loc) : M cell :=
  fun h =>
    match h !! l with
    | Some c => (Ok c, h)
    | None => (Throw TypeError, h)
    end.

Definition write (l : loc) (c : cell) : M unit :=
  fun h => (Ok tt, <[l := c]> h).

Definition hundefined : hval := HPrim PUndefined.

(** The one-unit strings at the indices of a string. *)
Definition string_indexed (s : jsstring) : list (jsstring * hval) :=
  Props.indexed (map (fun c => HPrim (PStr [c])) s).

(** [v[k]], for a key [k] that names no inherited member. *)
Definition get (v : hval) (k : jsstring) : M hval :=
  match v with
  | HPrim PUndefined | HPrim PNull => throw TypeError
  | HPrim (PStr s) =>
      ret (if bool_decide (k = lit "length")
           then HPrim (PNum (JSNum.of_Z (Z.of_nat (length s))))
           else match Props.array_index k with
                | Some i => match s !! N.to_nat i with
                            | Some c => HPrim (PStr [c])
                            | None => hundefined
                            end
                | None => hundefined
                end)
  | HPrim _ => ret hundefined
  | HRef l =>
      c <- read l;;
      match c with
      | CObj props => ret (default hundefined (Props.lookup k props))
      | CArr elems named =>
          ret (if bool_decide (k = lit "length")
               then HPrim (PNum (JSNum.of_Z (Z.of_nat (length elems))))
               else match Props.array_index k with
                    | Some i => default hundefined (elems !! N.to_nat i)
                    | None => default hundefined (Props.lookup k named)
                    end)
      end
  end.

(** [v[k] = x] in strict code: a property of a primitive cannot be
    created. On an array an index within the elements or just past them
    sets or appends that element; the keys the component assigns to are
    [activeMonth] and [maxBudget], neither of them an index, so a
    farther index (which would leave holes) is padded with [undefined]. *)
Definition set (v : hval) (k : jsstring) (x : hval) : M unit :=
  match v with
  | HPrim _ => throw TypeError
  | HRef l =>
      c <- read l;;
      match c with
      | CObj props => write l (CObj (Props.set k x props))
      | CArr elems named =>
          match Props.array_index k with
          | Some i =>
              let i := N.to_nat i in
              if bool_decide (i < length elems)%nat
              then write l (CArr (<[i := x]> elems) named)
              else write l (CArr (elems ++ replicate (i - length elems) hundefined
                                        ++ [x]) named)
          | None => write l (CArr elems (Props.set k x named))
          end
      end
  end.

(** The own enumerable properties that [{ ...v }] copies. *)
Definition own_props (v : hval) : M (list (jsstring * hval)) :=
  match v with
  | HPrim (PStr s) => ret (string_indexed s)
  | HPrim _ => ret []
  | HRef l =>
      c <- read l;;
      match c with
      | CObj props => ret props
      | CArr elems named => ret (Props.indexed elems ++ named)
      end
  end.

(** The code points of a string, as its iterator yields them. *)
Fixpoint code_points (s : jsstring) : list hval :=
  match s with
  | [] => []
  | c :: s' =>
      match s' with
      | d :: s'' =>
          if (JSON.is_high_surrogate c && JSON.is_low_surrogate d)%bool
          then HPrim (PStr [c; d]) :: code_points s''
          else HPrim (PStr [c]) :: code_points s'
      | [] => [HPrim (PStr [c])]
      end
  end.

(** What [[...v]] spreads: the elements of an array, the code points of
    a string; nothing else here is iterable. *)
Definition iterate (v : hval) : M (list hval) :=
  match v with
  | HPrim (PStr s) => ret (code_points s)
  | HPrim _ => throw TypeError
  | HRef l =>
      c <- read l;;
      match c with
      | CArr elems _ => ret elems
      | CObj _ => throw TypeError
      end
  end.

(** The elements of [v] when a method of [Array.prototype] can be called
    on it: only an array has [filter] and [map]. *)
Definition array_elems (v : hval) : M (list hval) :=
  match v with
  | HPrim PUndefined | HPrim PNull => throw TypeError
  | HPrim _ => throw TypeError
  | HRef l =>
      c <- read l;;
      match c with
      | CArr elems _ => ret elems
      | CObj _ => throw TypeError
      end
  end.

(** [a === b] *)
Definition strict_equal (a b : hval) : bool :=
  match a, b with
  | HPrim p, HPrim q => Shape.prim_equal p q
  | HRef l, HRef m => bool_decide (l = m)
  | _, _ => false
  end.

Fixpoint filterM (f : hval -> M bool) (l : list hval) : M (list hval) :=
  match l with
  | [] => ret []
  | x :: l' =>
      keep <- f x;;
      rest <- filterM f l';;
      ret (if keep then x :: rest else rest)
  end.

Fixpoint mapM (f : hval -> M hval) (l : list hval) : M (list hval) :=
  match l with
  | [] => ret []
  | x :: l' =>
      y <- f x;;
      rest <- mapM f l';;
      ret (y :: rest)
  end.

(** The members of an object read through by [go], and the objects
    visited. *)
Fixpoint view_members (go : hval -> option (value * list loc))
    (ps : list (jsstring * hval))
  : option (list (jsstring * value) * list loc) :=
  match ps with
  | [] => Some ([], [])
  | (k, x) :: ps' =>
      match go x, view_members go ps' with
      | Some (t, fp), Some (ts, fps) => Some ((k, t) :: ts, fp ++ fps)
      | _, _ => None
      end
  end.

Fixpoint view_elements (go : hval -> option (value * list loc))
    (xs : list hval) : option (list value * list loc) :=
  match xs with
  | [] => Some ([], [])
  | x :: xs' =>
      match go x, view_elements go xs' with
      | Some (t, fp), Some (ts, fps) => Some (t :: ts, fp ++ fps)
      | _, _ => None
      end
  end.

(** The value [v] read through as a JSON tree, and the objects visited.
    [None] when [fuel] objects deep is not enough, when a reference
    dangles, or when an array carries named properties (a tree has no
    place for them). *)
Fixpoint view (fuel : nat) (h : heap) (v : hval)
  : option (value * list loc) :=
  match v with
  | HPrim p => Some (Prim p, [])
  | HRef l =>
      match fuel with
      | O => None
      | S fuel' =>
          match h !! l with
          | Some (CObj props) =>
              match view_members (view fuel' h) props with
              | Some (ts, fps) => Some (Obj ts, l :: fps)
              | None => None
              end
          | Some (CArr elems []) =>
              match view_elements (view fuel' h) elems with
              | Some (ts, fps) => Some (Arr ts, l :: fps)
              | None => None
              end
          | _ => None
          end
      end
  end.

(** The tree that [v] is in [h]. *)
Definition content (fuel : nat) (h : heap) (v : hval) : option value :=
  fst <$> view fuel h v.

(** [v] is a tree in [h]: no object is reached twice. *)
Definition is_tree (fuel : nat) (h : heap) (v : hval) : Prop :=
  exists t fp, view fuel h v = Some (t, fp) /\ NoDup fp.

(** [v] has the shape of a Store at its top: an object whose [months]
    is an object, with the properties [months]. *)
Definition is_store (h : heap) (v : hval) (months : list (jsstring * hval))
  : Prop :=
  exists l props lm,
    v = HRef l /\ h !! l = Some (CObj props)
    /\ Props.lookup (lit "months") props = Some (HRef lm)
    /\ h !! lm = Some (CObj months).

(** A tree built in the heap, as [JSON.parse] builds its result. *)
Fixpoint build (t : value) : M hval :=
  match t with
  | Prim p => ret (HPrim p)
  | Arr l =>
      elems <- (fix elements (l : list value) : M (list hval) :=
                  match l with
                  | [] => ret []
                  | x :: l' =>
                      v <- build x;; vs <- elements l';; ret (v :: vs)
                  end) l;;
      alloc (CArr elems [])
  | Obj ps =>
      props <- (fix members (ps : list (jsstring * value))
                  : M (list (jsstring * hval)) :=
                  match ps with
                  | [] => ret []
                  | (k, x) :: ps' =>
                      v <- build x;; vs <- members ps';; ret ((k, v) :: vs)
                  end) ps;;
      alloc (CObj props)
  end.

End Heap.

(* ===================================================================== *)
(** ** The store actions of the component *)
(* ===================================================================== *)

Module Actions.
Import Heap.
Local Open Scope heap_scope.

(** [{ maxBudget: 0, items: [] }] *)
Definition new_month : M hval :=
  items <- alloc (CArr [] []);;
  alloc (CObj [(lit "maxBudget", HPrim (PNum JSNum.zero));
               (lit "items", items)]).

(** The updater of the effect that runs on load and on a month change:
    [const next = { ...prev };
     if (!next.months[activeMonth]) {
       next.months[activeMonth] = { maxBudget: 0, items: [] };
       saveData(next); }
     return next;] *)
Definition ensureMonth (activeMonth : jsstring) (prev : hval) : M hval :=
  props <- own_props prev;;
  next <- alloc (CObj props);;
  months <- get next (lit "months");;
  current <- get months activeMonth;;
  match current with
  | HRef _ => ret next
  | HPrim p =>
      if Coerce.prim_truthy p then ret next
      else
        fresh <- new_month;;
        set months activeMonth fresh;;;
        ret next
  end.

(** The first lines of [addItem]: [None] when it returns early, the
    trimmed name and the price otherwise.
    [if (!newName.trim()) return;
     const price = Number(newPrice);
     if (isNaN(price) || price <= 0) return;] *)
Definition addItem_validate (newName newPrice : jsstring)
  : option (jsstring * number) :=
  if negb (JSStr.truthy (JSStr.trim newName)) then None
  else
    let price := StringToNumber.Number newPrice in
    if JSNum.isNaN price || JSNum.le price JSNum.zero then None
    else Some (JSStr.trim newName, price).

(** The updater of [addItem]:
    [const next = { ...prev, months: { ...prev.months } };
     const current = next.months[activeMonth];
     next.months[activeMonth] =
       { ...current, items: [...current.items, item] };
     return next;] *)
Definition addItem_update (activeMonth : jsstring) (item prev : hval)
  : M hval :=
  props <- own_props prev;;
  prev_months <- get prev (lit "months");;
  months_props <- own_props prev_months;;
  months <- alloc (CObj months_props);;
  next <- alloc (CObj (Props.set (lit "months") months props));;
  next_months <- get next (lit "months");;
  current <- get next_months activeMonth;;
  current_props <- own_props current;;
  current_items <- get current (lit "items");;
  elems <- iterate current_items;;
  items <- alloc (CArr (elems ++ [item]) []);;
  month <- alloc (CObj (Props.set (lit "items") items current_props));;
  set next_months activeMonth month;;;
  ret next.

(** [addItem()]: [None] when it returns before [setStore], the next
    store otherwise. [id] is what [crypto.randomUUID()] returned and
    [createdAt] what [new Date().toISOString()] did. *)
Definition addItem (activeMonth newName newPrice id createdAt : jsstring)
    (prev : hval) : M (option hval) :=
  match addItem_validate newName newPrice with
  | None => ret None
  | Some (name, price) =>
      item <- alloc (CObj [(lit "id", HPrim (PStr id));
                           (lit "name", HPrim (PStr name));
                           (lit "price", HPrim (PNum price));
                           (lit "createdAt", HPrim (PStr createdAt))]);;
      next <- addItem_update activeMonth item prev;;
      ret (Some next)
  end.

(** The updater of [removeItem]: as that of [addItem], with
    [items: current.items.filter((it) => it.id !== id)]. *)
Definition removeItem_update (activeMonth : jsstring) (id prev : hval)
  : M hval :=
  props <- own_props prev;;
  prev_months <- get prev (lit "months");;
  months_props <- own_props prev_months;;
  months <- alloc (CObj months_props);;
  next <- alloc (CObj (Props.set (lit "months") months props));;
  next_months <- get next (lit "months");;
  current <- get next_months activeMonth;;
  current_props <- own_props current;;
  current_items <- get current (lit "items");;
  elems <- array_elems current_items;;
  kept <- filterM (fun it =>
                     it_id <- get it (lit "id");;
                     ret (negb (strict_equal it_id id))) elems;;
  items <- alloc (CArr kept []);;
  month <- alloc (CObj (Props.set (lit "items") items current_props));;
  set next_months activeMonth month;;;
  ret next.

(** [removeItem(id)]; [confirmed] is the answer to the dialog. *)
Definition removeItem (activeMonth : jsstring) (confirmed : bool)
    (id prev : hval) : M (option hval) :=
  if negb confirmed then ret None
  else next <- removeItem_update activeMonth id prev;; ret (Some next).

(** The updater of [updateItem]: as that of [addItem], with
    [items: current.items.map((it) =>
       it.id === id ? { ...it, ...fields } : it)]. *)
Definition updateItem_update (activeMonth : jsstring) (id fields prev : hval)
  : M hval :=
  props <- own_props prev;;
  prev_months <- get prev (lit "months");;
  months_props <- own_props prev_months;;
  months <- alloc (CObj months_props);;
  next <- alloc (CObj (Props.set (lit "months") months props));;
  next_months <- get next (lit "months");;
  current <- get next_months activeMonth;;
  current_props <- own_props current;;
  current_items <- get current (lit "items");;
  elems <- array_elems current_items;;
  mapped <- mapM (fun it =>
                    it_id <- get it (lit "id");;
                    if strict_equal it_id id then
                      it_props <- own_props it;;
                      more <- own_props fields;;
                      alloc (CObj (Props.assign it_props more))
                    else ret it) elems;;
  items <- alloc (CArr mapped []);;
  month <- alloc (CObj (Props.set (lit "items") items current_props));;
  set next_months activeMonth month;;;
  ret next.

(** [updateItem(id, fields)] *)
Definition updateItem (activeMonth : jsstring) (id fields prev : hval)
  : M (option hval) :=
  next <- updateItem_update activeMonth id fields prev;; ret (Some next).

(** The updater of [updateBudget], [n] being [Number(val)]:
    [const next = { ...prev };
     const m = next.months[activeMonth];
     m.maxBudget = isNaN(n) ? 0 : n;
     return next;] *)
Definition updateBudget_update (activeMonth : jsstring) (n : number)
    (prev : hval) : M hval :=
  props <- own_props prev;;
  next <- alloc (CObj props);;
  months <- get next (lit "months");;
  m <- get months activeMonth;;
  set m (lit "maxBudget")
      (HPrim (PNum (if JSNum.isNaN n then JSNum.zero else n)));;;
  ret next.

(** [updateBudget(val)] *)
Definition updateBudget (activeMonth val : jsstring) (prev : hval)
  : M (option hval) :=
  let n := StringToNumber.Number val in
  next <- updateBudget_update activeMonth n prev;; ret (Some next).

(** The updater of [resetMonth]:
    [const next = { ...prev };
     next.months[activeMonth] = { maxBudget: 0, items: [] };
     return next;] *)
Definition resetMonth_update (activeMonth : jsstring) (prev : hval) : M hval :=
  props <- own_props prev;;
  next <- alloc (CObj props);;
  months <- get next (lit "months");;
  fresh <- new_month;;
  set months activeMonth fresh;;;
  ret next.

(** [resetMonth()]; [confirmed] is the answer to the dialog. *)
Definition resetMonth (activeMonth : jsstring) (confirmed : bool)
    (prev : hval) : M (option hval) :=
  if negb confirmed then ret None
  else next <- resetMonth_update activeMonth prev;; ret (Some next).

(** The updaters of [addItem], [removeItem] and [updateItem] are one
    text but for how the new items are made from [current.items]. *)
Definition copy_on_write (activeMonth : jsstring)
    (new_items : hval -> M (list hval)) (prev : hval) : M hval :=
  props <- own_props prev;;
  prev_months <- get prev (lit "months");;
  months_props <- own_props prev_months;;
  months <- alloc (CObj months_props);;
  next <- alloc (CObj (Props.set (lit "months") months props));;
  next_months <- get next (lit "months");;
  current <- get next_months activeMonth;;
  current_props <- own_props current;;
  current_items <- get current (lit "items");;
  l <- new_items current_items;;
  items <- alloc (CArr l []);;
  month <- alloc (CObj (Props.set (lit "items") items current_props));;
  set next_months activeMonth month;;;
  ret next.

Definition addItem_items (item : hval) (current_items : hval) : M (list hval) :=
  elems <- iterate current_items;;
  ret (elems ++ [item]).

Definition removeItem_items (id : hval) (current_items : hval)
  : M (list hval) :=
  elems <- array_elems current_items;;
  filterM (fun it =>
             it_id <- get it (lit "id");;
             ret (negb (strict_equal it_id id))) elems.

Definition updateItem_items (id fields : hval) (current_items : hval)
  : M (list hval) :=
  elems <- array_elems current_items;;
  mapM (fun it =>
          it_id <- get it (lit "id");;
          if strict_equal it_id id then
            it_props <- own_props it;;
            more <- own_props fields;;
            alloc (CObj (Props.assign it_props more))
          else ret it) elems.

(** The commands that change the store. *)
Inductive action : Type :=
| AddItem (newName newPrice id createdAt : jsstring)
| RemoveItem (confirmed : bool) (id : hval)
| UpdateItem (id fields : hval)
| UpdateBudget (val : jsstring)
| ResetMonth (confirmed : bool).

Definition run (a : action) (activeMonth : jsstring) (prev : hval)
  : M (option hval) :=
  match a with
  | AddItem newName newPrice id createdAt =>
      addItem activeMonth newName newPrice id createdAt prev
  | RemoveItem confirmed id => removeItem activeMonth confirmed id prev
  | UpdateItem id fields => updateItem activeMonth id fields prev
  | UpdateBudget val => updateBudget activeMonth val prev
  | ResetMonth confirmed => resetMonth activeMonth confirmed prev
  end.

(** The actions whose updater copies what it changes: [addItem],
    [removeItem] and [updateItem]. *)
Definition copies_on_write (a : action) : bool :=
  match a with
  | UpdateBudget _ | ResetMonth _ => false
  | _ => true
  end.

(** The Number that [updateBudget] stores for the text [val]:
    [isNaN(n) ? 0 : n] with [n = Number(val)]. *)
Definition stored (val : jsstring) : number :=
  let n := StringToNumber.Number val in
  if JSNum.isNaN n then JSNum.zero else n.

(** [store.months[activeMonth]] *)
Definition month_entry (store : hval) (k : jsstring) : M hval :=
  months <- get store (lit "months");;
  get months k.



End Actions.

(* ===================================================================== *)
(** ** Properties of computations on the heap *)
(* ===================================================================== *)

Module HeapLogic.
Import Heap.
Local Open Scope heap_scope.

(** [Q] holds of however [c] completes from [h]. *)
Definition wp {A} (c : M A) (Q : outcome A -> heap -> Prop) (h : heap) : Prop :=
  forall r h', c h = (r, h') -> Q r h'.

(** [c] leaves the heap as it is. *)
Definition pure {A} (c : M A) : Prop := forall h, snd (c h) = h.

(** [c] only adds objects. *)
Definition appends {A} (c : M A) : Prop :=
  forall h r h', c h = (r, h') -> h `prefix_of` h'.

(** What a successful [copy_on_write] did: the objects it read, the
    objects it added, and the one write, into the [months] it added. *)
Definition cow_post (k : jsstring) (f : hval -> M (list hval)) (prev : hval)
    (h : heap) (next : hval) (h' : heap) : Prop :=
  exists props pm mprops cprops ci l h2,
    let n := length h in
    let h1 := h ++ [CObj mprops;
                    CObj (Props.set (lit "months") (HRef n) props)] in
    let current := default hundefined (Props.lookup k mprops) in
    own_props prev h = (Ok props, h)
    /\ get prev (lit "months") h = (Ok pm, h)
    /\ own_props pm h = (Ok mprops, h)
    /\ own_props current h1 = (Ok cprops, h1)
    /\ get current (lit "items") h1 = (Ok ci, h1)
    /\ f ci h1 = (Ok l, h2)
    /\ h1 `prefix_of` h2
    /\ next = HRef (S n)
    /\ h' = <[n := CObj (Props.set k (HRef (S (length h2))) mprops)]>
              (h2 ++ [CArr l [];
                      CObj (Props.set (lit "items") (HRef (length h2)) cprops)]).

(** What [m.maxBudget = x] makes of the object [m]. *)
Definition with_maxBudget (x : hval) (c : cell) : cell :=
  match c with
  | CObj props => CObj (Props.set (lit "maxBudget") x props)
  | CArr elems named => CArr elems (Props.set (lit "maxBudget") x named)
  end.

(** The object that [addItem] builds. *)
Definition item_cell (id name : jsstring) (price : number)
    (createdAt : jsstring) : cell :=
  CObj [(lit "id", HPrim (PStr id)); (lit "name", HPrim (PStr name));
        (lit "price", HPrim (PNum price));
        (lit "createdAt", HPrim (PStr createdAt))].

End HeapLogic.

(* ===================================================================== *)
(** ** What is read back from a serialized value *)
(* ===================================================================== *)

Module RoundTrip.
Import JSON.

(** A value and the Numbers in it can be read back. *)
Definition readable (v : value) : Prop :=
  Shape.plain v = true /\ forallb Shape.reads_back (Shape.numbers v) = true.

(** The text of [v] is read as [v] with unsigned zeros, whatever follows
    it. *)
Definition reads (v : value) : Prop :=
  forall gap indent fuel rest t,
    Forall (fun c => is_ws c = true) gap ->
    Forall (fun c => is_ws c = true) indent ->
    ends_token rest = true ->
    serialize gap indent v = Some t ->
    (length (t ++ rest) < fuel)%nat ->
    parse_value fuel (t ++ rest) = Some (Shape.unsigned_zeros v, rest).

End RoundTrip.

(* ===================================================================== *)
(** ** What a render derives and shows *)
(* ===================================================================== *)

Module Render.
Import Coerce.
Local Open Scope outcome_scope.

(** The values that the body of the component derives from the store
    before it returns its elements. *)
Record derived : Type := Derived_values {
  items : list value;
  maxBudget : number;
  total : number;
  exceeded : number;
  exceeding : bool;
  overBudgetMap : list bool
}.

(** [const data = store.months[activeMonth] || { maxBudget: 0, items: [] };
     const items = data.items;
     const maxBudget = Number(data.maxBudget) || 0;
     const total = useMemo(() => items.reduce(...), [items]);
     const exceeded = Math.max(total - maxBudget, 0);
     const exceeding = total > maxBudget && maxBudget > 0;
     const overBudgetMap = useMemo(() => ..., [items, maxBudget]);]
    The list of [items] is kept for the rows: [items.length === 0] and
    [items.map] have it be an array, as [reduce] had already. *)
Definition derive (store : value) (activeMonth : jsstring) : outcome derived :=
  data <- Derived.data store activeMonth;;
  items <- Derived.items data;;
  maxBudget <- Derived.maxBudget data;;
  total <- Derived.total items;;
  let exceeded := Derived.exceeded total maxBudget in
  let exceeding := Derived.exceeding total maxBudget in
  overBudgetMap <- Derived.overBudgetMap items maxBudget;;
  match items with
  | Arr l =>
      Ok (Derived_values l maxBudget total exceeded exceeding overBudgetMap)
  | _ => Throw TypeError
  end.

(** [{maxBudget > 0 && (<Pill tone="indigo">...</Pill>)}] *)
Definition shows_budget_pill (d : derived) : bool :=
  JSNum.gt (maxBudget d) JSNum.zero.

(** [{exceeded > 0 && (<Pill tone="red">Excedido: ...</Pill>)}] *)
Definition shows_exceeded_pill (d : derived) : bool :=
  JSNum.gt (exceeded d) JSNum.zero.

(** [<Pill tone={exceeding ? "red" : "green"}>]: the verdict is
    "Acima do orçamento" when true, "Dentro do orçamento" when not. *)
Definition verdict_is_over (d : derived) : bool := exceeding d.

(** [const isOver = overBudgetMap[idx]] as the class names test it:
    [undefined], past the end, is falsy. *)
Definition isOver (d : derived) (idx : nat) : bool :=
  default false (overBudgetMap d !! idx).

End Render.

(* ===================================================================== *)
(** ** The inline editor and the month picker *)
(* ===================================================================== *)

Module Edit.
Import Heap.
Local Open Scope heap_scope.

(** The editing state: [editingId], [editName] and [editPrice].
    [editingId] and [editName] hold what [startEdit] read from the item,
    whatever that is; [editPrice] is only ever set to a string. *)
Record state : Type := State {
  editingId : hval;
  editName : hval;
  editPrice : jsstring
}.

(** [useState(null)], [useState("")], [useState("")], and what
    [cancelEdit] sets. *)
Definition cancelEdit : state :=
  State (HPrim PNull) (HPrim (PStr [])) [].

(** ToBoolean on a value in the heap. *)
Definition truthy (v : hval) : bool :=
  match v with
  | HPrim p => Coerce.prim_truthy p
  | HRef _ => true
  end.

(** [v.trim()]: only a string has the method. *)
Definition trim_of (v : hval) : outcome jsstring :=
  match v with
  | HPrim (PStr s) => Ok (JSStr.trim s)
  | _ => Throw TypeError
  end.

(** The first lines of [confirmEdit]: [None] when it returns early, the
    trimmed name and the price otherwise.
    [if (!editingId) return;
     const nPrice = Number(editPrice);
     if (!editName.trim() || isNaN(nPrice) || nPrice <= 0) return;] *)
Definition confirmEdit_validate (st : state)
  : outcome (option (jsstring * number)) :=
  if negb (truthy (editingId st)) then Ok None
  else
    let nPrice := StringToNumber.Number (editPrice st) in
    match trim_of (editName st) with
    | Throw e => Throw e
    | Ok name =>
        if negb (JSStr.truthy name) || JSNum.isNaN nPrice
           || JSNum.le nPrice JSNum.zero
        then Ok None
        else Ok (Some (name, nPrice))
    end.

(** [confirmEdit()]: the next store if it sets one, and the editing
    state it leaves.
    [updateItem(editingId, { name: editName.trim(), price: nPrice });
     cancelEdit();] *)
Definition confirmEdit (activeMonth : jsstring) (st : state) (prev : hval)
  : M (option hval * state) :=
  match confirmEdit_validate st with
  | Throw e => throw e
  | Ok None => ret (None, st)
  | Ok (Some (name, nPrice)) =>
      fields <- alloc (CObj [(lit "name", HPrim (PStr name));
                             (lit "price", HPrim (PNum nPrice))]);;
      next <- Actions.updateItem activeMonth (editingId st) fields prev;;
      ret (next, cancelEdit)
  end.

(** [String(v)] for a value in the heap. A plain object gives
    ["[object Object]"]; an array is joined with commas, [undefined] and
    [null] elements giving the empty string, unless an own property
    shadows [join] (then it is ["[object Array]"]). An own property
    [toString] is data, not a method, and with it the conversion throws.
    [None] when [fuel] arrays deep is not enough, as for an array that
    holds itself, or when a reference dangles. *)
Fixpoint to_string (fuel : nat) (h : heap) (v : hval)
  : option (outcome jsstring) :=
  match v with
  | HPrim p => Some (Ok (Coerce.prim_ToString p))
  | HRef l =>
      match h !! l with
      | Some (CObj props) =>
          Some (match Props.lookup (lit "toString") props with
                | Some _ => Throw TypeError
                | None => Ok (lit "[object Object]")
                end)
      | Some (CArr elems named) =>
          match Props.lookup (lit "toString") named,
                Props.lookup (lit "join") named with
          | Some _, _ => Some (Throw TypeError)
          | None, Some _ => Some (Ok (lit "[object Array]"))
          | None, None =>
              match fuel with
              | O => None
              | S fuel' =>
                  (fix join (l : list hval) : option (outcome jsstring) :=
                     match l with
                     | [] => Some (Ok [])
                     | x :: l' =>
                         match match x with
                               | HPrim PUndefined | HPrim PNull => Some (Ok [])
                               | _ => to_string fuel' h x
                               end with
                         | None => None
                         | Some (Throw e) => Some (Throw e)
                         | Some (Ok s) =>
                             match l' with
                             | [] => Some (Ok s)
                             | _ =>
                                 match join l' with
                                 | None => None
                                 | Some (Throw e) => Some (Throw e)
                                 | Some (Ok r) => Some (Ok (s ++ 44%N :: r))
                                 end
                             end
                         end
                     end) elems
              end
          end
      | None => None
      end
  end.

(** [startEdit(it)]: the editing state it sets.
    [setEditingId(it.id); setEditName(it.name);
     setEditPrice(String(it.price));]
    [None] when [fuel] is not enough for [String]. *)
Definition startEdit (fuel : nat) (it : hval) (h : heap)
  : option (outcome state) :=
  match get it (lit "id") h with
  | (Throw e, _) => Some (Throw e)
  | (Ok id, _) =>
      match get it (lit "name") h with
      | (Throw e, _) => Some (Throw e)
      | (Ok name, _) =>
          match get it (lit "price") h with
          | (Throw e, _) => Some (Throw e)
          | (Ok price, _) =>
              match to_string fuel h price with
              | None => None
              | Some (Throw e) => Some (Throw e)
              | Some (Ok s) => Some (Ok (State id name s))
              end
          end
      end
  end.

End Edit.

(* ===================================================================== *)
(** ** [monthKey]: the month of a Date *)
(* ===================================================================== *)

(** The time value of a Date is its milliseconds since the epoch, an
    integer; [new Date()] is never an invalid Date. The functions are
    those of ECMA-262, "Time Values and Time Range" and after. *)
Module Dates.

Definition msPerDay : Z := 86400000.

Definition Day (t : Z) : Z := t / msPerDay.

Definition DaysInYear (y : Z) : Z :=
  if negb (y mod 4 =? 0) then 365
  else if negb (y mod 100 =? 0) then 366
  else if negb (y mod 400 =? 0) then 365
  else 366.

Definition DayFromYear (y : Z) : Z :=
  365 * (y - 1970) + (y - 1969) / 4 - (y - 1901) / 100 + (y - 1601) / 400.

Definition TimeFromYear (y : Z) : Z := msPerDay * DayFromYear y.

(** The first year from [y] on whose next year begins after day [d]. *)
Fixpoint year_search (fuel : nat) (d y : Z) : Z :=
  match fuel with
  | O => y
  | S fuel' =>
      if d <? DayFromYear (y + 1) then y else year_search fuel' d (y + 1)
  end.

(** The largest [y] such that [TimeFromYear y <= t]: no year is longer
    than 366 days or shorter than 365, which gives the year to search
    from and how far. *)
Definition YearFromTime (t : Z) : Z :=
  let d := Day t in
  year_search (Z.to_nat (Z.abs d / 133590 + 2)) d
              (1970 + Z.min (d / 365) (d / 366)).

Definition InLeapYear (t : Z) : Z :=
  if DaysInYear (YearFromTime t) =? 366 then 1 else 0.

Definition DayWithinYear (t : Z) : Z := Day t - DayFromYear (YearFromTime t).

Definition MonthFromTime (t : Z) : Z :=
  let d := DayWithinYear t in
  let leap := InLeapYear t in
  if d <? 31 then 0
  else if d <? 59 + leap then 1
  else if d <? 90 + leap then 2
  else if d <? 120 + leap then 3
  else if d <? 151 + leap then 4
  else if d <? 181 + leap then 5
  else if d <? 212 + leap then 6
  else if d <? 243 + leap then 7
  else if d <? 273 + leap then 8
  else if d <? 304 + leap then 9
  else if d <? 334 + leap then 10
  else 11.

Definition DateFromTime (t : Z) : Z :=
  let d := DayWithinYear t in
  let leap := InLeapYear t in
  match MonthFromTime t with
  | 0 => d + 1
  | 1 => d - 30
  | 2 => d - 58 - leap
  | 3 => d - 89 - leap
  | 4 => d - 119 - leap
  | 5 => d - 150 - leap
  | 6 => d - 180 - leap
  | 7 => d - 211 - leap
  | 8 => d - 242 - leap
  | 9 => d - 272 - leap
  | 10 => d - 303 - leap
  | _ => d - 333 - leap
  end.

Definition HourFromTime (t : Z) : Z := (t / 3600000) mod 24.
Definition MinFromTime (t : Z) : Z := (t / 60000) mod 60.
Definition SecFromTime (t : Z) : Z := (t / 1000) mod 60.
Definition msFromTime (t : Z) : Z := t mod 1000.

(** The code unit of a decimal digit. *)
Definition digit (d : Z) : N := Z.to_N (48 + d).

(** The last [w] decimal digits of [n]. *)
Fixpoint pad (w : nat) (n : Z) : jsstring :=
  match w with
  | O => []
  | S w' => pad w' (n / 10) ++ [digit (n mod 10)]
  end.

(** The year of the Date Time String Format: four digits from 0000 to
    9999, and a sign and six digits otherwise. *)
Definition year_text (y : Z) : jsstring :=
  if (0 <=? y) && (y <=? 9999) then pad 4 y
  else (if 0 <=? y then 43%N else 45%N) :: pad 6 (Z.abs y).

(** [date.toISOString()]: [YYYY-MM-DDTHH:mm:ss.sssZ]. *)
Definition toISOString (t : Z) : jsstring :=
  year_text (YearFromTime t) ++ [45%N] ++ pad 2 (MonthFromTime t + 1)
    ++ [45%N] ++ pad 2 (DateFromTime t)
    ++ [84%N] ++ pad 2 (HourFromTime t)
    ++ [58%N] ++ pad 2 (MinFromTime t)
    ++ [58%N] ++ pad 2 (SecFromTime t)
    ++ [46%N] ++ pad 3 (msFromTime t) ++ [90%N].

(** [monthKey(date)]: [date.toISOString().slice(0, 7)], for the Date
    whose time value is [t]. *)
Definition monthKey (t : Z) : jsstring := take 7 (toISOString t).

End Dates.

Module MonthPicker.

(** What [applyMonthChange] does with [monthInput]. *)
Inductive month_change : Type :=
| SetActiveMonth (k : jsstring)
| AlertFormat.                 (* [alert("Use o formato AAAA-MM")] *)

(** [if (!/^\d{4}-\d{2}$/.test(monthInput)) return alert(...);
     setActiveMonth(monthInput);] *)
Definition applyMonthChange (monthInput : jsstring) : month_change :=
  if negb (Shape.is_month_key monthInput) then AlertFormat
  else SetActiveMonth monthInput.

End MonthPicker.

(* ===================================================================== *)
(** ** The store as a tree, and the parts an action works on *)
(* ===================================================================== *)

Module Tree.
Import Coerce.

(** The own enumerable properties of a value read through: what
    [{ ...v }] copies. *)
Definition own_props (v : value) : list (jsstring * value) :=
  match v with
  | Obj ps => ps
  | Arr l => Props.indexed l
  | Prim (PStr s) => Props.indexed (map (fun c => Str [c]) s)
  | Prim _ => []
  end.

(** [it.id === id] for a primitive [id], on an item that is not
    [undefined] or [null]. *)
Definition id_is (id : prim) (it : value) : bool :=
  match get it (lit "id") with
  | Ok (Prim q) => Shape.prim_equal q id
  | _ => false
  end.

Definition nullish (v : value) : bool :=
  match v with
  | Prim PUndefined | Prim PNull => true
  | _ => false
  end.

(** [it.id === id ? { ...it, ...fields } : it] *)
Definition update (id : prim) (fields : value) (it : value) : value :=
  if id_is id it
  then Obj (Props.assign (own_props it) (own_props fields))
  else it.

(** The properties of the store, of its [months], of [months[k]], and
    the elements of [months[k].items], for a store that has them. *)
Definition parts (store : value) (k : jsstring)
  : option (list (jsstring * value) * list (jsstring * value)
            * list (jsstring * value) * list value) :=
  match store with
  | Obj props =>
      match Props.lookup (lit "months") props with
      | Some (Obj months) =>
          match Props.lookup k months with
          | Some (Obj month) =>
              match Props.lookup (lit "items") month with
              | Some (Arr items) => Some (props, months, month, items)
              | _ => None
              end
          | _ => None
          end
      | _ => None
      end
  | _ => None
  end.

(** The properties of the store and of its [months], for a store that
    has them. *)
Definition months_of (store : value)
  : option (list (jsstring * value) * list (jsstring * value)) :=
  match store with
  | Obj props =>
      match Props.lookup (lit "months") props with
      | Some (Obj months) => Some (props, months)
      | _ => None
      end
  | _ => None
  end.

(** The store with [month] under [months[k]]. *)
Definition with_month (k : jsstring) (month : value)
    (props months : list (jsstring * value)) : value :=
  Obj (Props.set (lit "months") (Obj (Props.set k month months)) props).

(** The store with [items] under [months[k].items]. *)
Definition with_items (k : jsstring) (items : list value)
    (props months month : list (jsstring * value)) : value :=
  with_month k (Obj (Props.set (lit "items") (Arr items) month)) props months.

End Tree.

Module Reading.
Import Heap.

(** The properties [ps] read through by [go] as [ts]: the same keys in
    the same order. *)
Definition same_members (go : hval -> option value)
    (ps : list (jsstring * hval)) (ts : list (jsstring * value)) : Prop :=
  Forall2 (fun kx kt => fst kx = fst kt /\ go (snd kx) = Some (snd kt)) ps ts.

Definition same_elements (go : hval -> option value)
    (xs : list hval) (ts : list value) : Prop :=
  Forall2 (fun x t => go x = Some t) xs ts.

(** [v] reads through as the tree [t] in [h]. *)
Definition reads_as (h : heap) (v : hval) (t : value) : Prop :=
  exists fuel, content fuel h v = Some t.

(** The heap after [{ maxBudget: 0, items: [] }] was made and assigned
    to [months[k]], in a copy [{ ...prev }] of the store. *)
Definition with_new_month (k : jsstring) (h : heap)
    (props mprops : list (jsstring * hval)) (lm : loc) : heap :=
  <[lm := CObj (Props.set k (HRef (S (S (length h)))) mprops)]>
    (h ++ [CObj props; CArr [] [];
           CObj [(lit "maxBudget", HPrim (PNum JSNum.zero));
                 (lit "items", HRef (S (length h)))]]).

(** What the new items are to be, for a copying updater to give them to
    the month: [f], run on a [current.items] that reads as [ti] in [h],
    in any heap that extends [h], returns elements that read as [tl],
    and go on doing so when an object that is not of [h] is written to
    and objects are added. *)
Definition makes_items (h : heap) (F G : nat) (ti : value) (tl : list value)
    (f : hval -> M (list hval)) : Prop :=
  forall h1 ci,
    h `prefix_of` h1 -> content F h ci = Some ti ->
    exists l h2,
      f ci h1 = (Ok l, h2) /\ h1 `prefix_of` h2
      /\ forall n c hx,
           (length h <= n < length h1)%nat ->
           same_elements (content G (<[n := c]> (h2 ++ hx))) l tl.

End Reading.

(* ===================================================================== *)
(** ** Sample data *)
(* ===================================================================== *)

Module Examples.
Import Derived.

(** The text [{"months": "not-an-object"}]. *)
Definition months_not_an_object : jsstring :=
  [123; 34]%N ++ lit "months" ++ [34; 58; 32; 34]%N
    ++ lit "not-an-object" ++ [34; 125]%N.


(** The three items of the specification's example. *)
Definition example_items (p1 p2 p3 : Z) : list value :=
  [ item (lit "a") (lit "rent") (JSNum.of_Z p1) (lit "2024-05-01T10:00:00.000Z");
    item (lit "b") (lit "food") (JSNum.of_Z p2) (lit "2024-05-02T10:00:00.000Z");
    item (lit "c") (lit "fuel") (JSNum.of_Z p3) (lit "2024-05-03T10:00:00.000Z") ].

(** [{ maxBudget, items }] *)
Definition month_of (maxBudget : number) (items : list value) : value :=
  Obj [(lit "maxBudget", Num maxBudget); (lit "items", Arr items)].

(** A store of two months: [may] for 2024-05, and an empty 2024-06. *)
Definition store_with (may : value) : value :=
  Obj [(lit "months",
        Obj [(lit "2024-05", may);
             (lit "2024-06", month_of JSNum.zero [])])].

Definition may : jsstring := lit "2024-05".
Definition june : jsstring := lit "2024-06".

(** May with the ceiling 100 and the items priced 50, 60 and 40. *)
Definition two_months : value :=
  store_with (month_of (JSNum.of_Z 100) (example_items 50 60 40)).

(** The properties of [months] in [heap0] below: the two months are
    the objects 4 and 6. *)
Definition months0 : list (jsstring * Heap.hval) :=
  [(may, Heap.HRef 4%nat); (june, Heap.HRef 6%nat)].

(** That store built in an empty heap. *)
Definition heap0 : Heap.heap := snd (Heap.build two_months []).

Definition store0 : Heap.hval :=
  match fst (Heap.build two_months []) with
  | Ok v => v
  | Throw _ => Heap.hundefined
  end.

(** The store and the heap after an action on [store0] in [heap0]. *)
Definition next_of (a : Actions.action) (k : jsstring) : Heap.hval :=
  match fst (Actions.run a k store0 heap0) with
  | Ok (Some next) => next
  | _ => Heap.hundefined
  end.

Definition heap_of (a : Actions.action) (k : jsstring) : Heap.heap :=
  snd (Actions.run a k store0 heap0).

End Examples.

Module Samples.
Import Derived.

(** What a render derives, when it derives it. *)
Definition derived_of (store : value) (k : jsstring) : Render.derived :=
  match Render.derive store k with
  | Ok d => d
  | Throw _ => Render.Derived_values [] JSNum.zero JSNum.zero JSNum.zero false []
  end.

(** May with three items and no ceiling. *)
Definition no_ceiling : value :=
  Examples.store_with (Examples.month_of JSNum.zero (Examples.example_items 50 60 40)).

(** The properties of May, of the months and of the store in
    [Examples.two_months]. *)
Definition may_month : list (jsstring * value) :=
  [(lit "maxBudget", Num (JSNum.of_Z 100));
   (lit "items", Arr (Examples.example_items 50 60 40))].

Definition months : list (jsstring * value) :=
  [(Examples.may, Obj may_month);
   (Examples.june, Examples.month_of JSNum.zero [])].

Definition props : list (jsstring * value) := [(lit "months", Obj months)].

(** The text [{"months":{"2024-05":5}}] and what it parses to. *)
Definition may_is_five_text : jsstring :=
  [123; 34]%N ++ lit "months" ++ [34; 58; 123; 34]%N ++ lit "2024-05"
    ++ [34; 58; 53; 125; 125]%N.

Definition may_is_five : value :=
  Obj [(lit "months", Obj [(lit "2024-05", Num (JSNum.of_Z 5))])].

End Samples.

(* ===================================================================== *)
(** * Properties *)
(* ===================================================================== *)

(** ** Budget verdict and overage attribution *)

Module DerivedFacts.
Import Coerce Derived.

Lemma obind_Ok {A B} (c : outcome A) (f : A -> outcome B) (b : B) :
  obind c f = Ok b -> exists a, c = Ok a /\ f a = Ok b.
Proof. destruct c as [a|e]; simpl; [eauto | discriminate]. Qed.

(** A comparison with zero only looks at the sign and the class. *)
Lemma le_zero_not_gt (x : number) :
  JSNum.le x JSNum.zero = true -> JSNum.gt x JSNum.zero = false.
Proof.
  unfold JSNum.le, JSNum.gt, JSNum.zero, SFleb, SFltb.
  destruct x as [s|[]| |[] m e]; simpl; congruence.
Qed.

(** An item built by [addItem] contributes its price, [0] if that is
    falsy. *)
Lemma price_item id name p createdAt :
  price (item id name p createdAt) = Ok (JSNum.or_zero p).
Proof. reflexivity. Qed.

Lemma over_from_flags_from maxBudget l : forall r,
  over_from maxBudget r l =
  obind (AttributionSpec.prices l) (fun ps => Ok (flags_from maxBudget r ps)).
Proof.
  induction l as [|it l IH]; intros r; [reflexivity|].
  simpl. destruct (price it) as [p|e]; simpl; [|reflexivity].
  rewrite IH. destruct (AttributionSpec.prices l) as [ps|e]; simpl; [|reflexivity].
  reflexivity.
Qed.

Lemma flags_from_length maxBudget r ps :
  length (flags_from maxBudget r ps) = length ps.
Proof. unfold flags_from. apply length_imap. Qed.

Lemma prices_length l : forall ps,
  AttributionSpec.prices l = Ok ps -> length ps = length l.
Proof.
  induction l as [|it l IH]; simpl; intros ps H.
  - injection H as <-. reflexivity.
  - apply obind_Ok in H as (p & _ & H).
    apply obind_Ok in H as (ps' & Hps & H).
    injection H as <-. simpl. f_equal. auto.
Qed.

End DerivedFacts.

(** C10. [exceeding] is true exactly when [total > maxBudget] and
  [maxBudget > 0]; a ceiling that is zero or negative gives false for
  every total; [exceeding] of 150 against 100 is true and of 80 against
  0 is false. *)
Theorem exceeding_iff :
(forall total maxBudget : number,
    Derived.exceeding total maxBudget = true <->
    JSNum.gt total maxBudget = true /\ JSNum.gt maxBudget JSNum.zero = true)
/\ (forall total maxBudget : number,
       JSNum.le maxBudget JSNum.zero = true ->
       Derived.exceeding total maxBudget = false)
/\ Derived.exceeding (JSNum.of_Z 150) (JSNum.of_Z 100) = true
/\ Derived.exceeding (JSNum.of_Z 80) (JSNum.of_Z 0) = false.
Proof.
split; [|split; [|split]].
- intros total maxBudget. unfold Derived.exceeding.
  rewrite andb_true_iff. reflexivity.
- intros total maxBudget H. unfold Derived.exceeding.
  rewrite (DerivedFacts.le_zero_not_gt _ H). apply andb_false_r.
- vm_compute. reflexivity.
- vm_compute. reflexivity.
Qed.

(** C2. [overBudgetMap] gives one flag per item in input order; the flag
  of an item is the rule of the specification at [start], the sum of
  the prices before it, and [running = start + price]; the prices 50,
  60, 40 under the ceiling 100 are flagged false, true, true. *)
Theorem overBudgetMap_attribution :
(forall (l : list value) (maxBudget : number),
    Derived.overBudgetMap (Arr l) maxBudget =
    obind (AttributionSpec.prices l)
          (fun ps => Ok (AttributionSpec.flags ps maxBudget)))
/\ (forall (l : list value) (maxBudget : number) (flags : list bool),
       Derived.overBudgetMap (Arr l) maxBudget = Ok flags ->
       length flags = length l)
/\ Derived.overBudgetMap (Arr (Examples.example_items 50 60 40))
                         (JSNum.of_Z 100)
   = Ok [false; true; true].
Proof.
split; [|split].
- intros l maxBudget. unfold Derived.overBudgetMap.
  apply DerivedFacts.over_from_flags_from.
- intros l maxBudget flags. unfold Derived.overBudgetMap.
  rewrite DerivedFacts.over_from_flags_from. intros H.
  apply DerivedFacts.obind_Ok in H as (ps & Hps & H).
  injection H as <-. rewrite DerivedFacts.flags_from_length.
  eapply DerivedFacts.prices_length; eauto.
- vm_compute. reflexivity.
Qed.

(** C1, as the code has it. Under the ceiling 0 the items priced 50, 60,
  40 are all flagged: [start >= maxBudget] holds from the first item on,
  and the guard [maxBudget > 0] covers only the other disjunct. *)
Theorem overBudgetMap_zero_ceiling_flags_all :
Derived.overBudgetMap (Arr (Examples.example_items 50 60 40))
                      (JSNum.of_Z 0)
= Ok [true; true; true].
Proof. vm_compute. reflexivity. Qed.

(** ** Loading and importing *)

Module StorageFacts.
Import Coerce Storage.

(** The two halves of each test of [loadData] say: not an object. *)
Lemma is_object_test (v : value) :
  negb (truthy v) || negb (type_tag_eqb (typeof v) TObject) = negb (is_object v).
Proof.
  destruct v as [[| |[]|x|s]|l|ps]; simpl;
    rewrite ?orb_true_r, ?orb_false_r; reflexivity.
Qed.

(** Reading a property of an object or array does not throw. *)
Lemma get_object (v : value) (k : jsstring) :
  is_object v = true -> exists w, get v k = Ok w.
Proof.
  destruct v as [p|l|ps]; simpl; intros H; try discriminate.
  - destruct (bool_decide _); [eauto|]. destruct (Props.array_index k); eauto.
  - eauto.
Qed.

Lemma load_check_spec (parsed : value) :
  load_check parsed =
  if is_object parsed
  then match get parsed (lit "months") with
       | Ok months => Ok (is_object months)
       | Throw e => Throw e
       end
  else Ok false.
Proof.
  unfold load_check. rewrite is_object_test.
  destruct (is_object parsed); simpl; [|reflexivity].
  destruct (get parsed (lit "months")) as [months|e]; simpl; [|reflexivity].
  rewrite is_object_test. destruct (is_object months); reflexivity.
Qed.



(** What [loadData] returns for a text that parses. *)
Lemma loadData_parsed (text : jsstring) (parsed : value) :
  JSON.parse text = Ok parsed ->
  loadData (Ok (Some text)) =
  Ok (if JSStr.truthy text && is_object parsed
         && match get parsed (lit "months") with
            | Ok months => is_object months
            | Throw _ => false
            end
      then parsed else empty_store).
Proof.
  intros Hp. unfold loadData, loadData_try. simpl.
  destruct (JSStr.truthy text); simpl; [|reflexivity].
  rewrite Hp. simpl. rewrite load_check_spec.
  destruct (is_object parsed) eqn:Ho; simpl; [|reflexivity].
  destruct (get_object parsed (lit "months") Ho) as [months ->]. simpl.
  destruct (is_object months); reflexivity.
Qed.

End StorageFacts.

(** C7. [loadData] returns a store and never throws, however reading
    the storage completes; it returns the empty store when there is no
    stored value, when the text does not parse, when it parses to
    something that is not an object, and when the [months] of what it
    parses to is not an object, as for [{"months": "not-an-object"}]. *)
Theorem loadData_never_throws :
  (forall raw : outcome (option jsstring),
      exists store, Storage.loadData raw = Ok store)
  /\ (forall e, Storage.loadData (Throw e) = Ok Storage.empty_store)
  /\ Storage.loadData (Ok None) = Ok Storage.empty_store
  /\ (forall text e,
         JSON.parse text = Throw e ->
         Storage.loadData (Ok (Some text)) = Ok Storage.empty_store)
  /\ (forall text parsed,
         JSON.parse text = Ok parsed ->
         Coerce.is_object parsed = false ->
         Storage.loadData (Ok (Some text)) = Ok Storage.empty_store)
  /\ (forall text parsed months,
         JSON.parse text = Ok parsed ->
         Coerce.get parsed (lit "months") = Ok months ->
         Coerce.is_object months = false ->
         Storage.loadData (Ok (Some text)) = Ok Storage.empty_store)
  /\ Storage.loadData (Ok (Some Examples.months_not_an_object))
     = Ok Storage.empty_store.
Proof.
  repeat apply conj.
  - intros raw. unfold Storage.loadData.
    destruct (Storage.loadData_try raw); eauto.
  - reflexivity.
  - reflexivity.
  - intros text e Hp. unfold Storage.loadData, Storage.loadData_try. simpl.
    destruct (JSStr.truthy text); simpl; [|reflexivity]. rewrite Hp. reflexivity.
  - intros text parsed Hp Ho. rewrite (StorageFacts.loadData_parsed _ _ Hp), Ho.
    rewrite andb_false_r. reflexivity.
  - intros text parsed months Hp Hg Ho.
    rewrite (StorageFacts.loadData_parsed _ _ Hp), Hg, Ho.
    rewrite andb_false_r. reflexivity.
  - vm_compute. reflexivity.
Qed.


(** ** Own properties *)

Module PropsFacts.
Import Props.

Section Assoc.
Context {V : Type}.
Implicit Types (k : jsstring) (v : V) (props : list (jsstring * V)).

Lemma lookup_app k props more :
  lookup k (props ++ more) =
  match lookup k props with Some v => Some v | None => lookup k more end.
Proof.
  induction props as [|[k' v'] props IH]; simpl; [reflexivity|].
  case_bool_decide; [reflexivity | apply IH].
Qed.

Lemma lookup_replace_eq k v props :
  is_Some (lookup k props) -> lookup k (replace k v props) = Some v.
Proof.
  induction props as [|[k' v'] props IH]; simpl; intros [w Hw]; [discriminate|].
  case_bool_decide as Hk; simpl.
  - rewrite bool_decide_true; reflexivity.
  - rewrite bool_decide_false by assumption. apply IH. eauto.
Qed.

Lemma lookup_replace_ne k k' v props :
  k' <> k -> lookup k' (replace k v props) = lookup k' props.
Proof.
  intros Hne. induction props as [|[k0 v0] props IH]; simpl; [reflexivity|].
  case_bool_decide as Hk; simpl.
  - subst k0. rewrite !bool_decide_false by congruence. reflexivity.
  - case_bool_decide; [reflexivity | apply IH].
Qed.

Lemma lookup_insert_index_eq i k v props :
  lookup k props = None -> lookup k (insert_index i k v props) = Some v.
Proof.
  induction props as [|[k0 v0] props IH]; simpl; intros Hn.
  - rewrite bool_decide_true; reflexivity.
  - case_bool_decide as Hk; [discriminate|].
    destruct (array_index k0) as [j|]; [destruct (j <? i)%N|]; simpl;
      rewrite ?(bool_decide_false _ Hk), ?bool_decide_true by reflexivity;
      auto.
Qed.

Lemma lookup_insert_index_ne i k k' v props :
  k' <> k -> lookup k' (insert_index i k v props) = lookup k' props.
Proof.
  intros Hne. induction props as [|[k0 v0] props IH]; simpl.
  - rewrite bool_decide_false by congruence. reflexivity.
  - destruct (array_index k0) as [j|]; [destruct (j <? i)%N|]; simpl;
      rewrite ?(bool_decide_false (k = k')) by congruence; try reflexivity.
    case_bool_decide; [reflexivity | apply IH].
Qed.

(** A property that was just set is read back. *)
Lemma lookup_set_eq k v props : lookup k (set k v props) = Some v.
Proof.
  unfold set. destruct (lookup k props) as [w|] eqn:Hl.
  - apply lookup_replace_eq. rewrite Hl. eauto.
  - destruct (array_index k) as [i|].
    + apply lookup_insert_index_eq, Hl.
    + rewrite lookup_app, Hl. simpl. rewrite bool_decide_true; reflexivity.
Qed.

(** Setting a property leaves the others as they were. *)
Lemma lookup_set_ne k k' v props :
  k' <> k -> lookup k' (set k v props) = lookup k' props.
Proof.
  intros Hne. unfold set. destruct (lookup k props) as [w|].
  - apply lookup_replace_ne, Hne.
  - destruct (array_index k) as [i|].
    + apply lookup_insert_index_ne, Hne.
    + rewrite lookup_app. destruct (lookup k' props); [reflexivity|].
      simpl. rewrite bool_decide_false by congruence. reflexivity.
Qed.

End Assoc.
End PropsFacts.

(** ** Reasoning about computations on the heap *)

Module HeapFacts.
Import Heap HeapLogic.
Local Open Scope heap_scope.

Lemma wp_bind {A B} (c : M A) (f : A -> M B) Q h :
  wp c (fun r h1 => match r with
                    | Ok a => wp (f a) Q h1
                    | Throw e => Q (Throw e) h1
                    end) h ->
  wp (bind c f) Q h.
Proof.
  intros H r h' Hb. unfold bind in Hb.
  destruct (c h) as [[a|e] h1] eqn:Hc; specialize (H _ _ Hc); simpl in H.
  - apply H, Hb.
  - injection Hb as <- <-. exact H.
Qed.

Lemma wp_ret {A} (a : A) (Q : outcome A -> heap -> Prop) h :
  Q (Ok a) h -> wp (ret a) Q h.
Proof. intros H r h' [= <- <-]. exact H. Qed.

Lemma wp_alloc c (Q : outcome hval -> heap -> Prop) h :
  Q (Ok (HRef (length h))) (h ++ [c]) -> wp (alloc c) Q h.
Proof. intros H r h' [= <- <-]. exact H. Qed.

Lemma wp_pure {A} (c : M A) (Q : outcome A -> heap -> Prop) h :
  pure c -> (forall r, c h = (r, h) -> Q r h) -> wp c Q h.
Proof.
  intros Hp H r h' Hc. pose proof (Hp h) as Hs. rewrite Hc in Hs. simpl in Hs.
  subst h'. auto.
Qed.

Lemma pure_ret {A} (a : A) : pure (ret a).
Proof. intros h. reflexivity. Qed.

Lemma pure_throw {A} e : pure (@throw A e).
Proof. intros h. reflexivity. Qed.

Lemma pure_bind {A B} (c : M A) (f : A -> M B) :
  pure c -> (forall a, pure (f a)) -> pure (bind c f).
Proof.
  intros Hc Hf h. unfold bind. pose proof (Hc h) as H1.
  destruct (c h) as [[a|e] h1]; simpl in *; subst h1; [apply Hf | reflexivity].
Qed.

Lemma pure_read l : pure (read l).
Proof. intros h. unfold read. destruct (h !! l); reflexivity. Qed.

Lemma pure_get v k : pure (get v k).
Proof.
  destruct v as [[| |b|x|s]|l]; simpl;
    try apply pure_ret; try apply pure_throw.
  apply pure_bind; [apply pure_read|]. intros [props|elems named]; apply pure_ret.
Qed.

Lemma pure_own_props v : pure (own_props v).
Proof.
  destruct v as [[| |b|x|s]|l]; simpl; try apply pure_ret.
  apply pure_bind; [apply pure_read|]. intros [props|elems named]; apply pure_ret.
Qed.

Lemma pure_iterate v : pure (iterate v).
Proof.
  destruct v as [[| |b|x|s]|l]; simpl;
    try apply pure_ret; try apply pure_throw.
  apply pure_bind; [apply pure_read|].
  intros [props|elems named]; [apply pure_throw | apply pure_ret].
Qed.

Lemma pure_array_elems v : pure (array_elems v).
Proof.
  destruct v as [[| |b|x|s]|l]; simpl; try apply pure_throw.
  apply pure_bind; [apply pure_read|].
  intros [props|elems named]; [apply pure_throw | apply pure_ret].
Qed.

Lemma pure_filterM f l : (forall x, pure (f x)) -> pure (filterM f l).
Proof.
  intros Hf. induction l as [|x l IH]; simpl; [apply pure_ret|].
  apply pure_bind; [apply Hf|]. intros keep.
  apply pure_bind; [apply IH|]. intros rest. apply pure_ret.
Qed.

Lemma appends_pure {A} (c : M A) : pure c -> appends c.
Proof.
  intros Hp h r h' Hc. pose proof (Hp h) as Hs. rewrite Hc in Hs. simpl in Hs.
  subst h'. reflexivity.
Qed.

Lemma appends_alloc c : appends (alloc c).
Proof. intros h r h' [= <- <-]. apply prefix_app_r. reflexivity. Qed.

Lemma appends_bind {A B} (c : M A) (f : A -> M B) :
  appends c -> (forall a, appends (f a)) -> appends (bind c f).
Proof.
  intros Hc Hf h r h' Hb. unfold bind in Hb.
  destruct (c h) as [[a|e] h1] eqn:E.
  - etransitivity; [eapply Hc, E | eapply Hf, Hb].
  - injection Hb as <- <-. eapply Hc, E.
Qed.

Lemma appends_mapM f l : (forall x, appends (f x)) -> appends (mapM f l).
Proof.
  intros Hf. induction l as [|x l IH]; simpl; [apply appends_pure, pure_ret|].
  apply appends_bind; [apply Hf|]. intros y.
  apply appends_bind; [apply IH|]. intros rest. apply appends_pure, pure_ret.
Qed.

Lemma get_obj h l k props :
  h !! l = Some (CObj props) ->
  get (HRef l) k h = (Ok (default hundefined (Props.lookup k props)), h).
Proof. intros Hl. simpl. unfold bind, read. rewrite Hl. reflexivity. Qed.

Lemma own_props_obj h l props :
  h !! l = Some (CObj props) -> own_props (HRef l) h = (Ok props, h).
Proof. intros Hl. simpl. unfold bind, read. rewrite Hl. reflexivity. Qed.

Lemma set_obj h l k x props :
  h !! l = Some (CObj props) ->
  set (HRef l) k x h = (Ok tt, <[l := CObj (Props.set k x props)]> h).
Proof. intros Hl. simpl. unfold bind, read. rewrite Hl. reflexivity. Qed.

(** Writing into the part of the heap that was added keeps the part
    that was there. *)
Lemma prefix_insert_new (h h1 : heap) l c :
  h `prefix_of` h1 -> (length h <= l)%nat -> h `prefix_of` <[l := c]> h1.
Proof.
  intros [ext ->] Hl. exists (<[(l - length h)%nat := c]> ext).
  apply (insert_app_r_alt h ext l c Hl).
Qed.

#[local] Arguments get : simpl never.
#[local] Arguments set : simpl never.
#[local] Arguments own_props : simpl never.
#[local] Arguments iterate : simpl never.
#[local] Arguments array_elems : simpl never.

Ltac thrown := split; [eauto using prefix_app_r | intros ? [=]].

Lemma copy_on_write_spec k f prev h :
  (forall ci, appends (f ci)) ->
  wp (Actions.copy_on_write k f prev)
     (fun r h' => h `prefix_of` h'
                  /\ forall next, r = Ok next -> cow_post k f prev h next h') h.
Proof.
  intros Hf. unfold Actions.copy_on_write.
  apply wp_bind, wp_pure; [apply pure_own_props|].
  intros [props|e] Hprops; [|thrown].
  apply wp_bind, wp_pure; [apply pure_get|].
  intros [pm|e] Hpm; [|thrown].
  apply wp_bind, wp_pure; [apply pure_own_props|].
  intros [mprops|e] Hm; [|thrown].
  apply wp_bind, wp_alloc. apply wp_bind, wp_alloc.
  rewrite <- app_assoc. simpl.
  set (n := length h).
  set (h1 := h ++ [CObj mprops; CObj (Props.set (lit "months") (HRef n) props)]).
  assert (Hn : h1 !! n = Some (CObj mprops)).
  { subst h1 n. apply list_lookup_middle. reflexivity. }
  assert (Hn1 : h1 !! length (h ++ [CObj mprops])
                = Some (CObj (Props.set (lit "months") (HRef n) props))).
  { subst h1 n. rewrite length_app. simpl.
    change (h ++ [CObj mprops; ?c]) with (h ++ [CObj mprops] ++ [c]).
    rewrite app_assoc. apply list_lookup_middle. rewrite length_app. reflexivity. }
  assert (Hh1 : h `prefix_of` h1) by (apply prefix_app_r; reflexivity).
  apply wp_bind. intros r h' Hg. rewrite (get_obj _ _ _ _ Hn1) in Hg.
  injection Hg as <- <-. rewrite PropsFacts.lookup_set_eq. simpl.
  apply wp_bind. intros r h' Hg. rewrite (get_obj _ _ _ _ Hn) in Hg.
  injection Hg as <- <-.
  set (current := default hundefined (Props.lookup k mprops)).
  apply wp_bind, wp_pure; [apply pure_own_props|].
  intros [cprops|e] Hc; [|thrown].
  apply wp_bind, wp_pure; [apply pure_get|].
  intros [ci|e] Hci; [|thrown].
  apply wp_bind. intros [l|e] h2 Hl; pose proof (Hf _ _ _ _ Hl) as H12;
    [|split; [etransitivity; eauto | intros ? [=]]].
  apply wp_bind, wp_alloc. apply wp_bind, wp_alloc.
  rewrite <- app_assoc. simpl. rewrite length_app. simpl.
  assert (Hn2 : (h2 ++ [CArr l [];
                        CObj (Props.set (lit "items") (HRef (length h2)) cprops)])
                  !! n = Some (CObj mprops)).
  { apply lookup_app_l_Some. eapply prefix_lookup_Some; eauto. }
  apply wp_bind. intros r h' Hs. rewrite (set_obj _ _ _ _ _ Hn2) in Hs.
  injection Hs as <- <-. apply wp_ret. split.
  - apply prefix_insert_new; [|subst n; lia].
    etransitivity; [exact Hh1|]. etransitivity; [exact H12|].
    apply prefix_app_r. reflexivity.
  - intros next [= <-]. exists props, pm, mprops, cprops, ci, l, h2.
    simpl. fold n. fold h1. fold current.
    replace (length h2 + 1)%nat with (S (length h2)) by lia.
    replace (length (h ++ [CObj mprops])) with (S n)
      by (rewrite length_app; simpl; subst n; lia).
    repeat apply conj; auto.
Qed.

Lemma bind_ext {A B} (c : M A) (f g : A -> M B) h :
  (forall a h1, f a h1 = g a h1) -> bind c f h = bind c g h.
Proof. intros H. unfold bind. destruct (c h) as [[a|e] h1]; auto. Qed.

Lemma bind_assoc {A B C} (c : M A) (f : A -> M B) (g : B -> M C) h :
  bind (bind c f) g h = bind c (fun a => bind (f a) g) h.
Proof.
  unfold bind. destruct (c h) as [[a|e] h1]; [|reflexivity].
  destruct (f a h1) as [[b|e] h2]; reflexivity.
Qed.

Lemma bind_ret_l {A B} (a : A) (f : A -> M B) h : bind (ret a) f h = f a h.
Proof. reflexivity. Qed.

Ltac same_prefix := repeat (apply bind_ext; intros ? ?).

Lemma addItem_update_cow k item prev h :
  Actions.addItem_update k item prev h
  = Actions.copy_on_write k (Actions.addItem_items item) prev h.
Proof.
  unfold Actions.addItem_update, Actions.copy_on_write, Actions.addItem_items.
  do 9 (apply bind_ext; intros ? ?).
  rewrite bind_assoc. reflexivity.
Qed.

Lemma removeItem_update_cow k id prev h :
  Actions.removeItem_update k id prev h
  = Actions.copy_on_write k (Actions.removeItem_items id) prev h.
Proof.
  unfold Actions.removeItem_update, Actions.copy_on_write,
    Actions.removeItem_items.
  do 9 (apply bind_ext; intros ? ?).
  rewrite bind_assoc. reflexivity.
Qed.

Lemma updateItem_update_cow k id fields prev h :
  Actions.updateItem_update k id fields prev h
  = Actions.copy_on_write k (Actions.updateItem_items id fields) prev h.
Proof.
  unfold Actions.updateItem_update, Actions.copy_on_write,
    Actions.updateItem_items.
  do 9 (apply bind_ext; intros ? ?).
  rewrite bind_assoc. reflexivity.
Qed.

Lemma appends_addItem_items item ci : appends (Actions.addItem_items item ci).
Proof.
  apply appends_pure, pure_bind; [apply pure_iterate|].
  intros elems. apply pure_ret.
Qed.

Lemma appends_removeItem_items id ci : appends (Actions.removeItem_items id ci).
Proof.
  apply appends_pure, pure_bind; [apply pure_array_elems|]. intros elems.
  apply pure_filterM. intros x. apply pure_bind; [apply pure_get|].
  intros it_id. apply pure_ret.
Qed.

Lemma appends_updateItem_items id fields ci :
  appends (Actions.updateItem_items id fields ci).
Proof.
  apply appends_bind; [apply appends_pure, pure_array_elems|]. intros elems.
  apply appends_mapM. intros x.
  apply appends_bind; [apply appends_pure, pure_get|]. intros it_id.
  destruct (strict_equal it_id id); [|apply appends_pure, pure_ret].
  apply appends_bind; [apply appends_pure, pure_own_props|]. intros it_props.
  apply appends_bind; [apply appends_pure, pure_own_props|]. intros more.
  apply appends_alloc.
Qed.

(** *** Reading a value through *)

Section ViewLists.
Variables (go go' : hval -> option (value * list loc)).
Variable (P : list loc -> Prop).
Hypothesis P_app : forall a b, P (a ++ b) -> P a /\ P b.
Hypothesis go_go' :
  forall x t fp, go x = Some (t, fp) -> P fp -> go' x = Some (t, fp).

Lemma view_members_impl ps : forall ts fps,
  view_members go ps = Some (ts, fps) -> P fps ->
  view_members go' ps = Some (ts, fps).
Proof.
  induction ps as [|[k x] ps IH]; simpl; intros ts fps H HP; [exact H|].
  destruct (go x) as [[t fp]|] eqn:Hx; [|discriminate].
  destruct (view_members go ps) as [[ts' fps']|] eqn:Hps; [|discriminate].
  injection H as <- <-. apply P_app in HP as [HP1 HP2].
  rewrite (go_go' _ _ _ Hx HP1), (IH _ _ eq_refl HP2). reflexivity.
Qed.

Lemma view_elements_impl xs : forall ts fps,
  view_elements go xs = Some (ts, fps) -> P fps ->
  view_elements go' xs = Some (ts, fps).
Proof.
  induction xs as [|x xs IH]; simpl; intros ts fps H HP; [exact H|].
  destruct (go x) as [[t fp]|] eqn:Hx; [|discriminate].
  destruct (view_elements go xs) as [[ts' fps']|] eqn:Hxs; [|discriminate].
  injection H as <- <-. apply P_app in HP as [HP1 HP2].
  rewrite (go_go' _ _ _ Hx HP1), (IH _ _ eq_refl HP2). reflexivity.
Qed.

End ViewLists.

Lemma True_app (a b : list loc) : True -> True /\ True.
Proof. auto. Qed.

Lemma not_in_app (l : loc) (a b : list loc) : l ∉ (a ++ b) -> (l ∉ a) /\ (l ∉ b).
Proof. rewrite elem_of_app. tauto. Qed.

(** More fuel reads the same. *)
Lemma view_fuel_mono (h : heap) : forall f v r f',
  view f h v = Some r -> (f <= f')%nat -> view f' h v = Some r.
Proof.
  induction f as [|f IH]; intros [p|l] r f' H Hle; simpl in H;
    try discriminate; try (destruct f'; exact H).
  destruct f' as [|f']; [lia|]. simpl.
  assert (Hgo : forall x t fp,
             view f h x = Some (t, fp) -> True -> view f' h x = Some (t, fp)).
  { intros x t fp Hx _. eapply IH; eauto. lia. }
  destruct (h !! l) as [[props|elems [|]]|]; try discriminate.
  - destruct (view_members (view f h) props) as [[ts fps]|] eqn:Hm;
      [|discriminate].
    rewrite (view_members_impl _ _ _ True_app Hgo _ _ _ Hm I). exact H.
  - destruct (view_elements (view f h) elems) as [[ts fps]|] eqn:Hm;
      [|discriminate].
    rewrite (view_elements_impl _ _ _ True_app Hgo _ _ _ Hm I). exact H.
Qed.

(** Objects added to the heap do not change what is read. *)
Lemma view_prefix (h h' : heap) : h `prefix_of` h' -> forall f v r,
  view f h v = Some r -> view f h' v = Some r.
Proof.
  intros Hp. induction f as [|f IH]; intros [p|l] r H; simpl in *;
    try discriminate; try exact H.
  assert (Hgo : forall x t fp,
             view f h x = Some (t, fp) -> True -> view f h' x = Some (t, fp)).
  { intros x t fp Hx _. apply IH, Hx. }
  destruct (h !! l) as [c|] eqn:Hl; [|discriminate].
  rewrite (prefix_lookup_Some _ _ _ _ Hl Hp).
  destruct c as [props|elems [|]]; try discriminate.
  - destruct (view_members (view f h) props) as [[ts fps]|] eqn:Hm;
      [|discriminate].
    rewrite (view_members_impl _ _ _ True_app Hgo _ _ _ Hm I). exact H.
  - destruct (view_elements (view f h) elems) as [[ts fps]|] eqn:Hm;
      [|discriminate].
    rewrite (view_elements_impl _ _ _ True_app Hgo _ _ _ Hm I). exact H.
Qed.

(** A write to an object that is not visited does not change what is
    read. *)
Lemma view_insert_notin (h : heap) l c : forall f v t fp,
  view f h v = Some (t, fp) -> l ∉ fp ->
  view f (<[l := c]> h) v = Some (t, fp).
Proof.
  induction f as [|f IH]; intros [p|l0] t fp H Hn; simpl in *;
    try discriminate; try exact H.
  assert (Hgo : forall x t fp,
             view f h x = Some (t, fp) -> l ∉ fp ->
             view f (<[l := c]> h) x = Some (t, fp)) by exact IH.
  destruct (h !! l0) as [c0|] eqn:Hl; [|discriminate].
  destruct c0 as [props|elems [|]]; try discriminate.
  - destruct (view_members (view f h) props) as [[ts fps]|] eqn:Hm;
      [|discriminate].
    injection H as <- <-. apply not_elem_of_cons in Hn as [Hne Hn].
    rewrite list_lookup_insert_ne by congruence. rewrite Hl.
    rewrite (view_members_impl _ _ _ (not_in_app l) Hgo _ _ _ Hm Hn).
    reflexivity.
  - destruct (view_elements (view f h) elems) as [[ts fps]|] eqn:Hm;
      [|discriminate].
    injection H as <- <-. apply not_elem_of_cons in Hn as [Hne Hn].
    rewrite list_lookup_insert_ne by congruence. rewrite Hl.
    rewrite (view_elements_impl _ _ _ (not_in_app l) Hgo _ _ _ Hm Hn).
    reflexivity.
Qed.

(** A member of an object that was read through was read through, and
    the objects visited for it are a segment of those visited for the
    object. *)
Lemma view_members_lookup go ps k e : forall ts fps,
  view_members go ps = Some (ts, fps) ->
  Props.lookup k ps = Some e ->
  exists t fp pre post, go e = Some (t, fp) /\ fps = pre ++ fp ++ post.
Proof.
  induction ps as [|[k0 x] ps IH]; simpl; intros ts fps H Hl; [discriminate|].
  destruct (go x) as [[t fp]|] eqn:Hx; [|discriminate].
  destruct (view_members go ps) as [[ts' fps']|] eqn:Hps; [|discriminate].
  injection H as <- <-. case_bool_decide.
  - injection Hl as <-. exists t, fp, [], fps'. auto.
  - destruct (IH _ _ eq_refl Hl) as (t' & fp' & pre & post & He & ->).
    exists t', fp', (fp ++ pre), post. split; [assumption|].
    rewrite <- app_assoc. reflexivity.
Qed.

Lemma segment_subseteq {A} (fp pre post : list A) : fp ⊆ pre ++ fp ++ post.
Proof. intros y Hy. rewrite !elem_of_app. auto. Qed.

Lemma segment_NoDup {A} (fp pre post : list A) :
  NoDup (pre ++ fp ++ post) -> NoDup fp.
Proof.
  intros H. apply NoDup_app in H as (_ & _ & H).
  apply NoDup_app in H as (H & _ & _). exact H.
Qed.

(** Two members under different keys of an object that is a tree share
    no object. *)
Lemma view_members_disjoint go ps k k' e e' : forall ts fps,
  view_members go ps = Some (ts, fps) -> NoDup fps ->
  k <> k' ->
  Props.lookup k ps = Some e -> Props.lookup k' ps = Some e' ->
  forall t fp t' fp' y,
    go e = Some (t, fp) -> go e' = Some (t', fp') ->
    y ∈ fp -> y ∈ fp' -> False.
Proof.
  induction ps as [|[k0 x] ps IH]; simpl; intros ts fps H Hnd Hne Hl Hl';
    [discriminate|].
  destruct (go x) as [[t0 fp0]|] eqn:Hx; [|discriminate].
  destruct (view_members go ps) as [[ts' fps']|] eqn:Hps; [|discriminate].
  injection H as <- <-. apply NoDup_app in Hnd as (Hnd0 & Hdisj & Hnd').
  intros t fp t' fp' y He He' Hy Hy'.
  destruct (bool_decide (k0 = k)) eqn:Hk;
    destruct (bool_decide (k0 = k')) eqn:Hk'.
  - apply bool_decide_eq_true in Hk, Hk'. congruence.
  - injection Hl as <-. rewrite Hx in He. injection He as <- <-.
    destruct (view_members_lookup _ _ _ _ _ _ Hps Hl')
      as (t1 & fp1 & pre & post & H1 & ->).
    rewrite He' in H1. injection H1 as <- <-.
    apply (Hdisj y Hy), segment_subseteq, Hy'.
  - injection Hl' as <-. rewrite Hx in He'. injection He' as <- <-.
    destruct (view_members_lookup _ _ _ _ _ _ Hps Hl)
      as (t1 & fp1 & pre & post & H1 & ->).
    rewrite He in H1. injection H1 as <- <-.
    apply (Hdisj y Hy'), segment_subseteq, Hy.
  - eapply (IH _ _ eq_refl Hnd' Hne Hl Hl'); eauto.
Qed.

(** The root of what was read is among the objects visited. *)
Lemma view_root f h l t fp : view f h (HRef l) = Some (t, fp) -> l ∈ fp.
Proof.
  destruct f as [|f]; simpl; [discriminate|].
  destruct (h !! l) as [[props|elems [|]]|]; try discriminate.
  - destruct (view_members _ _) as [[ts fps]|]; [|discriminate].
    intros [= <- <-]. apply elem_of_cons. auto.
  - destruct (view_elements _ _) as [[ts fps]|]; [|discriminate].
    intros [= <- <-]. apply elem_of_cons. auto.
Qed.

(** *** The two updaters that write into the previous store *)

Lemma set_maxBudget h l x c :
  h !! l = Some c ->
  set (HRef l) (lit "maxBudget") x h
  = (Ok tt, <[l := with_maxBudget x c]> h).
Proof.
  intros Hl. unfold set, bind, read. rewrite Hl. destruct c; reflexivity.
Qed.

Lemma updateBudget_update_exec k n h lp props lm mprops :
  h !! lp = Some (CObj props) ->
  Props.lookup (lit "months") props = Some (HRef lm) ->
  h !! lm = Some (CObj mprops) ->
  Actions.updateBudget_update k n (HRef lp) h =
  let h1 := h ++ [CObj props] in
  let x := HPrim (PNum (if JSNum.isNaN n then JSNum.zero else n)) in
  match default hundefined (Props.lookup k mprops) with
  | HRef lk =>
      match h1 !! lk with
      | Some c => (Ok (HRef (length h)), <[lk := with_maxBudget x c]> h1)
      | None => (Throw TypeError, h1)
      end
  | HPrim _ => (Throw TypeError, h1)
  end.
Proof.
  intros Hlp Hmonths Hlm. unfold Actions.updateBudget_update.
  unfold bind at 1. rewrite (own_props_obj _ _ _ Hlp).
  unfold bind at 1. unfold alloc at 1.
  assert (H1 : (h ++ [CObj props]) !! length h = Some (CObj props))
    by (apply list_lookup_middle; reflexivity).
  unfold bind at 1. rewrite (get_obj _ _ _ _ H1), Hmonths. simpl default.
  assert (H2 : (h ++ [CObj props]) !! lm = Some (CObj mprops))
    by (apply lookup_app_l_Some, Hlm).
  unfold bind at 1. rewrite (get_obj _ _ _ _ H2).
  cbv zeta. destruct (default hundefined (Props.lookup k mprops)) as [p|lk].
  - reflexivity.
  - destruct ((h ++ [CObj props]) !! lk) as [c|] eqn:Hlk.
    + unfold bind at 1. rewrite (set_maxBudget _ _ _ _ Hlk). reflexivity.
    + unfold set, read, bind. rewrite Hlk. reflexivity.
Qed.

Lemma resetMonth_update_exec k h lp props lm mprops :
  h !! lp = Some (CObj props) ->
  Props.lookup (lit "months") props = Some (HRef lm) ->
  h !! lm = Some (CObj mprops) ->
  Actions.resetMonth_update k (HRef lp) h =
  let n := length h in
  (Ok (HRef n),
   <[lm := CObj (Props.set k (HRef (S (S n))) mprops)]>
     (h ++ [CObj props; CArr [] [];
            CObj [(lit "maxBudget", HPrim (PNum JSNum.zero));
                  (lit "items", HRef (S n))]])).
Proof.
  intros Hlp Hmonths Hlm. unfold Actions.resetMonth_update.
  unfold bind at 1. rewrite (own_props_obj _ _ _ Hlp).
  unfold bind at 1. unfold alloc at 1.
  assert (H1 : (h ++ [CObj props]) !! length h = Some (CObj props))
    by (apply list_lookup_middle; reflexivity).
  unfold bind at 1. rewrite (get_obj _ _ _ _ H1), Hmonths. simpl default.
  unfold bind at 1. unfold Actions.new_month, bind, alloc.
  rewrite !length_app. simpl length.
  replace (length h + 1)%nat with (S (length h)) by lia.
  replace (S (length h) + 1)%nat with (S (S (length h))) by lia.
  rewrite <- !app_assoc. simpl app.
  erewrite set_obj; [reflexivity|]. apply lookup_app_l_Some, Hlm.
Qed.

(** *** Stores *)

Lemma is_store_prefix (h h1 : heap) prev months :
  is_store h prev months -> h `prefix_of` h1 -> is_store h1 prev months.
Proof.
  intros (lp & props & lm & -> & Hlp & Hm & Hlm) Hp.
  exists lp, props, lm. repeat apply conj; eauto using prefix_lookup_Some.
Qed.

Lemma month_entry_exec h lp props lm mprops k :
  h !! lp = Some (CObj props) ->
  Props.lookup (lit "months") props = Some (HRef lm) ->
  h !! lm = Some (CObj mprops) ->
  Actions.month_entry (HRef lp) k h
  = (Ok (default hundefined (Props.lookup k mprops)), h).
Proof.
  intros Hlp Hm Hlm. unfold Actions.month_entry.
  unfold bind. rewrite (get_obj _ _ _ _ Hlp), Hm. simpl default.
  apply get_obj, Hlm.
Qed.

(** The parts of a store that is a tree: the objects visited for the
    month entries are all different, and different from the store and
    from its [months]. *)
Lemma store_parts fuel h prev mprops :
  is_tree fuel h prev -> is_store h prev mprops ->
  exists f2 lp props lm tms fpms,
    fuel = S (S f2) /\ prev = HRef lp
    /\ h !! lp = Some (CObj props)
    /\ Props.lookup (lit "months") props = Some (HRef lm)
    /\ h !! lm = Some (CObj mprops)
    /\ view_members (view f2 h) mprops = Some (tms, fpms)
    /\ NoDup (lm :: fpms)
    /\ lp ∉ lm :: fpms.
Proof.
  intros (t & fp & Hv & Hnd) (lp & props & lm & -> & Hlp & Hm & Hlm).
  destruct fuel as [|f1]; [discriminate|]. simpl in Hv. rewrite Hlp in Hv.
  destruct (view_members (view f1 h) props) as [[ts fps]|] eqn:Hps;
    [|discriminate].
  injection Hv as <- <-.
  destruct (view_members_lookup _ _ _ _ _ _ Hps Hm)
    as (tm & fpm & pre & post & Hvm & ->).
  destruct f1 as [|f2]; [discriminate|]. simpl in Hvm. rewrite Hlm in Hvm.
  destruct (view_members (view f2 h) mprops) as [[tms fpms]|] eqn:Hms;
    [|discriminate].
  injection Hvm as <- <-.
  exists f2, lp, props, lm, tms, fpms. repeat apply conj; auto.
  - apply NoDup_cons in Hnd as [_ Hnd]. eapply segment_NoDup, Hnd.
  - apply NoDup_cons in Hnd as [Hlp' _]. intros Hin. apply Hlp'.
    eapply segment_subseteq, Hin.
Qed.

(** A month entry of a store that was read through was read through. *)
Lemma entry_view go mprops k tms fpms :
  view_members go mprops = Some (tms, fpms) ->
  (forall p, go (HPrim p) = Some (Prim p, [])) ->
  exists te fpe,
    go (default hundefined (Props.lookup k mprops)) = Some (te, fpe)
    /\ fpe ⊆ fpms.
Proof.
  intros Hms Hprim. destruct (Props.lookup k mprops) as [e|] eqn:Hl.
  - destruct (view_members_lookup _ _ _ _ _ _ Hms Hl)
      as (te & fpe & pre & post & He & ->).
    exists te, fpe. split; [assumption | apply segment_subseteq].
  - exists Undefined, []. split; [apply Hprim|]. intros y Hy.
    apply elem_of_nil in Hy. contradiction.
Qed.

Lemma view_prim f h p : view f h (HPrim p) = Some (Prim p, []).
Proof. destruct f; reflexivity. Qed.

(** After a successful [copy_on_write] the other months are the values
    they were. *)
Lemma cow_other_months k k' f prev h next h' months :
  (forall ci, appends (f ci)) ->
  is_store h prev months ->
  Actions.copy_on_write k f prev h = (Ok next, h') ->
  k' <> k ->
  h `prefix_of` h'
  /\ Actions.month_entry next k' h'
     = (Ok (default hundefined (Props.lookup k' months)), h').
Proof.
  intros Hf (lp & props & lm & -> & Hlp & Hm & Hlm) Hrun Hne.
  destruct (copy_on_write_spec k f (HRef lp) h Hf _ _ Hrun) as [Hpre Hpost].
  split; [exact Hpre|].
  destruct (Hpost _ eq_refl)
    as (props' & pm & mprops & cprops & ci & l & h2 & Hpost').
  cbv zeta in Hpost'.
  destruct Hpost' as (Hop & Hpm & Hmp & _ & _ & _ & H12 & -> & ->).
  rewrite (own_props_obj _ _ _ Hlp) in Hop. injection Hop as <-.
  rewrite (get_obj _ _ _ _ Hlp), Hm in Hpm. injection Hpm as <-.
  rewrite (own_props_obj _ _ _ Hlm) in Hmp. injection Hmp as <-.
  set (n := length h) in *.
  set (h1 := h ++ [CObj months;
                   CObj (Props.set (lit "months") (HRef n) props)]) in *.
  assert (Hn : h1 !! n = Some (CObj months))
    by (apply list_lookup_middle; reflexivity).
  assert (Hn1 : h1 !! S n
                = Some (CObj (Props.set (lit "months") (HRef n) props))).
  { subst h1 n. change (h ++ [CObj months; ?c]) with (h ++ [CObj months] ++ [c]).
    rewrite app_assoc. apply list_lookup_middle. rewrite length_app. simpl. lia. }
  set (tail := [CArr l []; CObj (Props.set (lit "items") (HRef (length h2)) cprops)]).
  assert (Hlen : (n < length (h2 ++ tail))%nat).
  { apply lookup_lt_Some with (x := CObj months).
    apply lookup_app_l_Some. eapply prefix_lookup_Some; eauto. }
  rewrite <- (PropsFacts.lookup_set_ne k k' (HRef (S (length h2))) months Hne).
  eapply month_entry_exec.
  - rewrite list_lookup_insert_ne by lia.
    apply lookup_app_l_Some. eapply prefix_lookup_Some; eauto.
  - apply PropsFacts.lookup_set_eq.
  - rewrite list_lookup_insert_eq by exact Hlen. reflexivity.
Qed.

(** [copy_on_write] run forward on a store whose month [k] is an
    object. *)
Lemma copy_on_write_exec k f h lp props lm mprops lk kprops l h2 :
  h !! lp = Some (CObj props) ->
  Props.lookup (lit "months") props = Some (HRef lm) ->
  h !! lm = Some (CObj mprops) ->
  Props.lookup k mprops = Some (HRef lk) ->
  h !! lk = Some (CObj kprops) ->
  let n := length h in
  let h1 := h ++ [CObj mprops;
                  CObj (Props.set (lit "months") (HRef n) props)] in
  f (default hundefined (Props.lookup (lit "items") kprops)) h1 = (Ok l, h2) ->
  h1 `prefix_of` h2 ->
  Actions.copy_on_write k f (HRef lp) h
  = (Ok (HRef (S n)),
     <[n := CObj (Props.set k (HRef (S (length h2))) mprops)]>
       (h2 ++ [CArr l [];
               CObj (Props.set (lit "items") (HRef (length h2)) kprops)])).
Proof.
  intros Hlp Hm Hlm Hk Hlk n h1 Hf H12. unfold Actions.copy_on_write.
  unfold bind at 1. rewrite (own_props_obj _ _ _ Hlp).
  unfold bind at 1. rewrite (get_obj _ _ _ _ Hlp), Hm. simpl default.
  unfold bind at 1. rewrite (own_props_obj _ _ _ Hlm).
  unfold bind at 1. unfold alloc at 1.
  unfold bind at 1. unfold alloc at 1.
  rewrite <- app_assoc. simpl app. fold n. fold h1.
  assert (Hh1 : h `prefix_of` h1) by (apply prefix_app_r; reflexivity).
  assert (Hn : h1 !! n = Some (CObj mprops))
    by (apply list_lookup_middle; reflexivity).
  assert (Hn1 : h1 !! length (h ++ [CObj mprops])
                = Some (CObj (Props.set (lit "months") (HRef n) props))).
  { subst h1 n. change (h ++ [CObj mprops; ?c]) with (h ++ [CObj mprops] ++ [c]).
    rewrite app_assoc. apply list_lookup_middle. reflexivity. }
  unfold bind at 1. rewrite (get_obj _ _ _ _ Hn1), PropsFacts.lookup_set_eq.
  simpl default.
  unfold bind at 1. rewrite (get_obj _ _ _ _ Hn), Hk. simpl default.
  assert (Hlk1 : h1 !! lk = Some (CObj kprops))
    by (eapply prefix_lookup_Some; eauto).
  unfold bind at 1. rewrite (own_props_obj _ _ _ Hlk1).
  unfold bind at 1. rewrite (get_obj _ _ _ _ Hlk1).
  unfold bind at 1. rewrite Hf.
  unfold bind at 1. unfold alloc at 1.
  unfold bind at 1. unfold alloc at 1.
  rewrite <- app_assoc. simpl app. rewrite !length_app. simpl length.
  replace (length h2 + 1)%nat with (S (length h2)) by lia.
  replace (length h + 1)%nat with (S n) by (subst n; lia).
  unfold bind at 1. erewrite set_obj; [reflexivity|].
  apply lookup_app_l_Some. eapply prefix_lookup_Some; eauto.
Qed.

(** What a run that called [setStore] ran. *)
Lemma bind_Ok_inv {A B} (c : M A) (f : A -> M B) h b h' :
  bind c f h = (Ok b, h') ->
  exists a h1, c h = (Ok a, h1) /\ f a h1 = (Ok b, h').
Proof.
  unfold bind. destruct (c h) as [[a|e] h1]; [eauto | discriminate].
Qed.

(** A successful [addItem], [removeItem] or [updateItem] is a
    [copy_on_write] from a heap that holds what the previous one held. *)
Lemma run_cow a k prev h next h' :
  match a with
  | Actions.UpdateBudget _ | Actions.ResetMonth _ => False
  | _ => True
  end ->
  Actions.run a k prev h = (Ok (Some next), h') ->
  exists f h0,
    (forall ci, appends (f ci))
    /\ h `prefix_of` h0
    /\ Actions.copy_on_write k f prev h0 = (Ok next, h').
Proof.
  destruct a as [newName newPrice id createdAt|confirmed id|id fields|val|c];
    simpl; intros Ha Hrun; try contradiction.
  - unfold Actions.addItem in Hrun.
    destruct (Actions.addItem_validate newName newPrice) as [[name price]|];
      [|discriminate].
    apply bind_Ok_inv in Hrun as (item & h0 & Halloc & Hrun).
    apply bind_Ok_inv in Hrun as (next' & h1 & Hrun & Hret).
    injection Hret as <- <-. rewrite addItem_update_cow in Hrun.
    exists (Actions.addItem_items item), h0. repeat apply conj; auto.
    + apply appends_addItem_items.
    + eapply appends_alloc, Halloc.
  - unfold Actions.removeItem in Hrun. destruct confirmed; [|discriminate].
    simpl in Hrun.
    apply bind_Ok_inv in Hrun as (next' & h1 & Hrun & Hret).
    injection Hret as <- <-. rewrite removeItem_update_cow in Hrun.
    exists (Actions.removeItem_items id), h. repeat apply conj; auto.
    apply appends_removeItem_items.
  - unfold Actions.updateItem in Hrun.
    apply bind_Ok_inv in Hrun as (next' & h1 & Hrun & Hret).
    injection Hret as <- <-. rewrite updateItem_update_cow in Hrun.
    exists (Actions.updateItem_items id fields), h. repeat apply conj; auto.
    apply appends_updateItem_items.
Qed.

End HeapFacts.

(** ** Frame properties of the store actions *)

Module ActionFacts.
Import Heap HeapLogic HeapFacts.

Lemma content_view fuel h e t fp :
  view fuel h e = Some (t, fp) -> content fuel h e = Some t.
Proof. unfold content. intros ->. reflexivity. Qed.

Lemma view_ref_lookup f (h : heap) l r :
  view f h (HRef l) = Some r -> exists c, h !! l = Some c.
Proof.
  destruct f as [|f]; simpl; [discriminate|].
  destruct (h !! l) as [c|]; [eauto | discriminate].
Qed.

Lemma default_ref (o : option hval) l :
  default hundefined o = HRef l -> o = Some (HRef l).
Proof. destruct o as [v|]; simpl; [congruence | discriminate]. Qed.

End ActionFacts.

(** C9. An action on the month [k] that sets a new store leaves every
    other month entry as it was: under a key [k'] other than [k] the new
    store has the value the previous one had, and read through it is the
    same tree as before. The previous store is a Store in the heap (an
    object whose [months] is an object) and a tree, as [JSON.parse] and
    the actions themselves build it. *)
Theorem other_months_unchanged
    (a : Actions.action) (k k' : jsstring) (fuel : nat) (h h' : Heap.heap)
    (prev next : Heap.hval) (months : list (jsstring * Heap.hval)) :
  Heap.is_store h prev months ->
  Heap.is_tree fuel h prev ->
  Actions.run a k prev h = (Ok (Some next), h') ->
  k' <> k ->
  exists e t,
    Actions.month_entry prev k' h = (Ok e, h)
    /\ Actions.month_entry next k' h' = (Ok e, h')
    /\ Heap.content fuel h e = Some t
    /\ Heap.content fuel h' e = Some t.
Proof.
  intros Hstore Htree Hrun Hne.
  destruct (HeapFacts.store_parts _ _ _ _ Htree Hstore)
    as (f2 & lp & props & lm & tms & fpms
        & -> & -> & Hlp & Hm & Hlm & Hms & Hnd & Hlp').
  apply NoDup_cons in Hnd as [Hlm' Hnd].
  apply not_elem_of_cons in Hlp' as [Hlplm Hlp'].
  pose proof (HeapFacts.month_entry_exec _ _ _ _ _ k' Hlp Hm Hlm) as Hentry.
  set (e := default Heap.hundefined (Props.lookup k' months)) in *.
  destruct (HeapFacts.entry_view _ _ k' _ _ Hms (HeapFacts.view_prim f2 h))
    as (te & fpe & Hve & Hsub).
  fold e in Hve.
  assert (Hve' : Heap.view (S (S f2)) h e = Some (te, fpe))
    by (eapply HeapFacts.view_fuel_mono; [exact Hve | lia]).
  exists e, te. split; [exact Hentry|].
  assert (Hcow : forall f h0,
             (forall ci, HeapLogic.appends (f ci)) ->
             h `prefix_of` h0 ->
             Actions.copy_on_write k f (Heap.HRef lp) h0 = (Ok next, h') ->
             Actions.month_entry next k' h' = (Ok e, h')
             /\ Heap.content (S (S f2)) h e = Some te
             /\ Heap.content (S (S f2)) h' e = Some te).
  { intros f h0 Hf H0 Hc.
    destruct (HeapFacts.cow_other_months k k' f _ _ _ _ months Hf
                (HeapFacts.is_store_prefix _ _ _ _ Hstore H0) Hc Hne)
      as [H0' Hnext].
    repeat apply conj; [exact Hnext | eapply ActionFacts.content_view, Hve' |].
    eapply ActionFacts.content_view, HeapFacts.view_prefix; [|exact Hve'].
    etransitivity; eassumption. }
  destruct a as [newName newPrice id createdAt|confirmed id|id fields|val|c].
  - destruct (fun H => HeapFacts.run_cow _ _ _ _ _ _ H Hrun) as (f & h0 & Hf & H0 & Hc);
      [exact I|].
    eauto.
  - destruct (fun H => HeapFacts.run_cow _ _ _ _ _ _ H Hrun) as (f & h0 & Hf & H0 & Hc);
      [exact I|].
    eauto.
  - destruct (fun H => HeapFacts.run_cow _ _ _ _ _ _ H Hrun) as (f & h0 & Hf & H0 & Hc);
      [exact I|].
    eauto.
  - (* updateBudget writes into the entry of [k] *)
    clear Hcow. simpl in Hrun. unfold Actions.updateBudget in Hrun.
    apply HeapFacts.bind_Ok_inv in Hrun as (next' & h1 & Hrun & Hret).
    injection Hret as <- <-.
    rewrite (HeapFacts.updateBudget_update_exec _ _ _ _ _ _ _ Hlp Hm Hlm) in Hrun.
    cbv zeta in Hrun.
    destruct (default Heap.hundefined (Props.lookup k months)) as [p|lk] eqn:Hk;
      [discriminate|].
    apply ActionFacts.default_ref in Hk.
    destruct (HeapFacts.view_members_lookup _ _ _ _ _ _ Hms Hk)
      as (tk & fpk & pre & post & Hvk & Hfp).
    pose proof (HeapFacts.view_root _ _ _ _ _ Hvk) as Hroot.
    destruct (ActionFacts.view_ref_lookup _ _ _ _ Hvk) as [c Hlk].
    assert (Hlk1 : (h ++ [Heap.CObj props]) !! lk = Some c)
      by (apply lookup_app_l_Some, Hlk).
    rewrite Hlk1 in Hrun. injection Hrun as <- <-.
    assert (Hin : lk ∈ fpms) by (rewrite Hfp; apply HeapFacts.segment_subseteq, Hroot).
    assert (Hlen : (lk < length h)%nat) by (eapply lookup_lt_Some, Hlk).
    assert (Hnotin : lk ∉ fpe).
    { subst e. destruct (Props.lookup k' months) as [e'|] eqn:Hk'; simpl in Hve.
      - intros Hy.
        eapply (HeapFacts.view_members_disjoint _ _ k k' _ _ _ _ Hms Hnd);
          eauto.
      - unfold Heap.hundefined in Hve.
        rewrite HeapFacts.view_prim in Hve. injection Hve as <- <-.
        apply not_elem_of_nil. }
    repeat apply conj.
    + eapply HeapFacts.month_entry_exec.
      * rewrite list_lookup_insert_ne by lia.
        apply list_lookup_middle. reflexivity.
      * exact Hm.
      * rewrite list_lookup_insert_ne by (intros ->; contradiction).
        apply lookup_app_l_Some, Hlm.
    + eapply ActionFacts.content_view, Hve'.
    + eapply ActionFacts.content_view, HeapFacts.view_insert_notin; [|exact Hnotin].
      eapply HeapFacts.view_prefix; [|exact Hve'].
      apply prefix_app_r. reflexivity.
  - (* resetMonth writes into [months] *)
    clear Hcow. simpl in Hrun. unfold Actions.resetMonth in Hrun.
    destruct c; [|discriminate]. simpl in Hrun.
    apply HeapFacts.bind_Ok_inv in Hrun as (next' & h1 & Hrun & Hret).
    injection Hret as <- <-.
    rewrite (HeapFacts.resetMonth_update_exec _ _ _ _ _ _ Hlp Hm Hlm) in Hrun.
    cbv zeta in Hrun. injection Hrun as <- <-.
    assert (Hlen : (lm < length h)%nat) by (eapply lookup_lt_Some, Hlm).
    repeat apply conj.
    + unfold e.
      rewrite <- (PropsFacts.lookup_set_ne k k'
                    (Heap.HRef (S (S (length h)))) months Hne).
      eapply HeapFacts.month_entry_exec.
      * rewrite list_lookup_insert_ne by lia.
        apply list_lookup_middle. reflexivity.
      * exact Hm.
      * rewrite list_lookup_insert_eq; [reflexivity|].
        rewrite length_app. lia.
    + eapply ActionFacts.content_view, Hve'.
    + eapply ActionFacts.content_view, HeapFacts.view_insert_notin.
      * eapply HeapFacts.view_prefix; [|exact Hve'].
        apply prefix_app_r. reflexivity.
      * intros Hy. apply Hlm', Hsub, Hy.
Qed.

(** ** Adding an item *)

Module AddItemFacts.
Import Heap HeapLogic HeapFacts.








End AddItemFacts.


(** ** The ceiling of a month *)

Module BudgetFacts.
Import Heap HeapLogic HeapFacts.






End BudgetFacts.


(** ** The actions on a store of two months *)

Module ExampleFacts.
Import Heap Examples.

Lemma store0_is_store : is_store heap0 store0 months0.
Proof. exists 8%nat, [(lit "months", HRef 7%nat)], 7%nat. repeat split. Qed.

Lemma store0_is_tree : is_tree 5 heap0 store0.
Proof.
  exists two_months, [8; 7; 4; 3; 0; 1; 2; 6; 5]%nat. split.
  - vm_compute. reflexivity.
  - compute_done.
Qed.

Lemma may_not_june : june <> may.
Proof. intros H. vm_compute in H. discriminate. Qed.

End ExampleFacts.

(** X1. The actions that copy what they change ([addItem], [removeItem]
    and [updateItem]) write to no object that was there: whatever the store and however the action completes, the heap
    it leaves starts with the heap it found, and every value reads
    through to the same tree as before. *)
Theorem copying_actions_keep_previous_store
    (a : Actions.action) (k : jsstring) (prev : Heap.hval) (h h' : Heap.heap)
    (r : outcome (option Heap.hval)) :
  Actions.copies_on_write a = true ->
  Actions.run a k prev h = (r, h') ->
  h `prefix_of` h'
  /\ forall fuel v t,
       Heap.content fuel h v = Some t -> Heap.content fuel h' v = Some t.
Proof.
  intros Ha Hrun.
  assert (Hp : h `prefix_of` h').
  { revert Hrun. destruct a as [newName newPrice id createdAt|c id|id fields|val|c];
      try discriminate; simpl; clear Ha.
    - unfold Actions.addItem.
      destruct (Actions.addItem_validate newName newPrice) as [[name price]|];
        [|intros [= <- <-]; reflexivity].
      apply HeapFacts.appends_bind; [apply HeapFacts.appends_alloc|].
      intros item. apply HeapFacts.appends_bind;
        [|intros next; apply HeapFacts.appends_pure, HeapFacts.pure_ret].
      intros h0 r0 h1. rewrite HeapFacts.addItem_update_cow. intros Hc.
      apply (HeapFacts.copy_on_write_spec _ _ _ _
               (HeapFacts.appends_addItem_items item) _ _ Hc).
    - unfold Actions.removeItem. destruct c; simpl;
        [|intros [= <- <-]; reflexivity].
      apply HeapFacts.appends_bind;
        [|intros next; apply HeapFacts.appends_pure, HeapFacts.pure_ret].
      intros h0 r0 h1. rewrite HeapFacts.removeItem_update_cow. intros Hc.
      apply (HeapFacts.copy_on_write_spec _ _ _ _
               (HeapFacts.appends_removeItem_items id) _ _ Hc).
    - unfold Actions.updateItem.
      apply HeapFacts.appends_bind;
        [|intros next; apply HeapFacts.appends_pure, HeapFacts.pure_ret].
      intros h0 r0 h1. rewrite HeapFacts.updateItem_update_cow. intros Hc.
      apply (HeapFacts.copy_on_write_spec _ _ _ _
               (HeapFacts.appends_updateItem_items id fields) _ _ Hc). }
  split; [exact Hp|]. intros fuel v t. unfold Heap.content.
  destruct (Heap.view fuel h v) as [[t' fp]|] eqn:Hv; [|discriminate].
  intros [= <-]. rewrite (HeapFacts.view_prefix _ _ Hp _ _ _ Hv). reflexivity.
Qed.

Lemma copying_actions_keep_previous_store_witness :
  Examples.heap0
    `prefix_of` Examples.heap_of (Actions.RemoveItem true (Heap.HPrim (PStr (lit "b"))))
                                 Examples.may
  /\ forall fuel v t,
       Heap.content fuel Examples.heap0 v = Some t ->
       Heap.content fuel
         (Examples.heap_of (Actions.RemoveItem true (Heap.HPrim (PStr (lit "b"))))
                           Examples.may) v = Some t.
Proof.
  apply (copying_actions_keep_previous_store
           (Actions.RemoveItem true (Heap.HPrim (PStr (lit "b")))) Examples.may
           Examples.store0 Examples.heap0 _
           (fst (Actions.run (Actions.RemoveItem true (Heap.HPrim (PStr (lit "b"))))
                             Examples.may Examples.store0 Examples.heap0))).
  - reflexivity.
  - vm_compute. reflexivity.
Defined.

(** C3, as the code has it. [updateBudget] and [resetMonth] write into
    the previous store: in the store of two months, read through before
    and after the action, the previous store shows May with the ceiling
    100 and three items before, with the ceiling 250 after
    [updateBudget("250")], and empty after [resetMonth()]. *)
Theorem updateBudget_and_resetMonth_write_into_previous_store :
  Heap.content 5 Examples.heap0 Examples.store0 = Some Examples.two_months
  /\ fst (Actions.run (Actions.UpdateBudget (lit "250")) Examples.may
                      Examples.store0 Examples.heap0)
     = Ok (Some (Heap.HRef 9%nat))
  /\ Heap.content 5 (Examples.heap_of (Actions.UpdateBudget (lit "250"))
                                      Examples.may) Examples.store0
     = Some (Examples.store_with
               (Examples.month_of (JSNum.of_Z 250)
                                  (Examples.example_items 50 60 40)))
  /\ fst (Actions.run (Actions.ResetMonth true) Examples.may
                      Examples.store0 Examples.heap0)
     = Ok (Some (Heap.HRef 9%nat))
  /\ Heap.content 5 (Examples.heap_of (Actions.ResetMonth true) Examples.may)
                  Examples.store0
     = Some (Examples.store_with (Examples.month_of JSNum.zero [])).
Proof. repeat apply conj; vm_compute; reflexivity. Qed.





Lemma other_months_unchanged_witness :
  exists e t,
    Actions.month_entry Examples.store0 Examples.june Examples.heap0
    = (Ok e, Examples.heap0)
    /\ Actions.month_entry
         (Examples.next_of (Actions.UpdateBudget (lit "250")) Examples.may)
         Examples.june
         (Examples.heap_of (Actions.UpdateBudget (lit "250")) Examples.may)
       = (Ok e, Examples.heap_of (Actions.UpdateBudget (lit "250")) Examples.may)
    /\ Heap.content 5 Examples.heap0 e = Some t
    /\ Heap.content 5
         (Examples.heap_of (Actions.UpdateBudget (lit "250")) Examples.may) e
       = Some t.
Proof.
  apply (other_months_unchanged (Actions.UpdateBudget (lit "250"))
           Examples.may Examples.june 5%nat Examples.heap0 _ Examples.store0 _
           Examples.months0).
  - exact ExampleFacts.store0_is_store.
  - exact ExampleFacts.store0_is_tree.
  - vm_compute. reflexivity.
  - exact ExampleFacts.may_not_june.
Defined.

(** ** Reading back what was serialized *)

Module JSONFacts.
Import JSON RoundTrip.

(** *** White space *)

Lemma skip_ws_app ws s : Forall (fun c => is_ws c = true) ws ->
  skip_ws (ws ++ s) = skip_ws s.
Proof.
  induction 1 as [|c ws Hc _ IH]; simpl; [reflexivity|]. rewrite Hc. exact IH.
Qed.

Lemma skip_ws_cons c s : is_ws c = false -> skip_ws (c :: s) = c :: s.
Proof. intros H. simpl. rewrite H. reflexivity. Qed.

Lemma newline_ws gap indent :
  Forall (fun c => is_ws c = true) indent ->
  Forall (fun c => is_ws c = true) (newline gap indent).
Proof.
  intros H. unfold newline. destruct gap; [constructor|].
  constructor; [reflexivity | exact H].
Qed.

(** *** Escapes *)

Lemma digit_of_hex_digit d :
  (d < 16)%N -> StringToNumber.digit_of 16 (hex_digit d) = Some d.
Proof.
  intros Hd. unfold hex_digit, StringToNumber.digit_of.
  destruct (N.ltb_spec d 10).
  - replace ((48 <=? 48 + d) && (48 + d <=? 57))%N with true
      by (symmetry; apply andb_true_iff; split; apply N.leb_le; lia).
    replace (48 + d - 48)%N with d by lia.
    replace (d <? 16)%N with true by (symmetry; apply N.ltb_lt; lia).
    reflexivity.
  - replace ((48 <=? 87 + d) && (87 + d <=? 57))%N with false
      by (symmetry; apply andb_false_iff; right; apply N.leb_gt; lia).
    replace ((97 <=? 87 + d) && (87 + d <=? 102))%N with true
      by (symmetry; apply andb_true_iff; split; apply N.leb_le; lia).
    replace (87 + d - 87)%N with d by lia.
    replace (d <? 16)%N with true by (symmetry; apply N.ltb_lt; lia).
    reflexivity.
Qed.

Lemma hex4_value c :
  (c < 65536)%N ->
  (c / 4096 mod 16 * 4096 + c / 256 mod 16 * 256 + c / 16 mod 16 * 16
   + c mod 16 = c)%N.
Proof.
  intros Hc.
  pose proof (N.div_mod c 16 ltac:(discriminate)).
  pose proof (N.div_mod (c / 16) 16 ltac:(discriminate)).
  pose proof (N.div_mod (c / 16 / 16) 16 ltac:(discriminate)).
  pose proof (N.mod_lt c 16 ltac:(discriminate)).
  pose proof (N.mod_lt (c / 16) 16 ltac:(discriminate)).
  pose proof (N.mod_lt (c / 16 / 16) 16 ltac:(discriminate)).
  assert (H256 : (c / 256 = c / 16 / 16)%N)
    by (rewrite N.Div0.div_div; reflexivity).
  assert (H4096 : (c / 4096 = c / 16 / 16 / 16)%N)
    by (rewrite !N.Div0.div_div; reflexivity).
  assert (Hsmall : (c / 16 / 16 / 16 < 16)%N).
  { rewrite <- H4096. apply N.Div0.div_lt_upper_bound. exact Hc. }
  rewrite H256, H4096. rewrite (N.mod_small (c / 16 / 16 / 16) 16 Hsmall).
  pose proof (N.div_mod (c / 16 / 16) 16 ltac:(discriminate)). lia.
Qed.

Lemma parse_hex4_hex4 c rest :
  (c < 65536)%N -> parse_hex4 (hex4 c ++ rest) = Some (c, rest).
Proof.
  intros Hc. unfold hex4. cbv beta iota delta [parse_hex4 app].
  rewrite !digit_of_hex_digit by (apply N.mod_lt; discriminate).
  rewrite (hex4_value c Hc). reflexivity.
Qed.

(** A code unit that stands for itself in a string. *)
Lemma parse_string_body_literal fuel c s :
  (c =? 34)%N = false -> (c =? 92)%N = false -> (c <? 32)%N = false ->
  parse_string_body (S fuel) (c :: s)
  = match parse_string_body fuel s with
    | Some (t, r) => Some (c :: t, r)
    | None => None
    end.
Proof. intros H1 H2 H3. simpl. rewrite H1, H2, H3. reflexivity. Qed.

Lemma quote_unit_length c : (1 <= length (quote_unit c))%nat.
Proof.
  unfold quote_unit.
  repeat match goal with |- context [if ?b then _ else _] => destruct b end;
    simpl; lia.
Qed.

(** One code unit is read back from its text. *)
Lemma parse_quote_unit fuel c s t r :
  parse_string_body fuel s = Some (t, r) ->
  parse_string_body (S fuel) (quote_unit c ++ s) = Some (c :: t, r).
Proof.
  intros Hs. unfold quote_unit.
  destruct (N.eqb_spec c 8) as [->|H8]; [simpl; rewrite Hs; reflexivity|].
  destruct (N.eqb_spec c 9) as [->|H9]; [simpl; rewrite Hs; reflexivity|].
  destruct (N.eqb_spec c 10) as [->|H10]; [simpl; rewrite Hs; reflexivity|].
  destruct (N.eqb_spec c 12) as [->|H12]; [simpl; rewrite Hs; reflexivity|].
  destruct (N.eqb_spec c 13) as [->|H13]; [simpl; rewrite Hs; reflexivity|].
  destruct (N.eqb_spec c 34) as [->|H34]; [simpl; rewrite Hs; reflexivity|].
  destruct (N.eqb_spec c 92) as [->|H92]; [simpl; rewrite Hs; reflexivity|].
  destruct ((c <? 32)%N || is_high_surrogate c || is_low_surrogate c) eqn:He.
  - assert (Hc : (c < 65536)%N).
    { unfold is_high_surrogate, is_low_surrogate in He.
      repeat (apply orb_true_iff in He as [He|He]).
      - apply N.ltb_lt in He. lia.
      - apply andb_true_iff in He as [_ He]. apply N.leb_le in He. lia.
      - apply andb_true_iff in He as [_ He]. apply N.leb_le in He. lia. }
    unfold unicode_escape.
    change (parse_string_body (S fuel) ((92 :: 117 :: hex4 c) ++ s)%N)
      with (match parse_hex4 (hex4 c ++ s) with
            | Some (u, s3) =>
                match parse_string_body fuel s3 with
                | Some (t, r) => Some (u :: t, r)
                | None => None
                end
            | None => None
            end).
    rewrite (parse_hex4_hex4 c s Hc), Hs. reflexivity.
  - apply orb_false_iff in He as [He _]. apply orb_false_iff in He as [He _].
    simpl app. rewrite parse_string_body_literal, Hs; auto;
      apply N.eqb_neq; assumption.
Qed.

(** A string is read back from its text, up to the closing quote. *)
Lemma parse_quote_units s :
  (forall fuel rest,
      (length (quote_units s) < fuel)%nat ->
      parse_string_body fuel (quote_units s ++ 34%N :: rest) = Some (s, rest))
  /\ (forall c fuel rest,
         (length (quote_units (c :: s)) < fuel)%nat ->
         parse_string_body fuel (quote_units (c :: s) ++ 34%N :: rest)
         = Some (c :: s, rest)).
Proof.
  induction s as [|d s [IH1 IH2]].
  - split.
    + intros [|fuel] rest Hf; [simpl in Hf; lia | reflexivity].
    + intros c fuel rest Hf. simpl quote_units in *.
      destruct fuel as [|fuel]; [lia|].
      apply parse_quote_unit.
      pose proof (quote_unit_length c).
      destruct fuel as [|fuel]; [lia | reflexivity].
  - split; [intros fuel rest Hf; apply IH2; assumption|].
    intros c fuel rest Hf.
    change (quote_units (c :: d :: s))
      with (if (is_high_surrogate c && is_low_surrogate d)%bool
            then c :: d :: quote_units s
            else quote_unit c ++ quote_units (d :: s)) in *.
    destruct (is_high_surrogate c && is_low_surrogate d)%bool eqn:Hpair.
    + apply andb_true_iff in Hpair as [Hh Hl].
      unfold is_high_surrogate in Hh. unfold is_low_surrogate in Hl.
      apply andb_true_iff in Hh as [Hh1 Hh2]. apply andb_true_iff in Hl as [Hl1 Hl2].
      apply N.leb_le in Hh1, Hh2, Hl1, Hl2.
      simpl length in Hf.
      destruct fuel as [|[|fuel]]; try lia.
      simpl app.
      rewrite parse_string_body_literal
        by (first [apply N.eqb_neq | apply N.ltb_ge]; lia).
      rewrite parse_string_body_literal
        by (first [apply N.eqb_neq | apply N.ltb_ge]; lia).
      rewrite IH1 by lia. reflexivity.
    + rewrite length_app in Hf. pose proof (quote_unit_length c).
      destruct fuel as [|fuel]; [lia|].
      rewrite <- app_assoc. apply parse_quote_unit.
      apply IH2. lia.
Qed.

Lemma parse_string_quote s fuel rest :
  (length (quote_units s) < fuel)%nat ->
  parse_string_body fuel (quote_units s ++ 34%N :: rest) = Some (s, rest).
Proof. apply (parse_quote_units s). Qed.

(** *** Number tokens *)

Lemma digit_of_10 c :
  StringToNumber.digit_of 10 c = if is_digit c then Some (c - 48)%N else None.
Proof.
  unfold StringToNumber.digit_of, is_digit.
  destruct (N.leb_spec 48 c), (N.leb_spec c 57), (N.leb_spec 97 c),
    (N.leb_spec c 102), (N.leb_spec 65 c), (N.leb_spec c 70);
    simpl; try lia; try reflexivity;
    first [ replace (c - 48 <? 10)%N with true
              by (symmetry; apply N.ltb_lt; lia)
          | replace (c - 87 <? 10)%N with false
              by (symmetry; apply N.ltb_ge; lia)
          | replace (c - 55 <? 10)%N with false
              by (symmetry; apply N.ltb_ge; lia) ];
    reflexivity.
Qed.

Lemma ends_token_cons c rest :
  ends_token (c :: rest) = true ->
  is_digit c = false /\ (c =? 46)%N = false
  /\ (c =? 101)%N = false /\ (c =? 69)%N = false.
Proof.
  simpl. rewrite !andb_true_iff, !negb_true_iff. tauto.
Qed.

(** Digits are read the same when text that ends the token follows. *)
Lemma read_digits_app rest : ends_token rest = true ->
  forall s acc cnt v n r,
    StringToNumber.read_digits 10 acc cnt s = (v, n, r) ->
    StringToNumber.read_digits 10 acc cnt (s ++ rest) = (v, n, r ++ rest).
Proof.
  intros Hrest. induction s as [|c s IH]; intros acc cnt v n r H.
  - simpl in H. injection H as <- <- <-. simpl app.
    destruct rest as [|c rest]; [reflexivity|].
    apply ends_token_cons in Hrest as (Hd & _). simpl.
    rewrite digit_of_10, Hd. reflexivity.
  - simpl in *. destruct (StringToNumber.digit_of 10 c) as [d|].
    + apply IH, H.
    + injection H as <- <- <-. reflexivity.
Qed.

Lemma parse_int_app rest s ip s1 : ends_token rest = true ->
  parse_int s = Some (ip, s1) ->
  parse_int (s ++ rest) = Some (ip, s1 ++ rest).
Proof.
  intros Hrest. destruct s as [|c s]; [discriminate|].
  unfold parse_int. change ((c :: s) ++ rest) with (c :: (s ++ rest)).
  cbv beta iota.
  destruct (c =? 48)%N; [intros [= <- <-]; reflexivity|].
  destruct (is_digit c); [|discriminate].
  destruct (StringToNumber.read_digits 10 0 0 (c :: s)) as [[v n] r] eqn:Hr.
  change (c :: (s ++ rest)) with ((c :: s) ++ rest).
  rewrite (read_digits_app rest Hrest _ _ _ _ _ _ Hr).
  intros [= <- <-]. reflexivity.
Qed.

Lemma parse_frac_app rest ip s m nf s2 : ends_token rest = true ->
  parse_frac ip s = Some (m, nf, s2) ->
  parse_frac ip (s ++ rest) = Some (m, nf, s2 ++ rest).
Proof.
  intros Hrest. destruct s as [|c s]; simpl.
  - intros [= <- <- <-]. destruct rest as [|c rest]; [reflexivity|].
    apply ends_token_cons in Hrest as (_ & Hp & _). simpl. rewrite Hp.
    reflexivity.
  - destruct (c =? 46)%N; [|intros [= <- <- <-]; reflexivity].
    destruct (StringToNumber.read_digits 10 ip 0 s) as [[v n] r] eqn:Hr.
    rewrite (read_digits_app rest Hrest _ _ _ _ _ _ Hr).
    destruct (0 <? n); [|discriminate]. intros [= <- <- <-]. reflexivity.
Qed.

Lemma parse_exp_app rest s e s3 : ends_token rest = true ->
  parse_exp s = Some (e, s3) ->
  parse_exp (s ++ rest) = Some (e, s3 ++ rest).
Proof.
  intros Hrest. destruct s as [|c s].
  - intros [= <- <-]. destruct rest as [|c rest]; [reflexivity|].
    apply ends_token_cons in Hrest as (_ & _ & He & HE). simpl.
    rewrite He, HE. reflexivity.
  - unfold parse_exp. change ((c :: s) ++ rest) with (c :: (s ++ rest)).
    cbv beta iota.
    destruct ((c =? 101)%N || (c =? 69)%N); [|intros [= <- <-]; reflexivity].
    destruct s as [|d s]; [simpl; discriminate|].
    change ((d :: s) ++ rest) with (d :: (s ++ rest)). cbv beta iota.
    destruct (d =? 43)%N; [|destruct (d =? 45)%N]; cbv beta iota.
    + destruct (StringToNumber.read_digits 10 0 0 s) as [[v n] r] eqn:Hr.
      rewrite (read_digits_app rest Hrest _ _ _ _ _ _ Hr).
      destruct (0 <? n); [|discriminate]. intros [= <- <-]. reflexivity.
    + destruct (StringToNumber.read_digits 10 0 0 s) as [[v n] r] eqn:Hr.
      rewrite (read_digits_app rest Hrest _ _ _ _ _ _ Hr).
      destruct (0 <? n); [|discriminate]. intros [= <- <-]. reflexivity.
    + destruct (StringToNumber.read_digits 10 0 0 (d :: s))
        as [[v n] r] eqn:Hr.
      change (d :: (s ++ rest)) with ((d :: s) ++ rest).
      rewrite (read_digits_app rest Hrest _ _ _ _ _ _ Hr).
      destruct (0 <? n); [|discriminate]. intros [= <- <-]. reflexivity.
Qed.

(** A number token is read the same when text that ends it follows. *)
Lemma parse_number_app rest t y r : ends_token rest = true ->
  parse_number t = Some (y, r) ->
  parse_number (t ++ rest) = Some (y, r ++ rest).
Proof.
  intros Hrest. unfold parse_number.
  assert (Hsign : forall neg s0, parse_sign t = (neg, s0) ->
                  parse_int s0 <> None ->
                  parse_sign (t ++ rest) = (neg, s0 ++ rest)).
  { intros neg s0. destruct t as [|c t]; simpl.
    - intros [= <- <-] H. contradiction H. reflexivity.
    - destruct (c =? 45)%N; intros [= <- <-] _; reflexivity. }
  destruct (parse_sign t) as [neg s0].
  destruct (parse_int s0) as [[ip s1]|] eqn:Hint; [|discriminate].
  rewrite (Hsign neg s0 eq_refl) by (rewrite Hint; discriminate).
  rewrite (parse_int_app rest _ _ _ Hrest Hint).
  destruct (parse_frac ip s1) as [[[m nf] s2]|] eqn:Hfrac; [|discriminate].
  rewrite (parse_frac_app rest _ _ _ _ _ Hrest Hfrac).
  destruct (parse_exp s2) as [[e s3]|] eqn:Hexp; [|discriminate].
  rewrite (parse_exp_app rest _ _ _ Hrest Hexp).
  intros [= <- <-]. reflexivity.
Qed.

(** A number token starts with a minus sign or a digit. *)
Lemma parse_number_head t y r :
  parse_number t = Some (y, r) ->
  exists c t', t = c :: t' /\ ((c =? 45)%N = true \/ is_digit c = true).
Proof.
  unfold parse_number. destruct t as [|c t]; [discriminate|]. simpl parse_sign.
  intros H. exists c, t. split; [reflexivity|].
  destruct (c =? 45)%N eqn:Hc; [auto|]. right.
  simpl in H. destruct (c =? 48)%N eqn:H0.
  - apply N.eqb_eq in H0. subst c. reflexivity.
  - destruct (is_digit c); [reflexivity | discriminate].
Qed.

(** *** Objects as they are read *)

Lemma lookup_not_in {V} k (ps : list (jsstring * V)) :
  k ∉ map fst ps -> Props.lookup k ps = None.
Proof.
  induction ps as [|[k' v] ps IH]; simpl; intros Hk; [reflexivity|].
  apply not_elem_of_cons in Hk as [Hne Hk].
  rewrite bool_decide_false by congruence. auto.
Qed.

(** Members with different keys, none of them an array index, make the
    object that lists them in their order. *)
Lemma assign_fresh {V} (ps : list (jsstring * V)) : forall acc,
  NoDup (map fst (acc ++ ps)) ->
  Forall (fun kv => Props.array_index (fst kv) = None) ps ->
  Props.assign acc ps = acc ++ ps.
Proof.
  induction ps as [|[k v] ps IH]; intros acc Hnd Hidx.
  - rewrite app_nil_r. reflexivity.
  - apply Forall_cons in Hidx as [Hk Hidx]. simpl in Hk.
    unfold Props.assign. simpl fold_left.
    assert (Hset : Props.set k v acc = acc ++ [(k, v)]).
    { unfold Props.set. rewrite lookup_not_in, Hk; [reflexivity|].
      rewrite map_app in Hnd. apply NoDup_app in Hnd as (_ & Hdisj & _).
      intros Hin. apply (Hdisj k Hin). simpl. apply elem_of_cons. auto. }
    rewrite Hset. change (fold_left _ ps (acc ++ [(k, v)]))
      with (Props.assign (acc ++ [(k, v)]) ps).
    rewrite IH; [rewrite <- app_assoc; reflexivity | | exact Hidx].
    rewrite <- app_assoc. exact Hnd.
Qed.

(** *** Values *)

Lemma parse_value_skip fuel ws s :
  Forall (fun c => is_ws c = true) ws ->
  parse_value fuel (ws ++ s) = parse_value fuel s.
Proof.
  intros Hws. destruct fuel as [|fuel]; [reflexivity|]. simpl.
  rewrite (skip_ws_app ws s Hws). reflexivity.
Qed.

Lemma next_is_skip c ws s :
  Forall (fun c => is_ws c = true) ws ->
  next_is c (ws ++ s) = next_is c s.
Proof. intros Hws. unfold next_is. rewrite (skip_ws_app ws s Hws). reflexivity. Qed.

Lemma serialize_Arr gap indent l :
  serialize gap indent (Arr l)
  = Some (wrap 91 93 gap indent (elements_text gap (indent ++ gap) l)).
Proof.
  simpl. f_equal.
Qed.

Lemma serialize_Obj gap indent ps :
  serialize gap indent (Obj ps)
  = Some (wrap 123 125 gap indent (members_text gap (indent ++ gap) ps)).
Proof.
  simpl. do 2 f_equal. induction ps as [|[k x] ps IH]; simpl; [reflexivity|].
  rewrite IH. reflexivity.
Qed.

Lemma deep_equal_Arr l m :
  Shape.deep_equal (Arr l) (Arr m) = Shape.forallb2 Shape.deep_equal l m.
Proof.
  simpl. revert m. induction l as [|x l IH]; intros [|y m]; try reflexivity.
  simpl. rewrite <- IH. reflexivity.
Qed.

Lemma deep_equal_Obj ps qs :
  Shape.deep_equal (Obj ps) (Obj qs)
  = Shape.props_equal Shape.deep_equal ps qs.
Proof.
  simpl. revert qs.
  induction ps as [|[k x] ps IH]; intros [|[k' y] qs]; try reflexivity.
  simpl. rewrite <- IH. reflexivity.
Qed.

(** The text of a readable value is there, and starts with a character
    that is not white space and closes no array. *)
Lemma serialize_head gap indent v :
  readable v ->
  exists c t, serialize gap indent v = Some (c :: t)
              /\ is_ws c = false /\ (c =? 93)%N = false.
Proof.
  intros [Hp Hn]. destruct v as [[| |[]|x|s]|l|ps]; simpl in Hp;
    try discriminate.
  - eexists _, _. repeat split; reflexivity.
  - eexists _, _. repeat split; reflexivity.
  - eexists _, _. repeat split; reflexivity.
  - simpl in Hn. rewrite andb_true_r in Hn. unfold Shape.reads_back in Hn.
    simpl serialize. rewrite Hp.
    destruct (parse_number (NumberToString.Number_toString x))
      as [[y r]|] eqn:Hy; [|discriminate].
    destruct (parse_number_head _ _ _ Hy) as (c & t & Ht & Hc).
    rewrite Ht. exists c, t. split; [reflexivity|].
    destruct Hc as [Hc|Hc].
    + apply N.eqb_eq in Hc. subst c. split; reflexivity.
    + unfold is_digit in Hc. apply andb_true_iff in Hc as [H1 H2].
      apply N.leb_le in H1, H2. unfold is_ws.
      split; [|apply N.eqb_neq; lia].
      repeat (apply orb_false_iff; split); apply N.eqb_neq; lia.
  - eexists _, _. repeat split; reflexivity.
  - rewrite serialize_Arr. unfold wrap.
    destruct (elements_text gap (indent ++ gap) l);
      eexists _, _; repeat split; reflexivity.
  - rewrite serialize_Obj. unfold wrap.
    destruct (members_text gap (indent ++ gap) ps);
      eexists _, _; repeat split; reflexivity.
Qed.

Lemma forallb_flat_map {A B} (f : B -> bool) (g : A -> list B) l :
  forallb f (flat_map g l) = forallb (fun x => forallb f (g x)) l.
Proof.
  induction l as [|x l IH]; simpl; [reflexivity|].
  rewrite forallb_app, IH. reflexivity.
Qed.

Lemma readable_Arr l : readable (Arr l) -> Forall readable l.
Proof.
  intros [Hp Hn]. simpl in Hp, Hn. rewrite forallb_flat_map in Hn.
  rewrite forallb_forall in Hp, Hn. apply List.Forall_forall.
  intros x Hx. split; auto.
Qed.

Lemma readable_Obj ps :
  readable (Obj ps) ->
  Forall (fun kv => readable (snd kv)) ps
  /\ Forall (fun kv => Props.array_index (fst kv) = None) ps
  /\ NoDup (map fst ps).
Proof.
  intros [Hp Hn]. simpl in Hp, Hn. rewrite forallb_flat_map in Hn.
  apply andb_true_iff in Hp as [Hp Hnd].
  apply andb_true_iff in Hp as [Hp Hidx].
  rewrite forallb_forall in Hp, Hn, Hidx.
  repeat apply conj.
  - apply List.Forall_forall. intros x Hx. split; auto.
  - apply List.Forall_forall. intros x Hx. specialize (Hidx x Hx).
    destruct (Props.array_index (fst x)); [discriminate | reflexivity].
  - apply bool_decide_eq_true in Hnd. exact Hnd.
Qed.

(** What closes a member or an element ends a number token. *)
Lemma ends_token_close cl c rest :
  Forall (fun c => is_ws c = true) cl ->
  c = 93%N \/ c = 125%N ->
  ends_token (cl ++ c :: rest) = true.
Proof.
  intros Hcl Hc. destruct cl as [|w cl]; simpl.
  - destruct Hc as [-> | ->]; reflexivity.
  - apply Forall_cons in Hcl as [Hw _]. unfold is_ws in Hw.
    repeat (apply orb_true_iff in Hw as [Hw|Hw]);
      apply N.eqb_eq in Hw; subst w; reflexivity.
Qed.

Lemma skip_ws_close cl c rest :
  Forall (fun c => is_ws c = true) cl ->
  is_ws c = false ->
  skip_ws (cl ++ c :: rest) = c :: rest.
Proof.
  intros Hcl Hc. rewrite (skip_ws_app cl _ Hcl). apply skip_ws_cons, Hc.
Qed.

Lemma join_cons sep p q ps :
  join sep (p :: q :: ps) = p ++ sep ++ join sep (q :: ps).
Proof. reflexivity. Qed.

Lemma elements_text_cons gap indent x l t :
  serialize gap indent x = Some t ->
  elements_text gap indent (x :: l) = t :: elements_text gap indent l.
Proof. intros H. unfold elements_text. simpl. rewrite H. reflexivity. Qed.

Ltac lengths :=
  repeat first [ progress rewrite length_app in *
               | progress cbn [length] in * ];
  lia.

(** The elements of an array are read one after the other. *)
Lemma parse_elements_join gap indent nl cl fuel rest :
  Forall (fun c => is_ws c = true) gap ->
  Forall (fun c => is_ws c = true) indent ->
  Forall (fun c => is_ws c = true) nl ->
  Forall (fun c => is_ws c = true) cl ->
  forall l n,
    l <> [] ->
    Forall (fun x => readable x /\ reads x) l ->
    (length (nl ++ join (44%N :: nl) (elements_text gap indent l)
               ++ cl ++ 93%N :: rest) < n)%nat ->
    (length (nl ++ join (44%N :: nl) (elements_text gap indent l)
               ++ cl ++ 93%N :: rest) < fuel)%nat ->
    parse_elements n (parse_value fuel)
      (nl ++ join (44%N :: nl) (elements_text gap indent l)
          ++ cl ++ 93%N :: rest)
    = Some (map Shape.unsigned_zeros l, rest).
Proof.
  intros Hgap Hind Hnl Hcl. induction l as [|x l IH]; [congruence|].
  intros n _ Hall Hn Hf. apply Forall_cons in Hall as [[Hrx Hx] Hall].
  destruct (serialize_head gap indent x Hrx) as (c & tx & Htx & _).
  destruct n as [|n]; [lia|].
  destruct l as [|y l].
  - rewrite (elements_text_cons gap indent x [] _ Htx) in *.
    cbn [elements_text map join] in *.
    assert (Hp := Hx gap indent fuel (cl ++ 93%N :: rest) (c :: tx)
                    Hgap Hind (ends_token_close cl 93 rest Hcl (or_introl eq_refl))
                    Htx).
    cbn [parse_elements]. rewrite (parse_value_skip _ _ _ Hnl), Hp by lengths.
    rewrite skip_ws_close by (auto; reflexivity).
    reflexivity.
  - rewrite (elements_text_cons gap indent x (y :: l) _ Htx) in *.
    destruct (elements_text gap indent (y :: l)) as [|ty tl] eqn:Hty;
      [discriminate|].
    rewrite join_cons in *. rewrite <- Hty in *.
    set (tail := join (44%N :: nl) (elements_text gap indent (y :: l))
                   ++ cl ++ 93%N :: rest) in *.
    assert (Heq : nl ++ ((c :: tx) ++ (44%N :: nl)
                          ++ join (44%N :: nl) (elements_text gap indent (y :: l)))
                      ++ cl ++ 93%N :: rest
                  = nl ++ (c :: tx) ++ 44%N :: (nl ++ tail)).
    { subst tail. rewrite <- !app_assoc. reflexivity. }
    rewrite Heq in *. clear Heq.
    assert (Hp := Hx gap indent fuel (44%N :: (nl ++ tail)) (c :: tx)
                    Hgap Hind eq_refl Htx).
    cbn [parse_elements]. rewrite (parse_value_skip _ _ _ Hnl), Hp by lengths.
    rewrite skip_ws_cons by reflexivity.
    change (44 =? 44)%N with true. cbv iota.
    subst tail. rewrite (IH n); [reflexivity | congruence | exact Hall | |].
    { clear -Hn. lengths. }
    { clear -Hf. lengths. }
Qed.

Lemma members_text_cons gap indent k x ps t :
  serialize gap indent x = Some t ->
  members_text gap indent ((k, x) :: ps)
  = (quote k ++ colon gap ++ t) :: members_text gap indent ps.
Proof. intros H. simpl. rewrite H. reflexivity. Qed.

(** One member is read: its key as it was, and its value. *)
Lemma parse_member_text gap indent nl fuel k x t rest :
  Forall (fun c => is_ws c = true) gap ->
  Forall (fun c => is_ws c = true) indent ->
  Forall (fun c => is_ws c = true) nl ->
  reads x ->
  serialize gap indent x = Some t ->
  ends_token rest = true ->
  (length (nl ++ (quote k ++ colon gap ++ t) ++ rest) < fuel)%nat ->
  parse_member (parse_value fuel) (nl ++ (quote k ++ colon gap ++ t) ++ rest)
  = Some (k, Shape.unsigned_zeros x, rest).
Proof.
  intros Hgap Hind Hnl Hx Ht Hrest Hf.
  assert (Heq : nl ++ (quote k ++ colon gap ++ t) ++ rest
                = nl ++ 34%N :: (quote_units k
                                   ++ 34%N :: (colon gap ++ t ++ rest))).
  { unfold quote. cbn [app]. rewrite <- !app_assoc. reflexivity. }
  rewrite Heq in *. clear Heq.
  assert (Hp : parse_value fuel (t ++ rest)
               = Some (Shape.unsigned_zeros x, rest)).
  { apply (Hx gap indent); auto. clear -Hf. lengths. }
  unfold parse_member. rewrite (skip_ws_app nl _ Hnl).
  rewrite skip_ws_cons by reflexivity.
  change (34 =? 34)%N with true. cbv iota.
  rewrite parse_string_quote by (rewrite length_app; cbn [length]; lia).
  unfold colon. destruct gap as [|g gap'].
  - cbn [app]. rewrite skip_ws_cons by reflexivity.
    change (58 =? 58)%N with true. cbv iota. rewrite Hp. reflexivity.
  - cbn [app]. rewrite skip_ws_cons by reflexivity.
    change (58 =? 58)%N with true. cbv iota.
    change (32%N :: t ++ rest) with ([32%N] ++ t ++ rest).
    rewrite (parse_value_skip fuel [32%N] (t ++ rest)), Hp; [reflexivity|].
    repeat constructor.
Qed.

(** The members of an object are read one after the other, in the order
    of the text. *)
Lemma parse_members_join gap indent nl cl fuel rest :
  Forall (fun c => is_ws c = true) gap ->
  Forall (fun c => is_ws c = true) indent ->
  Forall (fun c => is_ws c = true) nl ->
  Forall (fun c => is_ws c = true) cl ->
  forall ps n,
    ps <> [] ->
    Forall (fun kv => readable (snd kv) /\ reads (snd kv)) ps ->
    (length (nl ++ join (44%N :: nl) (members_text gap indent ps)
               ++ cl ++ 125%N :: rest) < n)%nat ->
    (length (nl ++ join (44%N :: nl) (members_text gap indent ps)
               ++ cl ++ 125%N :: rest) < fuel)%nat ->
    parse_members n (parse_value fuel)
      (nl ++ join (44%N :: nl) (members_text gap indent ps)
          ++ cl ++ 125%N :: rest)
    = Some (map (fun kv => (fst kv, Shape.unsigned_zeros (snd kv))) ps, rest).
Proof.
  intros Hgap Hind Hnl Hcl. induction ps as [|[k x] ps IH]; [congruence|].
  intros n _ Hall Hn Hf. apply Forall_cons in Hall as [[Hrx Hx] Hall].
  cbn [snd] in Hrx, Hx.
  destruct (serialize_head gap indent x Hrx) as (c & tx & Htx & _).
  destruct n as [|n]; [lia|].
  destruct ps as [|[k2 y] ps].
  - rewrite (members_text_cons gap indent k x [] _ Htx) in *.
    cbn [members_text join] in *.
    assert (Hp := parse_member_text gap indent nl fuel k x (c :: tx)
                    (cl ++ 125%N :: rest) Hgap Hind Hnl Hx Htx
                    (ends_token_close cl 125 rest Hcl (or_intror eq_refl)) Hf).
    cbn [parse_members]. rewrite Hp.
    rewrite skip_ws_close by (auto; reflexivity).
    reflexivity.
  - rewrite (members_text_cons gap indent k x ((k2, y) :: ps) _ Htx) in *.
    destruct (members_text gap indent ((k2, y) :: ps)) as [|ty tl] eqn:Hty.
    { apply Forall_cons in Hall as [[Hry _] _]. cbn [snd] in Hry.
      destruct (serialize_head gap indent y Hry) as (c2 & t2 & Ht2 & _).
      rewrite (members_text_cons gap indent k2 y ps _ Ht2) in Hty.
      discriminate. }
    rewrite join_cons in *. rewrite <- Hty in *.
    set (tail := join (44%N :: nl) (members_text gap indent ((k2, y) :: ps))
                   ++ cl ++ 125%N :: rest) in *.
    assert (Heq : nl ++ ((quote k ++ colon gap ++ c :: tx) ++ (44%N :: nl)
                          ++ join (44%N :: nl)
                               (members_text gap indent ((k2, y) :: ps)))
                      ++ cl ++ 125%N :: rest
                  = nl ++ (quote k ++ colon gap ++ c :: tx)
                       ++ 44%N :: (nl ++ tail)).
    { subst tail. rewrite <- !app_assoc. reflexivity. }
    rewrite Heq in *. clear Heq.
    assert (Hp := parse_member_text gap indent nl fuel k x (c :: tx)
                    (44%N :: (nl ++ tail)) Hgap Hind Hnl Hx Htx eq_refl Hf).
    cbn [parse_members]. rewrite Hp.
    rewrite skip_ws_cons by reflexivity.
    change (44 =? 44)%N with true. cbv iota.
    subst tail. rewrite (IH n); [reflexivity | congruence | exact Hall | |].
    { clear -Hn. lengths. }
    { clear -Hf. lengths. }
Qed.

(** Induction on a value, with the elements of an array and the members
    of an object. *)
Lemma value_nested_ind (P : value -> Prop) :
  (forall p, P (Prim p)) ->
  (forall l, Forall P l -> P (Arr l)) ->
  (forall ps, Forall (fun kv => P (snd kv)) ps -> P (Obj ps)) ->
  forall v, P v.
Proof.
  intros HP HA HO. fix IH 1. intros [p|l|ps].
  - apply HP.
  - apply HA. induction l as [|x l IHl]; constructor; [apply IH | exact IHl].
  - apply HO. induction ps as [|[k x] ps IHps]; constructor;
      [apply IH | exact IHps].
Qed.

Lemma join_head (sep p : jsstring) (parts : list jsstring) c t :
  p = c :: t -> exists t', join sep (p :: parts) = c :: t'.
Proof. intros ->. destruct parts; simpl; eauto. Qed.

Lemma literal_reads fuel v rest :
  v = Null \/ v = Bool true \/ v = Bool false ->
  exists t, (forall gap indent, serialize gap indent v = Some t)
            /\ parse_value (S fuel) (t ++ rest)
               = Some (Shape.unsigned_zeros v, rest).
Proof.
  intros [-> | [-> | ->]].
  - exists [110; 117; 108; 108]%N. split; reflexivity.
  - exists [116; 114; 117; 101]%N. split; reflexivity.
  - exists [102; 97; 108; 115; 101]%N. split; reflexivity.
Qed.

(** A Number that is [===] to a finite one that is not zero is that
    Number. *)
Lemma strict_eq_finite y s m e :
  JSNum.strict_eq y (S754_finite s m e) = true -> y = S754_finite s m e.
Proof.
  unfold JSNum.strict_eq, SFeqb, SFcompare.
  destruct y as [sy|sy| |sy my ey]; try discriminate;
    try (destruct sy, s; discriminate); try (destruct s; discriminate).
  destruct sy, s; try discriminate;
    (destruct (Z.compare_spec ey e) as [->| |]; try discriminate);
    destruct (Pos.compare_cont Eq my m) eqn:Hc; try discriminate;
    apply Pos.compare_eq in Hc; subst; reflexivity.
Qed.

(** Every readable value is read back from its text, with unsigned
    zeros. *)
Lemma readable_reads v : readable v -> reads v.
Proof.
  induction v as [p|l IH|ps IH] using value_nested_ind; intros Hr.
  - (* primitives *)
    intros gap indent fuel rest t _ _ Hrest Ht Hf.
    destruct p as [| |b|x|s].
    + destruct Hr as [Hp _]. discriminate.
    + destruct fuel as [|fuel]; [simpl in Hf; lia|].
      destruct (literal_reads fuel Null rest) as (w & Hw & Hp); [auto|].
      rewrite Hw in Ht. injection Ht as <-. exact Hp.
    + destruct fuel as [|fuel]; [simpl in Hf; lia|].
      destruct (literal_reads fuel (Bool b) rest) as (w & Hw & Hp);
        [destruct b; auto|].
      rewrite Hw in Ht. injection Ht as <-. exact Hp.
    + destruct Hr as [Hp Hn]. simpl in Hp, Hn. rewrite andb_true_r in Hn.
      simpl in Ht. rewrite Hp in Ht. injection Ht as <-.
      unfold Shape.reads_back in Hn.
      destruct (parse_number (NumberToString.Number_toString x))
        as [[y [|? ?]]|] eqn:Hy; try discriminate.
      assert (Hyx : Num y = Shape.unsigned_zeros (Num x)).
      { destruct x as [sx| | |sx mx ex]; try discriminate.
        - vm_compute in Hy. injection Hy as <-. reflexivity.
        - rewrite (strict_eq_finite _ _ _ _ Hn). reflexivity. }
      rewrite <- Hyx. clear Hyx.
      pose proof (parse_number_app rest _ _ _ Hrest Hy) as Hy'.
      destruct (parse_number_head _ _ _ Hy) as (c & t' & Heq & Hc).
      rewrite Heq in *. destruct fuel as [|fuel]; [simpl in Hf; lia|].
      cbn [parse_value app] in *.
      assert (Hws : is_ws c = false
                    /\ (c =? 123)%N = false /\ (c =? 91)%N = false
                    /\ (c =? 34)%N = false /\ (c =? 116)%N = false
                    /\ (c =? 102)%N = false /\ (c =? 110)%N = false).
      { destruct Hc as [Hc|Hc].
        - apply N.eqb_eq in Hc. subst c. repeat split; reflexivity.
        - unfold is_digit in Hc. apply andb_true_iff in Hc as [H1 H2].
          apply N.leb_le in H1, H2. unfold is_ws.
          repeat apply conj; try (apply N.eqb_neq; lia).
          repeat (apply orb_false_iff; split); apply N.eqb_neq; lia. }
      destruct Hws as (Hws & H1 & H2 & H3 & H4 & H5 & H6).
      rewrite skip_ws_cons by exact Hws.
      rewrite H1, H2, H3, H4, H5, H6, Hy'. reflexivity.
    + injection Ht as <-.
      destruct fuel as [|fuel]; [simpl in Hf; lia|].
      unfold quote. cbn [parse_value app]. rewrite <- app_assoc.
      cbn [app]. rewrite skip_ws_cons by reflexivity.
      change (34 =? 123)%N with false. change (34 =? 91)%N with false.
      change (34 =? 34)%N with true. cbv iota.
      rewrite parse_string_quote
        by (rewrite length_app; cbn [length]; lia).
      reflexivity.
  - (* arrays *)
    intros gap indent fuel rest t Hgap Hind Hrest Ht Hf.
    rewrite serialize_Arr in Ht. injection Ht as <-.
    destruct fuel as [|fuel]; [simpl in Hf; lia|].
    pose proof (readable_Arr l Hr) as Hrl.
    assert (Hall : Forall (fun x => readable x /\ reads x) l).
    { apply List.Forall_forall. intros x Hx.
      rewrite List.Forall_forall in IH, Hrl. split; auto. }
    destruct l as [|x l].
    + reflexivity.
    + apply Forall_cons in Hrl as [Hrx _].
      destruct (serialize_head gap (indent ++ gap) x Hrx)
        as (c & tx & Htx & Hc & Hc93).
      set (elems := x :: l) in *.
      assert (Hne : elems <> []) by (subst elems; congruence).
      assert (Hgi : Forall (fun c => is_ws c = true) (indent ++ gap))
        by (apply Forall_app; auto).
      pose proof (newline_ws gap (indent ++ gap) Hgi) as Hnl.
      pose proof (newline_ws gap indent Hind) as Hcl.
      unfold wrap in *.
      destruct (elements_text gap (indent ++ gap) elems)
        as [|t1 ts] eqn:Hts.
      { subst elems. rewrite (elements_text_cons _ _ _ _ _ Htx) in Hts.
        discriminate. }
      rewrite <- Hts in *.
      set (nl := newline gap (indent ++ gap)) in *.
      set (cl := newline gap indent) in *.
      assert (Heq : (91%N :: nl ++ join (44%N :: nl)
                                    (elements_text gap (indent ++ gap) elems)
                         ++ cl ++ [93%N]) ++ rest
                    = 91%N :: (nl ++ join (44%N :: nl)
                                 (elements_text gap (indent ++ gap) elems)
                                 ++ cl ++ 93%N :: rest)).
      { cbn [app]. rewrite <- !app_assoc. reflexivity. }
      rewrite Heq in *. clear Heq.
      cbn [parse_value]. rewrite skip_ws_cons by reflexivity.
      change (91 =? 123)%N with false. change (91 =? 91)%N with true.
      cbv iota.
      assert (Hnext : next_is 93
                        (nl ++ join (44%N :: nl)
                           (elements_text gap (indent ++ gap) elems)
                           ++ cl ++ 93%N :: rest) = None).
      { rewrite (next_is_skip _ _ _ Hnl). subst elems.
        rewrite (elements_text_cons _ _ _ _ _ Htx).
        destruct (join_head (44%N :: nl) (c :: tx)
                    (elements_text gap (indent ++ gap) l) c tx eq_refl)
          as (t' & Ht').
        rewrite Ht'.
        unfold next_is. cbn [app]. rewrite skip_ws_cons by exact Hc.
        rewrite Hc93. reflexivity. }
      rewrite Hnext.
      rewrite (parse_elements_join gap (indent ++ gap) nl cl fuel rest
                 Hgap Hgi Hnl Hcl elems fuel Hne Hall);
        [reflexivity | cbn [length] in Hf; lia | cbn [length] in Hf; lia].
  - (* objects *)
    intros gap indent fuel rest t Hgap Hind Hrest Ht Hf.
    rewrite serialize_Obj in Ht. injection Ht as <-.
    destruct fuel as [|fuel]; [simpl in Hf; lia|].
    destruct (readable_Obj ps Hr) as (Hrl & Hidx & Hnd).
    assert (Hall : Forall (fun kv => readable (snd kv) /\ reads (snd kv)) ps).
    { apply List.Forall_forall. intros x Hx.
      rewrite List.Forall_forall in IH, Hrl. split; auto. }
    destruct ps as [|[k x] ps].
    + reflexivity.
    + pose proof Hrl as Hrl'. apply Forall_cons in Hrl' as [Hrx _].
      cbn [snd] in Hrx.
      destruct (serialize_head gap (indent ++ gap) x Hrx)
        as (c & tx & Htx & _).
      set (members := (k, x) :: ps) in *.
      assert (Hne : members <> []) by (subst members; congruence).
      assert (Hgi : Forall (fun c => is_ws c = true) (indent ++ gap))
        by (apply Forall_app; auto).
      pose proof (newline_ws gap (indent ++ gap) Hgi) as Hnl.
      pose proof (newline_ws gap indent Hind) as Hcl.
      unfold wrap in *.
      destruct (members_text gap (indent ++ gap) members)
        as [|t1 ts] eqn:Hts.
      { subst members. rewrite (members_text_cons _ _ _ _ _ _ Htx) in Hts.
        discriminate. }
      rewrite <- Hts in *.
      set (nl := newline gap (indent ++ gap)) in *.
      set (cl := newline gap indent) in *.
      assert (Heq : (123%N :: nl ++ join (44%N :: nl)
                                     (members_text gap (indent ++ gap) members)
                          ++ cl ++ [125%N]) ++ rest
                    = 123%N :: (nl ++ join (44%N :: nl)
                                  (members_text gap (indent ++ gap) members)
                                  ++ cl ++ 125%N :: rest)).
      { cbn [app]. rewrite <- !app_assoc. reflexivity. }
      rewrite Heq in *. clear Heq.
      cbn [parse_value]. rewrite skip_ws_cons by reflexivity.
      change (123 =? 123)%N with true. cbv iota.
      assert (Hnext : next_is 125
                        (nl ++ join (44%N :: nl)
                           (members_text gap (indent ++ gap) members)
                           ++ cl ++ 125%N :: rest) = None).
      { rewrite (next_is_skip _ _ _ Hnl). subst members.
        rewrite (members_text_cons _ _ _ _ _ _ Htx).
        destruct (join_head (44%N :: nl) (quote k ++ colon gap ++ c :: tx)
                    (members_text gap (indent ++ gap) ps) 34%N
                    ((quote_units k ++ [34%N]) ++ colon gap ++ c :: tx)
                    eq_refl) as (t' & Ht').
        unfold JSStr.jsstring in Ht' |- *. rewrite Ht'.
        reflexivity. }
      rewrite Hnext.
      rewrite (parse_members_join gap (indent ++ gap) nl cl fuel rest
                 Hgap Hgi Hnl Hcl members fuel Hne Hall);
        [| cbn [length] in Hf; lia | cbn [length] in Hf; lia].
      rewrite (assign_fresh _ []); [reflexivity | |].
      * cbn [app]. rewrite map_map. cbn [fst]. exact Hnd.
      * clear -Hidx. induction Hidx as [|[k0 x0] ps0 H0 _ IHp]; constructor;
          [exact H0 | exact IHp].
Qed.

(** *** Well-formed stores are readable *)

Lemma read_digits_all base s : forall acc cnt n c,
  StringToNumber.read_digits base acc cnt s = (n, c, []) ->
  Forall (fun ch => is_Some (StringToNumber.digit_of base ch)) s.
Proof.
  induction s as [|ch s IH]; intros acc cnt n c H; [constructor|].
  simpl in H. destruct (StringToNumber.digit_of base ch) as [d|] eqn:Hd;
    [|discriminate].
  constructor; [rewrite Hd; eauto | eapply IH; exact H].
Qed.

(** A key with a character that is no digit is not an array index. *)
Lemma array_index_non_digit k c :
  c ∈ k -> StringToNumber.digit_of 10 c = None -> Props.array_index k = None.
Proof.
  intros Hin Hc. unfold Props.array_index.
  destruct (StringToNumber.read_digits 10 0 0 k) as [[n cnt] r] eqn:H.
  destruct r; [|reflexivity].
  apply read_digits_all in H. rewrite Forall_forall in H.
  specialize (H c Hin). rewrite Hc in H. destruct H; discriminate.
Qed.

Lemma month_key_not_index k :
  Shape.is_month_key k = true -> Props.array_index k = None.
Proof.
  unfold Shape.is_month_key.
  destruct k as [|y1 [|y2 [|y3 [|y4 [|h [|m1 [|m2 [|? ?]]]]]]]];
    try discriminate.
  intros H. repeat (apply andb_true_iff in H as [H ?]).
  match goal with Hh : (h =? 45)%N = true |- _ =>
    apply N.eqb_eq in Hh; subst h end.
  apply (array_index_non_digit _ 45%N); [|reflexivity].
  rewrite !elem_of_cons. auto 10.
Qed.

Lemma lookup_in {V} k (v : V) ps :
  NoDup (map fst ps) -> (k, v) ∈ ps -> Props.lookup k ps = Some v.
Proof.
  induction ps as [|[k' v'] ps IH]; intros Hnd Hin.
  - apply elem_of_nil in Hin. destruct Hin.
  - simpl in Hnd. apply NoDup_cons in Hnd as [Hk' Hnd].
    apply elem_of_cons in Hin as [Heq|Hin]; simpl.
    + injection Heq as -> ->. rewrite bool_decide_true by reflexivity.
      reflexivity.
    + rewrite bool_decide_false; [auto|].
      intros ->. apply Hk'. apply list_elem_of_In, in_map_iff.
      exists (k, v). split; [reflexivity | apply list_elem_of_In, Hin].
Qed.

(** An object with keys among [allowed], no key an array index, is plain
    when what it has under these keys is. *)
Lemma plain_record allowed props :
  Shape.has_keys allowed props = true ->
  Forall (fun k => Props.array_index k = None) allowed ->
  (forall k v, k ∈ allowed -> Props.lookup k props = Some v ->
               Shape.plain v = true) ->
  Shape.plain (Obj props) = true.
Proof.
  intros Hkeys Hidx Hplain. unfold Shape.has_keys in Hkeys.
  apply andb_true_iff in Hkeys as [Hall Hnd].
  pose proof Hnd as Hnd'. apply bool_decide_eq_true in Hnd'.
  rewrite forallb_forall in Hall. rewrite Forall_forall in Hidx.
  simpl. rewrite Hnd, andb_true_r. apply andb_true_iff. split.
  - apply forallb_forall. intros [k v] Hin. cbn [snd].
    specialize (Hall _ Hin). cbn [fst] in Hall.
    apply bool_decide_eq_true in Hall.
    apply (Hplain k v Hall). apply lookup_in; [exact Hnd'|].
    apply list_elem_of_In. exact Hin.
  - apply forallb_forall. intros [k v] Hin. cbn [fst].
    specialize (Hall _ Hin). cbn [fst] in Hall.
    apply bool_decide_eq_true in Hall.
    rewrite (Hidx k Hall). reflexivity.
Qed.

Lemma well_formed_item_plain it :
  Shape.well_formed_item it = true -> Shape.plain it = true.
Proof.
  destruct it as [p|l|props]; try discriminate.
  unfold Shape.well_formed_item. intros H.
  apply andb_true_iff in H as [Hkeys H].
  apply (plain_record Shape.item_keys); [exact Hkeys | |].
  { repeat constructor. }
  intros k v Hk Hv.
  destruct (Props.lookup (lit "id") props) as [[[| | | |?]| |]|] eqn:H1;
    try discriminate.
  destruct (Props.lookup (lit "name") props) as [[[| | | |name]| |]|] eqn:H2;
    try discriminate.
  destruct (Props.lookup (lit "price") props) as [[[| | |price|]| |]|] eqn:H3;
    try discriminate.
  destruct (Props.lookup (lit "createdAt") props) as [[[| | | |?]| |]|] eqn:H4;
    try discriminate.
  apply andb_true_iff in H as [H _]. apply andb_true_iff in H as [_ Hfin].
  unfold Shape.item_keys in Hk.
  repeat (apply elem_of_cons in Hk as [->|Hk]);
    [| | | |apply elem_of_nil in Hk; destruct Hk];
    match goal with
    | Ha : Props.lookup ?k props = Some v,
      Hb : Props.lookup ?k props = Some _ |- _ =>
        rewrite Ha in Hb; injection Hb as ->
    end; try reflexivity.
  exact Hfin.
Qed.

Lemma well_formed_month_plain m :
  Shape.well_formed_month m = true -> Shape.plain m = true.
Proof.
  destruct m as [p|l|props]; try discriminate.
  unfold Shape.well_formed_month. intros H.
  apply andb_true_iff in H as [Hkeys H].
  apply (plain_record Shape.month_keys); [exact Hkeys | |].
  { repeat constructor. }
  intros k v Hk Hv.
  destruct (Props.lookup (lit "maxBudget") props)
    as [[[| | |maxBudget|]| |]|] eqn:H1; try discriminate.
  destruct (Props.lookup (lit "items") props) as [[|items|]|] eqn:H2;
    try discriminate.
  apply andb_true_iff in H as [H _]. apply andb_true_iff in H as [H Hitems].
  apply andb_true_iff in H as [Hfin _].
  unfold Shape.month_keys in Hk.
  repeat (apply elem_of_cons in Hk as [->|Hk]);
    [| |apply elem_of_nil in Hk; destruct Hk];
    match goal with
    | Ha : Props.lookup ?k props = Some v,
      Hb : Props.lookup ?k props = Some _ |- _ =>
        rewrite Ha in Hb; injection Hb as ->
    end.
  - exact Hfin.
  - simpl. apply forallb_forall. intros it Hit.
    rewrite forallb_forall in Hitems.
    apply well_formed_item_plain. auto.
Qed.

Lemma well_formed_store_plain store :
  Shape.well_formed_store store = true -> Shape.plain store = true.
Proof.
  unfold Shape.well_formed_store.
  destruct store as [p|l|[|[k [p|l|months]] [|? ?]]]; try discriminate.
  intros H. apply andb_true_iff in H as [H Hnd].
  apply andb_true_iff in H as [Hk Hmonths].
  apply bool_decide_eq_true in Hk. subst k.
  rewrite forallb_forall in Hmonths.
  assert (Hm : Shape.plain (Obj months) = true).
  { simpl. rewrite Hnd, andb_true_r. apply andb_true_iff. split.
    - apply forallb_forall. intros km Hin.
      specialize (Hmonths _ Hin). apply andb_true_iff in Hmonths as [_ Hw].
      apply well_formed_month_plain. exact Hw.
    - apply forallb_forall. intros km Hin.
      specialize (Hmonths _ Hin). apply andb_true_iff in Hmonths as [Hw _].
      rewrite (month_key_not_index _ Hw). reflexivity. }
  change (Shape.plain (Obj [(lit "months", Obj months)]))
    with (Shape.plain (Obj months) && true
          && (negb (Shape.is_Some_b (Props.array_index (lit "months"))) && true)
          && bool_decide (NoDup [lit "months"])).
  rewrite Hm. reflexivity.
Qed.

(** *** What the zeros lose *)

Lemma strict_eq_refl x : JSNum.is_finite x = true -> JSNum.strict_eq x x = true.
Proof.
  destruct x as [sx| | |sx mx ex]; try discriminate; intros _; [reflexivity|].
  unfold JSNum.strict_eq, SFeqb, SFcompare.
  rewrite Z.compare_refl, Pos.compare_cont_refl. destruct sx; reflexivity.
Qed.

(** A plain value with unsigned zeros is deeply equal to the value. *)
Lemma deep_equal_unsigned_zeros v :
  Shape.plain v = true -> Shape.deep_equal (Shape.unsigned_zeros v) v = true.
Proof.
  induction v as [p|l IH|ps IH] using value_nested_ind; intros Hp.
  - destruct p as [| |b|x|s]; simpl in Hp |- *; try discriminate.
    + reflexivity.
    + destruct b; reflexivity.
    + destruct x as [sx| | |sx mx ex]; try discriminate; [reflexivity|].
      apply (strict_eq_refl (S754_finite sx mx ex)). reflexivity.
    + unfold JSStr.eqb. apply bool_decide_eq_true. reflexivity.
  - change (Shape.unsigned_zeros (Arr l)) with (Arr (map Shape.unsigned_zeros l)).
    rewrite deep_equal_Arr. simpl in Hp.
    induction IH as [|x l Hx _ IHl]; [reflexivity|].
    simpl in Hp |- *. apply andb_true_iff in Hp as [Hpx Hpl].
    rewrite (Hx Hpx). apply IHl, Hpl.
  - change (Shape.unsigned_zeros (Obj ps))
      with (Obj (map (fun kv => (fst kv, Shape.unsigned_zeros (snd kv))) ps)).
    rewrite deep_equal_Obj. simpl in Hp.
    apply andb_true_iff in Hp as [Hp _]. apply andb_true_iff in Hp as [Hp _].
    induction IH as [|[k x] ps Hx _ IHps]; [reflexivity|].
    simpl in Hp, Hx |- *. apply andb_true_iff in Hp as [Hpx Hps].
    unfold JSStr.eqb. rewrite bool_decide_true by reflexivity.
    rewrite (Hx Hpx). apply IHps, Hps.
Qed.

(** A value with no [-0] has unsigned zeros already. *)
Lemma unsigned_zeros_id v :
  Shape.no_negative_zero v = true -> Shape.unsigned_zeros v = v.
Proof.
  unfold Shape.no_negative_zero.
  induction v as [p|l IH|ps IH] using value_nested_ind; intros Hz.
  - destruct p as [| |b|x|s]; try reflexivity.
    destruct x as [[|]| | |sx mx ex]; try reflexivity. discriminate.
  - simpl in Hz |- *. rewrite forallb_flat_map in Hz. f_equal.
    induction IH as [|x l Hx _ IHl]; [reflexivity|].
    simpl in Hz |- *. apply andb_true_iff in Hz as [Hzx Hzl].
    rewrite (Hx Hzx), (IHl Hzl). reflexivity.
  - simpl in Hz |- *. rewrite forallb_flat_map in Hz. f_equal.
    induction IH as [|[k x] ps Hx _ IHps]; [reflexivity|].
    simpl in Hz, Hx |- *. apply andb_true_iff in Hz as [Hzx Hzs].
    rewrite (Hx Hzx), (IHps Hzs). reflexivity.
Qed.

(** The Numbers of the amounts 0.00, 0.01, ... up to 19.99, and of the
    integers up to 1999, are printed as tokens that read back. *)
Lemma reads_back_amounts :
  forallb (fun n => Shape.reads_back (JSNum.of_decimal false (N.of_nat n) (-2)))
          (seq 0 2000) = true
  /\ forallb (fun n => Shape.reads_back (JSNum.of_Z (Z.of_nat n)))
             (seq 0 2000) = true.
Proof. split; vm_compute; reflexivity. Qed.

(** A ceiling [-0], which [updateBudget] stores for the text [-0], is
    exported as [0] and imported as [+0]. *)
Lemma negative_zero_ceiling_reads_as_zero :
  Actions.stored (lit "-0") = JSNum.neg_zero
  /\ Shape.well_formed_store
       (Examples.store_with (Examples.month_of JSNum.neg_zero [])) = true
  /\ Storage.importAll
       (snd (Storage.exportAll
               (Examples.store_with (Examples.month_of JSNum.neg_zero []))
               Examples.may))
     = Storage.SetStore (Examples.store_with (Examples.month_of JSNum.zero [])).
Proof. repeat apply conj; vm_compute; reflexivity. Qed.

End JSONFacts.



(** ** The derived values of a render *)

Module RenderFacts.
Import Coerce Derived.
Local Open Scope outcome_scope.

(** The reduction goes on from where it stood. *)
Lemma total_from_app l l' : forall s,
  total_from s (l ++ l') = (t <- total_from s l;; total_from t l').
Proof.
  induction l as [|it l IH]; intros s; [reflexivity|].
  simpl. destruct (price it) as [p|e]; simpl; [apply IH | reflexivity].
Qed.

(** The flags of the items that come first, then those of the others
    with [running] at the sum of the first. *)
Lemma over_from_app maxBudget l l' : forall r,
  over_from maxBudget r (l ++ l')
  = (fl <- over_from maxBudget r l;;
     t <- total_from r l;;
     fl' <- over_from maxBudget t l';;
     Ok (fl ++ fl')).
Proof.
  induction l as [|it l IH]; intros r.
  - simpl. destruct (over_from maxBudget r l'); reflexivity.
  - simpl. destruct (price it) as [p|e]; simpl; [|reflexivity].
    rewrite IH. destruct (over_from maxBudget (JSNum.add r p) l) as [fl|e];
      simpl; [|reflexivity].
    destruct (total_from (JSNum.add r p) l) as [t|e]; simpl; [|reflexivity].
    destruct (over_from maxBudget t l'); reflexivity.
Qed.

Lemma over_from_length maxBudget l : forall r fl,
  over_from maxBudget r l = Ok fl -> length fl = length l.
Proof.
  induction l as [|it l IH]; simpl; intros r fl H.
  - injection H as <-. reflexivity.
  - apply DerivedFacts.obind_Ok in H as (p & _ & H).
    apply DerivedFacts.obind_Ok in H as (fl' & Hfl & H).
    injection H as <-. simpl. f_equal. eauto.
Qed.

(** Where the flags are there, the sum is. *)
Lemma over_from_total maxBudget l : forall r fl,
  over_from maxBudget r l = Ok fl -> exists t, total_from r l = Ok t.
Proof.
  induction l as [|it l IH]; simpl; intros r fl H; [eauto|].
  apply DerivedFacts.obind_Ok in H as (p & -> & H).
  apply DerivedFacts.obind_Ok in H as (fl' & Hfl & _). simpl. eauto.
Qed.

Lemma total_from_flags maxBudget l : forall r t,
  total_from r l = Ok t -> exists fl, over_from maxBudget r l = Ok fl.
Proof.
  induction l as [|it l IH]; simpl; intros r t H; [eauto|].
  apply DerivedFacts.obind_Ok in H as (p & -> & H). simpl.
  destruct (IH _ _ H) as (fl & ->). simpl. eauto.
Qed.

(** *** Comparisons of Numbers *)

Lemma SFcompare_antisym x y :
  SFcompare y x = option_map CompOpp (SFcompare x y).
Proof.
  destruct x as [sx|sx| |sx mx ex], y as [sy|sy| |sy my ey]; simpl;
    try reflexivity;
    try (destruct sx, sy; reflexivity); try (destruct sx; reflexivity);
    try (destruct sy; reflexivity).
  pose proof (Pos.compare_cont_antisym mx my Eq) as Ha. simpl in Ha.
  destruct sx, sy; try reflexivity; rewrite (Z.compare_antisym ex ey), <- Ha;
    destruct (ex ?= ey); simpl; try reflexivity;
    destruct (Pos.compare_cont Eq mx my); reflexivity.
Qed.

(** Two Numbers that are not NaN compare one way or the other. *)
Lemma lt_or_ge x y :
  JSNum.isNaN x = false -> JSNum.isNaN y = false ->
  JSNum.lt x y = true \/ JSNum.ge x y = true.
Proof.
  intros Hx Hy. unfold JSNum.lt, JSNum.ge, SFltb, SFleb.
  rewrite (SFcompare_antisym x y).
  destruct (SFcompare x y) as [[| |]|] eqn:Hc; simpl; auto.
  destruct x, y; simpl in *; discriminate.
Qed.

Lemma gt_not_NaN x y : JSNum.gt x y = true ->
  JSNum.isNaN x = false /\ JSNum.isNaN y = false.
Proof.
  unfold JSNum.gt, SFltb. destruct x, y; simpl; try discriminate; auto.
Qed.

Lemma add_NaN_l p : JSNum.add JSNum.NaN p = JSNum.NaN.
Proof. reflexivity. Qed.

Lemma not_between_zero mb :
  JSNum.gt JSNum.zero mb && JSNum.gt mb JSNum.zero = false.
Proof. destruct mb as [[]|[]| |[] m e]; reflexivity. Qed.

(** *** Well-formed months *)

Lemma well_formed_item_price it :
  Shape.well_formed_item it = true ->
  exists p, price it = Ok p /\ JSNum.gt p JSNum.zero = true
            /\ JSNum.is_finite p = true.
Proof.
  destruct it as [q|l|props]; try discriminate.
  unfold Shape.well_formed_item. intros H.
  apply andb_true_iff in H as [_ H].
  destruct (Props.lookup (lit "id") props) as [[[| | | |?]| |]|];
    try discriminate.
  destruct (Props.lookup (lit "name") props) as [[[| | | |?]| |]|];
    try discriminate.
  destruct (Props.lookup (lit "price") props) as [[[| | |p|]| |]|] eqn:Hp;
    try discriminate.
  destruct (Props.lookup (lit "createdAt") props) as [[[| | | |?]| |]|];
    try discriminate.
  apply andb_true_iff in H as [H Hgt]. apply andb_true_iff in H as [_ Hfin].
  exists p. repeat apply conj; [|exact Hgt|exact Hfin].
  unfold price. simpl. rewrite Hp. simpl.
  destruct p as [sp|sp| |sp mp ep]; try discriminate; reflexivity.
Qed.

Lemma well_formed_items_total l : forall s,
  forallb Shape.well_formed_item l = true ->
  exists t, total_from s l = Ok t.
Proof.
  induction l as [|it l IH]; simpl; intros s H; [eauto|].
  apply andb_true_iff in H as [Hit Hl].
  destruct (well_formed_item_price it Hit) as (p & -> & _). simpl. auto.
Qed.

Lemma well_formed_month_parts m :
  Shape.well_formed_month m = true ->
  exists props mb its,
    m = Obj props
    /\ Props.lookup (lit "maxBudget") props = Some (Num mb)
    /\ Props.lookup (lit "items") props = Some (Arr its)
    /\ JSNum.is_finite mb = true
    /\ forallb Shape.well_formed_item its = true.
Proof.
  destruct m as [q|l|props]; try discriminate.
  unfold Shape.well_formed_month. intros H.
  apply andb_true_iff in H as [_ H].
  destruct (Props.lookup (lit "maxBudget") props) as [[[| | |mb|]| |]|] eqn:H1;
    try discriminate.
  destruct (Props.lookup (lit "items") props) as [[|its|]|] eqn:H2;
    try discriminate.
  apply andb_true_iff in H as [H _]. apply andb_true_iff in H as [H Hits].
  apply andb_true_iff in H as [Hfin _].
  exists props, mb, its. repeat apply conj; auto.
Qed.

Lemma or_zero_not_NaN x : JSNum.isNaN (JSNum.or_zero x) = false.
Proof. destruct x; reflexivity. Qed.

End RenderFacts.

(** X2. The flag of an item depends on the items before it only: the
    flags of [l ++ l'] are those of [l], then those of [l'] computed
    with [running] at the total of [l]. Appending an item adds one flag,
    computed from the previous total and the item's price, and leaves
    all earlier flags as they were. *)
Theorem overBudgetMap_of_earlier_items_stays :
  (forall l l' maxBudget,
      Derived.overBudgetMap (Arr (l ++ l')) maxBudget
      = (fl <- Derived.overBudgetMap (Arr l) maxBudget;;
         t <- Derived.total (Arr l);;
         fl' <- Derived.over_from maxBudget t l';;
         Ok (fl ++ fl'))%outcome)
  /\ (forall l l' maxBudget flags,
         Derived.overBudgetMap (Arr (l ++ l')) maxBudget = Ok flags ->
         Derived.overBudgetMap (Arr l) maxBudget = Ok (take (length l) flags))
  /\ (forall l it maxBudget fl t p,
         Derived.overBudgetMap (Arr l) maxBudget = Ok fl ->
         Derived.total (Arr l) = Ok t ->
         Derived.price it = Ok p ->
         Derived.overBudgetMap (Arr (l ++ [it])) maxBudget
         = Ok (fl ++ [Derived.over_flag maxBudget t (JSNum.add t p)])).
Proof.
  repeat apply conj.
  - intros l l' maxBudget. apply RenderFacts.over_from_app.
  - intros l l' maxBudget flags. unfold Derived.overBudgetMap.
    rewrite RenderFacts.over_from_app. intros H.
    apply DerivedFacts.obind_Ok in H as (fl & Hfl & H).
    apply DerivedFacts.obind_Ok in H as (t & _ & H).
    apply DerivedFacts.obind_Ok in H as (fl' & _ & H).
    injection H as <-. rewrite Hfl.
    rewrite <- (RenderFacts.over_from_length _ _ _ _ Hfl).
    rewrite take_app_length. reflexivity.
  - intros l it maxBudget fl t p Hfl Ht Hp. unfold Derived.overBudgetMap in *.
    unfold Derived.total in Ht.
    rewrite RenderFacts.over_from_app, Hfl, Ht. simpl. rewrite Hp. reflexivity.
Qed.

Lemma overBudgetMap_of_earlier_items_stays_witness :
  Derived.overBudgetMap
    (Arr ([Derived.item (lit "a") (lit "rent") (JSNum.of_Z 50) (lit "t");
           Derived.item (lit "b") (lit "food") (JSNum.of_Z 60) (lit "t")]
          ++ [Derived.item (lit "c") (lit "fuel") (JSNum.of_Z 40) (lit "t")]))
    (JSNum.of_Z 100)
  = Ok ([false; true]
        ++ [Derived.over_flag (JSNum.of_Z 100) (JSNum.of_Z 110)
              (JSNum.add (JSNum.of_Z 110) (JSNum.of_Z 40))]).
Proof.
  apply (proj2 (proj2 overBudgetMap_of_earlier_items_stays)).
  - vm_compute. reflexivity.
  - vm_compute. reflexivity.
  - vm_compute. reflexivity.
Defined.

(** X3. Whenever a render finds the month over its ceiling
    ([exceeding]), there is a last item and its row is highlighted. *)
Theorem exceeding_highlights_last_item
    (store : value) (activeMonth : jsstring) (d : Render.derived) :
  Render.derive store activeMonth = Ok d ->
  Render.exceeding d = true ->
  exists n, length (Render.items d) = S n /\ Render.isOver d n = true.
Proof.
  unfold Render.derive. intros H Hex.
  apply DerivedFacts.obind_Ok in H as (data & _ & H).
  apply DerivedFacts.obind_Ok in H as (its & _ & H).
  apply DerivedFacts.obind_Ok in H as (mb & _ & H).
  apply DerivedFacts.obind_Ok in H as (t & Ht & H).
  apply DerivedFacts.obind_Ok in H as (fl & Hfl & H).
  destruct its as [q|l|ps]; try discriminate. injection H as <-.
  simpl in Hex |- *. unfold Render.isOver. simpl.
  unfold Derived.total in Ht. unfold Derived.overBudgetMap in Hfl.
  destruct l as [|it0 l0] using rev_ind.
  - injection Ht as <-. unfold Derived.exceeding in Hex.
    rewrite RenderFacts.not_between_zero in Hex. discriminate.
  - clear IHl0. rename l0 into l, it0 into it.
    rewrite RenderFacts.total_from_app in Ht.
    apply DerivedFacts.obind_Ok in Ht as (t0 & Ht0 & Ht).
    simpl in Ht. apply DerivedFacts.obind_Ok in Ht as (p & Hp & Ht).
    injection Ht as <-.
    rewrite RenderFacts.over_from_app, Ht0 in Hfl.
    apply DerivedFacts.obind_Ok in Hfl as (fl0 & Hfl0 & Hfl).
    simpl in Hfl. rewrite Hp in Hfl. simpl in Hfl. injection Hfl as <-.
    exists (length l). split; [rewrite length_app; simpl; lia|].
    rewrite <- (RenderFacts.over_from_length _ _ _ _ Hfl0).
    rewrite list_lookup_middle by reflexivity. simpl.
    unfold Derived.exceeding in Hex. apply andb_true_iff in Hex as [Hgt Hpos].
    destruct (RenderFacts.gt_not_NaN _ _ Hpos) as [Hmb _].
    assert (Ht0n : JSNum.isNaN t0 = false).
    { destruct t0; try reflexivity. simpl in Hgt.
      destruct (RenderFacts.gt_not_NaN _ _ Hgt) as [Hn _]. discriminate. }
    unfold Derived.over_flag.
    destruct (RenderFacts.lt_or_ge t0 mb Ht0n Hmb) as [Hlt|Hge].
    + rewrite Hpos, Hlt, Hgt. reflexivity.
    + rewrite Hge. apply orb_true_r.
Qed.

Lemma exceeding_highlights_last_item_witness :
  exists n,
    length (Render.items (Samples.derived_of Examples.two_months Examples.may))
    = S n
    /\ Render.isOver (Samples.derived_of Examples.two_months Examples.may) n
       = true.
Proof.
  apply (exceeding_highlights_last_item Examples.two_months Examples.may);
    vm_compute; reflexivity.
Defined.

(** X4. With no ceiling ([maxBudget] is 0) and a total above 0, a render
    finds the month not [exceeding] and shows no ceiling, and yet
    [exceeded] is the whole total and the pill "Excedido" is shown. *)
Theorem no_ceiling_still_shows_exceeded
    (store : value) (activeMonth : jsstring) (d : Render.derived) :
  Render.derive store activeMonth = Ok d ->
  Render.maxBudget d = JSNum.zero ->
  JSNum.gt (Render.total d) JSNum.zero = true ->
  Render.verdict_is_over d = false
  /\ Render.shows_budget_pill d = false
  /\ Render.exceeded d = Render.total d
  /\ Render.shows_exceeded_pill d = true.
Proof.
  unfold Render.derive. intros H Hmb Hgt.
  apply DerivedFacts.obind_Ok in H as (data & _ & H).
  apply DerivedFacts.obind_Ok in H as (its & _ & H).
  apply DerivedFacts.obind_Ok in H as (mb & _ & H).
  apply DerivedFacts.obind_Ok in H as (t & _ & H).
  apply DerivedFacts.obind_Ok in H as (fl & _ & H).
  destruct its as [q|l|ps]; try discriminate. injection H as <-.
  unfold Render.verdict_is_over, Render.shows_budget_pill,
    Render.shows_exceeded_pill. simpl in *. subst mb.
  assert (He : Derived.exceeded t JSNum.zero = t).
  { destruct t as [[]|[]| |[] m e]; try discriminate; reflexivity. }
  rewrite He. unfold Derived.exceeding. rewrite andb_false_r. auto.
Qed.

Lemma no_ceiling_still_shows_exceeded_witness :
  Render.verdict_is_over (Samples.derived_of Samples.no_ceiling Examples.may)
  = false
  /\ Render.shows_budget_pill (Samples.derived_of Samples.no_ceiling Examples.may)
     = false
  /\ Render.exceeded (Samples.derived_of Samples.no_ceiling Examples.may)
     = Render.total (Samples.derived_of Samples.no_ceiling Examples.may)
  /\ Render.shows_exceeded_pill
       (Samples.derived_of Samples.no_ceiling Examples.may) = true.
Proof.
  apply (no_ceiling_still_shows_exceeded Samples.no_ceiling Examples.may);
    vm_compute; reflexivity.
Defined.

(** X5. A render of a well-formed store does not throw, whatever the
    active month: it derives one flag per item and a ceiling that is not
    NaN, and for a month that the store does not have, no items, the
    total 0 and the verdict that is not over. *)
Theorem render_of_well_formed_store (store : value) (activeMonth : jsstring) :
  Shape.well_formed_store store = true ->
  exists d,
    Render.derive store activeMonth = Ok d
    /\ length (Render.overBudgetMap d) = length (Render.items d)
    /\ JSNum.isNaN (Render.maxBudget d) = false
    /\ (Derived.data store activeMonth = Ok Derived.empty_month ->
        d = Render.Derived_values [] JSNum.zero JSNum.zero JSNum.zero false []).
Proof.
  intros Hwf. unfold Shape.well_formed_store in Hwf.
  destruct store as [q|l|[|[k0 [q|l|months]] [|? ?]]]; try discriminate.
  apply andb_true_iff in Hwf as [Hwf _].
  apply andb_true_iff in Hwf as [Hk Hmonths].
  apply bool_decide_eq_true in Hk. subst k0.
  assert (Hdata : exists data,
             Derived.data (Obj [(lit "months", Obj months)]) activeMonth = Ok data
             /\ Shape.well_formed_month data = true).
  { unfold Derived.data. simpl.
    destruct (Props.lookup activeMonth months) as [m|] eqn:Hm; simpl.
    - assert (Hin : In (activeMonth, m) months).
      { clear -Hm. induction months as [|[k' v'] months IH]; [discriminate|].
        simpl in Hm. destruct (bool_decide (k' = activeMonth)) eqn:Hd.
        - apply bool_decide_eq_true in Hd. injection Hm as ->. subst. now left.
        - right. auto. }
      rewrite forallb_forall in Hmonths. specialize (Hmonths _ Hin).
      apply andb_true_iff in Hmonths as [_ Hw]. simpl in Hw.
      destruct m as [q|l|props]; try discriminate. simpl. eauto.
    - eexists. split; reflexivity. }
  destruct Hdata as (data & Hdata & Hw).
  destruct (RenderFacts.well_formed_month_parts data Hw)
    as (props & mb & its & -> & Hmb & Hits & Hfin & Hitems).
  destruct (RenderFacts.well_formed_items_total its JSNum.zero Hitems)
    as (t & Ht).
  destruct (RenderFacts.total_from_flags (JSNum.or_zero mb) its _ _ Ht)
    as (fl & Hfl).
  exists (Render.Derived_values its (JSNum.or_zero mb) t
            (Derived.exceeded t (JSNum.or_zero mb))
            (Derived.exceeding t (JSNum.or_zero mb)) fl).
  assert (Hd : Render.derive (Obj [(lit "months", Obj months)]) activeMonth
               = Ok (Render.Derived_values its (JSNum.or_zero mb) t
                       (Derived.exceeded t (JSNum.or_zero mb))
                       (Derived.exceeding t (JSNum.or_zero mb)) fl)).
  { unfold Render.derive. rewrite Hdata. simpl.
    unfold Derived.items, Derived.maxBudget. simpl. rewrite Hits, Hmb. simpl.
    rewrite Ht. simpl. rewrite Hfl. reflexivity. }
  repeat apply conj.
  - exact Hd.
  - simpl. eapply RenderFacts.over_from_length; eauto.
  - simpl. apply RenderFacts.or_zero_not_NaN.
  - intros He. rewrite He in Hdata.
    assert (Hprops : props = [(lit "maxBudget", Num JSNum.zero);
                              (lit "items", Arr [])])
      by (unfold Derived.empty_month in Hdata; congruence).
    subst props. vm_compute in Hmb, Hits.
    injection Hmb as <-. injection Hits as <-.
    simpl in Ht, Hfl. injection Ht as <-. injection Hfl as <-. reflexivity.
Qed.

Lemma render_of_well_formed_store_witness :
  exists d,
    Render.derive Examples.two_months Examples.may = Ok d
    /\ length (Render.overBudgetMap d) = length (Render.items d)
    /\ JSNum.isNaN (Render.maxBudget d) = false
    /\ (Derived.data Examples.two_months Examples.may = Ok Derived.empty_month ->
        d = Render.Derived_values [] JSNum.zero JSNum.zero JSNum.zero false []).
Proof.
  apply render_of_well_formed_store. vm_compute. reflexivity.
Defined.

(** X6. What [saveData] writes for a well-formed store whose Numbers
    are printed as tokens that read back, [loadData] returns: the store
    in which every zero is [+0], deeply equal to the one saved, and the
    same store when no ceiling is [-0]. *)
Theorem saveData_loadData_round_trip (store : value) :
  Shape.well_formed_store store = true ->
  forallb Shape.reads_back (Shape.numbers store) = true ->
  Storage.loadData (Ok (Some (Storage.saveData store)))
  = Ok (Shape.unsigned_zeros store)
  /\ Shape.deep_equal (Shape.unsigned_zeros store) store = true
  /\ (Shape.no_negative_zero store = true ->
      Shape.unsigned_zeros store = store).
Proof.
  intros Hwf Hnum.
  assert (Hr : RoundTrip.readable store).
  { split; [apply JSONFacts.well_formed_store_plain, Hwf | exact Hnum]. }
  split; [|split; [apply JSONFacts.deep_equal_unsigned_zeros, Hr
                  | apply JSONFacts.unsigned_zeros_id]].
  destruct (JSONFacts.serialize_head [] [] store Hr) as (c & t & Ht & _).
  unfold Storage.saveData, JSON.stringify. rewrite Ht.
  cbn [Storage.text_of from_option id].
  assert (Hp := JSONFacts.readable_reads store Hr [] []
                  (S (length (c :: t))) [] (c :: t)).
  rewrite app_nil_r in Hp.
  assert (Hparse : JSON.parse (c :: t) = Ok (Shape.unsigned_zeros store)).
  { unfold JSON.parse.
    rewrite Hp; [reflexivity | constructor | constructor | reflexivity
                | exact Ht | lia]. }
  rewrite (StorageFacts.loadData_parsed _ _ Hparse).
  unfold Shape.well_formed_store in Hwf.
  destruct store as [q|l|[|[k [q|l|months]] [|? ?]]]; try discriminate.
  apply andb_true_iff in Hwf as [Hwf _].
  apply andb_true_iff in Hwf as [Hk _].
  apply bool_decide_eq_true in Hk. subst k.
  reflexivity.
Qed.

Lemma saveData_loadData_round_trip_witness :
  Storage.loadData (Ok (Some (Storage.saveData Examples.two_months)))
  = Ok (Shape.unsigned_zeros Examples.two_months)
  /\ Shape.deep_equal (Shape.unsigned_zeros Examples.two_months)
                      Examples.two_months = true
  /\ (Shape.no_negative_zero Examples.two_months = true ->
      Shape.unsigned_zeros Examples.two_months = Examples.two_months).
Proof.
  apply saveData_loadData_round_trip; vm_compute; reflexivity.
Defined.

(** X7. Whatever the storage holds, and however reading it completes,
    what [loadData] returns is an object whose [months] is an object, so
    that [store.months[activeMonth]] in the first render reads a
    property of an object and does not throw. *)
Theorem loadData_returns_a_store (raw : outcome (option jsstring)) :
  exists store months,
    Storage.loadData raw = Ok store
    /\ Coerce.is_object store = true
    /\ Coerce.get store (lit "months") = Ok months
    /\ Coerce.is_object months = true
    /\ forall activeMonth,
         exists data, Derived.data store activeMonth = Ok data.
Proof.
  assert (Hempty : exists store months,
             Ok Storage.empty_store = Ok store
             /\ Coerce.is_object store = true
             /\ Coerce.get store (lit "months") = Ok months
             /\ Coerce.is_object months = true
             /\ forall activeMonth,
                  exists data, Derived.data store activeMonth = Ok data).
  { exists Storage.empty_store, (Obj []). repeat apply conj; try reflexivity.
    intros k. eexists. reflexivity. }
  destruct raw as [[text|]|e]; try exact Hempty.
  destruct (JSON.parse text) as [parsed|e] eqn:Hp.
  - rewrite (StorageFacts.loadData_parsed _ _ Hp).
    destruct (JSStr.truthy text); [|exact Hempty].
    destruct (Coerce.is_object parsed) eqn:Ho; [|exact Hempty].
    destruct (StorageFacts.get_object parsed (lit "months") Ho)
      as (months & Hm).
    rewrite Hm. simpl. destruct (Coerce.is_object months) eqn:Hom;
      [|exact Hempty].
    exists parsed, months. repeat apply conj; auto.
    intros k. unfold Derived.data. rewrite Hm. simpl.
    destruct (StorageFacts.get_object months k Hom) as (w & ->). simpl. eauto.
  - unfold Storage.loadData, Storage.loadData_try. simpl.
    destruct (JSStr.truthy text); simpl; [|exact Hempty].
    rewrite Hp. exact Hempty.
Qed.

(** ** A month that is made or made anew *)

Module MonthFacts.
Import Heap HeapLogic HeapFacts Reading.
Local Open Scope heap_scope.

#[local] Arguments get : simpl never.
#[local] Arguments set : simpl never.
#[local] Arguments own_props : simpl never.

Lemma ensureMonth_exec k h lp props lm mprops :
  h !! lp = Some (CObj props) ->
  Props.lookup (lit "months") props = Some (HRef lm) ->
  h !! lm = Some (CObj mprops) ->
  Actions.ensureMonth k (HRef lp) h =
  (Ok (HRef (length h)),
   if Edit.truthy (default hundefined (Props.lookup k mprops))
   then h ++ [CObj props]
   else with_new_month k h props mprops lm).
Proof.
  intros Hlp Hmonths Hlm. unfold Actions.ensureMonth.
  unfold bind at 1. rewrite (own_props_obj _ _ _ Hlp).
  unfold bind at 1. unfold alloc at 1.
  assert (H1 : (h ++ [CObj props]) !! length h = Some (CObj props))
    by (apply list_lookup_middle; reflexivity).
  unfold bind at 1. rewrite (get_obj _ _ _ _ H1), Hmonths. simpl default.
  assert (H2 : (h ++ [CObj props]) !! lm = Some (CObj mprops))
    by (apply lookup_app_l_Some, Hlm).
  unfold bind at 1. rewrite (get_obj _ _ _ _ H2).
  destruct (default hundefined (Props.lookup k mprops)) as [p|l];
    [|reflexivity].
  simpl Edit.truthy. destruct (Coerce.prim_truthy p); [reflexivity|].
  unfold bind at 1. unfold Actions.new_month, bind, alloc.
  rewrite !length_app. simpl length.
  replace (length h + 1)%nat with (S (length h)) by lia.
  replace (S (length h) + 1)%nat with (S (S (length h))) by lia.
  rewrite <- !app_assoc. simpl app.
  erewrite set_obj; [reflexivity|]. apply lookup_app_l_Some, Hlm.
Qed.

Lemma lookup_lt_length (h : heap) l c : h !! l = Some c -> (l < length h)%nat.
Proof. intros H. apply lookup_lt_Some in H. exact H. Qed.

(** What the heap with the new month holds. *)
Lemma with_new_month_cells k h props mprops lm c :
  h !! lm = Some c ->
  let h' := with_new_month k h props mprops lm in
  h' !! lm = Some (CObj (Props.set k (HRef (S (S (length h)))) mprops))
  /\ h' !! length h = Some (CObj props)
  /\ h' !! S (length h) = Some (CArr [] [])
  /\ h' !! S (S (length h))
     = Some (CObj [(lit "maxBudget", HPrim (PNum JSNum.zero));
                   (lit "items", HRef (S (length h)))])
  /\ (forall l, l <> lm -> (l < length h)%nat -> h' !! l = h !! l).
Proof.
  intros Hlm h'. pose proof (lookup_lt_length _ _ _ Hlm) as Hlt.
  subst h'. unfold with_new_month. repeat apply conj.
  - apply list_lookup_insert_eq. rewrite length_app. lia.
  - rewrite list_lookup_insert_ne by lia.
    apply list_lookup_middle. reflexivity.
  - rewrite list_lookup_insert_ne by lia.
    change (h ++ [CObj props; ?a; ?b]) with (h ++ [CObj props] ++ a :: [b]).
    rewrite app_assoc. apply list_lookup_middle.
    rewrite length_app. simpl. lia.
  - rewrite list_lookup_insert_ne by lia.
    change (h ++ [CObj props; ?a; ?b]) with (h ++ [CObj props; a] ++ [b]).
    rewrite app_assoc. apply list_lookup_middle.
    rewrite length_app. simpl. lia.
  - intros l Hne Hl. rewrite list_lookup_insert_ne by congruence.
    apply lookup_app_l. exact Hl.
Qed.

(** The new month reads as [{ maxBudget: 0, items: [] }]. *)
Lemma new_month_content k h props mprops lm c :
  h !! lm = Some c ->
  content 2 (with_new_month k h props mprops lm) (HRef (S (S (length h))))
  = Some Derived.empty_month.
Proof.
  intros Hlm.
  destruct (with_new_month_cells k h props mprops lm c Hlm)
    as (_ & _ & H1 & H2 & _).
  unfold content. cbn [view]. rewrite H2. cbn [view_members view].
  rewrite H1. reflexivity.
Qed.

Lemma month_entry_new k k' h props mprops lm c lp' props' :
  h !! lm = Some c ->
  with_new_month k h props mprops lm !! lp' = Some (CObj props') ->
  Props.lookup (lit "months") props' = Some (HRef lm) ->
  Actions.month_entry (HRef lp') k' (with_new_month k h props mprops lm)
  = (Ok (if bool_decide (k' = k) then HRef (S (S (length h)))
         else default hundefined (Props.lookup k' mprops)),
     with_new_month k h props mprops lm).
Proof.
  intros Hlm Hlp' Hm.
  destruct (with_new_month_cells k h props mprops lm c Hlm) as (H0 & _).
  rewrite (month_entry_exec _ _ _ _ _ _ Hlp' Hm H0).
  destruct (bool_decide (k' = k)) eqn:Hk.
  - apply bool_decide_eq_true in Hk. subst k'.
    rewrite PropsFacts.lookup_set_eq. reflexivity.
  - apply bool_decide_eq_false in Hk.
    rewrite PropsFacts.lookup_set_ne by exact Hk. reflexivity.
Qed.

End MonthFacts.

(** X8. The effect that runs on load and on a month change
    ([ensureMonth]) returns a copy of the store's top object and never
    throws on a store whose [months] is an object. A month that is there
    (truthy) is left alone and nothing is written. A month that is not
    there is made, reading [{ maxBudget: 0, items: [] }], by a write into
    the [months] object that the previous store shares, so the previous
    store shows it too. Every other month stays what it was. *)
Theorem ensureMonth_makes_missing_month
    (k : jsstring) (h : Heap.heap) (prev : Heap.hval)
    (months : list (jsstring * Heap.hval)) :
  Heap.is_store h prev months ->
  exists next h',
    Actions.ensureMonth k prev h = (Ok next, h')
    /\ (forall k', k' <> k ->
          Actions.month_entry next k' h'
          = (Ok (default Heap.hundefined (Props.lookup k' months)), h'))
    /\ (Edit.truthy (default Heap.hundefined (Props.lookup k months)) = true ->
        h `prefix_of` h'
        /\ Actions.month_entry next k h'
           = (Ok (default Heap.hundefined (Props.lookup k months)), h'))
    /\ (Edit.truthy (default Heap.hundefined (Props.lookup k months)) = false ->
        exists fresh,
          (length h <= fresh)%nat
          /\ Actions.month_entry next k h' = (Ok (Heap.HRef fresh), h')
          /\ Actions.month_entry prev k h' = (Ok (Heap.HRef fresh), h')
          /\ Heap.content 2 h' (Heap.HRef fresh) = Some Derived.empty_month).
Proof.
  intros (lp & props & lm & -> & Hlp & Hm & Hlm).
  rewrite (MonthFacts.ensureMonth_exec k h lp props lm months Hlp Hm Hlm).
  eexists _, _. split; [reflexivity|].
  destruct (Edit.truthy (default Heap.hundefined (Props.lookup k months)))
    eqn:Ht.
  - assert (H1 : (h ++ [Heap.CObj props]) !! length h = Some (Heap.CObj props))
      by (apply list_lookup_middle; reflexivity).
    assert (H2 : (h ++ [Heap.CObj props]) !! lm = Some (Heap.CObj months))
      by (apply lookup_app_l_Some, Hlm).
    repeat apply conj.
    + intros k' _. apply (HeapFacts.month_entry_exec _ _ _ _ _ _ H1 Hm H2).
    + intros _. split; [apply prefix_app_r; reflexivity|].
      apply (HeapFacts.month_entry_exec _ _ _ _ _ _ H1 Hm H2).
    + discriminate.
  - destruct (MonthFacts.with_new_month_cells k h props months lm _ Hlm)
      as (H0 & H1 & _ & _ & Hold).
    assert (Hprev : exists props',
               Reading.with_new_month k h props months lm !! lp
               = Some (Heap.CObj props')
               /\ Props.lookup (lit "months") props' = Some (Heap.HRef lm)).
    { destruct (decide (lp = lm)) as [->|Hne].
      - rewrite Hlp in Hlm. injection Hlm as ->.
        eexists. split; [exact H0|].
        rewrite PropsFacts.lookup_set_ne; [exact Hm|].
        intros <-. rewrite Hm in Ht. discriminate.
      - exists props. split; [|exact Hm].
        rewrite Hold; [exact Hlp | exact Hne
                      | apply (MonthFacts.lookup_lt_length _ _ _ Hlp)]. }
    destruct Hprev as (props' & Hlp' & Hm').
    repeat apply conj.
    + intros k' Hk'.
      rewrite (MonthFacts.month_entry_new k k' h props months lm _ _ _ Hlm H1 Hm).
      rewrite bool_decide_false by exact Hk'. reflexivity.
    + discriminate.
    + intros _. exists (S (S (length h))). repeat apply conj.
      * lia.
      * rewrite (MonthFacts.month_entry_new k k h props months lm _ _ _ Hlm H1 Hm).
        rewrite bool_decide_true by reflexivity. reflexivity.
      * rewrite (MonthFacts.month_entry_new k k h props months lm _ _ _
                   Hlm Hlp' Hm').
        rewrite bool_decide_true by reflexivity. reflexivity.
      * eapply MonthFacts.new_month_content; eauto.
Qed.

Lemma ensureMonth_makes_missing_month_witness :
  exists next h',
    Actions.ensureMonth (lit "2024-07") Examples.store0 Examples.heap0
    = (Ok next, h')
    /\ (forall k', k' <> lit "2024-07" ->
          Actions.month_entry next k' h'
          = (Ok (default Heap.hundefined (Props.lookup k' Examples.months0)), h'))
    /\ (Edit.truthy (default Heap.hundefined
                       (Props.lookup (lit "2024-07") Examples.months0)) = true ->
        Examples.heap0 `prefix_of` h'
        /\ Actions.month_entry next (lit "2024-07") h'
           = (Ok (default Heap.hundefined
                    (Props.lookup (lit "2024-07") Examples.months0)), h'))
    /\ (Edit.truthy (default Heap.hundefined
                       (Props.lookup (lit "2024-07") Examples.months0)) = false ->
        exists fresh,
          (length Examples.heap0 <= fresh)%nat
          /\ Actions.month_entry next (lit "2024-07") h'
             = (Ok (Heap.HRef fresh), h')
          /\ Actions.month_entry Examples.store0 (lit "2024-07") h'
             = (Ok (Heap.HRef fresh), h')
          /\ Heap.content 2 h' (Heap.HRef fresh) = Some Derived.empty_month).
Proof.
  apply (ensureMonth_makes_missing_month (lit "2024-07") Examples.heap0
           Examples.store0 Examples.months0).
  exact ExampleFacts.store0_is_store.
Defined.

(** ** Reading the heap through as trees *)

Module ReadingFacts.
Import Heap HeapLogic HeapFacts Reading.
Local Open Scope heap_scope.

#[local] Arguments get : simpl never.
#[local] Arguments set : simpl never.
#[local] Arguments own_props : simpl never.
#[local] Arguments iterate : simpl never.
#[local] Arguments array_elems : simpl never.

(** *** Members and elements *)

Lemma view_members_same go ps : forall ts fps,
  view_members go ps = Some (ts, fps) ->
  same_members (fun x => fst <$> go x) ps ts.
Proof.
  induction ps as [|[k x] ps IH]; simpl; intros ts fps H.
  - injection H as <- <-. constructor.
  - destruct (go x) as [[t fp]|] eqn:Hx; [|discriminate].
    destruct (view_members go ps) as [[ts' fps']|] eqn:Hps; [|discriminate].
    injection H as <- <-. constructor; [|eapply IH; eauto].
    simpl. rewrite Hx. auto.
Qed.

Lemma same_view_members go ps : forall ts,
  same_members (fun x => fst <$> go x) ps ts ->
  exists fps, view_members go ps = Some (ts, fps).
Proof.
  induction ps as [|[k x] ps IH]; intros ts H; inversion H as [|? [k' t] ? ts' [Hk Hx] Hrest];
    subst; simpl in *.
  - eauto.
  - subst k'. destruct (go x) as [[t0 fp]|]; [|discriminate].
    injection Hx as ->. destruct (IH _ Hrest) as (fps & ->). eauto.
Qed.

Lemma view_elements_same go xs : forall ts fps,
  view_elements go xs = Some (ts, fps) ->
  same_elements (fun x => fst <$> go x) xs ts.
Proof.
  induction xs as [|x xs IH]; simpl; intros ts fps H.
  - injection H as <- <-. constructor.
  - destruct (go x) as [[t fp]|] eqn:Hx; [|discriminate].
    destruct (view_elements go xs) as [[ts' fps']|] eqn:Hxs; [|discriminate].
    injection H as <- <-. constructor; [|eapply IH; eauto].
    rewrite Hx. reflexivity.
Qed.

Lemma same_view_elements go xs : forall ts,
  same_elements (fun x => fst <$> go x) xs ts ->
  exists fps, view_elements go xs = Some (ts, fps).
Proof.
  induction xs as [|x xs IH]; intros ts H; inversion H as [|? t ? ts' Hx Hrest];
    subst; simpl in *.
  - eauto.
  - destruct (go x) as [[t0 fp]|]; [|discriminate].
    injection Hx as ->. destruct (IH _ Hrest) as (fps & ->). eauto.
Qed.

Lemma same_members_impl (go go' : hval -> option value) ps ts :
  (forall x t, go x = Some t -> go' x = Some t) ->
  same_members go ps ts -> same_members go' ps ts.
Proof.
  intros Hgo H. eapply Forall2_impl; [exact H|].
  intros kx kt [Hk Hx]. auto.
Qed.

Lemma same_elements_impl (go go' : hval -> option value) xs ts :
  (forall x t, go x = Some t -> go' x = Some t) ->
  same_elements go xs ts -> same_elements go' xs ts.
Proof. intros Hgo H. eapply Forall2_impl; [exact H | auto]. Qed.

(** *** What a reference reads as *)

Lemma content_prim f h p : content f h (HPrim p) = Some (Prim p).
Proof. destruct f; reflexivity. Qed.

Lemma content_obj f h l ts :
  content (S f) h (HRef l) = Some (Obj ts) <->
  exists props, h !! l = Some (CObj props)
                /\ same_members (content f h) props ts.
Proof.
  unfold content. simpl. split.
  - destruct (h !! l) as [[props|elems [|]]|]; try discriminate.
    + destruct (view_members (view f h) props) as [[ts' fps]|] eqn:Hm;
        [|discriminate].
      intros [= <-]. exists props. split; [reflexivity|].
      eapply view_members_same; eauto.
    + destruct (view_elements (view f h) elems) as [[ts' fps]|];
        discriminate.
  - intros (props & -> & Hs).
    destruct (same_view_members _ _ _ Hs) as (fps & ->). reflexivity.
Qed.

Lemma content_arr f h l ts :
  content (S f) h (HRef l) = Some (Arr ts) <->
  exists elems, h !! l = Some (CArr elems [])
                /\ same_elements (content f h) elems ts.
Proof.
  unfold content. simpl. split.
  - destruct (h !! l) as [[props|elems [|]]|]; try discriminate.
    + destruct (view_members (view f h) props) as [[ts' fps]|];
        discriminate.
    + destruct (view_elements (view f h) elems) as [[ts' fps]|] eqn:Hm;
        [|discriminate].
      intros [= <-]. exists elems. split; [reflexivity|].
      eapply view_elements_same; eauto.
  - intros (elems & -> & Hs).
    destruct (same_view_elements _ _ _ Hs) as (fps & ->). reflexivity.
Qed.

(** A tree that is not a primitive is behind a reference, and reading
    it takes fuel. *)
Lemma content_ref_inv f h v t :
  content f h v = Some t ->
  match t with
  | Prim p => v = HPrim p
  | _ => exists l f', v = HRef l /\ f = S f'
  end.
Proof.
  unfold content. destruct v as [p|l].
  - rewrite view_prim. simpl. intros [= <-]. reflexivity.
  - destruct f as [|f]; [discriminate|]. simpl.
    destruct (h !! l) as [[props|elems [|]]|]; try discriminate.
    + destruct (view_members _ _) as [[ts fps]|]; [|discriminate].
      intros [= <-]. eauto.
    + destruct (view_elements _ _) as [[ts fps]|]; [|discriminate].
      intros [= <-]. eauto.
Qed.

Lemma content_mono f f' h v t :
  (f <= f')%nat -> content f h v = Some t -> content f' h v = Some t.
Proof.
  unfold content. intros Hle H.
  destruct (view f h v) as [[t' fp]|] eqn:Hv; [|discriminate].
  rewrite (view_fuel_mono _ _ _ _ _ Hv Hle). exact H.
Qed.

Lemma content_prefix f h h' v t :
  h `prefix_of` h' -> content f h v = Some t -> content f h' v = Some t.
Proof.
  unfold content. intros Hp H.
  destruct (view f h v) as [[t' fp]|] eqn:Hv; [|discriminate].
  rewrite (view_prefix _ _ Hp _ _ _ Hv). exact H.
Qed.

(** The objects visited are objects of the heap. *)
Lemma view_members_bound (P : loc -> Prop) go ps :
  (forall x t fp, go x = Some (t, fp) -> Forall P fp) ->
  forall ts fps, view_members go ps = Some (ts, fps) -> Forall P fps.
Proof.
  intros Hgo. induction ps as [|[k x] ps IH]; simpl; intros ts fps H.
  - injection H as <- <-. constructor.
  - destruct (go x) as [[t fp]|] eqn:Hx; [|discriminate].
    destruct (view_members go ps) as [[ts' fps']|] eqn:Hps; [|discriminate].
    injection H as <- <-. apply Forall_app. split; eauto.
Qed.

Lemma view_elements_bound (P : loc -> Prop) go xs :
  (forall x t fp, go x = Some (t, fp) -> Forall P fp) ->
  forall ts fps, view_elements go xs = Some (ts, fps) -> Forall P fps.
Proof.
  intros Hgo. induction xs as [|x xs IH]; simpl; intros ts fps H.
  - injection H as <- <-. constructor.
  - destruct (go x) as [[t fp]|] eqn:Hx; [|discriminate].
    destruct (view_elements go xs) as [[ts' fps']|] eqn:Hxs; [|discriminate].
    injection H as <- <-. apply Forall_app. split; eauto.
Qed.

Lemma view_bound (h : heap) : forall f v t fp,
  view f h v = Some (t, fp) -> Forall (fun l => (l < length h)%nat) fp.
Proof.
  induction f as [|f IH]; intros [p|l] t fp H; simpl in H;
    try discriminate; try (injection H as <- <-; constructor).
  destruct (h !! l) as [c|] eqn:Hl; [|discriminate].
  apply lookup_lt_Some in Hl.
  destruct c as [props|elems [|]]; try discriminate.
  - destruct (view_members (view f h) props) as [[ts fps]|] eqn:Hm;
      [|discriminate].
    injection H as <- <-. constructor; [exact Hl|].
    eapply view_members_bound; eauto.
  - destruct (view_elements (view f h) elems) as [[ts fps]|] eqn:Hm;
      [|discriminate].
    injection H as <- <-. constructor; [exact Hl|].
    eapply view_elements_bound; eauto.
Qed.

(** A write to an object that is new leaves what was read as it was. *)
Lemma content_insert_new f (h h2 : heap) n c v t :
  h `prefix_of` h2 -> (length h <= n)%nat ->
  content f h v = Some t -> content f (<[n := c]> h2) v = Some t.
Proof.
  unfold content. intros Hp Hn H.
  destruct (view f h v) as [[t' fp]|] eqn:Hv; [|discriminate].
  pose proof (view_bound _ _ _ _ _ Hv) as Hb.
  rewrite (view_insert_notin h2 n c f v t' fp); [exact H | |].
  - eapply view_prefix; eauto.
  - intros Hin. rewrite Forall_forall in Hb. specialize (Hb _ Hin). lia.
Qed.

(** *** Property lists read through *)

Lemma same_members_lookup (go : hval -> option value) ps ts k :
  same_members go ps ts ->
  match Props.lookup k ps, Props.lookup k ts with
  | Some e, Some t => go e = Some t
  | None, None => True
  | _, _ => False
  end.
Proof.
  induction 1 as [|[k1 x] [k2 t] ps ts [Hk Hx] _ IH]; simpl in *; [exact I|].
  subst k2. destruct (bool_decide (k1 = k)); [exact Hx | exact IH].
Qed.

Lemma same_members_lookup_Some (go : hval -> option value) ps ts k t :
  same_members go ps ts -> Props.lookup k ts = Some t ->
  exists e, Props.lookup k ps = Some e /\ go e = Some t.
Proof.
  intros Hs Ht. pose proof (same_members_lookup go ps ts k Hs) as H.
  rewrite Ht in H. destruct (Props.lookup k ps) as [e|]; [eauto | destruct H].
Qed.

Lemma same_members_lookup_None (go : hval -> option value) ps ts k :
  same_members go ps ts -> Props.lookup k ts = None ->
  Props.lookup k ps = None.
Proof.
  intros Hs Ht. pose proof (same_members_lookup go ps ts k Hs) as H.
  rewrite Ht in H. destruct (Props.lookup k ps); [destruct H | reflexivity].
Qed.

Lemma same_members_replace (go : hval -> option value) ps ts k x tx :
  same_members go ps ts -> go x = Some tx ->
  same_members go (Props.replace k x ps) (Props.replace k tx ts).
Proof.
  intros Hs Hx.
  induction Hs as [|[k1 y] [k2 t] ps ts [Hk Hy] Hrest IH]; simpl in *;
    [constructor|].
  subst k2. destruct (bool_decide (k1 = k)).
  - constructor; [split; [reflexivity | exact Hx] | exact Hrest].
  - constructor; [split; [reflexivity | exact Hy] | exact IH].
Qed.

Lemma same_members_insert_index (go : hval -> option value) ps ts i k x tx :
  same_members go ps ts -> go x = Some tx ->
  same_members go (Props.insert_index i k x ps) (Props.insert_index i k tx ts).
Proof.
  intros Hs Hx.
  induction Hs as [|[k1 y] [k2 t] ps ts [Hk Hy] Hrest IH]; simpl in *.
  - constructor; [split; [reflexivity | exact Hx] | constructor].
  - subst k2.
    assert (Hnew : same_members go ((k, x) :: (k1, y) :: ps)
                                   ((k, tx) :: (k1, t) :: ts)).
    { constructor; [split; [reflexivity | exact Hx]|].
      constructor; [split; [reflexivity | exact Hy] | exact Hrest]. }
    destruct (Props.array_index k1) as [j|]; [|exact Hnew].
    destruct (j <? i)%N; [|exact Hnew].
    constructor; [split; [reflexivity | exact Hy] | exact IH].
Qed.

(** Setting a property commutes with reading through. *)
Lemma same_members_set (go : hval -> option value) ps ts k x tx :
  same_members go ps ts -> go x = Some tx ->
  same_members go (Props.set k x ps) (Props.set k tx ts).
Proof.
  intros Hs Hx. unfold Props.set.
  pose proof (same_members_lookup go ps ts k Hs) as Hl.
  destruct (Props.lookup k ps) as [e|], (Props.lookup k ts) as [t|];
    try destruct Hl.
  - apply same_members_replace; assumption.
  - destruct (Props.array_index k) as [i|].
    + apply same_members_insert_index; assumption.
    + apply Forall2_app; [exact Hs|].
      constructor; [split; [reflexivity | exact Hx] | constructor].
Qed.

Lemma same_members_assign (go : hval -> option value) more tmore :
  same_members go more tmore ->
  forall base tbase,
    same_members go base tbase ->
    same_members go (Props.assign base more) (Props.assign tbase tmore).
Proof.
  induction 1 as [|[k x] [k' t] more tmore [Hk Hx] _ IH]; intros base tbase Hb;
    [exact Hb|].
  simpl in Hk, Hx. subst k'. unfold Props.assign. simpl.
  apply IH. apply same_members_set; assumption.
Qed.

Lemma same_members_imap (go : hval -> option value) xs ts :
  same_elements go xs ts ->
  forall g : nat -> jsstring,
    same_members go (imap (fun i v => (g i, v)) xs)
                    (imap (fun i t => (g i, t)) ts).
Proof.
  induction 1 as [|x t xs ts Hx _ IH]; intros g; [constructor|].
  simpl. constructor; [split; [reflexivity | exact Hx]|].
  apply (IH (g ∘ S)).
Qed.

Lemma same_members_indexed (go : hval -> option value) xs ts :
  same_elements go xs ts ->
  same_members go (Props.indexed xs) (Props.indexed ts).
Proof. intros H. apply (same_members_imap go xs ts H). Qed.

Lemma same_elements_lookup (go : hval -> option value) xs ts i :
  same_elements go xs ts ->
  match xs !! i, ts !! i with
  | Some e, Some t => go e = Some t
  | None, None => True
  | _, _ => False
  end.
Proof.
  intros H. revert i. induction H as [|x t xs ts Hx _ IH]; intros [|i]; simpl;
    auto.
  apply IH.
Qed.

(** *** Reading a property, the own properties, the elements *)

(** [v[k]] in the heap is [t[k]] on the tree that [v] reads as. *)
Lemma get_reads f h v t k :
  content f h v = Some t ->
  match Coerce.get t k with
  | Ok t' => exists v', get v k h = (Ok v', h) /\ content f h v' = Some t'
  | Throw e => get v k h = (Throw e, h)
  end.
Proof.
  intros Hc. pose proof (content_ref_inv _ _ _ _ Hc) as Hinv.
  destruct t as [p|ts|ts].
  - subst v. destruct p as [| |b|x|s]; simpl; try reflexivity;
      try (eexists; split; [reflexivity | apply content_prim]).
    unfold get, ret. destruct (bool_decide (k = lit "length")).
    + eexists. split; [reflexivity | apply content_prim].
    + destruct (Props.array_index k) as [i|].
      * destruct (s !! N.to_nat i);
          (eexists; split; [reflexivity | apply content_prim]).
      * eexists. split; [reflexivity | apply content_prim].
  - destruct Hinv as (l & f' & -> & ->).
    apply content_arr in Hc as (elems & Hl & Hs).
    unfold get, bind, read. rewrite Hl. unfold ret. simpl.
    destruct (bool_decide (k = lit "length")).
    + rewrite (Forall2_length _ _ _ Hs).
      eexists. split; [reflexivity | apply content_prim].
    + destruct (Props.array_index k) as [i|].
      * pose proof (same_elements_lookup _ _ _ (N.to_nat i) Hs) as Hi.
        destruct (elems !! N.to_nat i) as [e|], (ts !! N.to_nat i) as [t|];
          [| destruct Hi | destruct Hi |]; simpl.
        -- exists e. split; [reflexivity|].
           eapply content_mono; [|exact Hi]. lia.
        -- eexists. split; [reflexivity | apply content_prim].
      * eexists. split; [reflexivity | apply content_prim].
  - destruct Hinv as (l & f' & -> & ->).
    apply content_obj in Hc as (props & Hl & Hs).
    rewrite (get_obj _ _ _ _ Hl). simpl.
    pose proof (same_members_lookup _ _ _ k Hs) as Hk.
    destruct (Props.lookup k props) as [e|], (Props.lookup k ts) as [t|];
      [| destruct Hk | destruct Hk |]; simpl.
    + exists e. split; [reflexivity|].
      eapply content_mono; [|exact Hk]. lia.
    + eexists. split; [reflexivity | apply content_prim].
Qed.

Lemma get_reads_Ok f h v t k t' :
  content f h v = Some t -> Coerce.get t k = Ok t' ->
  exists v', get v k h = (Ok v', h) /\ content f h v' = Some t'.
Proof.
  intros Hc Hg. pose proof (get_reads f h v t k Hc) as H.
  rewrite Hg in H. exact H.
Qed.

(** [{ ...v }] copies what the tree has. *)
Lemma own_props_reads f h v t :
  content f h v = Some t ->
  exists ps, own_props v h = (Ok ps, h)
             /\ same_members (content f h) ps (Tree.own_props t).
Proof.
  intros Hc. pose proof (content_ref_inv _ _ _ _ Hc) as Hinv.
  destruct t as [p|ts|ts].
  - subst v. destruct p as [| |b|x|s]; simpl;
      try (exists []; split; [reflexivity | constructor]).
    exists (string_indexed s). split; [reflexivity|].
    unfold string_indexed. apply same_members_indexed.
    unfold same_elements. clear. induction s as [|c s IH]; simpl;
      constructor; [apply content_prim | exact IH].
  - destruct Hinv as (l & f' & -> & ->).
    apply content_arr in Hc as (elems & Hl & Hs).
    exists (Props.indexed elems ++ []). split.
    + unfold own_props, bind, read. rewrite Hl. reflexivity.
    + rewrite app_nil_r. simpl. apply same_members_indexed.
      eapply same_elements_impl; [|exact Hs].
      intros x t. apply content_mono. lia.
  - destruct Hinv as (l & f' & -> & ->).
    apply content_obj in Hc as (props & Hl & Hs).
    exists props. split; [apply (own_props_obj _ _ _ Hl)|].
    simpl. eapply same_members_impl; [|exact Hs].
    intros x t. apply content_mono. lia.
Qed.

(** The elements of an array that reads as [Arr ts]. *)
Lemma array_elems_reads f h v ts :
  content f h v = Some (Arr ts) ->
  exists elems,
    array_elems v h = (Ok elems, h) /\ iterate v h = (Ok elems, h)
    /\ same_elements (content f h) elems ts.
Proof.
  intros Hc. destruct (content_ref_inv _ _ _ _ Hc) as (l & f' & -> & ->).
  apply content_arr in Hc as (elems & Hl & Hs).
  exists elems. repeat apply conj.
  - unfold array_elems, bind, read. rewrite Hl. reflexivity.
  - unfold iterate, bind, read. rewrite Hl. reflexivity.
  - eapply same_elements_impl; [|exact Hs].
    intros x t. apply content_mono. lia.
Qed.

End ReadingFacts.

(** ** What the copying updaters make of the store *)

Module CopyFacts.
Import Heap HeapLogic HeapFacts Reading ReadingFacts.
Local Open Scope heap_scope.

#[local] Arguments get : simpl never.
#[local] Arguments set : simpl never.
#[local] Arguments own_props : simpl never.
#[local] Arguments iterate : simpl never.
#[local] Arguments array_elems : simpl never.

Lemma parts_heap F h prev store k props months month items :
  content F h prev = Some store ->
  Tree.parts store k = Some (props, months, month, items) ->
  exists lp hprops lm mprops lk kprops f3,
    prev = HRef lp /\ store = Obj props
    /\ F = S (S (S f3))
    /\ h !! lp = Some (CObj hprops)
    /\ same_members (content (S (S f3)) h) hprops props
    /\ Props.lookup (lit "months") hprops = Some (HRef lm)
    /\ h !! lm = Some (CObj mprops)
    /\ same_members (content (S f3) h) mprops months
    /\ Props.lookup k mprops = Some (HRef lk)
    /\ h !! lk = Some (CObj kprops)
    /\ same_members (content f3 h) kprops month
    /\ Props.lookup (lit "items") month = Some (Arr items)
    /\ Props.lookup (lit "months") props = Some (Obj months)
    /\ Props.lookup k months = Some (Obj month).
Proof.
  intros Hc Hp. unfold Tree.parts in Hp.
  destruct store as [q|l|props0]; try discriminate.
  destruct (Props.lookup (lit "months") props0) as [[q|l|months0]|] eqn:Hm;
    try discriminate.
  destruct (Props.lookup k months0) as [[q|l|month0]|] eqn:Hk;
    try discriminate.
  destruct (Props.lookup (lit "items") month0) as [[q|items0|ps]|] eqn:Hi;
    try discriminate.
  injection Hp as <- <- <- <-.
  destruct (content_ref_inv _ _ _ _ Hc) as (lp & f1 & -> & ->).
  apply content_obj in Hc as (hprops & Hlp & Hs1).
  destruct (same_members_lookup_Some _ _ _ _ _ Hs1 Hm) as (e1 & He1 & Hc1).
  destruct (content_ref_inv _ _ _ _ Hc1) as (lm & f2 & -> & ->).
  apply content_obj in Hc1 as (mprops & Hlm & Hs2).
  destruct (same_members_lookup_Some _ _ _ _ _ Hs2 Hk) as (e2 & He2 & Hc2).
  destruct (content_ref_inv _ _ _ _ Hc2) as (lk & f3 & -> & ->).
  apply content_obj in Hc2 as (kprops & Hlk & Hs3).
  exists lp, hprops, lm, mprops, lk, kprops, f3. repeat apply conj; auto.
Qed.

(** The cells of the heap that a copying updater leaves. *)
Lemma cow_cells (h h2 : heap) M T A B X :
  (h ++ [M; T]) `prefix_of` h2 ->
  let h' := <[length h := X]> (h2 ++ [A; B]) in
  h' !! length h = Some X
  /\ h' !! S (length h) = Some T
  /\ h' !! length h2 = Some A
  /\ h' !! S (length h2) = Some B.
Proof.
  intros Hp h'. pose proof (prefix_length _ _ Hp) as Hlen.
  rewrite length_app in Hlen. simpl in Hlen. subst h'. repeat apply conj.
  - apply list_lookup_insert_eq. rewrite length_app. simpl. lia.
  - rewrite list_lookup_insert_ne by lia. apply lookup_app_l_Some.
    eapply prefix_lookup_Some; [|exact Hp].
    rewrite lookup_app_r by lia.
    replace (S (length h) - length h)%nat with 1%nat by lia. reflexivity.
  - rewrite list_lookup_insert_ne by lia.
    apply list_lookup_middle. reflexivity.
  - rewrite list_lookup_insert_ne by lia.
    change (h2 ++ [A; B]) with (h2 ++ [A] ++ [B]). rewrite app_assoc.
    apply list_lookup_middle. rewrite length_app. simpl. lia.
Qed.

(** A copying updater, on a store that has the month and its items,
    sets a store that reads as the previous one with the new items. *)
Lemma copy_on_write_reads F G h prev store k props months month items tl f :
  content F h prev = Some store ->
  Tree.parts store k = Some (props, months, month, items) ->
  makes_items h F G (Arr items) tl f ->
  exists next h',
    Actions.copy_on_write k f prev h = (Ok next, h')
    /\ h `prefix_of` h'
    /\ content (4 + Nat.max F G) h' next
       = Some (Tree.with_items k tl props months month).
Proof.
  intros Hc Hp Hf.
  destruct (parts_heap _ _ _ _ _ _ _ _ _ Hc Hp)
    as (lp & hprops & lm & mprops & lk & kprops & f3 & -> & -> & -> & Hlp
        & Hs1 & Hm & Hlm & Hs2 & Hk & Hlk & Hs3 & Hi & _ & _).
  set (n := length h).
  set (h1 := h ++ [CObj mprops; CObj (Props.set (lit "months") (HRef n) hprops)]).
  assert (Hh1 : h `prefix_of` h1) by (apply prefix_app_r; reflexivity).
  set (ci := default hundefined (Props.lookup (lit "items") kprops)).
  assert (Hci : content (S (S (S f3))) h ci = Some (Arr items)).
  { destruct (same_members_lookup_Some _ _ _ _ _ Hs3 Hi) as (e & He & Hce).
    subst ci. rewrite He. simpl.
    eapply content_mono; [|exact Hce]. lia. }
  destruct (Hf h1 ci Hh1 Hci) as (l & h2 & Hrun & H12 & Hl).
  rewrite (copy_on_write_exec k f h lp hprops lm mprops lk kprops l h2
             Hlp Hm Hlm Hk Hlk Hrun H12).
  fold n.
  set (E := Nat.max (S (S (S f3))) G).
  set (X := CObj (Props.set k (HRef (S (length h2))) mprops)).
  set (A := CArr l []).
  set (B := CObj (Props.set (lit "items") (HRef (length h2)) kprops)).
  destruct (cow_cells h h2 _ _ A B X H12) as (HX & HT & HA & HB).
  fold n in HX, HT. set (h' := <[n := X]> (h2 ++ [A; B])) in *.
  assert (Hh2 : h `prefix_of` h2 ++ [A; B]).
  { etransitivity; [exact Hh1|]. etransitivity; [exact H12|].
    apply prefix_app_r. reflexivity. }
  assert (Hold : forall f v t, (f <= E)%nat ->
             content f h v = Some t -> content E h' v = Some t).
  { intros f0 v t Hle Hv. eapply content_mono; [exact Hle|].
    apply (content_insert_new f0 h (h2 ++ [A; B]) n X v t Hh2); [lia|exact Hv]. }
  eexists _, _. split; [reflexivity|]. split.
  { apply prefix_insert_new; [exact Hh2 | lia]. }
  (* the items *)
  assert (Hitems : content (S E) h' (HRef (length h2)) = Some (Arr tl)).
  { apply content_arr. exists l. split; [exact HA|].
    eapply same_elements_impl; [|apply (Hl n X [A; B])].
    - intros x t. apply content_mono. lia.
    - subst h1 n. rewrite length_app. simpl. lia. }
  (* the month *)
  assert (Hmonth : content (S (S E)) h' (HRef (S (length h2)))
                   = Some (Obj (Props.set (lit "items") (Arr tl) month))).
  { apply content_obj. eexists. split; [exact HB|].
    apply same_members_set; [|exact Hitems].
    eapply same_members_impl; [|exact Hs3].
    intros x t Hx. eapply content_mono; [|apply (Hold f3); [lia | exact Hx]].
    lia. }
  (* the months *)
  assert (Hmonths : content (S (S (S E))) h' (HRef n)
                    = Some (Obj (Props.set k
                                   (Obj (Props.set (lit "items") (Arr tl) month))
                                   months))).
  { apply content_obj. eexists. split; [exact HX|].
    apply same_members_set; [|exact Hmonth].
    eapply same_members_impl; [|exact Hs2].
    intros x t Hx. eapply content_mono; [|apply (Hold (S f3)); [lia | exact Hx]].
    lia. }
  change (4 + Nat.max (S (S (S f3))) G)%nat with (S (S (S (S E)))).
  apply content_obj. eexists. split; [exact HT|].
  apply same_members_set; [|exact Hmonths].
  eapply same_members_impl; [|exact Hs1].
  intros x t Hx. eapply content_mono; [|apply (Hold (S (S f3))); [lia | exact Hx]].
  lia.
Qed.

(** *** Reads that do not depend on what was added *)

Lemma get_prefix v k (h h' : heap) v' :
  get v k h = (Ok v', h) -> h `prefix_of` h' -> get v k h' = (Ok v', h').
Proof.
  intros H Hp. destruct v as [p|l].
  - destruct p; unfold get, throw, ret in *; try discriminate;
      injection H as <-; reflexivity.
  - unfold get, bind, read in *. destruct (h !! l) as [c|] eqn:Hl;
      [|discriminate].
    rewrite (prefix_lookup_Some _ _ _ _ Hl Hp).
    destruct c; unfold ret in *; injection H as <-; reflexivity.
Qed.

Lemma own_props_prefix v (h h' : heap) ps :
  own_props v h = (Ok ps, h) -> h `prefix_of` h' ->
  own_props v h' = (Ok ps, h').
Proof.
  intros H Hp. destruct v as [p|l].
  - destruct p; unfold own_props, ret in *; injection H as <-; reflexivity.
  - unfold own_props, bind, read in *. destruct (h !! l) as [c|] eqn:Hl;
      [|discriminate].
    rewrite (prefix_lookup_Some _ _ _ _ Hl Hp).
    destruct c; unfold ret in *; injection H as <-; reflexivity.
Qed.

Lemma arr_cell F h v ts :
  content F h v = Some (Arr ts) ->
  exists l elems,
    v = HRef l /\ h !! l = Some (CArr elems [])
    /\ same_elements (content F h) elems ts.
Proof.
  intros Hc. destruct (content_ref_inv _ _ _ _ Hc) as (l & f' & -> & ->).
  apply content_arr in Hc as (elems & Hl & Hs).
  exists l, elems. repeat apply conj; auto.
  eapply same_elements_impl; [|exact Hs]. intros x t. apply content_mono. lia.
Qed.

(** [it.id === id] in the heap and on the tree. *)
Lemma id_is_reads F h it t id :
  content F h it = Some t -> Tree.nullish t = false ->
  exists v, get it (lit "id") h = (Ok v, h)
            /\ strict_equal v (HPrim id) = Tree.id_is id t.
Proof.
  intros Hc Hn. pose proof (get_reads F h it t (lit "id") Hc) as Hg.
  unfold Tree.id_is.
  destruct (Coerce.get t (lit "id")) as [t'|e] eqn:Ht.
  - destruct Hg as (v & Hv & Hcv). exists v. split; [exact Hv|].
    pose proof (content_ref_inv _ _ _ _ Hcv) as Hinv.
    destruct t' as [q|l|ps].
    + subst v. reflexivity.
    + destruct Hinv as (l0 & f' & -> & _). reflexivity.
    + destruct Hinv as (l0 & f' & -> & _). reflexivity.
  - destruct t as [[| |b|x|s]|l|ps]; simpl in Hn; try discriminate;
      unfold Coerce.get in Ht; repeat case_match; discriminate.
Qed.

(** *** The three ways of making the new items *)

(** [[...current.items, item]] *)
Lemma makes_items_add h F G items item titem :
  content G h item = Some titem ->
  makes_items h F (Nat.max F G) (Arr items) (items ++ [titem])
              (Actions.addItem_items item).
Proof.
  intros Hitem h1 ci Hp Hci.
  destruct (arr_cell _ _ _ _ Hci) as (l & elems & -> & Hl & Hs).
  exists (elems ++ [item]), h1. repeat apply conj.
  - unfold Actions.addItem_items, iterate, read, bind.
    rewrite (prefix_lookup_Some _ _ _ _ Hl Hp). reflexivity.
  - reflexivity.
  - intros n c hx Hn.
    assert (Hh : h `prefix_of` h1 ++ hx).
    { etransitivity; [exact Hp | apply prefix_app_r; reflexivity]. }
    apply Forall2_app.
    + eapply same_elements_impl; [|exact Hs]. intros x t Hx.
      eapply content_mono; [|apply (content_insert_new F h); eauto; lia]. lia.
    + constructor; [|constructor].
      eapply content_mono; [|apply (content_insert_new G h); eauto; lia]. lia.
Qed.

(** [current.items.filter((it) => it.id !== id)] *)
Lemma makes_items_remove h F items id :
  forallb (fun it => negb (Tree.nullish it)) items = true ->
  makes_items h F F (Arr items)
              (filter (fun it => negb (Tree.id_is id it)) items)
              (Actions.removeItem_items (HPrim id)).
Proof.
  intros Hnn h1 ci Hp Hci.
  destruct (arr_cell _ _ _ _ Hci) as (l & elems & -> & Hl & Hs).
  assert (Hrun : exists kept,
             filterM (fun it => it_id <- get it (lit "id");;
                                ret (negb (strict_equal it_id (HPrim id))))
                     elems h1 = (Ok kept, h1)
             /\ same_elements (content F h) kept
                  (filter (fun it => negb (Tree.id_is id it)) items)).
  { clear Hl Hci. induction Hs as [|x t elems items Hx _ IH].
    - exists []. split; [reflexivity | constructor].
    - simpl in Hnn. apply andb_true_iff in Hnn as [Hn Hnn].
      apply negb_true_iff in Hn.
      destruct (IH Hnn) as (kept & Hk & Hsk).
      destruct (id_is_reads F h x t id Hx Hn) as (v & Hv & Hid).
      simpl filterM. unfold bind at 1. unfold bind at 1.
      rewrite (get_prefix _ _ _ _ _ Hv Hp). unfold ret at 1.
      unfold bind at 1. rewrite Hk. unfold ret. rewrite Hid.
      rewrite filter_cons.
      destruct (negb (Tree.id_is id t)) eqn:Hd.
      + rewrite decide_True by exact I.
        eexists. split; [reflexivity|]. constructor; assumption.
      + rewrite decide_False by (intros Hf; exact Hf).
        eexists. split; [reflexivity | exact Hsk]. }
  destruct Hrun as (kept & Hk & Hsk).
  exists kept, h1. repeat apply conj.
  - unfold Actions.removeItem_items, array_elems, read, bind.
    rewrite (prefix_lookup_Some _ _ _ _ Hl Hp). exact Hk.
  - reflexivity.
  - intros n c hx Hn.
    assert (Hh : h `prefix_of` h1 ++ hx).
    { etransitivity; [exact Hp | apply prefix_app_r; reflexivity]. }
    eapply same_elements_impl; [|exact Hsk]. intros x t Hx.
    apply (content_insert_new F h); eauto. lia.
Qed.

(** [current.items.map((it) => it.id === id ? { ...it, ...fields } : it)] *)
Lemma makes_items_update h F G items id fields tfields :
  content G h fields = Some tfields ->
  forallb (fun it => negb (Tree.nullish it)) items = true ->
  makes_items h F (S (Nat.max F G)) (Arr items)
              (map (Tree.update id tfields) items)
              (Actions.updateItem_items (HPrim id) fields).
Proof.
  intros Hfields Hnn h1 ci Hp Hci.
  destruct (arr_cell _ _ _ _ Hci) as (l & elems & -> & Hl & Hs).
  destruct (own_props_reads _ _ _ _ Hfields) as (more & Hmore & Hsmore).
  set (g := fun it : hval =>
              it_id <- get it (lit "id");;
              if strict_equal it_id (HPrim id)
              then it_props <- own_props it;;
                   more <- own_props fields;;
                   alloc (CObj (Props.assign it_props more))
              else ret it).
  assert (Hrun : forall hcur, h `prefix_of` hcur ->
             exists mapped h2,
               mapM g elems hcur = (Ok mapped, h2) /\ hcur `prefix_of` h2
               /\ forall n c hx,
                    (length h <= n < length hcur)%nat ->
                    same_elements
                      (content (S (Nat.max F G)) (<[n := c]> (h2 ++ hx)))
                      mapped (map (Tree.update id tfields) items)).
  { clear Hl Hci Hp h1. induction Hs as [|x t elems items Hx _ IH];
      intros hcur Hcur.
    - exists [], hcur. repeat apply conj; [reflexivity | reflexivity|].
      intros; constructor.
    - simpl in Hnn. apply andb_true_iff in Hnn as [Hn Hnn].
      apply negb_true_iff in Hn. specialize (IH Hnn).
      destruct (id_is_reads F h x t id Hx Hn) as (v & Hv & Hid).
      assert (Hkeep : forall n c (hbig : heap),
                 h `prefix_of` hbig -> (length h <= n)%nat ->
                 content (S (Nat.max F G)) (<[n := c]> hbig) x = Some t).
      { intros n c hbig Hb Hle. eapply content_mono;
          [|apply (content_insert_new F h); eauto]. lia. }
      simpl mapM. unfold bind at 1. unfold g at 1. unfold bind at 1.
      rewrite (get_prefix _ _ _ _ _ Hv Hcur). rewrite Hid.
      cbn [map].
      assert (Hu : Tree.update id tfields t
                   = if Tree.id_is id t
                     then Obj (Props.assign (Tree.own_props t)
                                            (Tree.own_props tfields))
                     else t) by reflexivity.
      rewrite Hu. clear Hu.
      destruct (Tree.id_is id t).
      + destruct (own_props_reads _ _ _ _ Hx) as (ps & Hps & Hsps).
        unfold bind at 1. rewrite (own_props_prefix _ _ _ _ Hps Hcur).
        unfold bind at 1. rewrite (own_props_prefix _ _ _ _ Hmore Hcur).
        unfold alloc at 1.
        set (cell := CObj (Props.assign ps more)).
        destruct (IH (hcur ++ [cell])) as (mapped & h2 & Hm & H2 & Hsm).
        { etransitivity; [exact Hcur | apply prefix_app_r; reflexivity]. }
        unfold bind at 1. rewrite Hm. unfold ret.
        exists (HRef (length hcur) :: mapped), h2. repeat apply conj.
        * reflexivity.
        * etransitivity; [|exact H2]. apply prefix_app_r. reflexivity.
        * intros n c hx Hnr.
          assert (Hbig : h `prefix_of` h2 ++ hx).
          { etransitivity; [exact Hcur|]. etransitivity;
              [apply (prefix_app_r hcur hcur [cell]); reflexivity|].
            etransitivity; [exact H2 | apply prefix_app_r; reflexivity]. }
          constructor.
          -- apply content_obj. exists (Props.assign ps more). split.
             ++ rewrite list_lookup_insert_ne by lia.
                apply lookup_app_l_Some.
                eapply prefix_lookup_Some; [|exact H2].
                apply list_lookup_middle. reflexivity.
             ++ apply same_members_assign.
                ** eapply same_members_impl; [|exact Hsmore]. intros y ty Hy.
                   eapply content_mono;
                     [|apply (content_insert_new G h); eauto; lia]. lia.
                ** eapply same_members_impl; [|exact Hsps]. intros y ty Hy.
                   eapply content_mono;
                     [|apply (content_insert_new F h); eauto; lia]. lia.
          -- apply Hsm. rewrite length_app. simpl. lia.
      + unfold ret at 1.
        destruct (IH hcur Hcur) as (mapped & h2 & Hm & H2 & Hsm).
        unfold bind at 1. rewrite Hm. unfold ret.
        exists (x :: mapped), h2. repeat apply conj; [reflexivity | exact H2|].
        intros n c hx Hnr. constructor; [|apply Hsm; exact Hnr].
        apply Hkeep; [|lia].
        etransitivity; [exact Hcur|]. etransitivity; [exact H2|].
        apply prefix_app_r. reflexivity. }
  destruct (Hrun h1 Hp) as (mapped & h2 & Hm & H2 & Hsm).
  exists mapped, h2. repeat apply conj; [|exact H2|exact Hsm].
  unfold Actions.updateItem_items, array_elems, read, bind.
  rewrite (prefix_lookup_Some _ _ _ _ Hl Hp). exact Hm.
Qed.

End CopyFacts.

(** ** The store after [addItem], [removeItem], [updateItem] and
    [confirmEdit] *)

Module ItemFacts.
Import Heap HeapLogic HeapFacts Reading ReadingFacts CopyFacts.
Local Open Scope heap_scope.

Lemma store0_reads :
  reads_as Examples.heap0 Examples.store0 Examples.two_months.
Proof. exists 5%nat. vm_compute. reflexivity. Qed.

Lemma parts_two_months :
  Tree.parts Examples.two_months Examples.may
  = Some (Samples.props, Samples.months, Samples.may_month,
          Examples.example_items 50 60 40).
Proof. vm_compute. reflexivity. Qed.

(** A copying updater on a store that reads as a tree. *)
Lemma copy_on_write_reads_as h prev store k props months month items tl f :
  reads_as h prev store ->
  Tree.parts store k = Some (props, months, month, items) ->
  (forall F, exists G, makes_items h F G (Arr items) tl f) ->
  exists next h',
    Actions.copy_on_write k f prev h = (Ok next, h')
    /\ h `prefix_of` h'
    /\ reads_as h' next (Tree.with_items k tl props months month).
Proof.
  intros [F Hc] Hp Hf. destruct (Hf F) as (G & HG).
  destruct (copy_on_write_reads F G h prev store k props months month items
              tl f Hc Hp HG) as (next & h' & Hrun & Hpre & Hnext).
  exists next, h'. repeat apply conj; auto. eexists. exact Hnext.
Qed.

Lemma reads_as_prefix h h' v t :
  h `prefix_of` h' -> reads_as h v t -> reads_as h' v t.
Proof. intros Hp [F Hc]. exists F. eapply content_prefix; eauto. Qed.

(** The price that [addItem] and [confirmEdit] take counts as it is. *)
Lemma validate_price newName newPrice name price :
  Actions.addItem_validate newName newPrice = Some (name, price) ->
  JSNum.or_zero price = price /\ JSNum.gt price JSNum.zero = true.
Proof.
  unfold Actions.addItem_validate.
  destruct (negb _); [discriminate|].
  destruct (JSNum.isNaN _ || _) eqn:Hv; [discriminate|].
  intros [= _ <-]. apply orb_false_iff in Hv as [Hnan Hle].
  destruct (StringToNumber.Number newPrice) as [[]|[]| |[] m e];
    try discriminate; split; reflexivity.
Qed.

(** Setting a property to what it has changes nothing. *)
Lemma replace_same {V} k (v : V) ps :
  Props.lookup k ps = Some v -> Props.replace k v ps = ps.
Proof.
  induction ps as [|[k' v'] ps IH]; simpl; [reflexivity|].
  destruct (bool_decide (k' = k)) eqn:Hk.
  - apply bool_decide_eq_true in Hk. intros [= ->]. subst. reflexivity.
  - intros H. rewrite (IH H). reflexivity.
Qed.

Lemma set_same {V} k (v : V) ps :
  Props.lookup k ps = Some v -> Props.set k v ps = ps.
Proof. intros H. unfold Props.set. rewrite H. apply replace_same, H. Qed.

Lemma replace_replace {V} k (v w : V) ps :
  Props.replace k v (Props.replace k w ps) = Props.replace k v ps.
Proof.
  induction ps as [|[k' v'] ps IH]; simpl; [reflexivity|].
  destruct (bool_decide (k' = k)) eqn:Hk; simpl.
  - rewrite bool_decide_true by reflexivity. reflexivity.
  - rewrite Hk, IH. reflexivity.
Qed.

(** Setting a property that is there twice is setting it once. *)
Lemma set_set {V} k (v w : V) ps :
  is_Some (Props.lookup k ps) ->
  Props.set k v (Props.set k w ps) = Props.set k v ps.
Proof.
  intros [u Hu]. unfold Props.set at 2. rewrite Hu.
  unfold Props.set. rewrite Hu.
  rewrite PropsFacts.lookup_replace_eq by eauto. apply replace_replace.
Qed.

(** The store with the items it has is the store. *)
Lemma with_items_same store k props months month items :
  Tree.parts store k = Some (props, months, month, items) ->
  Tree.with_items k items props months month = store.
Proof.
  unfold Tree.parts. intros Hp.
  destruct store as [q|l|props0]; try discriminate.
  destruct (Props.lookup (lit "months") props0) as [[q|l|months0]|] eqn:Hm;
    try discriminate.
  destruct (Props.lookup k months0) as [[q|l|month0]|] eqn:Hk;
    try discriminate.
  destruct (Props.lookup (lit "items") month0) as [[q|items0|ps]|] eqn:Hi;
    try discriminate.
  injection Hp as <- <- <- <-.
  unfold Tree.with_items, Tree.with_month.
  rewrite (set_same _ _ _ Hi), (set_same _ _ _ Hk), (set_same _ _ _ Hm).
  reflexivity.
Qed.

(** The parts of a store whose items were replaced. *)
Lemma parts_with_items store k props months month items items' :
  Tree.parts store k = Some (props, months, month, items) ->
  Tree.parts (Tree.with_items k items' props months month) k
  = Some (Props.set (lit "months")
            (Obj (Props.set k (Obj (Props.set (lit "items") (Arr items') month))
                    months)) props,
          Props.set k (Obj (Props.set (lit "items") (Arr items') month)) months,
          Props.set (lit "items") (Arr items') month,
          items').
Proof.
  intros _. unfold Tree.parts, Tree.with_items, Tree.with_month.
  rewrite !PropsFacts.lookup_set_eq. reflexivity.
Qed.

Lemma with_items_with_items store k props months month items items' items'' :
  Tree.parts store k = Some (props, months, month, items) ->
  Tree.with_items k items''
    (Props.set (lit "months")
       (Obj (Props.set k (Obj (Props.set (lit "items") (Arr items') month))
               months)) props)
    (Props.set k (Obj (Props.set (lit "items") (Arr items') month)) months)
    (Props.set (lit "items") (Arr items') month)
  = Tree.with_items k items'' props months month.
Proof.
  unfold Tree.parts. intros Hp.
  destruct store as [q|l|props0]; try discriminate.
  destruct (Props.lookup (lit "months") props0) as [[q|l|months0]|] eqn:Hm;
    try discriminate.
  destruct (Props.lookup k months0) as [[q|l|month0]|] eqn:Hk;
    try discriminate.
  destruct (Props.lookup (lit "items") month0) as [[q|items0|ps]|] eqn:Hi;
    try discriminate.
  injection Hp as <- <- <- <-.
  unfold Tree.with_items, Tree.with_month.
  rewrite !set_set by eauto. reflexivity.
Qed.

(** *** The actions on a store that reads as a tree *)

Lemma item_reads (h : heap) id name price createdAt :
  content 1 (h ++ [item_cell id name price createdAt]) (HRef (length h))
  = Some (Derived.item id name price createdAt).
Proof.
  apply content_obj. eexists. split.
  - apply list_lookup_middle. reflexivity.
  - unfold item_cell. repeat constructor.
Qed.

Lemma addItem_reads h prev store k props months month items
    newName newPrice id createdAt name price :
  reads_as h prev store ->
  Tree.parts store k = Some (props, months, month, items) ->
  Actions.addItem_validate newName newPrice = Some (name, price) ->
  exists next h',
    Actions.addItem k newName newPrice id createdAt prev h
    = (Ok (Some next), h')
    /\ h `prefix_of` h'
    /\ reads_as h' next
         (Tree.with_items k (items ++ [Derived.item id name price createdAt])
                          props months month).
Proof.
  intros Hr Hp Hv. unfold Actions.addItem. rewrite Hv.
  unfold bind at 1. unfold alloc at 1.
  change (CObj [(lit "id", HPrim (PStr id)); (lit "name", HPrim (PStr name));
                (lit "price", HPrim (PNum price));
                (lit "createdAt", HPrim (PStr createdAt))])
    with (item_cell id name price createdAt).
  set (h0 := h ++ [item_cell id name price createdAt]).
  assert (H0 : h `prefix_of` h0) by (apply prefix_app_r; reflexivity).
  destruct (copy_on_write_reads_as h0 prev store k props months month items
              (items ++ [Derived.item id name price createdAt])
              (Actions.addItem_items (HRef (length h))))
    as (next & h' & Hrun & Hpre & Hnext).
  - eapply reads_as_prefix; eauto.
  - exact Hp.
  - intros F. eexists. apply makes_items_add. apply item_reads.
  - unfold bind at 1. rewrite addItem_update_cow, Hrun.
    exists next, h'. repeat apply conj; auto. etransitivity; eauto.
Qed.

Lemma removeItem_reads h prev store k props months month items id :
  reads_as h prev store ->
  Tree.parts store k = Some (props, months, month, items) ->
  forallb (fun it => negb (Tree.nullish it)) items = true ->
  exists next h',
    Actions.removeItem k true (HPrim id) prev h = (Ok (Some next), h')
    /\ h `prefix_of` h'
    /\ reads_as h' next
         (Tree.with_items k (filter (fun it => negb (Tree.id_is id it)) items)
                          props months month).
Proof.
  intros Hr Hp Hnn. unfold Actions.removeItem.
  change (negb true) with false. cbv iota.
  destruct (copy_on_write_reads_as h prev store k props months month items
              (filter (fun it => negb (Tree.id_is id it)) items)
              (Actions.removeItem_items (HPrim id)) Hr Hp)
    as (next & h' & Hrun & Hpre & Hnext).
  - intros F. exists F. apply makes_items_remove, Hnn.
  - unfold bind at 1. rewrite removeItem_update_cow, Hrun.
    exists next, h'. auto.
Qed.

Lemma updateItem_reads h prev store k props months month items id
    fields tfields :
  reads_as h prev store ->
  Tree.parts store k = Some (props, months, month, items) ->
  reads_as h fields tfields ->
  forallb (fun it => negb (Tree.nullish it)) items = true ->
  exists next h',
    Actions.updateItem k (HPrim id) fields prev h = (Ok (Some next), h')
    /\ h `prefix_of` h'
    /\ reads_as h' next
         (Tree.with_items k (map (Tree.update id tfields) items)
                          props months month).
Proof.
  intros Hr Hp [G Hfields] Hnn. unfold Actions.updateItem.
  destruct (copy_on_write_reads_as h prev store k props months month items
              (map (Tree.update id tfields) items)
              (Actions.updateItem_items (HPrim id) fields) Hr Hp)
    as (next & h' & Hrun & Hpre & Hnext).
  - intros F. eexists. apply (makes_items_update h F G); eauto.
  - unfold bind at 1. rewrite updateItem_update_cow, Hrun.
    exists next, h'. auto.
Qed.

(** *** Items and ids *)

Lemma id_is_item id name price createdAt :
  Tree.id_is (PStr id) (Derived.item id name price createdAt) = true.
Proof.
  unfold Tree.id_is, Derived.item. simpl.
  unfold JSStr.eqb. apply bool_decide_eq_true. reflexivity.
Qed.

Lemma filter_all {A} (P : A -> bool) l :
  forallb P l = true -> filter (fun x => P x) l = l.
Proof.
  induction l as [|x l IH]; simpl; [reflexivity|].
  intros H. apply andb_true_iff in H as [Hx Hl].
  rewrite filter_cons, decide_True by (rewrite Hx; exact I).
  rewrite (IH Hl). reflexivity.
Qed.

(** [{ ...it, name, price }] on an item that [addItem] made. *)
Lemma update_item id name price createdAt name' price' :
  Tree.update (PStr id)
    (Obj [(lit "name", Str name'); (lit "price", Num price')])
    (Derived.item id name price createdAt)
  = Derived.item id name' price' createdAt.
Proof.
  unfold Tree.update. rewrite id_is_item. reflexivity.
Qed.

End ItemFacts.

(** X9. A valid [addItem], on a store that has the month and its items,
    sets a store that reads as the previous one with the new item after
    the items of the month, and nothing else changed; the previous store
    reads as it did; and the total of the month is the previous total
    plus the price. *)
Theorem addItem_appends_and_adds_price
    (h : Heap.heap) (prev : Heap.hval) (store : value) (k : jsstring)
    (props months month : list (jsstring * value)) (items : list value)
    (newName newPrice id createdAt name : jsstring) (price : number) :
  Reading.reads_as h prev store ->
  Tree.parts store k = Some (props, months, month, items) ->
  Actions.addItem_validate newName newPrice = Some (name, price) ->
  exists next h',
    Actions.addItem k newName newPrice id createdAt prev h
    = (Ok (Some next), h')
    /\ Reading.reads_as h' next
         (Tree.with_items k (items ++ [Derived.item id name price createdAt])
                          props months month)
    /\ Reading.reads_as h' prev store
    /\ forall t,
         Derived.total (Arr items) = Ok t ->
         Derived.total (Arr (items ++ [Derived.item id name price createdAt]))
         = Ok (JSNum.add t price).
Proof.
  intros Hr Hp Hv.
  destruct (ItemFacts.addItem_reads h prev store k props months month items
              newName newPrice id createdAt name price Hr Hp Hv)
    as (next & h' & Hrun & Hpre & Hnext).
  exists next, h'. repeat apply conj; auto.
  - eapply ItemFacts.reads_as_prefix; eauto.
  - intros t Ht. unfold Derived.total in *.
    rewrite RenderFacts.total_from_app, Ht. simpl.
    destruct (ItemFacts.validate_price _ _ _ _ Hv) as [-> _]. reflexivity.
Qed.

Lemma addItem_appends_and_adds_price_witness :
  exists next h',
    Actions.addItem Examples.may (lit " Rent ") (lit "12.5") (lit "d")
      (lit "2024-05-04T10:00:00.000Z") Examples.store0 Examples.heap0
    = (Ok (Some next), h')
    /\ Reading.reads_as h' next
         (Tree.with_items Examples.may
            (Examples.example_items 50 60 40
               ++ [Derived.item (lit "d") (lit "Rent")
                     (StringToNumber.Number (lit "12.5"))
                     (lit "2024-05-04T10:00:00.000Z")])
            Samples.props Samples.months Samples.may_month)
    /\ Reading.reads_as h' Examples.store0 Examples.two_months
    /\ forall t,
         Derived.total (Arr (Examples.example_items 50 60 40)) = Ok t ->
         Derived.total
           (Arr (Examples.example_items 50 60 40
                   ++ [Derived.item (lit "d") (lit "Rent")
                         (StringToNumber.Number (lit "12.5"))
                         (lit "2024-05-04T10:00:00.000Z")]))
         = Ok (JSNum.add t (StringToNumber.Number (lit "12.5"))).
Proof.
  apply (addItem_appends_and_adds_price Examples.heap0 Examples.store0
           Examples.two_months Examples.may Samples.props Samples.months
           Samples.may_month (Examples.example_items 50 60 40)
           (lit " Rent ") (lit "12.5")).
  - exact ItemFacts.store0_reads.
  - exact ItemFacts.parts_two_months.
  - vm_compute. reflexivity.
Defined.

(** X10. A confirmed [removeItem(id)], for a primitive [id] and on a
    store that has the month and its items (none of them [null] or
    [undefined]), sets a store that reads as the previous one without
    the items whose [id] is [===] to [id], the others in their order;
    when no item has that [id] the new store reads as the previous one.
    A declined [removeItem] sets no store. *)
Theorem removeItem_filters_by_id
    (h : Heap.heap) (prev : Heap.hval) (store : value) (k : jsstring)
    (props months month : list (jsstring * value)) (items : list value)
    (id : prim) :
  Reading.reads_as h prev store ->
  Tree.parts store k = Some (props, months, month, items) ->
  forallb (fun it => negb (Tree.nullish it)) items = true ->
  (exists next h',
      Actions.removeItem k true (Heap.HPrim id) prev h = (Ok (Some next), h')
      /\ Reading.reads_as h' next
           (Tree.with_items k
              (filter (fun it => negb (Tree.id_is id it)) items)
              props months month)
      /\ Reading.reads_as h' prev store)
  /\ (forallb (fun it => negb (Tree.id_is id it)) items = true ->
      Tree.with_items k (filter (fun it => negb (Tree.id_is id it)) items)
                      props months month = store)
  /\ Actions.removeItem k false (Heap.HPrim id) prev h = (Ok None, h).
Proof.
  intros Hr Hp Hnn. repeat apply conj.
  - destruct (ItemFacts.removeItem_reads h prev store k props months month
                items id Hr Hp Hnn) as (next & h' & Hrun & Hpre & Hnext).
    exists next, h'. repeat apply conj; auto.
    eapply ItemFacts.reads_as_prefix; eauto.
  - intros Hall. rewrite (ItemFacts.filter_all _ _ Hall).
    eapply ItemFacts.with_items_same; eauto.
  - reflexivity.
Qed.

Lemma removeItem_filters_by_id_witness :
  (exists next h',
      Actions.removeItem Examples.may true (Heap.HPrim (PStr (lit "b")))
        Examples.store0 Examples.heap0 = (Ok (Some next), h')
      /\ Reading.reads_as h' next
           (Tree.with_items Examples.may
              (filter (fun it => negb (Tree.id_is (PStr (lit "b")) it))
                      (Examples.example_items 50 60 40))
              Samples.props Samples.months Samples.may_month)
      /\ Reading.reads_as h' Examples.store0 Examples.two_months)
  /\ (forallb (fun it => negb (Tree.id_is (PStr (lit "b")) it))
              (Examples.example_items 50 60 40) = true ->
      Tree.with_items Examples.may
        (filter (fun it => negb (Tree.id_is (PStr (lit "b")) it))
                (Examples.example_items 50 60 40))
        Samples.props Samples.months Samples.may_month
      = Examples.two_months)
  /\ Actions.removeItem Examples.may false (Heap.HPrim (PStr (lit "b")))
       Examples.store0 Examples.heap0 = (Ok None, Examples.heap0).
Proof.
  apply (removeItem_filters_by_id Examples.heap0 Examples.store0
           Examples.two_months Examples.may).
  - exact ItemFacts.store0_reads.
  - exact ItemFacts.parts_two_months.
  - vm_compute. reflexivity.
Defined.

(** X11. [updateItem(id, fields)], for a primitive [id] and on a store
    that has the month and its items (none of them [null] or
    [undefined]), sets a store that reads as the previous one with
    [{ ...it, ...fields }] for every item whose [id] is [===] to [id]
    and the other items as they were: as many items, in the same order.
    The previous store reads as it did. *)
Theorem updateItem_updates_by_id
    (h : Heap.heap) (prev fields : Heap.hval) (store tfields : value)
    (k : jsstring) (props months month : list (jsstring * value))
    (items : list value) (id : prim) :
  Reading.reads_as h prev store ->
  Tree.parts store k = Some (props, months, month, items) ->
  Reading.reads_as h fields tfields ->
  forallb (fun it => negb (Tree.nullish it)) items = true ->
  exists next h',
    Actions.updateItem k (Heap.HPrim id) fields prev h = (Ok (Some next), h')
    /\ Reading.reads_as h' next
         (Tree.with_items k (map (Tree.update id tfields) items)
                          props months month)
    /\ length (map (Tree.update id tfields) items) = length items
    /\ Reading.reads_as h' prev store.
Proof.
  intros Hr Hp Hf Hnn.
  destruct (ItemFacts.updateItem_reads h prev store k props months month
              items id fields tfields Hr Hp Hf Hnn)
    as (next & h' & Hrun & Hpre & Hnext).
  exists next, h'. repeat apply conj; auto.
  - apply length_map.
  - eapply ItemFacts.reads_as_prefix; eauto.
Qed.

Lemma updateItem_updates_by_id_witness :
  exists next h',
    Actions.updateItem Examples.may (Heap.HPrim (PStr (lit "b")))
      (Heap.HPrim (PStr (lit "xy"))) Examples.store0 Examples.heap0
    = (Ok (Some next), h')
    /\ Reading.reads_as h' next
         (Tree.with_items Examples.may
            (map (Tree.update (PStr (lit "b")) (Str (lit "xy")))
                 (Examples.example_items 50 60 40))
            Samples.props Samples.months Samples.may_month)
    /\ length (map (Tree.update (PStr (lit "b")) (Str (lit "xy")))
                   (Examples.example_items 50 60 40))
       = length (Examples.example_items 50 60 40)
    /\ Reading.reads_as h' Examples.store0 Examples.two_months.
Proof.
  apply (updateItem_updates_by_id Examples.heap0 Examples.store0
           (Heap.HPrim (PStr (lit "xy"))) Examples.two_months
           (Str (lit "xy")) Examples.may).
  - exact ItemFacts.store0_reads.
  - exact ItemFacts.parts_two_months.
  - exists 0%nat. reflexivity.
  - vm_compute. reflexivity.
Defined.

(** X12. [confirmEdit] takes a name and a price exactly as [addItem]
    does. When it takes them, on a store that has the month and its
    items, it sets a store that reads as the previous one with
    [{ ...it, name, price }] for the items with the edited [id], and
    leaves the editing state as [cancelEdit] does; an item that
    [addItem] made keeps its [id] and [createdAt]. When it does not take
    them, or nothing is being edited, it sets no store and leaves the
    editing state as it is. *)
Theorem confirmEdit_updates_name_and_price
    (h : Heap.heap) (prev : Heap.hval) (store : value) (k : jsstring)
    (props months month : list (jsstring * value)) (items : list value) :
  Reading.reads_as h prev store ->
  Tree.parts store k = Some (props, months, month, items) ->
  forallb (fun it => negb (Tree.nullish it)) items = true ->
  (forall id editName editPrice,
      Coerce.prim_truthy id = true ->
      Edit.confirmEdit_validate
        (Edit.State (Heap.HPrim id) (Heap.HPrim (PStr editName)) editPrice)
      = Ok (Actions.addItem_validate editName editPrice))
  /\ (forall id editName editPrice name price,
         Coerce.prim_truthy id = true ->
         Actions.addItem_validate editName editPrice = Some (name, price) ->
         exists next h',
           Edit.confirmEdit k
             (Edit.State (Heap.HPrim id) (Heap.HPrim (PStr editName)) editPrice)
             prev h
           = (Ok (Some next, Edit.cancelEdit), h')
           /\ Reading.reads_as h' next
                (Tree.with_items k
                   (map (Tree.update id
                           (Obj [(lit "name", Str name);
                                 (lit "price", Num price)])) items)
                   props months month)
           /\ forall i name0 price0 createdAt,
                Tree.update (PStr i)
                  (Obj [(lit "name", Str name); (lit "price", Num price)])
                  (Derived.item i name0 price0 createdAt)
                = Derived.item i name price createdAt)
  /\ (forall st,
         Edit.confirmEdit_validate st = Ok None ->
         Edit.confirmEdit k st prev h = (Ok (None, st), h))
  /\ (forall st,
         Edit.truthy (Edit.editingId st) = false ->
         Edit.confirmEdit_validate st = Ok None).
Proof.
  intros Hr Hp Hnn.
  assert (Hval : forall id editName editPrice,
             Coerce.prim_truthy id = true ->
             Edit.confirmEdit_validate
               (Edit.State (Heap.HPrim id) (Heap.HPrim (PStr editName)) editPrice)
             = Ok (Actions.addItem_validate editName editPrice)).
  { intros id editName editPrice Hid.
    unfold Edit.confirmEdit_validate, Actions.addItem_validate. simpl.
    rewrite Hid. simpl.
    destruct (JSStr.truthy (JSStr.trim editName)); simpl; [|reflexivity].
    destruct (JSNum.isNaN _ || JSNum.le _ _); reflexivity. }
  repeat apply conj.
  - exact Hval.
  - intros id editName editPrice name price Hid Hv.
    unfold Edit.confirmEdit. rewrite (Hval _ _ _ Hid), Hv.
    unfold Heap.bind at 1. unfold Heap.alloc at 1.
    set (cell := Heap.CObj [(lit "name", Heap.HPrim (PStr name));
                            (lit "price", Heap.HPrim (PNum price))]).
    assert (H0 : h `prefix_of` h ++ [cell]) by (apply prefix_app_r; reflexivity).
    destruct (ItemFacts.updateItem_reads (h ++ [cell]) prev store k props
                months month items id (Heap.HRef (length h))
                (Obj [(lit "name", Str name); (lit "price", Num price)]))
      as (next & h' & Hrun & Hpre & Hnext).
    + eapply ItemFacts.reads_as_prefix; eauto.
    + exact Hp.
    + exists 1%nat. apply ReadingFacts.content_obj. eexists. split.
      * apply list_lookup_middle. reflexivity.
      * repeat constructor.
    + exact Hnn.
    + simpl Edit.editingId. unfold Heap.bind at 1. rewrite Hrun.
      exists next, h'. repeat apply conj; auto.
      intros i name0 price0 createdAt. apply ItemFacts.update_item.
  - intros st Hst. unfold Edit.confirmEdit. rewrite Hst. reflexivity.
  - intros st Hst. unfold Edit.confirmEdit_validate. rewrite Hst. reflexivity.
Qed.

Lemma confirmEdit_updates_name_and_price_witness :
  exists next h',
    Edit.confirmEdit Examples.may
      (Edit.State (Heap.HPrim (PStr (lit "b")))
                  (Heap.HPrim (PStr (lit " bread "))) (lit "7.5"))
      Examples.store0 Examples.heap0
    = (Ok (Some next, Edit.cancelEdit), h')
    /\ Reading.reads_as h' next
         (Tree.with_items Examples.may
            (map (Tree.update (PStr (lit "b"))
                    (Obj [(lit "name", Str (lit "bread"));
                          (lit "price", Num (StringToNumber.Number (lit "7.5")))]))
                 (Examples.example_items 50 60 40))
            Samples.props Samples.months Samples.may_month)
    /\ forall i name0 price0 createdAt,
         Tree.update (PStr i)
           (Obj [(lit "name", Str (lit "bread"));
                 (lit "price", Num (StringToNumber.Number (lit "7.5")))])
           (Derived.item i name0 price0 createdAt)
         = Derived.item i (lit "bread") (StringToNumber.Number (lit "7.5"))
                        createdAt.
Proof.
  destruct (confirmEdit_updates_name_and_price Examples.heap0 Examples.store0
              Examples.two_months Examples.may Samples.props Samples.months
              Samples.may_month (Examples.example_items 50 60 40))
    as (_ & H & _).
  - exact ItemFacts.store0_reads.
  - exact ItemFacts.parts_two_months.
  - vm_compute. reflexivity.
  - apply (H (PStr (lit "b")) (lit " bread ") (lit "7.5")); vm_compute;
      reflexivity.
Defined.

(** X13. A valid [addItem] with an [id] that no item of the month has,
    followed by a confirmed [removeItem] of that [id], sets a store that
    reads as the store before the two. *)
Theorem addItem_then_removeItem_restores
    (h : Heap.heap) (prev : Heap.hval) (store : value) (k : jsstring)
    (props months month : list (jsstring * value)) (items : list value)
    (newName newPrice id createdAt name : jsstring) (price : number) :
  Reading.reads_as h prev store ->
  Tree.parts store k = Some (props, months, month, items) ->
  Actions.addItem_validate newName newPrice = Some (name, price) ->
  forallb (fun it => negb (Tree.nullish it)) items = true ->
  forallb (fun it => negb (Tree.id_is (PStr id) it)) items = true ->
  exists next h' next' h'',
    Actions.addItem k newName newPrice id createdAt prev h
    = (Ok (Some next), h')
    /\ Actions.removeItem k true (Heap.HPrim (PStr id)) next h'
       = (Ok (Some next'), h'')
    /\ Reading.reads_as h'' next' store.
Proof.
  intros Hr Hp Hv Hnn Hfresh.
  destruct (ItemFacts.addItem_reads h prev store k props months month items
              newName newPrice id createdAt name price Hr Hp Hv)
    as (next & h' & Hadd & _ & Hnext).
  set (items' := items ++ [Derived.item id name price createdAt]) in *.
  pose proof (ItemFacts.parts_with_items store k props months month items
                items' Hp) as Hp'.
  destruct (ItemFacts.removeItem_reads h' next _ k _ _ _ _ (PStr id)
              Hnext Hp') as (next' & h'' & Hrem & _ & Hnext').
  { subst items'. rewrite forallb_app, Hnn. reflexivity. }
  exists next, h', next', h''. repeat apply conj; auto.
  rewrite (ItemFacts.with_items_with_items store k props months month items
             items' _ Hp) in Hnext'.
  assert (Hfilter : filter (fun it => negb (Tree.id_is (PStr id) it)) items'
                    = items).
  { subst items'. rewrite filter_app, (ItemFacts.filter_all _ _ Hfresh).
    rewrite filter_cons, decide_False, filter_nil, app_nil_r; [reflexivity|].
    rewrite ItemFacts.id_is_item. intros Hf. exact Hf. }
  rewrite Hfilter in Hnext'.
  rewrite (ItemFacts.with_items_same store k props months month items Hp)
    in Hnext'.
  exact Hnext'.
Qed.

Lemma addItem_then_removeItem_restores_witness :
  exists next h' next' h'',
    Actions.addItem Examples.may (lit " Rent ") (lit "12.5") (lit "d")
      (lit "2024-05-04T10:00:00.000Z") Examples.store0 Examples.heap0
    = (Ok (Some next), h')
    /\ Actions.removeItem Examples.may true (Heap.HPrim (PStr (lit "d")))
         next h' = (Ok (Some next'), h'')
    /\ Reading.reads_as h'' next' Examples.two_months.
Proof.
  apply (addItem_then_removeItem_restores Examples.heap0 Examples.store0
           Examples.two_months Examples.may Samples.props Samples.months
           Samples.may_month (Examples.example_items 50 60 40)
           (lit " Rent ") (lit "12.5") (lit "d")
           (lit "2024-05-04T10:00:00.000Z") (lit "Rent")
           (StringToNumber.Number (lit "12.5"))).
  - exact ItemFacts.store0_reads.
  - exact ItemFacts.parts_two_months.
  - vm_compute. reflexivity.
  - vm_compute. reflexivity.
  - vm_compute. reflexivity.
Defined.

(** ** The store after [updateBudget], [resetMonth] and the effect that
    makes a month *)

Module WriteFacts.
Import Heap HeapLogic HeapFacts Reading ReadingFacts.
Local Open Scope heap_scope.

(** The members of an object after a write to [lw], an object that only
    the member under [key] reaches: that member reads as [T'], the
    others as before. *)
Lemma view_members_write (go : hval -> option (value * list loc))
    (go' : hval -> option value) lw key T' props :
  (forall x t fp, go x = Some (t, fp) -> lw ∉ fp -> go' x = Some t) ->
  forall ts fps e te fpe,
    view_members go props = Some (ts, fps) -> NoDup fps ->
    Props.lookup key props = Some e -> go e = Some (te, fpe) -> lw ∈ fpe ->
    go' e = Some T' ->
    same_members go' props (Props.replace key T' ts).
Proof.
  intros Hgo. induction props as [|[k1 x] props IH];
    intros ts fps e te fpe Hv Hnd Hl He Hin He'; [discriminate|].
  simpl in Hv, Hl.
  destruct (go x) as [[t fp]|] eqn:Hx; [|discriminate].
  destruct (view_members go props) as [[ts' fps']|] eqn:Hps; [|discriminate].
  injection Hv as <- <-. apply NoDup_app in Hnd as (Hnd1 & Hdisj & Hnd2).
  simpl. destruct (bool_decide (k1 = key)) eqn:Hk.
  - apply bool_decide_eq_true in Hk as ->.
    injection Hl as ->. rewrite Hx in He. injection He as -> ->.
    constructor; [split; [reflexivity | exact He']|].
    apply (view_members_same go) in Hps as Hsame.
    assert (Hn : lw ∉ fps') by (intros Hc; exact (Hdisj _ Hin Hc)).
    clear -Hgo Hps Hn. revert ts' fps' Hps Hn.
    induction props as [|[k2 y] props IH]; simpl; intros ts' fps' Hps Hn.
    + injection Hps as <- <-. constructor.
    + destruct (go y) as [[ty fpy]|] eqn:Hy; [|discriminate].
      destruct (view_members go props) as [[ts2 fps2]|] eqn:Hps2;
        [|discriminate].
      injection Hps as <- <-. apply not_elem_of_app in Hn as [Hn1 Hn2].
      constructor; [split; [reflexivity | eapply Hgo; eauto]|].
      eapply IH; eauto.
  - constructor.
    + split; [reflexivity|]. apply (Hgo x t fp Hx).
      intros Hc.
      destruct (view_members_lookup go props key e _ _ Hps Hl)
        as (t2 & fp2 & pre & post & He2 & ->).
      rewrite He in He2. injection He2 as <- <-.
      apply (Hdisj _ Hc). apply elem_of_app. right.
      apply elem_of_app. left. exact Hin.
    + eapply (IH _ _ e te fpe eq_refl); eauto.
Qed.

(** What is read through avoids an object: it reads the same after a
    write to that object, in a heap with more objects. *)
Lemma view_write (h hx : heap) lw c f v t fp :
  view f h v = Some (t, fp) -> lw ∉ fp ->
  forall f', (f <= f')%nat ->
    content f' (<[lw := c]> (h ++ hx)) v = Some t.
Proof.
  intros Hv Hn f' Hle. unfold content.
  rewrite (view_insert_notin (h ++ hx) lw c f' v t fp); [reflexivity | | exact Hn].
  eapply view_fuel_mono; [|exact Hle].
  eapply view_prefix; [|exact Hv]. apply prefix_app_r. reflexivity.
Qed.

Lemma view_members_fp_subseteq go props k e t fp ts fps :
  view_members go props = Some (ts, fps) ->
  Props.lookup k props = Some e -> go e = Some (t, fp) -> fp ⊆ fps.
Proof.
  intros Hv Hl He.
  destruct (view_members_lookup go props k e _ _ Hv Hl)
    as (t2 & fp2 & pre & post & He2 & ->).
  rewrite He in He2. injection He2 as <- <-. apply segment_subseteq.
Qed.

Lemma view_members_fp_NoDup go props k e t fp ts fps :
  view_members go props = Some (ts, fps) -> NoDup fps ->
  Props.lookup k props = Some e -> go e = Some (t, fp) -> NoDup fp.
Proof.
  intros Hv Hnd Hl He.
  destruct (view_members_lookup go props k e _ _ Hv Hl)
    as (t2 & fp2 & pre & post & He2 & ->).
  rewrite He in He2. injection He2 as <- <-. eapply segment_NoDup; eauto.
Qed.

(** The members all avoid an object that their footprint avoids. *)
Lemma view_members_avoid go (go' : hval -> option value) lw props :
  (forall x t fp, go x = Some (t, fp) -> lw ∉ fp -> go' x = Some t) ->
  forall ts fps,
    view_members go props = Some (ts, fps) -> lw ∉ fps ->
    same_members go' props ts.
Proof.
  intros Hgo. induction props as [|[k x] props IH]; simpl; intros ts fps Hv Hn.
  - injection Hv as <- <-. constructor.
  - destruct (go x) as [[t fp]|] eqn:Hx; [|discriminate].
    destruct (view_members go props) as [[ts' fps']|] eqn:Hps; [|discriminate].
    injection Hv as <- <-. apply not_elem_of_app in Hn as [Hn1 Hn2].
    constructor; [split; [reflexivity | eapply Hgo; eauto]|].
    eapply IH; eauto.
Qed.

(** The store and its [months] in the heap, for a store that is a tree. *)
Lemma tree_months F h prev store fp props months :
  view F h prev = Some (store, fp) -> NoDup fp ->
  Tree.months_of store = Some (props, months) ->
  exists lp hprops fps1 lm mprops fps2 f2,
    prev = HRef lp /\ store = Obj props /\ F = S (S f2)
    /\ fp = lp :: fps1
    /\ h !! lp = Some (CObj hprops)
    /\ view_members (view (S f2) h) hprops = Some (props, fps1)
    /\ Props.lookup (lit "months") hprops = Some (HRef lm)
    /\ view (S f2) h (HRef lm) = Some (Obj months, lm :: fps2)
    /\ h !! lm = Some (CObj mprops)
    /\ view_members (view f2 h) mprops = Some (months, fps2)
    /\ (lm ∈ fps1) /\ (fps2 ⊆ fps1)
    /\ lp <> lm /\ (lm ∉ fps2) /\ NoDup fps2 /\ (lp ∉ fps2)
    /\ Props.lookup (lit "months") props = Some (Obj months).
Proof.
  intros Hv Hnd Hm. unfold Tree.months_of in Hm.
  destruct store as [q|l|props0]; try discriminate.
  destruct (Props.lookup (lit "months") props0) as [[q|l|months0]|] eqn:Hl;
    try discriminate.
  injection Hm as <- <-.
  destruct prev as [q|lp]; [rewrite view_prim in Hv; discriminate|].
  destruct F as [|f1]; [discriminate|]. simpl in Hv.
  destruct (h !! lp) as [[hprops|elems [|]]|] eqn:Hlp; try discriminate;
    [|destruct (view_elements _ _) as [[? ?]|]; discriminate].
  destruct (view_members (view f1 h) hprops) as [[ts fps1]|] eqn:Hv1;
    [|discriminate].
  injection Hv as <- <-. apply NoDup_cons in Hnd as [Hlp1 Hnd1].
  pose proof (view_members_same _ _ _ _ Hv1) as Hs1.
  destruct (same_members_lookup_Some _ _ _ _ _ Hs1 Hl) as (e & He & Hce).
  destruct (view f1 h e) as [[te fpe]|] eqn:Hve; [|discriminate].
  simpl in Hce. injection Hce as ->.
  pose proof (view_members_fp_subseteq _ _ _ _ _ _ _ _ Hv1 He Hve) as Hsub.
  pose proof (view_members_fp_NoDup _ _ _ _ _ _ _ _ Hv1 Hnd1 He Hve) as Hnde.
  destruct e as [q|lm]; [rewrite view_prim in Hve; discriminate|].
  destruct f1 as [|f2]; [discriminate|]. simpl in Hve.
  destruct (h !! lm) as [[mprops|elems [|]]|] eqn:Hlm; try discriminate;
    [|destruct (view_elements _ _) as [[? ?]|]; discriminate].
  destruct (view_members (view f2 h) mprops) as [[tms fps2]|] eqn:Hv2;
    [|discriminate].
  injection Hve as <- <-. apply NoDup_cons in Hnde as [Hlm2 Hnd2].
  assert (Hlmin : lm ∈ fps1) by (apply Hsub; left).
  exists lp, hprops, fps1, lm, mprops, fps2, f2.
  repeat apply conj; auto.
  - simpl. rewrite Hlm, Hv2. reflexivity.
  - intros x Hx. apply Hsub. right. exact Hx.
  - intros ->. contradiction.
  - intros Hc. apply Hlp1. apply Hsub. right. exact Hc.
Qed.

Lemma data_with_month k m props months :
  Derived.data (Tree.with_month k m props months) k
  = Ok (if Coerce.truthy m then m else Derived.empty_month).
Proof.
  unfold Tree.with_month, Derived.data.
  change (Coerce.get (Obj ?ps) ?key)
    with (Ok (default Undefined (Props.lookup key ps))).
  rewrite PropsFacts.lookup_set_eq. cbn [obind default from_option id].
  change (Coerce.get (Obj ?ps) ?key)
    with (Ok (default Undefined (Props.lookup key ps))).
  rewrite PropsFacts.lookup_set_eq. reflexivity.
Qed.

(** The store with the new month, read through the previous store and
    through the copy of its top object. *)
Lemma with_new_month_reads k F h prev store fp props months :
  view F h prev = Some (store, fp) -> NoDup fp ->
  Tree.months_of store = Some (props, months) ->
  exists lp hprops lm mprops,
    prev = HRef lp /\ h !! lp = Some (CObj hprops)
    /\ Props.lookup (lit "months") hprops = Some (HRef lm)
    /\ h !! lm = Some (CObj mprops)
    /\ same_members (content F h) mprops months
    /\ let h' := with_new_month k h hprops mprops lm in
       let t := Tree.with_month k Derived.empty_month props months in
       content (2 + F) h' (HRef lp) = Some t
       /\ content (2 + F) h' (HRef (length h)) = Some t.
Proof.
  intros Hv Hnd Hm.
  destruct (tree_months _ _ _ _ _ _ _ Hv Hnd Hm)
    as (lp & hprops & fps1 & lm & mprops & fps2 & f2 & -> & -> & -> & ->
        & Hlp & Hv1 & Hlm1 & Hvm & Hlm & Hv2 & Hin & Hsub & Hne & Hn2 & Hnd2
        & Hlp2 & Hl).
  exists lp, hprops, lm, mprops.
  do 4 (split; [solve [auto]|]). split.
  { apply view_members_same in Hv2.
    eapply same_members_impl; [|exact Hv2].
    intros x t Hx. apply (content_mono f2); [lia | exact Hx]. }
  apply NoDup_cons in Hnd as [_ Hnd1].
  pose proof (lookup_lt_Some _ _ _ Hlp) as Hlplt.
  destruct (MonthFacts.with_new_month_cells k h hprops mprops lm _ Hlm)
    as (C1 & C2 & _ & _ & C5).
  cbv zeta. unfold with_new_month in *.
  set (hx := [CObj hprops; CArr [] [];
              CObj [(lit "maxBudget", HPrim (PNum JSNum.zero));
                    (lit "items", HRef (S (length h)))]]) in *.
  set (c := CObj (Props.set k (HRef (S (S (length h)))) mprops)) in *.
  assert (Hmonths : content (3 + f2) (<[lm := c]> (h ++ hx)) (HRef lm)
                    = Some (Obj (Props.set k Derived.empty_month months))).
  { apply content_obj. eexists. split; [exact C1|].
    apply same_members_set.
    - eapply (view_members_avoid (view f2 h)); [|exact Hv2 | exact Hn2].
      intros x t fp Hx Hn. eapply view_write; eauto; lia.
    - apply (content_mono 2); [lia|].
      exact (MonthFacts.new_month_content k h hprops mprops lm _ Hlm). }
  assert (Htop : same_members (content (3 + f2) (<[lm := c]> (h ++ hx))) hprops
                   (Props.set (lit "months")
                      (Obj (Props.set k Derived.empty_month months)) props)).
  { unfold Props.set at 1. rewrite Hl.
    eapply (view_members_write (view (S f2) h) _ lm);
      [| exact Hv1 | exact Hnd1 | exact Hlm1 | exact Hvm | |].
    - intros x t fp Hx Hn. eapply view_write; eauto; lia.
    - left.
    - exact Hmonths. }
  unfold Tree.with_month. change (2 + S (S f2))%nat with (S (3 + f2)).
  split; apply content_obj; eexists; split; eauto.
  rewrite C5; auto.
Qed.

(** A member of an object that reads as an object. *)
Lemma view_member_obj f h ps ts fps k sub :
  view_members (view f h) ps = Some (ts, fps) -> NoDup fps ->
  Props.lookup k ts = Some (Obj sub) ->
  exists lk kps fps3 f3,
    f = S f3 /\ Props.lookup k ps = Some (HRef lk)
    /\ h !! lk = Some (CObj kps)
    /\ view_members (view f3 h) kps = Some (sub, fps3)
    /\ view f h (HRef lk) = Some (Obj sub, lk :: fps3)
    /\ (lk ∈ fps) /\ (fps3 ⊆ fps) /\ (lk ∉ fps3) /\ NoDup fps3.
Proof.
  intros Hv Hnd Hl.
  pose proof (view_members_same _ _ _ _ Hv) as Hs.
  destruct (same_members_lookup_Some _ _ _ _ _ Hs Hl) as (e & He & Hce).
  destruct (view f h e) as [[te fpe]|] eqn:Hve; [|discriminate].
  simpl in Hce. injection Hce as ->.
  pose proof (view_members_fp_subseteq _ _ _ _ _ _ _ _ Hv He Hve) as Hsub.
  pose proof (view_members_fp_NoDup _ _ _ _ _ _ _ _ Hv Hnd He Hve) as Hnde.
  destruct e as [q|lk]; [rewrite view_prim in Hve; discriminate|].
  destruct f as [|f3]; [discriminate|].
  pose proof Hve as Hve'. simpl in Hve.
  destruct (h !! lk) as [[kps|elems [|]]|] eqn:Hlk; try discriminate;
    [|destruct (view_elements _ _) as [[? ?]|]; discriminate].
  destruct (view_members (view f3 h) kps) as [[tks fps3]|] eqn:Hv3;
    [|discriminate].
  injection Hve as <- <-. apply NoDup_cons in Hnde as [Hn3 Hnd3].
  exists lk, kps, fps3, f3. repeat apply conj; auto.
  - apply Hsub. left.
  - intros x Hx. apply Hsub. right. exact Hx.
Qed.

(** The store after [m.maxBudget = x], read through the previous store
    and through the copy of its top object. *)
Lemma updateBudget_reads k (x : number) F h prev store fp props months month :
  view F h prev = Some (store, fp) -> NoDup fp ->
  Tree.months_of store = Some (props, months) ->
  Props.lookup k months = Some (Obj month) ->
  exists lp hprops lm mprops lk kprops,
    prev = HRef lp /\ h !! lp = Some (CObj hprops)
    /\ Props.lookup (lit "months") hprops = Some (HRef lm)
    /\ h !! lm = Some (CObj mprops)
    /\ Props.lookup k mprops = Some (HRef lk)
    /\ h !! lk = Some (CObj kprops)
    /\ let h' := <[lk := CObj (Props.set (lit "maxBudget") (HPrim (PNum x))
                                 kprops)]> (h ++ [CObj hprops]) in
       let t := Tree.with_month k
                  (Obj (Props.set (lit "maxBudget") (Num x) month))
                  props months in
       content F h' (HRef lp) = Some t
       /\ content F h' (HRef (length h)) = Some t.
Proof.
  intros Hv Hnd Hm Hk.
  destruct (tree_months _ _ _ _ _ _ _ Hv Hnd Hm)
    as (lp & hprops & fps1 & lm & mprops & fps2 & f2 & -> & -> & -> & ->
        & Hlp & Hv1 & Hlm1 & Hvm & Hlm & Hv2 & Hin & Hsub & Hne & Hn2 & Hnd2
        & Hlp2 & Hl).
  destruct (view_member_obj _ _ _ _ _ _ _ Hv2 Hnd2 Hk)
    as (lk & kprops & fps3 & f3 & -> & Hlk2 & Hlk & Hv3 & Hvk & Hkin & Hsub3
        & Hn3 & Hnd3).
  exists lp, hprops, lm, mprops, lk, kprops.
  do 6 (split; [solve [auto]|]).
  apply NoDup_cons in Hnd as [Hlp1 Hnd1].
  pose proof (lookup_lt_Some _ _ _ Hlp) as Hlplt.
  pose proof (lookup_lt_Some _ _ _ Hlm) as Hlmlt.
  pose proof (lookup_lt_Some _ _ _ Hlk) as Hlklt.
  assert (Hlklm : lk <> lm) by (intros ->; contradiction).
  assert (Hlklp : lk <> lp) by (intros ->; contradiction).
  cbv zeta.
  set (hx := [CObj hprops]).
  set (c := CObj (Props.set (lit "maxBudget") (HPrim (PNum x)) kprops)).
  assert (C1 : <[lk := c]> (h ++ hx) !! lk = Some c)
    by (apply list_lookup_insert_eq; rewrite length_app; lia).
  assert (C2 : <[lk := c]> (h ++ hx) !! lm = Some (CObj mprops))
    by (rewrite list_lookup_insert_ne by exact Hlklm;
        apply lookup_app_l_Some, Hlm).
  assert (C3 : <[lk := c]> (h ++ hx) !! lp = Some (CObj hprops))
    by (rewrite list_lookup_insert_ne by exact Hlklp;
        apply lookup_app_l_Some, Hlp).
  assert (C4 : <[lk := c]> (h ++ hx) !! length h = Some (CObj hprops))
    by (rewrite list_lookup_insert_ne by lia;
        apply list_lookup_middle; reflexivity).
  assert (Hmonth : content (S f3) (<[lk := c]> (h ++ hx)) (HRef lk)
                   = Some (Obj (Props.set (lit "maxBudget") (Num x) month))).
  { apply content_obj. eexists. split; [exact C1|].
    apply same_members_set; [|apply content_prim].
    eapply (view_members_avoid (view f3 h)); [|exact Hv3 | exact Hn3].
    intros y t fp Hy Hn. eapply view_write; eauto. }
  assert (Hmonths : content (S (S f3)) (<[lk := c]> (h ++ hx)) (HRef lm)
                    = Some (Obj (Props.set k
                         (Obj (Props.set (lit "maxBudget") (Num x) month))
                         months))).
  { apply content_obj. eexists. split; [exact C2|].
    unfold Props.set at 1. rewrite Hk.
    eapply (view_members_write (view (S f3) h) _ lk);
      [| exact Hv2 | exact Hnd2 | exact Hlk2 | exact Hvk | |].
    - intros y t fp Hy Hn. eapply view_write; eauto.
    - left.
    - exact Hmonth. }
  assert (Htop : same_members (content (S (S f3)) (<[lk := c]> (h ++ hx)))
                   hprops
                   (Props.set (lit "months")
                      (Obj (Props.set k
                         (Obj (Props.set (lit "maxBudget") (Num x) month))
                         months)) props)).
  { unfold Props.set at 1. rewrite Hl.
    eapply (view_members_write (view (S (S f3)) h) _ lk);
      [| exact Hv1 | exact Hnd1 | exact Hlm1 | exact Hvm | |].
    - intros y t fp Hy Hn. eapply view_write; eauto.
    - right. exact Hkin.
    - exact Hmonths. }
  unfold Tree.with_month.
  split; apply content_obj; eexists; split; eauto.
Qed.

(** Truthiness is that of what is read. *)
Lemma truthy_reads f h v t :
  content f h v = Some t -> Edit.truthy v = Coerce.truthy t.
Proof.
  destruct v as [p|l].
  - unfold content. rewrite view_prim. intros [= <-]. reflexivity.
  - destruct f as [|f]; [discriminate|]. unfold content. simpl.
    destruct (h !! l) as [[ps|elems [|]]|]; try discriminate.
    + destruct (view_members _ _) as [[? ?]|]; [|discriminate].
      intros [= <-]. reflexivity.
    + destruct (view_elements _ _) as [[? ?]|]; [|discriminate].
      intros [= <-]. reflexivity.
Qed.

Lemma truthy_member f h ps ts k :
  same_members (content f h) ps ts ->
  Edit.truthy (default hundefined (Props.lookup k ps))
  = Coerce.truthy (default Undefined (Props.lookup k ts)).
Proof.
  intros Hs. pose proof (same_members_lookup _ _ _ k Hs) as H.
  destruct (Props.lookup k ps) as [e|], (Props.lookup k ts) as [t|];
    try (destruct H; fail); [|reflexivity].
  simpl. eapply truthy_reads; eauto.
Qed.

Lemma months_of_data store props months k :
  Tree.months_of store = Some (props, months) ->
  Derived.data store k
  = Ok (if Coerce.truthy (default Undefined (Props.lookup k months))
        then default Undefined (Props.lookup k months)
        else Derived.empty_month).
Proof.
  unfold Tree.months_of. intros Hm.
  destruct store as [q|l|props0]; try discriminate.
  destruct (Props.lookup (lit "months") props0) as [[q|l|months0]|] eqn:Hl;
    try discriminate.
  injection Hm as <- <-. unfold Derived.data.
  change (Coerce.get (Obj ?ps) ?key)
    with (Ok (default Undefined (Props.lookup key ps))).
  rewrite Hl. reflexivity.
Qed.

End WriteFacts.

(** X14. The confirmed [resetMonth] on a store that is a tree with an
    object for [months] never throws. It writes the new month into the
    [months] that the previous store shares: the store it returns and
    the previous one then both read as the previous content with
    [{ maxBudget: 0, items: [] }] under the active month, whatever was
    there, and every other month and property as before. *)
Theorem resetMonth_empties_the_month
    (k : jsstring) (F : nat) (h : Heap.heap) (prev : Heap.hval)
    (store : value) (props months : list (jsstring * value)) :
  Heap.is_tree F h prev ->
  Heap.content F h prev = Some store ->
  Tree.months_of store = Some (props, months) ->
  exists next h',
    Actions.resetMonth k true prev h = (Ok (Some next), h')
    /\ Reading.reads_as h' next
         (Tree.with_month k Derived.empty_month props months)
    /\ Reading.reads_as h' prev
         (Tree.with_month k Derived.empty_month props months)
    /\ Derived.data (Tree.with_month k Derived.empty_month props months) k
       = Ok Derived.empty_month.
Proof.
  intros (t & fp & Hv & Hnd) Hc Hm.
  unfold Heap.content in Hc. rewrite Hv in Hc. injection Hc as ->.
  destruct (WriteFacts.with_new_month_reads k _ _ _ _ _ _ _ Hv Hnd Hm)
    as (lp & hprops & lm & mprops & -> & Hlp & Hlm1 & Hlm & _ & H1 & H2).
  unfold Actions.resetMonth. change (negb true) with false. cbv iota.
  unfold Heap.bind.
  rewrite (HeapFacts.resetMonth_update_exec _ _ _ _ _ _ Hlp Hlm1 Hlm).
  cbv zeta. eexists _, _. split; [reflexivity|].
  split; [eexists; exact H2|]. split; [eexists; exact H1|].
  apply WriteFacts.data_with_month.
Qed.

Lemma resetMonth_empties_the_month_witness :
  exists next h',
    Actions.resetMonth Examples.may true Examples.store0 Examples.heap0
    = (Ok (Some next), h')
    /\ Reading.reads_as h' next
         (Tree.with_month Examples.may Derived.empty_month
            Samples.props Samples.months)
    /\ Reading.reads_as h' Examples.store0
         (Tree.with_month Examples.may Derived.empty_month
            Samples.props Samples.months)
    /\ Derived.data (Tree.with_month Examples.may Derived.empty_month
                       Samples.props Samples.months) Examples.may
       = Ok Derived.empty_month.
Proof.
  apply (resetMonth_empties_the_month Examples.may 5 Examples.heap0
           Examples.store0 Examples.two_months Samples.props Samples.months).
  - exact ExampleFacts.store0_is_tree.
  - vm_compute. reflexivity.
  - vm_compute. reflexivity.
Defined.

(** X15. [updateBudget] on a store that is a tree, for a month that is an
    object, never throws. It writes into the month that the previous
    store shares: the store it returns and the previous one then both
    read as the previous content with the stored Number as the month's
    [maxBudget]. The items of the month are the same, and the ceiling
    the screen derives is the stored Number, or 0 for [-0]. *)
Theorem updateBudget_changes_only_the_ceiling
    (k val : jsstring) (F : nat) (h : Heap.heap) (prev : Heap.hval)
    (store : value) (props months month : list (jsstring * value)) :
  Heap.is_tree F h prev ->
  Heap.content F h prev = Some store ->
  Tree.months_of store = Some (props, months) ->
  Props.lookup k months = Some (Obj month) ->
  let month' := Obj (Props.set (lit "maxBudget")
                       (Num (Actions.stored val)) month) in
  exists next h',
    Actions.updateBudget k val prev h = (Ok (Some next), h')
    /\ Reading.reads_as h' next (Tree.with_month k month' props months)
    /\ Reading.reads_as h' prev (Tree.with_month k month' props months)
    /\ Derived.data (Tree.with_month k month' props months) k = Ok month'
    /\ Derived.items month' = Derived.items (Obj month)
    /\ Derived.maxBudget month' = Ok (JSNum.or_zero (Actions.stored val)).
Proof.
  intros (t & fp & Hv & Hnd) Hc Hm Hk month'.
  unfold Heap.content in Hc. rewrite Hv in Hc. injection Hc as ->.
  destruct (WriteFacts.updateBudget_reads k (Actions.stored val)
              _ _ _ _ _ _ _ _ Hv Hnd Hm Hk)
    as (lp & hprops & lm & mprops & lk & kprops & -> & Hlp & Hlm1 & Hlm
        & Hlk2 & Hlk & H1 & H2).
  unfold Actions.updateBudget. unfold Heap.bind.
  rewrite (HeapFacts.updateBudget_update_exec _ _ _ _ _ _ _ Hlp Hlm1 Hlm).
  cbv zeta. rewrite Hlk2. simpl default.
  cbv iota beta.
  rewrite (lookup_app_l_Some _ _ _ _ Hlk). simpl HeapLogic.with_maxBudget.
  eexists _, _. split; [reflexivity|].
  split; [eexists; exact H2|]. split; [eexists; exact H1|].
  split; [apply WriteFacts.data_with_month|]. split.
  - unfold Derived.items, month'.
    change (Coerce.get (Obj ?ps) ?key)
      with (Ok (default Undefined (Props.lookup key ps))).
    rewrite PropsFacts.lookup_set_ne; [reflexivity|].
    intros H. vm_compute in H. discriminate.
  - unfold Derived.maxBudget, month'.
    change (Coerce.get (Obj ?ps) ?key)
      with (Ok (default Undefined (Props.lookup key ps))).
    rewrite PropsFacts.lookup_set_eq. reflexivity.
Qed.

Lemma updateBudget_changes_only_the_ceiling_witness :
  exists next h',
    Actions.updateBudget Examples.may (lit "250") Examples.store0
      Examples.heap0 = (Ok (Some next), h')
    /\ Reading.reads_as h' next
         (Tree.with_month Examples.may
            (Obj (Props.set (lit "maxBudget")
                    (Num (Actions.stored (lit "250"))) Samples.may_month))
            Samples.props Samples.months)
    /\ Reading.reads_as h' Examples.store0
         (Tree.with_month Examples.may
            (Obj (Props.set (lit "maxBudget")
                    (Num (Actions.stored (lit "250"))) Samples.may_month))
            Samples.props Samples.months)
    /\ Derived.data
         (Tree.with_month Examples.may
            (Obj (Props.set (lit "maxBudget")
                    (Num (Actions.stored (lit "250"))) Samples.may_month))
            Samples.props Samples.months) Examples.may
       = Ok (Obj (Props.set (lit "maxBudget")
                    (Num (Actions.stored (lit "250"))) Samples.may_month))
    /\ Derived.items
         (Obj (Props.set (lit "maxBudget")
                 (Num (Actions.stored (lit "250"))) Samples.may_month))
       = Derived.items (Obj Samples.may_month)
    /\ Derived.maxBudget
         (Obj (Props.set (lit "maxBudget")
                 (Num (Actions.stored (lit "250"))) Samples.may_month))
       = Ok (JSNum.or_zero (Actions.stored (lit "250"))).
Proof.
  apply (updateBudget_changes_only_the_ceiling Examples.may (lit "250") 5
           Examples.heap0 Examples.store0 Examples.two_months
           Samples.props Samples.months Samples.may_month).
  - exact ExampleFacts.store0_is_tree.
  - vm_compute. reflexivity.
  - vm_compute. reflexivity.
  - vm_compute. reflexivity.
Defined.

(** X16. The effect that runs on load and on a month change, on a store
    that is a tree with an object for [months]: when the active month is
    there (truthy) the store it returns and the previous one read as
    before; when it is not, both read as the previous content with
    [{ maxBudget: 0, items: [] }] under the active month. Either way
    the data the screen derives for the active month is what it was. *)
Theorem ensureMonth_keeps_what_is_shown
    (k : jsstring) (F : nat) (h : Heap.heap) (prev : Heap.hval)
    (store : value) (props months : list (jsstring * value)) :
  Heap.is_tree F h prev ->
  Heap.content F h prev = Some store ->
  Tree.months_of store = Some (props, months) ->
  let store' :=
    if Coerce.truthy (default Undefined (Props.lookup k months)) then store
    else Tree.with_month k Derived.empty_month props months in
  exists next h',
    Actions.ensureMonth k prev h = (Ok next, h')
    /\ Reading.reads_as h' next store'
    /\ Reading.reads_as h' prev store'
    /\ Derived.data store' k = Derived.data store k.
Proof.
  intros (t & fp & Hv & Hnd) Hc Hm store'.
  unfold Heap.content in Hc. rewrite Hv in Hc. injection Hc as ->.
  destruct (WriteFacts.with_new_month_reads k _ _ _ _ _ _ _ Hv Hnd Hm)
    as (lp & hprops & lm & mprops & -> & Hlp & Hlm1 & Hlm & Hs & H1 & H2).
  rewrite (MonthFacts.ensureMonth_exec k h lp hprops lm mprops Hlp Hlm1 Hlm).
  rewrite (WriteFacts.truthy_member _ _ _ _ k Hs).
  rewrite (WriteFacts.months_of_data _ _ _ k Hm). subst store'.
  destruct (Coerce.truthy (default Undefined (Props.lookup k months))) eqn:Ht.
  - eexists _, _. split; [reflexivity|].
    assert (Hprev : Heap.content F (h ++ [Heap.CObj hprops]) (Heap.HRef lp)
                    = Some store).
    { apply (ReadingFacts.content_prefix _ h);
        [apply prefix_app_r; reflexivity|].
      unfold Heap.content. rewrite Hv. reflexivity. }
    split; [|split].
    + exists F. destruct F as [|f]; [discriminate|].
      destruct store as [q|l|props0]; try discriminate.
      apply ReadingFacts.content_obj in Hprev as (ps & Hps & Hsame).
      rewrite (lookup_app_l_Some _ _ _ _ Hlp) in Hps. injection Hps as <-.
      apply ReadingFacts.content_obj. exists hprops. split; [|exact Hsame].
      apply list_lookup_middle. reflexivity.
    + exists F. exact Hprev.
    + rewrite (WriteFacts.months_of_data _ _ _ k Hm), Ht. reflexivity.
  - eexists _, _. split; [reflexivity|].
    split; [eexists; exact H2|]. split; [eexists; exact H1|].
    apply WriteFacts.data_with_month.
Qed.

Lemma ensureMonth_keeps_what_is_shown_witness :
  exists next h',
    Actions.ensureMonth (lit "2024-07") Examples.store0 Examples.heap0
    = (Ok next, h')
    /\ Reading.reads_as h' next
         (Tree.with_month (lit "2024-07") Derived.empty_month
            Samples.props Samples.months)
    /\ Reading.reads_as h' Examples.store0
         (Tree.with_month (lit "2024-07") Derived.empty_month
            Samples.props Samples.months)
    /\ Derived.data
         (Tree.with_month (lit "2024-07") Derived.empty_month
            Samples.props Samples.months) (lit "2024-07")
       = Derived.data Examples.two_months (lit "2024-07").
Proof.
  apply (ensureMonth_keeps_what_is_shown (lit "2024-07") 5 Examples.heap0
           Examples.store0 Examples.two_months Samples.props Samples.months).
  - exact ExampleFacts.store0_is_tree.
  - vm_compute. reflexivity.
  - vm_compute. reflexivity.
Defined.

(** ** The actions keep the store well formed *)

Module KeysFacts.
Import Props.

Section Assoc.
Context {V : Type}.
Implicit Types (k : jsstring) (v : V) (props : list (jsstring * V)).

Lemma lookup_None_keys k props :
  lookup k props = None <-> k ∉ map fst props.
Proof.
  induction props as [|[k' v'] props IH]; simpl.
  - split; [intros _; apply not_elem_of_nil | reflexivity].
  - rewrite not_elem_of_cons. case_bool_decide as Hk.
    + split; [discriminate | intros [Hne _]; congruence].
    + rewrite IH. split; [intros H; split; [congruence | exact H] | tauto].
Qed.

Lemma keys_replace k v props :
  map fst (replace k v props) = map fst props.
Proof.
  induction props as [|[k' v'] props IH]; simpl; [reflexivity|].
  case_bool_decide as Hk; simpl; [subst; reflexivity | rewrite IH; reflexivity].
Qed.

Lemma keys_set k v props :
  (lookup k props = None -> array_index k = None) ->
  map fst (set k v props)
  = match lookup k props with
    | Some _ => map fst props
    | None => map fst props ++ [k]
    end.
Proof.
  intros Hi. unfold set. destruct (lookup k props) as [w|].
  - apply keys_replace.
  - rewrite Hi by reflexivity. rewrite map_app. reflexivity.
Qed.

Lemma NoDup_keys_set k v props :
  (lookup k props = None -> array_index k = None) ->
  NoDup (map fst props) -> NoDup (map fst (set k v props)).
Proof.
  intros Hi Hnd. rewrite (keys_set k v props Hi).
  destruct (lookup k props) as [w|] eqn:Hl; [exact Hnd|].
  apply NoDup_app. split; [exact Hnd|]. split.
  - intros x Hx Hk. apply list_elem_of_singleton in Hk. subst x.
    apply lookup_None_keys in Hl. contradiction.
  - apply NoDup_singleton.
Qed.

Lemma forallb_replace (P : jsstring * V -> bool) k v props :
  forallb P props = true -> P (k, v) = true ->
  forallb P (replace k v props) = true.
Proof.
  intros Hall Hkv. induction props as [|[k' v'] props IH]; simpl in *;
    [reflexivity|].
  apply andb_true_iff in Hall as [H1 H2].
  case_bool_decide; simpl; rewrite ?Hkv, ?H1, ?H2, ?IH; auto.
Qed.

Lemma forallb_set (P : jsstring * V -> bool) k v props :
  (lookup k props = None -> array_index k = None) ->
  forallb P props = true -> P (k, v) = true ->
  forallb P (set k v props) = true.
Proof.
  intros Hi Hall Hkv. unfold set. destruct (lookup k props) as [w|].
  - apply forallb_replace; assumption.
  - rewrite Hi by reflexivity. rewrite forallb_app, Hall. simpl.
    rewrite Hkv. reflexivity.
Qed.

End Assoc.

Lemma has_keys_set allowed k v props :
  is_Some (lookup k props) -> k ∈ allowed ->
  Shape.has_keys allowed props = true ->
  Shape.has_keys allowed (set k v props) = true.
Proof.
  intros [w Hw] Hin H. unfold Shape.has_keys in *.
  apply andb_true_iff in H as [H1 H2]. apply bool_decide_eq_true in H2.
  apply andb_true_iff. split.
  - apply forallb_set; [rewrite Hw; discriminate | exact H1|].
    apply bool_decide_eq_true. exact Hin.
  - apply bool_decide_eq_true. apply NoDup_keys_set; [|exact H2].
    rewrite Hw. discriminate.
Qed.

End KeysFacts.

Module TrimFacts.
Import JSStr.

Lemma trim_start_fixed c s :
  is_white c = false -> trim_start (c :: s) = c :: s.
Proof. intros H. simpl. rewrite H. reflexivity. Qed.

Lemma trim_start_head s :
  match trim_start s with [] => True | c :: _ => is_white c = false end.
Proof.
  induction s as [|c s IH]; simpl; [exact I|].
  destruct (is_white c) eqn:Hc; [exact IH | exact Hc].
Qed.

Lemma trim_start_idem s : trim_start (trim_start s) = trim_start s.
Proof.
  pose proof (trim_start_head s) as H.
  destruct (trim_start s) as [|c r]; [reflexivity|].
  apply trim_start_fixed, H.
Qed.

Lemma trim_start_suffix s : exists pre, s = pre ++ trim_start s.
Proof.
  induction s as [|c s [pre IH]]; simpl; [exists []; reflexivity|].
  destruct (is_white c).
  - exists (c :: pre). simpl. f_equal. exact IH.
  - exists []. reflexivity.
Qed.

(** Trimming what was trimmed changes nothing. *)
Lemma trim_idem s : trim (trim s) = trim s.
Proof.
  unfold trim, trim_end.
  set (a := trim_start s). set (b := trim_start (rev a)).
  assert (Hb : trim_start (rev b) = rev b).
  { destruct (trim_start_suffix (rev a)) as [pre Hpre]. fold b in Hpre.
    assert (Ha : a = rev b ++ rev pre).
    { rewrite <- (rev_involutive a), Hpre, rev_app_distr. reflexivity. }
    pose proof (trim_start_head s) as Hh. fold a in Hh. rewrite Ha in Hh.
    destruct (rev b) as [|c r]; [reflexivity|].
    apply trim_start_fixed. exact Hh. }
  rewrite Hb, rev_involutive. unfold b. rewrite trim_start_idem. reflexivity.
Qed.

End TrimFacts.

Module InvariantFacts.

Lemma lookup_Some_In {V} k (v : V) ps :
  Props.lookup k ps = Some v -> In (k, v) ps.
Proof.
  induction ps as [|[k' v'] ps IH]; simpl; [discriminate|].
  case_bool_decide as Hk.
  - intros [= ->]. subst k'. left. reflexivity.
  - intros H. right. apply IH, H.
Qed.

(** What a well-formed store is made of. *)
Lemma well_formed_store_inv store :
  Shape.well_formed_store store = true ->
  exists months,
    store = Obj [(lit "months", Obj months)]
    /\ forallb (fun km => Shape.is_month_key (fst km)
                          && Shape.well_formed_month (snd km)) months = true
    /\ NoDup (map fst months).
Proof.
  unfold Shape.well_formed_store.
  destruct store as [q|l|[|[k [q|l|months]] [|? ?]]]; try discriminate.
  intros H. apply andb_true_iff in H as [H H3].
  apply andb_true_iff in H as [H1 H2].
  apply bool_decide_eq_true in H1, H3. subst k. eauto.
Qed.

Lemma well_formed_months_of store props months :
  Shape.well_formed_store store = true ->
  Tree.months_of store = Some (props, months) ->
  store = Obj [(lit "months", Obj months)]
  /\ props = [(lit "months", Obj months)]
  /\ forallb (fun km => Shape.is_month_key (fst km)
                        && Shape.well_formed_month (snd km)) months = true
  /\ NoDup (map fst months).
Proof.
  intros Hw Hm. destruct (well_formed_store_inv _ Hw) as (ms & -> & H1 & H2).
  vm_compute in Hm. injection Hm as <- <-. auto.
Qed.

(** A well-formed store has [months]. *)
Lemma well_formed_has_months store :
  Shape.well_formed_store store = true ->
  exists props months, Tree.months_of store = Some (props, months).
Proof.
  intros Hw. destruct (well_formed_store_inv _ Hw) as (ms & -> & _).
  eexists _, _. reflexivity.
Qed.

(** A well-formed month under a month key keeps the store well formed. *)
Lemma well_formed_with_month store props months k m :
  Shape.well_formed_store store = true ->
  Tree.months_of store = Some (props, months) ->
  Shape.is_month_key k = true ->
  Shape.well_formed_month m = true ->
  Shape.well_formed_store (Tree.with_month k m props months) = true.
Proof.
  intros Hw Hm Hk Hwm.
  destruct (well_formed_months_of _ _ _ Hw Hm) as (-> & -> & H1 & H2).
  assert (Hi : Props.lookup k months = None -> Props.array_index k = None)
    by (intros _; apply JSONFacts.month_key_not_index, Hk).
  change (Tree.with_month k m [(lit "months", Obj months)] months)
    with (Obj [(lit "months", Obj (Props.set k m months))]).
  unfold Shape.well_formed_store.
  apply andb_true_iff. split; [apply andb_true_iff; split|].
  - reflexivity.
  - apply KeysFacts.forallb_set; [exact Hi | exact H1|].
    simpl. rewrite Hk, Hwm. reflexivity.
  - apply bool_decide_eq_true. apply KeysFacts.NoDup_keys_set; assumption.
Qed.

Lemma empty_month_well_formed :
  Shape.well_formed_month Derived.empty_month = true.
Proof. vm_compute. reflexivity. Qed.

(** What a well-formed month of a well-formed store is made of. *)
Lemma well_formed_parts store k props months month items :
  Shape.well_formed_store store = true ->
  Tree.parts store k = Some (props, months, month, items) ->
  Tree.months_of store = Some (props, months)
  /\ Props.lookup k months = Some (Obj month)
  /\ Shape.is_month_key k = true
  /\ Shape.has_keys Shape.month_keys month = true
  /\ Props.lookup (lit "items") month = Some (Arr items)
  /\ (exists mb, Props.lookup (lit "maxBudget") month = Some (Num mb)
                 /\ JSNum.is_finite mb = true
                 /\ JSNum.ge mb JSNum.zero = true)
  /\ forallb Shape.well_formed_item items = true
  /\ NoDup (map Shape.item_id items).
Proof.
  intros Hw Hp. destruct (well_formed_store_inv _ Hw) as (ms & -> & H1 & H2).
  unfold Tree.parts in Hp.
  change (Props.lookup (lit "months") [(lit "months", Obj ms)])
    with (Some (Obj ms)) in Hp.
  cbv iota beta in Hp.
  destruct (Props.lookup k ms) as [[q|l|month0]|] eqn:Hk; try discriminate.
  destruct (Props.lookup (lit "items") month0) as [[q|items0|o]|] eqn:Hi;
    try discriminate.
  injection Hp as <- <- <- <-.
  apply lookup_Some_In in Hk as Hin.
  rewrite forallb_forall in H1. specialize (H1 _ Hin). simpl in H1.
  apply andb_true_iff in H1 as [Hkey Hwm].
  unfold Shape.well_formed_month in Hwm.
  apply andb_true_iff in Hwm as [Hkeys Hrest]. rewrite Hi in Hrest.
  destruct (Props.lookup (lit "maxBudget") month0) as [[[| | |mb|]|l|o]|] eqn:Hmb;
    try discriminate.
  apply andb_true_iff in Hrest as [Hrest Hnd].
  apply andb_true_iff in Hrest as [Hrest Hitems].
  apply andb_true_iff in Hrest as [Hfin Hge].
  apply bool_decide_eq_true in Hnd.
  repeat apply conj; auto. exists mb. auto.
Qed.

Lemma month_with_items month items' mb :
  Shape.has_keys Shape.month_keys month = true ->
  is_Some (Props.lookup (lit "items") month) ->
  Props.lookup (lit "maxBudget") month = Some (Num mb) ->
  JSNum.is_finite mb = true -> JSNum.ge mb JSNum.zero = true ->
  forallb Shape.well_formed_item items' = true ->
  NoDup (map Shape.item_id items') ->
  Shape.well_formed_month (Obj (Props.set (lit "items") (Arr items') month))
  = true.
Proof.
  intros Hkeys Hi Hmb Hfin Hge Hitems Hnd. unfold Shape.well_formed_month.
  rewrite KeysFacts.has_keys_set; [|exact Hi | | exact Hkeys].
  - rewrite PropsFacts.lookup_set_ne, Hmb, PropsFacts.lookup_set_eq.
    + rewrite Hfin, Hge, Hitems. simpl. apply bool_decide_eq_true, Hnd.
    + intros H. vm_compute in H. discriminate.
  - unfold Shape.month_keys. rewrite !elem_of_cons. auto.
Qed.

Lemma month_with_maxBudget month items x :
  Shape.has_keys Shape.month_keys month = true ->
  is_Some (Props.lookup (lit "maxBudget") month) ->
  Props.lookup (lit "items") month = Some (Arr items) ->
  JSNum.is_finite x = true -> JSNum.ge x JSNum.zero = true ->
  forallb Shape.well_formed_item items = true ->
  NoDup (map Shape.item_id items) ->
  Shape.well_formed_month (Obj (Props.set (lit "maxBudget") (Num x) month))
  = true.
Proof.
  intros Hkeys Hmb Hi Hfin Hge Hitems Hnd. unfold Shape.well_formed_month.
  rewrite KeysFacts.has_keys_set; [|exact Hmb | | exact Hkeys].
  - rewrite PropsFacts.lookup_set_eq, PropsFacts.lookup_set_ne, Hi.
    + rewrite Hfin, Hge, Hitems. simpl. apply bool_decide_eq_true, Hnd.
    + intros H. vm_compute in H. discriminate.
  - unfold Shape.month_keys. rewrite !elem_of_cons. auto.
Qed.

(** *** The items *)

Lemma validate_name newName newPrice name price :
  Actions.addItem_validate newName newPrice = Some (name, price) ->
  JSStr.truthy (JSStr.trim name) = true.
Proof.
  unfold Actions.addItem_validate.
  destruct (JSStr.truthy (JSStr.trim newName)) eqn:Ht; [|discriminate].
  simpl. destruct (_ || _); [discriminate|].
  intros [= <- _]. rewrite TrimFacts.trim_idem. exact Ht.
Qed.

Lemma new_item_well_formed id name price createdAt :
  JSStr.truthy (JSStr.trim name) = true ->
  JSNum.is_finite price = true -> JSNum.gt price JSNum.zero = true ->
  Shape.well_formed_item (Derived.item id name price createdAt) = true.
Proof.
  intros Hn Hf Hg. unfold Shape.well_formed_item, Derived.item.
  change (Shape.has_keys Shape.item_keys _) with true.
  change (Props.lookup (lit "id") _) with (Some (Str id)).
  change (Props.lookup (lit "name") _) with (Some (Str name)).
  change (Props.lookup (lit "price") _) with (Some (Num price)).
  change (Props.lookup (lit "createdAt") _) with (Some (Str createdAt)).
  cbv iota beta. rewrite Hn, Hf, Hg. reflexivity.
Qed.

Lemma item_id_is id it :
  Shape.item_id it = Some id -> Tree.id_is (PStr id) it = true.
Proof.
  unfold Shape.item_id, Tree.id_is. destruct it as [q|l|props]; try discriminate.
  change (Coerce.get (Obj props) (lit "id"))
    with (Ok (default Undefined (Props.lookup (lit "id") props))).
  destruct (Props.lookup (lit "id") props) as [[[| | | |s]|l|o]|];
    try discriminate.
  intros [= ->]. simpl. apply bool_decide_eq_true. reflexivity.
Qed.

Lemma fresh_id id items :
  forallb (fun it => negb (Tree.id_is (PStr id) it)) items = true ->
  ~ In (Some id) (map Shape.item_id items).
Proof.
  intros Hall Hin. apply in_map_iff in Hin as (it & Hid & Hit).
  rewrite forallb_forall in Hall. specialize (Hall _ Hit).
  rewrite (item_id_is _ _ Hid) in Hall. discriminate.
Qed.

Lemma NoDup_ids_app id name price createdAt items :
  NoDup (map Shape.item_id items) ->
  forallb (fun it => negb (Tree.id_is (PStr id) it)) items = true ->
  NoDup (map Shape.item_id (items ++ [Derived.item id name price createdAt])).
Proof.
  intros Hnd Hfresh. rewrite map_app. apply NoDup_app.
  split; [exact Hnd|]. split; [|apply NoDup_singleton].
  intros x Hx Hx'. apply list_elem_of_singleton in Hx'. subst x.
  apply list_elem_of_In in Hx. exact (fresh_id _ _ Hfresh Hx).
Qed.

Lemma forallb_filter_keeps {A} (P Q : A -> bool) l :
  forallb P l = true -> forallb P (filter (fun x => Q x) l) = true.
Proof.
  induction l as [|x l IH]; simpl; [reflexivity|].
  intros H. apply andb_true_iff in H as [H1 H2].
  rewrite filter_cons. destruct (Q x) eqn:Hq.
  - rewrite decide_True by exact I. simpl.
    rewrite H1, IH; auto.
  - rewrite decide_False by (intros Hf; exact Hf). auto.
Qed.

Lemma NoDup_map_filter {A B} (f : A -> B) (Q : A -> bool) l :
  NoDup (map f l) -> NoDup (map f (filter (fun x => Q x) l)).
Proof.
  induction l as [|x l IH]; simpl; [auto|].
  intros H. apply NoDup_cons in H as [H1 H2].
  rewrite filter_cons. destruct (Q x) eqn:Hq.
  - rewrite decide_True by exact I. simpl.
    apply NoDup_cons. split; [|auto].
    intros Hin. apply H1. apply list_elem_of_In in Hin.
    apply in_map_iff in Hin as (y & Hy & Hyin).
    apply list_elem_of_In. apply in_map_iff. exists y. split; [exact Hy|].
    apply list_elem_of_In in Hyin. apply list_elem_of_filter in Hyin as [_ Hyin].
    apply list_elem_of_In. exact Hyin.
  - rewrite decide_False by (intros Hf; exact Hf). auto.
Qed.

(** An edited item. *)
Lemma updated_item_well_formed id name price it :
  Shape.well_formed_item it = true ->
  JSStr.truthy (JSStr.trim name) = true ->
  JSNum.is_finite price = true -> JSNum.gt price JSNum.zero = true ->
  Shape.well_formed_item
    (Tree.update id (Obj [(lit "name", Str name); (lit "price", Num price)]) it)
  = true
  /\ Shape.item_id
       (Tree.update id (Obj [(lit "name", Str name); (lit "price", Num price)])
          it)
     = Shape.item_id it.
Proof.
  intros Hw Hn Hf Hg. unfold Tree.update.
  destruct (Tree.id_is id it); [|auto].
  destruct it as [q|l|props]; try discriminate.
  change (Props.assign (Tree.own_props (Obj props))
            (Tree.own_props (Obj [(lit "name", Str name);
                                  (lit "price", Num price)])))
    with (Props.set (lit "price") (Num price)
            (Props.set (lit "name") (Str name) props)).
  unfold Shape.well_formed_item in Hw |- *. unfold Shape.item_id.
  apply andb_true_iff in Hw as [Hkeys Hrest].
  destruct (Props.lookup (lit "id") props) as [[[| | | |i]|?|?]|] eqn:H1;
    try discriminate.
  destruct (Props.lookup (lit "name") props) as [[[| | | |n0]|?|?]|] eqn:H2;
    try discriminate.
  destruct (Props.lookup (lit "price") props) as [[[| | |p0|]|?|?]|] eqn:H3;
    try discriminate.
  destruct (Props.lookup (lit "createdAt") props) as [[[| | | |c0]|?|?]|] eqn:H4;
    try discriminate.
  assert (Hk1 : Shape.has_keys Shape.item_keys
                  (Props.set (lit "name") (Str name) props) = true).
  { apply KeysFacts.has_keys_set; [rewrite H2; eauto | | exact Hkeys].
    unfold Shape.item_keys. rewrite !elem_of_cons. auto 10. }
  assert (Hk2 : Shape.has_keys Shape.item_keys
                  (Props.set (lit "price") (Num price)
                     (Props.set (lit "name") (Str name) props)) = true).
  { apply KeysFacts.has_keys_set; [| | exact Hk1].
    - rewrite PropsFacts.lookup_set_ne, H3; [eauto|].
      intros H. vm_compute in H. discriminate.
    - unfold Shape.item_keys. rewrite !elem_of_cons. auto 10. }
  rewrite Hk2.
  rewrite !(PropsFacts.lookup_set_ne _ (lit "id")), H1
    by (intros H; vm_compute in H; discriminate).
  rewrite !(PropsFacts.lookup_set_ne _ (lit "createdAt")), H4
    by (intros H; vm_compute in H; discriminate).
  rewrite PropsFacts.lookup_set_eq.
  rewrite (PropsFacts.lookup_set_ne (lit "price") (lit "name"))
    by (intros H; vm_compute in H; discriminate).
  rewrite PropsFacts.lookup_set_eq.
  rewrite Hn, Hf, Hg. auto.
Qed.

Lemma updated_items_well_formed id name price items :
  forallb Shape.well_formed_item items = true ->
  JSStr.truthy (JSStr.trim name) = true ->
  JSNum.is_finite price = true -> JSNum.gt price JSNum.zero = true ->
  forallb Shape.well_formed_item
    (map (Tree.update id (Obj [(lit "name", Str name);
                               (lit "price", Num price)])) items) = true
  /\ map Shape.item_id
       (map (Tree.update id (Obj [(lit "name", Str name);
                                  (lit "price", Num price)])) items)
     = map Shape.item_id items.
Proof.
  intros Hall Hn Hf Hg. induction items as [|it items IH]; simpl; [auto|].
  simpl in Hall. apply andb_true_iff in Hall as [H1 H2].
  destruct (updated_item_well_formed id name price it H1 Hn Hf Hg) as [-> ->].
  destruct (IH H2) as [-> ->]. auto.
Qed.

Lemma well_formed_not_nullish items :
  forallb Shape.well_formed_item items = true ->
  forallb (fun it => negb (Tree.nullish it)) items = true.
Proof.
  intros H. rewrite forallb_forall in H |- *. intros it Hin.
  specialize (H _ Hin). destruct it as [[| | | |]|l|o]; try discriminate;
    reflexivity.
Qed.

End InvariantFacts.

Module EditFacts.
Import Heap Reading.

(** [confirmEdit] with a name and a price that it takes. *)
Lemma confirmEdit_reads h prev store k props months month items
    id editName editPrice name price :
  reads_as h prev store ->
  Tree.parts store k = Some (props, months, month, items) ->
  forallb (fun it => negb (Tree.nullish it)) items = true ->
  Coerce.prim_truthy id = true ->
  Actions.addItem_validate editName editPrice = Some (name, price) ->
  exists next h',
    Edit.confirmEdit k
      (Edit.State (HPrim id) (HPrim (PStr editName)) editPrice) prev h
    = (Ok (Some next, Edit.cancelEdit), h')
    /\ h `prefix_of` h'
    /\ reads_as h' next
         (Tree.with_items k
            (map (Tree.update id (Obj [(lit "name", Str name);
                                       (lit "price", Num price)])) items)
            props months month).
Proof.
  intros Hr Hp Hnn Hid Hv.
  assert (Hval : Edit.confirmEdit_validate
                   (Edit.State (HPrim id) (HPrim (PStr editName)) editPrice)
                 = Ok (Some (name, price))).
  { revert Hv. unfold Edit.confirmEdit_validate, Actions.addItem_validate.
    simpl. rewrite Hid. simpl.
    destruct (JSStr.truthy (JSStr.trim editName)); simpl; [|discriminate].
    destruct (JSNum.isNaN _ || JSNum.le _ _); [discriminate|].
    intros [= <- <-]. reflexivity. }
  unfold Edit.confirmEdit. rewrite Hval.
  unfold bind at 1. unfold alloc at 1.
  set (cell := CObj [(lit "name", HPrim (PStr name));
                     (lit "price", HPrim (PNum price))]).
  assert (H0 : h `prefix_of` h ++ [cell]) by (apply prefix_app_r; reflexivity).
  destruct (ItemFacts.updateItem_reads (h ++ [cell]) prev store k props
              months month items id (HRef (length h))
              (Obj [(lit "name", Str name); (lit "price", Num price)]))
    as (next & h' & Hrun & Hpre & Hnext).
  - eapply ItemFacts.reads_as_prefix; eauto.
  - exact Hp.
  - exists 1%nat. apply ReadingFacts.content_obj. eexists. split.
    + apply list_lookup_middle. reflexivity.
    + repeat constructor.
  - exact Hnn.
  - simpl Edit.editingId. unfold bind at 1. rewrite Hrun.
    exists next, h'. repeat apply conj; auto.
    etransitivity; eauto.
Qed.

End EditFacts.

(** X17. The actions on items keep a well-formed store well formed. On a
    store that reads as a well-formed one and has the active month: a
    valid [addItem] with a finite price and an [id] that no item of the
    month has, a confirmed [removeItem], and a [confirmEdit] that takes
    a name and a finite price, each set a store that is well formed. *)
Theorem item_actions_keep_store_well_formed
    (h : Heap.heap) (prev : Heap.hval) (store : value) (k : jsstring)
    (props months month : list (jsstring * value)) (items : list value) :
  Reading.reads_as h prev store ->
  Shape.well_formed_store store = true ->
  Tree.parts store k = Some (props, months, month, items) ->
  (forall newName newPrice id createdAt name price,
      Actions.addItem_validate newName newPrice = Some (name, price) ->
      JSNum.is_finite price = true ->
      forallb (fun it => negb (Tree.id_is (PStr id) it)) items = true ->
      exists next h',
        Actions.addItem k newName newPrice id createdAt prev h
        = (Ok (Some next), h')
        /\ Reading.reads_as h' next
             (Tree.with_items k
                (items ++ [Derived.item id name price createdAt])
                props months month)
        /\ Shape.well_formed_store
             (Tree.with_items k
                (items ++ [Derived.item id name price createdAt])
                props months month) = true)
  /\ (forall id,
         exists next h',
           Actions.removeItem k true (Heap.HPrim id) prev h
           = (Ok (Some next), h')
           /\ Reading.reads_as h' next
                (Tree.with_items k
                   (filter (fun it => negb (Tree.id_is id it)) items)
                   props months month)
           /\ Shape.well_formed_store
                (Tree.with_items k
                   (filter (fun it => negb (Tree.id_is id it)) items)
                   props months month) = true)
  /\ (forall id editName editPrice name price,
         Coerce.prim_truthy id = true ->
         Actions.addItem_validate editName editPrice = Some (name, price) ->
         JSNum.is_finite price = true ->
         exists next h',
           Edit.confirmEdit k
             (Edit.State (Heap.HPrim id) (Heap.HPrim (PStr editName)) editPrice)
             prev h
           = (Ok (Some next, Edit.cancelEdit), h')
           /\ Reading.reads_as h' next
                (Tree.with_items k
                   (map (Tree.update id
                           (Obj [(lit "name", Str name);
                                 (lit "price", Num price)])) items)
                   props months month)
           /\ Shape.well_formed_store
                (Tree.with_items k
                   (map (Tree.update id
                           (Obj [(lit "name", Str name);
                                 (lit "price", Num price)])) items)
                   props months month) = true).
Proof.
  intros Hr Hw Hp.
  destruct (InvariantFacts.well_formed_parts _ _ _ _ _ _ Hw Hp)
    as (Hm & Hk & Hkey & Hkeys & Hi & (mb & Hmb & Hfin & Hge) & Hitems & Hnd).
  pose proof (InvariantFacts.well_formed_not_nullish _ Hitems) as Hnn.
  assert (Hkeep : forall items',
             forallb Shape.well_formed_item items' = true ->
             NoDup (map Shape.item_id items') ->
             Shape.well_formed_store
               (Tree.with_items k items' props months month) = true).
  { intros items' H1 H2. unfold Tree.with_items.
    apply (InvariantFacts.well_formed_with_month store); auto.
    apply (InvariantFacts.month_with_items month items' mb); auto. }
  repeat apply conj.
  - intros newName newPrice id createdAt name price Hv Hf Hfresh.
    destruct (ItemFacts.addItem_reads h prev store k props months month items
                newName newPrice id createdAt name price Hr Hp Hv)
      as (next & h' & Hrun & _ & Hnext).
    exists next, h'. repeat apply conj; auto. apply Hkeep.
    + rewrite forallb_app, Hitems. cbn [forallb andb].
      rewrite InvariantFacts.new_item_well_formed; auto.
      * eapply InvariantFacts.validate_name; eauto.
      * eapply ItemFacts.validate_price; eauto.
    + apply InvariantFacts.NoDup_ids_app; auto.
  - intros id.
    destruct (ItemFacts.removeItem_reads h prev store k props months month
                items id Hr Hp Hnn) as (next & h' & Hrun & _ & Hnext).
    exists next, h'. repeat apply conj; auto. apply Hkeep.
    + apply InvariantFacts.forallb_filter_keeps, Hitems.
    + apply InvariantFacts.NoDup_map_filter, Hnd.
  - intros id editName editPrice name price Hid Hv Hf.
    destruct (EditFacts.confirmEdit_reads h prev store k props months month
                items id editName editPrice name price Hr Hp Hnn Hid Hv)
      as (next & h' & Hrun & _ & Hnext).
    exists next, h'. repeat apply conj; auto.
    destruct (InvariantFacts.updated_items_well_formed id name price items
                Hitems) as [H1 H2]; auto.
    + eapply InvariantFacts.validate_name; eauto.
    + eapply ItemFacts.validate_price; eauto.
    + apply Hkeep; [exact H1 | rewrite H2; exact Hnd].
Qed.

Lemma item_actions_keep_store_well_formed_witness :
  exists next h',
    Actions.removeItem Examples.may true (Heap.HPrim (PStr (lit "b")))
      Examples.store0 Examples.heap0 = (Ok (Some next), h')
    /\ Reading.reads_as h' next
         (Tree.with_items Examples.may
            (filter (fun it => negb (Tree.id_is (PStr (lit "b")) it))
               (Examples.example_items 50 60 40))
            Samples.props Samples.months Samples.may_month)
    /\ Shape.well_formed_store
         (Tree.with_items Examples.may
            (filter (fun it => negb (Tree.id_is (PStr (lit "b")) it))
               (Examples.example_items 50 60 40))
            Samples.props Samples.months Samples.may_month) = true.
Proof.
  apply (proj1 (proj2 (item_actions_keep_store_well_formed Examples.heap0
           Examples.store0 Examples.two_months Examples.may Samples.props
           Samples.months Samples.may_month (Examples.example_items 50 60 40)
           ItemFacts.store0_reads eq_refl ItemFacts.parts_two_months))).
Defined.

(** X18. [updateBudget], [resetMonth] and the effect that makes the
    active month keep a well-formed store well formed, when the active
    month is of the form YYYY-MM and the ceiling stored is finite and
    not negative: on a store that is a tree and reads as a well-formed
    one, the store each returns and the previous store both read as one
    well-formed store. *)
Theorem month_actions_keep_store_well_formed
    (F : nat) (h : Heap.heap) (prev : Heap.hval) (store : value)
    (k : jsstring) :
  Heap.is_tree F h prev ->
  Heap.content F h prev = Some store ->
  Shape.well_formed_store store = true ->
  (Shape.is_month_key k = true ->
   exists next h' store',
     Actions.resetMonth k true prev h = (Ok (Some next), h')
     /\ Reading.reads_as h' next store'
     /\ Reading.reads_as h' prev store'
     /\ Shape.well_formed_store store' = true)
  /\ (Shape.is_month_key k = true ->
      exists next h' store',
        Actions.ensureMonth k prev h = (Ok next, h')
        /\ Reading.reads_as h' next store'
        /\ Reading.reads_as h' prev store'
        /\ Shape.well_formed_store store' = true)
  /\ (forall val props months month items,
         Tree.parts store k = Some (props, months, month, items) ->
         JSNum.is_finite (Actions.stored val) = true ->
         JSNum.ge (Actions.stored val) JSNum.zero = true ->
         exists next h' store',
           Actions.updateBudget k val prev h = (Ok (Some next), h')
           /\ Reading.reads_as h' next store'
           /\ Reading.reads_as h' prev store'
           /\ Shape.well_formed_store store' = true).
Proof.
  intros (t & fp & Hv & Hnd) Hc Hw.
  unfold Heap.content in Hc. rewrite Hv in Hc. injection Hc as ->.
  destruct (InvariantFacts.well_formed_has_months _ Hw)
    as (props0 & months0 & Hm0).
  assert (Hnew : Shape.is_month_key k = true ->
                 Shape.well_formed_store
                   (Tree.with_month k Derived.empty_month props0 months0)
                 = true).
  { intros Hk. apply (InvariantFacts.well_formed_with_month store); auto. }
  repeat apply conj.
  - intros Hk.
    destruct (WriteFacts.with_new_month_reads k _ _ _ _ _ _ _ Hv Hnd Hm0)
      as (lp & hprops & lm & mprops & -> & Hlp & Hlm1 & Hlm & _ & H1 & H2).
    unfold Actions.resetMonth. change (negb true) with false. cbv iota.
    unfold Heap.bind.
    rewrite (HeapFacts.resetMonth_update_exec _ _ _ _ _ _ Hlp Hlm1 Hlm).
    cbv zeta. eexists _, _, _. split; [reflexivity|].
    split; [eexists; exact H2|]. split; [eexists; exact H1|]. auto.
  - intros Hk.
    destruct (WriteFacts.with_new_month_reads k _ _ _ _ _ _ _ Hv Hnd Hm0)
      as (lp & hprops & lm & mprops & -> & Hlp & Hlm1 & Hlm & Hs & H1 & H2).
    rewrite (MonthFacts.ensureMonth_exec k h lp hprops lm mprops Hlp Hlm1 Hlm).
    destruct (Edit.truthy (default Heap.hundefined (Props.lookup k mprops))).
    + exists (Heap.HRef (length h)), (h ++ [Heap.CObj hprops]), store.
      split; [reflexivity|].
      assert (Hprev : Heap.content F (h ++ [Heap.CObj hprops]) (Heap.HRef lp)
                      = Some store).
      { apply (ReadingFacts.content_prefix _ h);
          [apply prefix_app_r; reflexivity|].
        unfold Heap.content. rewrite Hv. reflexivity. }
      split; [|split; [exists F; exact Hprev | exact Hw]].
      exists F. destruct F as [|f]; [discriminate|].
      destruct store as [q|l|sprops]; try discriminate.
      apply ReadingFacts.content_obj in Hprev as (ps & Hps & Hsame).
      rewrite (lookup_app_l_Some _ _ _ _ Hlp) in Hps. injection Hps as <-.
      apply ReadingFacts.content_obj. exists hprops. split; [|exact Hsame].
      apply list_lookup_middle. reflexivity.
    + eexists _, _, _. split; [reflexivity|].
      split; [eexists; exact H2|]. split; [eexists; exact H1|]. auto.
  - intros val props months month items Hp Hfin Hge.
    destruct (InvariantFacts.well_formed_parts _ _ _ _ _ _ Hw Hp)
      as (Hm & Hk & Hkey & Hkeys & Hi & (mb & Hmb & _ & _) & Hitems & Hndi).
    destruct (WriteFacts.updateBudget_reads k (Actions.stored val)
                _ _ _ _ _ _ _ _ Hv Hnd Hm Hk)
      as (lp & hprops & lm & mprops & lk & kprops & -> & Hlp & Hlm1 & Hlm
          & Hlk2 & Hlk & H1 & H2).
    unfold Actions.updateBudget. unfold Heap.bind.
    rewrite (HeapFacts.updateBudget_update_exec _ _ _ _ _ _ _ Hlp Hlm1 Hlm).
    cbv zeta. rewrite Hlk2. simpl default. cbv iota beta.
    rewrite (lookup_app_l_Some _ _ _ _ Hlk). simpl HeapLogic.with_maxBudget.
    eexists _, _, _. split; [reflexivity|].
    split; [eexists; exact H2|]. split; [eexists; exact H1|].
    apply (InvariantFacts.well_formed_with_month store); auto.
    apply (InvariantFacts.month_with_maxBudget month items); auto.
Qed.

Lemma month_actions_keep_store_well_formed_witness :
  exists next h' store',
    Actions.resetMonth Examples.may true Examples.store0 Examples.heap0
    = (Ok (Some next), h')
    /\ Reading.reads_as h' next store'
    /\ Reading.reads_as h' Examples.store0 store'
    /\ Shape.well_formed_store store' = true.
Proof.
  apply (proj1 (month_actions_keep_store_well_formed 5 Examples.heap0
           Examples.store0 Examples.two_months Examples.may
           ExampleFacts.store0_is_tree eq_refl eq_refl)).
  reflexivity.
Defined.

(** ** When the actions throw, and when they cannot *)

Module SafetyFacts.
Import Heap HeapLogic HeapFacts Reading ReadingFacts.
Local Open Scope heap_scope.

#[local] Arguments get : simpl never.
#[local] Arguments set : simpl never.
#[local] Arguments own_props : simpl never.
#[local] Arguments iterate : simpl never.
#[local] Arguments array_elems : simpl never.

(** [p.items] on a primitive [p]: a TypeError for [undefined] and
    [null], and [undefined] otherwise. *)
Lemma get_items_prim p h :
  get (HPrim p) (lit "items") h
  = (if Tree.nullish (Prim p) then Throw TypeError else Ok hundefined, h).
Proof. destruct p as [| |b|x|s]; reflexivity. Qed.

Lemma own_props_prim p h : exists ps, own_props (HPrim p) h = (Ok ps, h).
Proof. destruct p as [| |b|x|s]; eexists; reflexivity. Qed.

(** A copying updater on a month that is a primitive. *)
Lemma copy_on_write_throws k f h lp props lm mprops p :
  h !! lp = Some (CObj props) ->
  Props.lookup (lit "months") props = Some (HRef lm) ->
  h !! lm = Some (CObj mprops) ->
  default hundefined (Props.lookup k mprops) = HPrim p ->
  (forall h1, f hundefined h1 = (Throw TypeError, h1)) ->
  exists h', Actions.copy_on_write k f (HRef lp) h = (Throw TypeError, h')
             /\ h `prefix_of` h'.
Proof.
  intros Hlp Hm Hlm Hk Hf. unfold Actions.copy_on_write.
  unfold bind at 1. rewrite (own_props_obj _ _ _ Hlp).
  unfold bind at 1. rewrite (get_obj _ _ _ _ Hlp), Hm. simpl default.
  unfold bind at 1. rewrite (own_props_obj _ _ _ Hlm).
  unfold bind at 1. unfold alloc at 1.
  unfold bind at 1. unfold alloc at 1.
  set (h2 := (h ++ [CObj mprops])
             ++ [CObj (Props.set (lit "months") (HRef (length h)) props)]).
  assert (Hpre : h `prefix_of` h2).
  { unfold h2. rewrite <- app_assoc. apply prefix_app_r. reflexivity. }
  assert (H1 : h2 !! length (h ++ [CObj mprops])
               = Some (CObj (Props.set (lit "months") (HRef (length h)) props)))
    by (apply list_lookup_middle; reflexivity).
  assert (H2 : h2 !! length h = Some (CObj mprops)).
  { unfold h2. apply lookup_app_l_Some. apply list_lookup_middle. reflexivity. }
  unfold bind at 1. rewrite (get_obj _ _ _ _ H1), PropsFacts.lookup_set_eq.
  simpl default.
  unfold bind at 1. rewrite (get_obj _ _ _ _ H2), Hk.
  unfold bind at 1. destruct (own_props_prim p h2) as [ps ->].
  unfold bind at 1. rewrite get_items_prim.
  destruct (Tree.nullish (Prim p)); [eauto|].
  unfold bind at 1. rewrite Hf. eauto.
Qed.

Lemma addItem_items_undefined item h :
  Actions.addItem_items item hundefined h = (Throw TypeError, h).
Proof. reflexivity. Qed.

Lemma removeItem_items_undefined id h :
  Actions.removeItem_items id hundefined h = (Throw TypeError, h).
Proof. reflexivity. Qed.

Lemma updateItem_items_undefined id fields h :
  Actions.updateItem_items id fields hundefined h = (Throw TypeError, h).
Proof. reflexivity. Qed.

(** [updateBudget] on a store that has the month. *)
Lemma updateBudget_completes F h prev store k props months month items val :
  content F h prev = Some store ->
  Tree.parts store k = Some (props, months, month, items) ->
  exists next h', Actions.updateBudget k val prev h = (Ok (Some next), h').
Proof.
  intros Hc Hp.
  destruct (CopyFacts.parts_heap _ _ _ _ _ _ _ _ _ Hc Hp)
    as (lp & hprops & lm & mprops & lk & kprops & f3 & -> & _ & _ & Hlp & _
        & Hm & Hlm & _ & Hk & Hlk & _).
  unfold Actions.updateBudget. unfold bind.
  rewrite (updateBudget_update_exec _ _ _ _ _ _ _ Hlp Hm Hlm).
  cbv zeta. rewrite Hk. simpl default. cbv iota beta.
  rewrite (lookup_app_l_Some _ _ _ _ Hlk). eauto.
Qed.

(** [resetMonth] on a store whose [months] is an object. *)
Lemma resetMonth_completes F h prev store props months k confirmed :
  content F h prev = Some store ->
  Tree.months_of store = Some (props, months) ->
  exists r h', Actions.resetMonth k confirmed prev h = (Ok r, h').
Proof.
  intros Hc Hm. unfold Tree.months_of in Hm.
  destruct store as [q|l|props0]; try discriminate.
  destruct (Props.lookup (lit "months") props0) as [[q|l|months0]|] eqn:Hl;
    try discriminate.
  destruct prev as [q|lp]; [rewrite content_prim in Hc; discriminate|].
  destruct F as [|f1]; [discriminate|].
  apply content_obj in Hc as (hprops & Hlp & Hs).
  destruct (same_members_lookup_Some _ _ _ _ _ Hs Hl) as (e & He & Hce).
  destruct e as [q|lm]; [rewrite content_prim in Hce; discriminate|].
  destruct f1 as [|f2]; [discriminate|].
  apply content_obj in Hce as (mprops & Hlm & _).
  unfold Actions.resetMonth. destruct confirmed.
  - change (negb true) with false. cbv iota. unfold bind.
    rewrite (resetMonth_update_exec _ _ _ _ _ _ Hlp He Hlm). eauto.
  - eauto.
Qed.

(** A month that is there in a well-formed store has its parts. *)
Lemma well_formed_truthy_parts store props months k :
  Shape.well_formed_store store = true ->
  Tree.months_of store = Some (props, months) ->
  Coerce.truthy (default Undefined (Props.lookup k months)) = true ->
  exists month items, Tree.parts store k = Some (props, months, month, items).
Proof.
  intros Hw Hm Ht.
  destruct (InvariantFacts.well_formed_months_of _ _ _ Hw Hm)
    as (-> & -> & Hall & _).
  destruct (Props.lookup k months) as [m|] eqn:Hk; [|discriminate].
  apply InvariantFacts.lookup_Some_In in Hk as Hin.
  rewrite forallb_forall in Hall. specialize (Hall _ Hin). simpl in Hall.
  apply andb_true_iff in Hall as [_ Hwm].
  destruct (RenderFacts.well_formed_month_parts _ Hwm)
    as (mprops & mb & its & -> & _ & Hi & _).
  exists mprops, its. unfold Tree.parts.
  change (Props.lookup (lit "months") [(lit "months", Obj months)])
    with (Some (Obj months)).
  cbv iota beta. rewrite Hk, Hi. reflexivity.
Qed.

(** The month that the effect made has its parts. *)
Lemma with_empty_month_parts k props months :
  is_Some (Props.lookup (lit "months") props) ->
  Tree.parts (Tree.with_month k Derived.empty_month props months) k
  = Some (Props.set (lit "months")
            (Obj (Props.set k Derived.empty_month months)) props,
          Props.set k Derived.empty_month months,
          [(lit "maxBudget", Num JSNum.zero); (lit "items", Arr [])],
          []).
Proof.
  intros Hm. unfold Tree.with_month, Tree.parts.
  rewrite PropsFacts.lookup_set_eq. cbv iota beta.
  rewrite PropsFacts.lookup_set_eq. reflexivity.
Qed.

Lemma parts_months_of store k props months month items :
  Tree.parts store k = Some (props, months, month, items) ->
  Tree.months_of store = Some (props, months).
Proof.
  unfold Tree.parts, Tree.months_of.
  destruct store as [q|l|props0]; try discriminate.
  destruct (Props.lookup (lit "months") props0) as [[q|l|months0]|];
    try discriminate.
  destruct (Props.lookup k months0) as [[q|l|month0]|]; try discriminate.
  destruct (Props.lookup (lit "items") month0) as [[q|l|o]|]; try discriminate.
  intros [= <- <- _ _]. reflexivity.
Qed.

(** On a store that has the month, with items that are not [null] or
    [undefined], no action throws. *)
Lemma actions_complete h prev store k props months month items :
  reads_as h prev store ->
  Tree.parts store k = Some (props, months, month, items) ->
  forallb (fun it => negb (Tree.nullish it)) items = true ->
  (forall newName newPrice id createdAt,
      exists r h', Actions.addItem k newName newPrice id createdAt prev h
                   = (Ok r, h'))
  /\ (forall confirmed id,
         exists r h', Actions.removeItem k confirmed (HPrim id) prev h
                      = (Ok r, h'))
  /\ (forall id editName editPrice,
         exists r h',
           Edit.confirmEdit k
             (Edit.State (HPrim id) (HPrim (PStr editName)) editPrice) prev h
           = (Ok r, h'))
  /\ (forall val,
         exists next h', Actions.updateBudget k val prev h
                         = (Ok (Some next), h'))
  /\ (forall confirmed,
         exists r h', Actions.resetMonth k confirmed prev h = (Ok r, h')).
Proof.
  intros Hr Hp Hnn. repeat apply conj.
  - intros newName newPrice id createdAt.
    destruct (Actions.addItem_validate newName newPrice) as [[name price]|]
      eqn:Hv.
    + destruct (ItemFacts.addItem_reads h prev store k props months month
                  items newName newPrice id createdAt name price Hr Hp Hv)
        as (next & h' & Hrun & _). eauto.
    + unfold Actions.addItem. rewrite Hv. eauto.
  - intros [|] id.
    + destruct (ItemFacts.removeItem_reads h prev store k props months month
                  items id Hr Hp Hnn) as (next & h' & Hrun & _). eauto.
    + eexists _, _. reflexivity.
  - intros id editName editPrice.
    destruct (Coerce.prim_truthy id) eqn:Hid.
    + destruct (Actions.addItem_validate editName editPrice)
        as [[name price]|] eqn:Hv.
      * destruct (EditFacts.confirmEdit_reads h prev store k props months
                    month items id editName editPrice name price
                    Hr Hp Hnn Hid Hv) as (next & h' & Hrun & _). eauto.
      * assert (Hval : Edit.confirmEdit_validate
                         (Edit.State (HPrim id) (HPrim (PStr editName))
                            editPrice) = Ok None).
        { revert Hv.
          unfold Edit.confirmEdit_validate, Actions.addItem_validate.
          simpl. rewrite Hid. simpl.
          destruct (JSStr.truthy (JSStr.trim editName)); simpl;
            [|reflexivity].
          destruct (JSNum.isNaN _ || JSNum.le _ _); [reflexivity|].
          discriminate. }
        unfold Edit.confirmEdit. rewrite Hval. eexists _, _. reflexivity.
    + assert (Hval : Edit.confirmEdit_validate
                       (Edit.State (HPrim id) (HPrim (PStr editName))
                          editPrice) = Ok None).
      { unfold Edit.confirmEdit_validate. simpl. rewrite Hid. reflexivity. }
      unfold Edit.confirmEdit. rewrite Hval. eexists _, _. reflexivity.
  - intros val. destruct Hr as [F Hc].
    eapply updateBudget_completes; eauto.
  - intros confirmed. destruct Hr as [F Hc].
    eapply resetMonth_completes; eauto. eapply parts_months_of; eauto.
Qed.

End SafetyFacts.

(** X19. Once the effect that makes the active month has run on a
    well-formed store, no action throws: the store the effect returns
    has the active month, and on it [addItem], [removeItem],
    [confirmEdit], [updateBudget] and [resetMonth] all complete,
    whatever the texts typed and the answers to the dialogs. *)
Theorem effect_makes_the_actions_safe
    (F : nat) (h : Heap.heap) (prev : Heap.hval) (store : value)
    (k : jsstring) :
  Heap.is_tree F h prev ->
  Heap.content F h prev = Some store ->
  Shape.well_formed_store store = true ->
  exists next h',
    Actions.ensureMonth k prev h = (Ok next, h')
    /\ (forall newName newPrice id createdAt,
           exists r h'', Actions.addItem k newName newPrice id createdAt next h'
                         = (Ok r, h''))
    /\ (forall confirmed id,
           exists r h'', Actions.removeItem k confirmed (Heap.HPrim id) next h'
                         = (Ok r, h''))
    /\ (forall id editName editPrice,
           exists r h'',
             Edit.confirmEdit k
               (Edit.State (Heap.HPrim id) (Heap.HPrim (PStr editName))
                  editPrice) next h'
             = (Ok r, h''))
    /\ (forall val,
           exists next' h'', Actions.updateBudget k val next h'
                             = (Ok (Some next'), h''))
    /\ (forall confirmed,
           exists r h'', Actions.resetMonth k confirmed next h' = (Ok r, h'')).
Proof.
  intros (t & fp & Hv & Hnd) Hc Hw.
  unfold Heap.content in Hc. rewrite Hv in Hc. injection Hc as ->.
  destruct (InvariantFacts.well_formed_has_months _ Hw)
    as (props & months & Hm).
  destruct (WriteFacts.with_new_month_reads k _ _ _ _ _ _ _ Hv Hnd Hm)
    as (lp & hprops & lm & mprops & -> & Hlp & Hlm1 & Hlm & Hs & H1 & H2).
  rewrite (MonthFacts.ensureMonth_exec k h lp hprops lm mprops Hlp Hlm1 Hlm).
  rewrite (WriteFacts.truthy_member _ _ _ _ k Hs).
  destruct (Coerce.truthy (default Undefined (Props.lookup k months))) eqn:Ht.
  - eexists _, _. split; [reflexivity|].
    destruct (SafetyFacts.well_formed_truthy_parts _ _ _ k Hw Hm Ht)
      as (month & items & Hp).
    destruct (InvariantFacts.well_formed_parts _ _ _ _ _ _ Hw Hp)
      as (_ & _ & _ & _ & _ & _ & Hitems & _).
    apply (SafetyFacts.actions_complete _ _ store k props months month items);
      [| exact Hp | apply InvariantFacts.well_formed_not_nullish, Hitems].
    assert (Hprev : Heap.content F (h ++ [Heap.CObj hprops]) (Heap.HRef lp)
                    = Some store).
    { apply (ReadingFacts.content_prefix _ h);
        [apply prefix_app_r; reflexivity|].
      unfold Heap.content. rewrite Hv. reflexivity. }
    exists F. destruct F as [|f]; [discriminate|].
    destruct store as [q|l|sprops]; try discriminate.
    apply ReadingFacts.content_obj in Hprev as (ps & Hps & Hsame).
    rewrite (lookup_app_l_Some _ _ _ _ Hlp) in Hps. injection Hps as <-.
    apply ReadingFacts.content_obj. exists hprops. split; [|exact Hsame].
    apply list_lookup_middle. reflexivity.
  - eexists _, _. split; [reflexivity|].
    eapply SafetyFacts.actions_complete.
    + eexists. exact H2.
    + apply SafetyFacts.with_empty_month_parts.
      destruct (InvariantFacts.well_formed_months_of _ _ _ Hw Hm)
        as (_ & -> & _). eexists. reflexivity.
    + reflexivity.
Qed.

Lemma effect_makes_the_actions_safe_witness :
  exists next h',
    Actions.ensureMonth (lit "2024-07") Examples.store0 Examples.heap0
    = (Ok next, h')
    /\ (forall newName newPrice id createdAt,
           exists r h'',
             Actions.addItem (lit "2024-07") newName newPrice id createdAt
               next h' = (Ok r, h''))
    /\ (forall confirmed id,
           exists r h'',
             Actions.removeItem (lit "2024-07") confirmed (Heap.HPrim id)
               next h' = (Ok r, h''))
    /\ (forall id editName editPrice,
           exists r h'',
             Edit.confirmEdit (lit "2024-07")
               (Edit.State (Heap.HPrim id) (Heap.HPrim (PStr editName))
                  editPrice) next h'
             = (Ok r, h''))
    /\ (forall val,
           exists next' h'',
             Actions.updateBudget (lit "2024-07") val next h'
             = (Ok (Some next'), h''))
    /\ (forall confirmed,
           exists r h'',
             Actions.resetMonth (lit "2024-07") confirmed next h'
             = (Ok r, h'')).
Proof.
  apply (effect_makes_the_actions_safe 5 Examples.heap0 Examples.store0
           Examples.two_months (lit "2024-07")).
  - exact ExampleFacts.store0_is_tree.
  - vm_compute. reflexivity.
  - vm_compute. reflexivity.
Defined.

(** X20. On a store whose active month is missing, or is any other
    primitive, every action that reads the month throws a TypeError and
    sets no store: a valid [addItem], a confirmed [removeItem],
    [updateItem] and [updateBudget]. No object of the previous store is
    written to. *)
Theorem actions_on_missing_month_throw
    (k : jsstring) (h : Heap.heap) (prev : Heap.hval)
    (months : list (jsstring * Heap.hval)) (p : prim) :
  Heap.is_store h prev months ->
  default Heap.hundefined (Props.lookup k months) = Heap.HPrim p ->
  (forall newName newPrice id createdAt,
      Actions.addItem_validate newName newPrice <> None ->
      exists h', Actions.addItem k newName newPrice id createdAt prev h
                 = (Throw TypeError, h')
                 /\ h `prefix_of` h')
  /\ (forall id,
         exists h', Actions.removeItem k true id prev h = (Throw TypeError, h')
                    /\ h `prefix_of` h')
  /\ (forall id fields,
         exists h', Actions.updateItem k id fields prev h
                    = (Throw TypeError, h')
                    /\ h `prefix_of` h')
  /\ (forall val,
         exists h', Actions.updateBudget k val prev h = (Throw TypeError, h')
                    /\ h `prefix_of` h').
Proof.
  intros (lp & props & lm & -> & Hlp & Hm & Hlm) Hk. repeat apply conj.
  - intros newName newPrice id createdAt Hv.
    destruct (Actions.addItem_validate newName newPrice) as [[name price]|]
      eqn:Hval; [|contradiction].
    unfold Actions.addItem. rewrite Hval.
    unfold Heap.bind at 1. unfold Heap.alloc at 1.
    set (h0 := h ++ [_]).
    destruct (SafetyFacts.copy_on_write_throws k
                (Actions.addItem_items (Heap.HRef (length h))) h0 lp props lm
                months p)
      as (h' & Hrun & Hpre);
      [apply lookup_app_l_Some, Hlp | exact Hm | apply lookup_app_l_Some, Hlm
      | exact Hk | apply SafetyFacts.addItem_items_undefined |].
    unfold Heap.bind at 1. rewrite HeapFacts.addItem_update_cow, Hrun.
    exists h'. split; [reflexivity|].
    etransitivity; [|exact Hpre]. apply prefix_app_r. reflexivity.
  - intros id.
    destruct (SafetyFacts.copy_on_write_throws k
                (Actions.removeItem_items id) h lp props lm months p)
      as (h' & Hrun & Hpre);
      [exact Hlp | exact Hm | exact Hlm | exact Hk
      | apply SafetyFacts.removeItem_items_undefined |].
    unfold Actions.removeItem. change (negb true) with false. cbv iota.
    unfold Heap.bind at 1. rewrite HeapFacts.removeItem_update_cow, Hrun.
    eauto.
  - intros id fields.
    destruct (SafetyFacts.copy_on_write_throws k
                (Actions.updateItem_items id fields) h lp props lm months p)
      as (h' & Hrun & Hpre);
      [exact Hlp | exact Hm | exact Hlm | exact Hk
      | apply SafetyFacts.updateItem_items_undefined |].
    unfold Actions.updateItem.
    unfold Heap.bind at 1. rewrite HeapFacts.updateItem_update_cow, Hrun.
    eauto.
  - intros val. unfold Actions.updateBudget. unfold Heap.bind.
    rewrite (HeapFacts.updateBudget_update_exec _ _ _ _ _ _ _ Hlp Hm Hlm).
    cbv zeta. rewrite Hk. eexists. split; [reflexivity|].
    apply prefix_app_r. reflexivity.
Qed.

Lemma actions_on_missing_month_throw_witness :
  exists h',
    Actions.updateBudget (lit "2024-07") (lit "250") Examples.store0
      Examples.heap0 = (Throw TypeError, h')
    /\ Examples.heap0 `prefix_of` h'.
Proof.
  apply (proj2 (proj2 (proj2 (actions_on_missing_month_throw (lit "2024-07")
           Examples.heap0 Examples.store0 Examples.months0 PUndefined
           ExampleFacts.store0_is_store eq_refl)))).
Defined.

(** ** Opening the editor of an item and confirming *)

Module StartEditFacts.
Import Heap HeapLogic HeapFacts Reading ReadingFacts.
Local Open Scope heap_scope.

#[local] Arguments get : simpl never.

Lemma to_string_prim fuel h p :
  Edit.to_string fuel h (HPrim p) = Some (Ok (Coerce.prim_ToString p)).
Proof. destruct fuel; reflexivity. Qed.

(** Only a primitive reads as a primitive. *)
Lemma content_Prim_inv f h x q : content f h x = Some (Prim q) -> x = HPrim q.
Proof.
  destruct x as [p|l].
  - rewrite content_prim. intros [= ->]. reflexivity.
  - destruct f as [|f]; [discriminate|]. unfold content. simpl.
    destruct (h !! l) as [[ps|elems [|]]|]; try discriminate.
    + destruct (view_members _ _) as [[? ?]|]; discriminate.
    + destruct (view_elements _ _) as [[? ?]|]; discriminate.
Qed.

(** A property of an object in the heap that reads as a primitive. *)
Lemma get_member_prim h e iprops key q :
  reads_as h e (Obj iprops) ->
  Props.lookup key iprops = Some (Prim q) ->
  get e key h = (Ok (HPrim q), h).
Proof.
  intros [F Hc] Hl.
  destruct e as [p|l]; [rewrite content_prim in Hc; discriminate|].
  destruct F as [|f]; [discriminate|].
  apply content_obj in Hc as (ips & Hcell & Hs).
  destruct (same_members_lookup_Some _ _ _ _ _ Hs Hl) as (x & Hx & Hcx).
  rewrite (get_obj _ _ _ _ Hcell), Hx. simpl default.
  rewrite (content_Prim_inv _ _ _ _ Hcx). reflexivity.
Qed.

(** What [startEdit] sets for an item with an id, a name and a price
    that are primitives. *)
Lemma startEdit_item fuel h e iprops id name price :
  reads_as h e (Obj iprops) ->
  Props.lookup (lit "id") iprops = Some (Prim id) ->
  Props.lookup (lit "name") iprops = Some (Prim name) ->
  Props.lookup (lit "price") iprops = Some (Prim price) ->
  Edit.startEdit fuel e h
  = Some (Ok (Edit.State (HPrim id) (HPrim name) (Coerce.prim_ToString price))).
Proof.
  intros Hr H1 H2 H3. unfold Edit.startEdit.
  rewrite (get_member_prim _ _ _ _ _ Hr H1), (get_member_prim _ _ _ _ _ Hr H2),
    (get_member_prim _ _ _ _ _ Hr H3), to_string_prim.
  reflexivity.
Qed.

Lemma NoDup_map_inj {A B} (f : A -> B) l x y :
  NoDup (map f l) -> In x l -> In y l -> f x = f y -> x = y.
Proof.
  induction l as [|a l IH]; simpl; [tauto|].
  intros Hnd Hx Hy Hf. apply NoDup_cons in Hnd as [Hna Hnd].
  destruct Hx as [<-|Hx], Hy as [<-|Hy]; auto.
  - exfalso. apply Hna. rewrite Hf. apply list_elem_of_In, in_map, Hy.
  - exfalso. apply Hna. rewrite <- Hf. apply list_elem_of_In, in_map, Hx.
Qed.

(** An item whose [id] is [===] to a string has that string for its id. *)
Lemma id_is_item_id i it :
  Shape.well_formed_item it = true ->
  Tree.id_is (PStr i) it = true -> Shape.item_id it = Some i.
Proof.
  unfold Shape.well_formed_item, Tree.id_is, Shape.item_id.
  destruct it as [q|l|props]; try discriminate.
  change (Coerce.get (Obj props) (lit "id"))
    with (Ok (default Undefined (Props.lookup (lit "id") props))).
  intros Hw. apply andb_true_iff in Hw as [_ Hw].
  destruct (Props.lookup (lit "id") props) as [[[| | | |s]|?|?]|];
    try discriminate.
  simpl. intros H. apply bool_decide_eq_true in H. congruence.
Qed.

(** Updating the one item with what it holds changes no item. *)
Lemma map_update_same i fields items it :
  forallb Shape.well_formed_item items = true ->
  NoDup (map Shape.item_id items) ->
  In it items -> Shape.item_id it = Some i ->
  Tree.update (PStr i) fields it = it ->
  map (Tree.update (PStr i) fields) items = items.
Proof.
  intros Hw Hnd Hin Hid Hsame.
  rewrite <- (map_id items) at 2. apply map_ext_in. intros x Hx.
  unfold Tree.update. destruct (Tree.id_is (PStr i) x) eqn:Hi; [|reflexivity].
  rewrite forallb_forall in Hw.
  pose proof (id_is_item_id i x (Hw _ Hx) Hi) as Hxid.
  assert (x = it) as ->.
  { eapply NoDup_map_inj; eauto. congruence. }
  unfold Tree.update in Hsame. rewrite Hi in Hsame. exact Hsame.
Qed.

Lemma gt_zero_le x :
  JSNum.gt x JSNum.zero = true ->
  JSNum.isNaN x = false /\ JSNum.le x JSNum.zero = false.
Proof. destruct x as [[]|[]| |[] m e]; try discriminate; auto. Qed.

End StartEditFacts.

(** X21. Opening the editor of an item and confirming without a change
    leaves the store as it reads. For an item of the active month in a
    well-formed store, with an id that is not empty, a name that has no
    white space around it (as every name [addItem] and [confirmEdit]
    store) and a price whose text converts back to it, [startEdit] sets
    the item's id, its name and [String(price)], and [confirmEdit] then
    sets a store that reads as the previous one. *)
Theorem startEdit_then_confirmEdit_keeps_store
    (fuel : nat) (h : Heap.heap) (prev e : Heap.hval) (store it : value)
    (k : jsstring) (props months month : list (jsstring * value))
    (items : list value) (i name : jsstring) (price : number) :
  Reading.reads_as h prev store ->
  Shape.well_formed_store store = true ->
  Tree.parts store k = Some (props, months, month, items) ->
  In it items ->
  Reading.reads_as h e it ->
  Coerce.get it (lit "id") = Ok (Str i) ->
  Coerce.get it (lit "name") = Ok (Str name) ->
  Coerce.get it (lit "price") = Ok (Num price) ->
  JSStr.truthy i = true ->
  JSStr.trim name = name ->
  StringToNumber.Number (NumberToString.Number_toString price) = price ->
  let st := Edit.State (Heap.HPrim (PStr i)) (Heap.HPrim (PStr name))
              (NumberToString.Number_toString price) in
  exists next h',
    Edit.startEdit fuel e h = Some (Ok st)
    /\ Edit.confirmEdit k st prev h = (Ok (Some next, Edit.cancelEdit), h')
    /\ Reading.reads_as h' next store.
Proof.
  intros Hr Hw Hp Hin He Hgi Hgn Hgp Hi Hn Hback st.
  destruct (InvariantFacts.well_formed_parts _ _ _ _ _ _ Hw Hp)
    as (_ & _ & _ & _ & _ & _ & Hitems & Hnd).
  pose proof (InvariantFacts.well_formed_not_nullish _ Hitems) as Hnn.
  pose proof Hitems as Hall. rewrite forallb_forall in Hall.
  pose proof (Hall _ Hin) as Hwi.
  destruct it as [q|l|iprops]; try discriminate.
  revert Hgi Hgn Hgp.
  change (Coerce.get (Obj iprops) ?key)
    with (Ok (default Undefined (Props.lookup key iprops))).
  unfold Shape.well_formed_item in Hwi.
  apply andb_true_iff in Hwi as [_ Hwi].
  destruct (Props.lookup (lit "id") iprops) as [[[| | | |i0]|?|?]|] eqn:H1;
    try discriminate.
  destruct (Props.lookup (lit "name") iprops) as [[[| | | |n0]|?|?]|] eqn:H2;
    try discriminate.
  destruct (Props.lookup (lit "price") iprops) as [[[| | |p0|]|?|?]|] eqn:H3;
    try discriminate.
  destruct (Props.lookup (lit "createdAt") iprops) as [[[| | | |c0]|?|?]|];
    try discriminate.
  simpl default. intros [= ->] [= ->] [= ->].
  apply andb_true_iff in Hwi as [Hwi Hgt].
  apply andb_true_iff in Hwi as [Htrim Hfin].
  destruct (StartEditFacts.gt_zero_le _ Hgt) as [Hnan Hle].
  assert (Hv : Actions.addItem_validate name
                 (NumberToString.Number_toString price) = Some (name, price)).
  { unfold Actions.addItem_validate. rewrite Htrim, Hback, Hnan, Hle, Hn.
    reflexivity. }
  destruct (EditFacts.confirmEdit_reads h prev store k props months month
              items (PStr i) name (NumberToString.Number_toString price)
              name price Hr Hp Hnn Hi Hv)
    as (next & h' & Hrun & _ & Hnext).
  exists next, h'. split; [|split; [exact Hrun|]].
  - apply (StartEditFacts.startEdit_item fuel h e iprops (PStr i) (PStr name)
             (PNum price) He H1 H2 H3).
  - rewrite (StartEditFacts.map_update_same i _ items (Obj iprops))
      in Hnext; auto.
    + rewrite (ItemFacts.with_items_same _ _ _ _ _ _ Hp) in Hnext. exact Hnext.
    + unfold Shape.item_id. rewrite H1. reflexivity.
    + unfold Tree.update. destruct (Tree.id_is (PStr i) (Obj iprops));
        [|reflexivity].
      change (Props.assign (Tree.own_props (Obj iprops))
                (Tree.own_props (Obj [(lit "name", Str name);
                                      (lit "price", Num price)])))
        with (Props.set (lit "price") (Num price)
                (Props.set (lit "name") (Str name) iprops)).
      rewrite (ItemFacts.set_same (lit "name") (Str name) iprops H2).
      rewrite (ItemFacts.set_same (lit "price") (Num price) iprops H3).
      reflexivity.
Qed.

Lemma startEdit_then_confirmEdit_keeps_store_witness :
  exists next h',
    Edit.startEdit 1 (Heap.HRef 1%nat) Examples.heap0
    = Some (Ok (Edit.State (Heap.HPrim (PStr (lit "b")))
                  (Heap.HPrim (PStr (lit "food")))
                  (NumberToString.Number_toString (JSNum.of_Z 60))))
    /\ Edit.confirmEdit Examples.may
         (Edit.State (Heap.HPrim (PStr (lit "b")))
            (Heap.HPrim (PStr (lit "food")))
            (NumberToString.Number_toString (JSNum.of_Z 60)))
         Examples.store0 Examples.heap0
       = (Ok (Some next, Edit.cancelEdit), h')
    /\ Reading.reads_as h' next Examples.two_months.
Proof.
  apply (startEdit_then_confirmEdit_keeps_store 1 Examples.heap0
           Examples.store0 (Heap.HRef 1%nat) Examples.two_months
           (Derived.item (lit "b") (lit "food") (JSNum.of_Z 60)
              (lit "2024-05-02T10:00:00.000Z"))
           Examples.may Samples.props Samples.months Samples.may_month
           (Examples.example_items 50 60 40) (lit "b") (lit "food")
           (JSNum.of_Z 60)).
  - exact ItemFacts.store0_reads.
  - vm_compute. reflexivity.
  - exact ItemFacts.parts_two_months.
  - right. left. reflexivity.
  - exists 1%nat. vm_compute. reflexivity.
  - reflexivity.
  - reflexivity.
  - reflexivity.
  - reflexivity.
  - vm_compute. reflexivity.
  - vm_compute. reflexivity.
Defined.

(** ** Stores that are accepted and cannot be rendered *)

Module RenderErrorFacts.
Import Coerce.
Local Open Scope outcome_scope.

(** ToString throws nothing but a TypeError. *)
Lemma ToString_throws v : forall e, ToString v = Throw e -> e = TypeError.
Proof.
  induction v as [p|l IH|ps _] using JSONFacts.value_nested_ind; intros e.
  - discriminate.
  - simpl. revert e. induction IH as [|x l Hx _ IHl]; intros e;
      [discriminate|].
    assert (Hhead : forall e',
               match x with
               | Prim PUndefined | Prim PNull => Ok []
               | _ => ToString x
               end = Throw e' -> e' = TypeError).
    { intros e'. destruct x as [[| | | |]| |]; try discriminate; apply Hx. }
    destruct (match x with
              | Prim PUndefined | Prim PNull => Ok []
              | _ => ToString x
              end) as [s|e'] eqn:Hs.
    + cbn [obind]. destruct l as [|y l']; [discriminate|].
      match goal with |- context [obind ?J _] =>
        destruct J as [r|e''] eqn:Hj end.
      * discriminate.
      * cbn [obind]. intros [= <-]. apply IHl. reflexivity.
    + cbn [obind]. intros [= <-]. apply Hhead. reflexivity.
  - simpl. destruct (Props.lookup (lit "toString") ps); [|discriminate].
    intros [= <-]. reflexivity.
Qed.

Lemma ToNumber_throws v e : ToNumber v = Throw e -> e = TypeError.
Proof.
  destruct v as [p|l|ps]; [discriminate| |];
    unfold ToNumber;
    match goal with |- context [ToString ?v] =>
      destruct (ToString v) as [s|e'] eqn:Hs end;
    simpl; try discriminate; intros [= <-]; eapply ToString_throws; eauto.
Qed.

(** Reading a property of a truthy value does not throw. *)
Lemma get_truthy v k : truthy v = true -> exists w, get v k = Ok w.
Proof.
  destruct v as [[| |b|x|s]|l|ps]; try discriminate; intros _; simpl; eauto.
  - destruct (bool_decide _); [eauto|].
    destruct (Props.array_index k); eauto.
  - destruct (bool_decide _); [eauto|].
    destruct (Props.array_index k); eauto.
Qed.

(** The derivations on a month whose [items] is not an array. *)
Lemma derive_not_array store props months k m :
  Tree.months_of store = Some (props, months) ->
  Props.lookup k months = Some m ->
  truthy m = true ->
  (forall l, Derived.items m <> Ok (Arr l)) ->
  Render.derive store k = Throw TypeError.
Proof.
  intros Hm Hk Ht Hna. unfold Render.derive.
  rewrite (WriteFacts.months_of_data _ _ _ k Hm), Hk. simpl default.
  rewrite Ht. cbn [obind].
  destruct (get_truthy m (lit "items") Ht) as (its & Hits).
  unfold Derived.items in *. rewrite Hits. cbn [obind].
  destruct (Derived.maxBudget m) as [mb|e] eqn:Hmb.
  - cbn [obind]. destruct its as [q|l|o]; try reflexivity.
    exfalso. apply (Hna l). exact Hits.
  - cbn [obind]. f_equal. revert Hmb. unfold Derived.maxBudget.
    destruct (get_truthy m (lit "maxBudget") Ht) as (w & ->). cbn [obind].
    destruct (ToNumber w) as [n|e'] eqn:Hn; [discriminate|].
    cbn [obind]. intros [= <-]. eapply ToNumber_throws; eauto.
Qed.

(** The derivations on a month that is missing. *)
Lemma derive_missing store props months k :
  Tree.months_of store = Some (props, months) ->
  truthy (default Undefined (Props.lookup k months)) = false ->
  Render.derive store k
  = Ok (Render.Derived_values [] JSNum.zero JSNum.zero JSNum.zero false []).
Proof.
  intros Hm Ht. unfold Render.derive.
  rewrite (WriteFacts.months_of_data _ _ _ k Hm), Ht. reflexivity.
Qed.

(** What has [months] passes the tests of [loadData] and [importAll]. *)
Lemma months_of_checks store props months :
  Tree.months_of store = Some (props, months) ->
  Storage.load_check store = Ok true /\ Storage.import_check store = Ok true.
Proof.
  unfold Tree.months_of. destruct store as [q|l|ps]; try discriminate.
  destruct (Props.lookup (lit "months") ps) as [[q|l|ms]|] eqn:Hl;
    try discriminate.
  intros _. unfold Storage.load_check, Storage.import_check. simpl.
  rewrite Hl. split; reflexivity.
Qed.

End RenderErrorFacts.

(** X22. A document whose [months] is an object passes the tests of
    [importAll] and of [loadData], whatever the months are. The render
    of such a store shows the empty month when the active month is
    missing, and throws a TypeError when the active month is there
    (truthy) and its [items] is not an array. *)
Theorem accepted_store_can_break_render
    (text : jsstring) (store : value) (props months : list (jsstring * value))
    (k : jsstring) :
  JSON.parse text = Ok store ->
  Tree.months_of store = Some (props, months) ->
  Storage.importAll text = Storage.SetStore store
  /\ Storage.loadData (Ok (Some text)) = Ok store
  /\ (Coerce.truthy (default Undefined (Props.lookup k months)) = false ->
      Render.derive store k
      = Ok (Render.Derived_values [] JSNum.zero JSNum.zero JSNum.zero
              false []))
  /\ (forall m,
         Props.lookup k months = Some m ->
         Coerce.truthy m = true ->
         (forall l, Derived.items m <> Ok (Arr l)) ->
         Render.derive store k = Throw TypeError).
Proof.
  intros Hp Hm.
  destruct (RenderErrorFacts.months_of_checks _ _ _ Hm) as [Hload Himp].
  repeat apply conj.
  - unfold Storage.importAll, Storage.importAll_try. rewrite Hp. simpl.
    rewrite Himp. reflexivity.
  - unfold Storage.loadData, Storage.loadData_try. simpl.
    destruct text as [|c text]; [vm_compute in Hp; discriminate|].
    simpl. rewrite Hp. simpl. rewrite Hload. reflexivity.
  - apply RenderErrorFacts.derive_missing with (props := props). exact Hm.
  - intros m Hk Ht Hna.
    eapply RenderErrorFacts.derive_not_array; eauto.
Qed.

Lemma accepted_store_can_break_render_witness :
  Storage.importAll Samples.may_is_five_text
  = Storage.SetStore Samples.may_is_five
  /\ Storage.loadData (Ok (Some Samples.may_is_five_text))
     = Ok Samples.may_is_five
  /\ (Coerce.truthy
        (default Undefined
           (Props.lookup (lit "2024-05") [(lit "2024-05", Num (JSNum.of_Z 5))]))
      = false ->
      Render.derive Samples.may_is_five (lit "2024-05")
      = Ok (Render.Derived_values [] JSNum.zero JSNum.zero JSNum.zero
              false []))
  /\ (forall m,
         Props.lookup (lit "2024-05") [(lit "2024-05", Num (JSNum.of_Z 5))]
         = Some m ->
         Coerce.truthy m = true ->
         (forall l, Derived.items m <> Ok (Arr l)) ->
         Render.derive Samples.may_is_five (lit "2024-05") = Throw TypeError).
Proof.
  apply (accepted_store_can_break_render Samples.may_is_five_text
           Samples.may_is_five
           [(lit "months", Obj [(lit "2024-05", Num (JSNum.of_Z 5))])]
           [(lit "2024-05", Num (JSNum.of_Z 5))] (lit "2024-05")).
  - vm_compute. reflexivity.
  - reflexivity.
Defined.

(** ** The month key of a Date *)

Module DateFacts.
Import Dates.

(** A year has the days that [DaysInYear] counts. *)
Lemma DayFromYear_succ y :
  DayFromYear (y + 1) = DayFromYear y + DaysInYear y.
Proof.
  unfold DayFromYear, DaysInYear.
  destruct (Z.eqb_spec (y mod 4) 0), (Z.eqb_spec (y mod 100) 0),
    (Z.eqb_spec (y mod 400) 0); simpl; Z.div_mod_to_equations; lia.
Qed.

Lemma DaysInYear_bounds y : 365 <= DaysInYear y <= 366.
Proof.
  unfold DaysInYear.
  destruct (negb _); [lia|]. destruct (negb _); [lia|].
  destruct (negb _); lia.
Qed.

Lemma DayFromYear_1970 : DayFromYear 1970 = 0.
Proof. reflexivity. Qed.

(** From 1970 on, [n] years have between [365 n] and [366 n] days. *)
Lemma DayFromYear_after n :
  0 <= n -> 365 * n <= DayFromYear (1970 + n) <= 366 * n.
Proof.
  revert n. apply natlike_ind.
  - rewrite Z.add_0_r, DayFromYear_1970. lia.
  - intros n Hn IH. replace (1970 + Z.succ n) with (1970 + n + 1) by lia.
    rewrite DayFromYear_succ. pose proof (DaysInYear_bounds (1970 + n)). lia.
Qed.

Lemma DayFromYear_before n :
  0 <= n -> - (366 * n) <= DayFromYear (1970 - n) <= - (365 * n).
Proof.
  revert n. apply natlike_ind.
  - rewrite Z.sub_0_r, DayFromYear_1970. lia.
  - intros n Hn IH.
    pose proof (DayFromYear_succ (1970 - Z.succ n)) as Hs.
    replace (1970 - Z.succ n + 1) with (1970 - n) in Hs by lia.
    pose proof (DaysInYear_bounds (1970 - Z.succ n)). lia.
Qed.

Lemma DayFromYear_mono y y' : y <= y' -> DayFromYear y <= DayFromYear y'.
Proof.
  intros Hle. replace y' with (y + (y' - y)) by lia.
  assert (Hn : 0 <= y' - y) by lia. revert Hn.
  generalize (y' - y). apply natlike_ind; [rewrite Z.add_0_r; lia|].
  intros n Hn IH. replace (y + Z.succ n) with (y + n + 1) by lia.
  rewrite DayFromYear_succ. pose proof (DaysInYear_bounds (y + n)). lia.
Qed.

Lemma DayFromYear_lt y y' : DayFromYear y < DayFromYear y' -> y < y'.
Proof.
  intros Hlt. destruct (Z_lt_le_dec y y') as [H|H]; [exact H|].
  pose proof (DayFromYear_mono _ _ H). lia.
Qed.

(** The search ends at the year of the day, when that year is within
    [fuel] years. *)
Lemma year_search_spec fuel : forall d y hi,
  DayFromYear y <= d -> y <= hi -> hi <= y + Z.of_nat fuel ->
  d < DayFromYear (hi + 1) ->
  DayFromYear (year_search fuel d y) <= d
  < DayFromYear (year_search fuel d y + 1).
Proof.
  induction fuel as [|fuel IH]; intros d y hi Hy Hle Hhi Hd.
  - simpl. replace hi with y in Hd by lia. lia.
  - cbn [year_search]. destruct (Z.ltb_spec d (DayFromYear (y + 1))) as [H|H].
    + lia.
    + apply (IH d (y + 1) hi); try lia.
      destruct (Z.eq_dec hi y) as [->|Hne]; lia.
Qed.

(** [YearFromTime t] is the year whose days hold the day of [t]. *)
Lemma YearFromTime_spec t :
  DayFromYear (YearFromTime t) <= Day t < DayFromYear (YearFromTime t + 1).
Proof.
  unfold YearFromTime. cbv zeta. set (d := Day t).
  destruct (Z_lt_le_dec d 0) as [Hneg|Hpos].
  - (* before 1970 *)
    assert (Hmin : Z.min (d / 365) (d / 366) = d / 365).
    { apply Z.min_l. Z.div_mod_to_equations. lia. }
    rewrite Hmin.
    apply (year_search_spec _ d _ (1970 + d / 366)).
    + pose proof (DayFromYear_before (- (d / 365))) as Hb.
      replace (1970 - - (d / 365)) with (1970 + d / 365) in Hb by lia.
      assert (0 <= - (d / 365)) by (Z.div_mod_to_equations; lia).
      specialize (Hb H). Z.div_mod_to_equations. lia.
    + Z.div_mod_to_equations. lia.
    + rewrite Z2Nat.id by (Z.div_mod_to_equations; lia).
      rewrite Z.abs_neq by lia. Z.div_mod_to_equations. lia.
    + pose proof (DayFromYear_before (- (d / 366 + 1))) as Hb.
      replace (1970 - - (d / 366 + 1)) with (1970 + d / 366 + 1) in Hb by lia.
      assert (0 <= - (d / 366 + 1)) by (Z.div_mod_to_equations; lia).
      specialize (Hb H). Z.div_mod_to_equations. lia.
  - (* from 1970 on *)
    assert (Hmin : Z.min (d / 365) (d / 366) = d / 366).
    { apply Z.min_r. Z.div_mod_to_equations. lia. }
    rewrite Hmin.
    apply (year_search_spec _ d _ (1970 + d / 365)).
    + pose proof (DayFromYear_after (d / 366)) as Hb.
      assert (0 <= d / 366) by (Z.div_mod_to_equations; lia).
      specialize (Hb H). Z.div_mod_to_equations. lia.
    + Z.div_mod_to_equations. lia.
    + rewrite Z2Nat.id by (Z.div_mod_to_equations; lia).
      rewrite Z.abs_eq by lia. Z.div_mod_to_equations. lia.
    + pose proof (DayFromYear_after (d / 365 + 1)) as Hb.
      replace (1970 + (d / 365 + 1)) with (1970 + d / 365 + 1) in Hb by lia.
      assert (0 <= d / 365 + 1) by (Z.div_mod_to_equations; lia).
      specialize (Hb H). Z.div_mod_to_equations. lia.
Qed.

(** [YearFromTime t] is the largest year that begins at [t] or before,
    as ECMA-262 defines it. *)
Lemma YearFromTime_largest t y :
  TimeFromYear y <= t <-> y <= YearFromTime t.
Proof.
  pose proof (YearFromTime_spec t) as [Hlo Hhi].
  unfold TimeFromYear, Day, msPerDay in *. split.
  - intros Hy.
    assert (DayFromYear y <= t / 86400000)
      by (apply Z.div_le_lower_bound; lia).
    assert (DayFromYear y < DayFromYear (YearFromTime t + 1)) by lia.
    apply DayFromYear_lt in H0. lia.
  - intros Hy. pose proof (DayFromYear_mono _ _ Hy).
    assert (86400000 * (t / 86400000) <= t)
      by (apply Z.mul_div_le; lia).
    lia.
Qed.

Lemma MonthFromTime_range t : 0 <= MonthFromTime t <= 11.
Proof.
  unfold MonthFromTime. cbv zeta.
  repeat (match goal with |- context [if ?c then _ else _] =>
            destruct c end; [lia|]).
  lia.
Qed.

Lemma digit_is_digit n :
  0 <= n -> JSON.is_digit (digit (n mod 10)) = true.
Proof.
  intros Hn. unfold JSON.is_digit, digit.
  assert (0 <= n mod 10 < 10) by (apply Z.mod_pos_bound; lia).
  apply andb_true_iff. split; apply N.leb_le; lia.
Qed.

Lemma pad_4 n :
  pad 4 n = [digit (n / 10 / 10 / 10 mod 10); digit (n / 10 / 10 mod 10);
             digit (n / 10 mod 10); digit (n mod 10)].
Proof. reflexivity. Qed.

Lemma pad_2 n : pad 2 n = [digit (n / 10 mod 10); digit (n mod 10)].
Proof. reflexivity. Qed.

Lemma pad_6_head n : exists c s, pad 6 n = c :: s.
Proof. eexists _, _. reflexivity. Qed.

(** The month key of a Date in the years 0 to 9999. *)
Lemma monthKey_in_range t :
  0 <= YearFromTime t <= 9999 ->
  monthKey t = pad 4 (YearFromTime t) ++ [45%N] ++ pad 2 (MonthFromTime t + 1).
Proof.
  intros [H0 H1]. unfold monthKey, toISOString, year_text.
  rewrite (proj2 (Z.leb_le 0 _) H0), (proj2 (Z.leb_le _ 9999) H1).
  cbn [andb]. rewrite pad_4, pad_2. reflexivity.
Qed.

Lemma year_range t :
  TimeFromYear 0 <= t < TimeFromYear 10000 <-> 0 <= YearFromTime t <= 9999.
Proof.
  pose proof (YearFromTime_largest t 0) as H0.
  pose proof (YearFromTime_largest t 10000) as H1.
  lia.
Qed.

End DateFacts.

(** X23. The month that the screen starts on, and that "Este mês" goes
    back to, is the UTC year and month of the Date, [YYYY-MM]: for a
    Date in the years 0 to 9999 [monthKey] has the form that
    [applyMonthChange] asks for, four digits, a hyphen and the two
    digits of a month from 01 to 12. For a Date outside those years the
    year is written with a sign and six digits, and [monthKey] is not of
    that form. *)
Theorem monthKey_is_a_month_key (t : Z) :
  (Dates.TimeFromYear 0 <= t < Dates.TimeFromYear 10000 ->
   Shape.is_month_key (Dates.monthKey t) = true
   /\ MonthPicker.applyMonthChange (Dates.monthKey t)
      = MonthPicker.SetActiveMonth (Dates.monthKey t)
   /\ Dates.monthKey t
      = Dates.pad 4 (Dates.YearFromTime t) ++ [45%N]
          ++ Dates.pad 2 (Dates.MonthFromTime t + 1)
   /\ 0 <= Dates.YearFromTime t <= 9999
   /\ 1 <= Dates.MonthFromTime t + 1 <= 12)
  /\ (~ (Dates.TimeFromYear 0 <= t < Dates.TimeFromYear 10000) ->
      Shape.is_month_key (Dates.monthKey t) = false
      /\ MonthPicker.applyMonthChange (Dates.monthKey t)
         = MonthPicker.AlertFormat).
Proof.
  split.
  - intros Ht. apply DateFacts.year_range in Ht as Hy.
    pose proof (DateFacts.MonthFromTime_range t) as Hm.
    pose proof (DateFacts.monthKey_in_range t Hy) as Hk.
    assert (Hkey : Shape.is_month_key (Dates.monthKey t) = true).
    { rewrite Hk, DateFacts.pad_4, DateFacts.pad_2.
      cbn [app Shape.is_month_key].
      rewrite !DateFacts.digit_is_digit;
        try reflexivity; repeat apply Z.div_pos; lia. }
    repeat apply conj; try lia; auto.
    unfold MonthPicker.applyMonthChange. rewrite Hkey. reflexivity.
  - intros Ht.
    assert (Hy : ~ (0 <= Dates.YearFromTime t <= 9999)).
    { intros Hy. apply Ht. apply DateFacts.year_range. exact Hy. }
    assert (Hkey : Shape.is_month_key (Dates.monthKey t) = false).
    { unfold Dates.monthKey, Dates.toISOString, Dates.year_text.
      destruct ((0 <=? Dates.YearFromTime t) && (Dates.YearFromTime t <=? 9999))
        eqn:Hr.
      - exfalso. apply Hy. apply andb_true_iff in Hr as [H0 H1].
        apply Z.leb_le in H0, H1. lia.
      - destruct (0 <=? Dates.YearFromTime t); reflexivity. }
    split; [exact Hkey|].
    unfold MonthPicker.applyMonthChange. rewrite Hkey. reflexivity.
Qed.

Lemma monthKey_is_a_month_key_witness :
  Shape.is_month_key (Dates.monthKey 1715776496789) = true
  /\ MonthPicker.applyMonthChange (Dates.monthKey 1715776496789)
     = MonthPicker.SetActiveMonth (Dates.monthKey 1715776496789)
  /\ Dates.monthKey 1715776496789
     = Dates.pad 4 (Dates.YearFromTime 1715776496789) ++ [45%N]
         ++ Dates.pad 2 (Dates.MonthFromTime 1715776496789 + 1)
  /\ 0 <= Dates.YearFromTime 1715776496789 <= 9999
  /\ 1 <= Dates.MonthFromTime 1715776496789 + 1 <= 12.
Proof.
  apply (proj1 (monthKey_is_a_month_key 1715776496789)).
  vm_compute. split; [intros H; discriminate | reflexivity].
Defined.
